(* ===== verification/_CoqProject ===== *)
-Q . S2P
Prelude.v
CoreUtil.v
CoreState.v
CoreMatrix.v
CoreList.v
CoreBench.v
ListChain.v
MergePure.v
ListSort.v
ListIdx.v
ListInit.v
BenchSpec.v
EePrintf.v
PrintfSpec.v
CoreMain.v
MainSpec.v
Sbi.v
Cbor.v
Attest.v
AttestSpec.v
LibC.v
LibCSpec.v
Syscalls.v
Start.v
Util.v
Barrier.v
Towers.v
RSort.v
RSortSpec.v
Malloc.v
MallocArena.v
MallocSpec.v
MallocClient.v
Dhry.v
DhrySpec.v
Vm.v
VmWalk.v
VmSpec.v
Mt.v
MtSpec.v
MatmulSpec.v
MtBlock.v
MtBlockSpec.v
Debug.v
Multicore.v
Translate.v
TranslateSpec.v
