(* ===== verification/Prelude.v ===== *)
(** * The guest software of Shadowfax

    Shadowfax is a confidential-computing stack for RISC-V: a firmware and a
    security manager in Rust, and the guests that run on them, in C.  This
    library models the C code and proves what makes it correct.  Paths below
    are relative to src/guests.

    ** The program and its parts

    - CoreMark (coremark): three kernels (a token scanner over a memory block,
      matrix arithmetic, a linked list threaded through a block), run by the
      comparison function of the list sort; every result goes into a 16-bit
      CRC that [main] compares with known values.  The RISC-V port
      (coremark/riscv) prints through its own [printf] on a UART or the SBI
      debug console and reads the time counter.
    - The attestation guest (attestation.c) asks the security manager for
      evidence through an SBI call, parses it (CBOR, three COSE_Sign1 layers)
      and prints what it found.  Two smaller guests (covg.c, hellotvm.c)
      exercise the same calls.
    - Dhrystone (coremark/dry.c), a second benchmark, which reports its final
      variables beside the values they should have.
    - The test suite (riscv-tests): the run-time support of its benchmarks,
      its string routines and barrier, two of the benchmarks, kernels
      for several cores, the allocator of the debug programs, and the kernel that runs tests in
      virtual memory (env/v/vm.c).

    ** Files

    Shared: this file (machine integers, outcomes of C code, total weakest
    preconditions, counted loops, checked arrays, C strings, bit facts).

    CoreMark.
    - [CoreUtil]: core_util.c.  Module [Crc] (C1: the CRC is the
      bit-serial register; it separates 16-bit values), Module [Seeds] (C3:
      numbers on the command line are read back unless they overflow), Module [DataTypes].
    - [CoreState]: core_state.c (C4 the scanner decides its grammar; C5, C6
      the benchmark is safe, and exactly when the corruption is undone; C8 the
      block it starts from, token by token).
    - [CoreMatrix]: core_matrix.c (C9 operands restored, C10 products modulo
      2^32, C12 layout of the block and no overflow while it is filled; exact products for initialised operands).
    - [CoreList]: core_list_join.c, the list operations; [CoreBench]: its
      benchmark, and [iterate] of core_main.c.  [ListChain] (C13 reversal,
      search, C15 removal and its undo), [MergePure] and [ListSort] (the merge
      sort against class [Comparator], the interface of its comparison),
      [ListIdx] (C16 sorting by index), [ListInit] (C24 the initial list),
      [BenchSpec] (C17 the benchmark gives the list back, C18 every number of
      iterations returns).
    - [EePrintf]: riscv/ee_printf.c (C19 layout of numbers; the interpreter
      terminates, printed numbers are read back); [PrintfSpec] (C20 what a
      format prints, C22 what is sent to a device that may be busy).
    - [CoreMain]: main of core_main.c and riscv/core_portme.c; [MainSpec]
      (C25 the known checksums are reproduced for every number of iterations).
    - [Dhry]: dry.c; [DhrySpec] (C7 every run leaves the values the report
      expects, and the one line that is wrong when a run was too short).

    Guests.
    - [Sbi]: the call interface as classes [Firmware] (the ecall instruction)
      and [DebugConsole] (what the console promises), the bindings of
      riscv/sbi.c, the small guests; Module [Reference] is a firmware that
      satisfies both.
    - [Cbor]: the CBOR reader of attestation.c (C27 skipping decides the
      grammar of data items, C28 heads read back, C29 an input on which it
      does not terminate).
    - [Attest]: the rest of attestation.c; [AttestSpec] (C30 the transcript of
      well-formed evidence, C31 the whole guest, C32 a missing signature goes
      unnoticed).

    Test suite.
    - [LibC]: env/v/string.c (Module [Str]) and the memory routines of
      benchmarks/common/syscalls.c (Module [Sys]) on byte memory; [LibCSpec]
      (C33 both [memcpy] are the byte-wise copy; [memcmp] is lexicographic).
    - [Syscalls]: the console and the formatted output of syscalls.c (layout
      of numbers, termination on every format, [putchar] takes the
      character for an address); [Start]: its start-up code.
    - [Util] and [Barrier]: benchmarks/common/util.h, the comparison of
      results and the barrier of the multi-core benchmarks as a transition
      system of any number of cores (C35 when the two stores of the last core
      are seen in program order it separates the rounds and never blocks for
      good; [barrier_deadlocks]: it can block when they are not).
    - [Towers]: towers/towers_main.c (C37 solved, legally, in 2^n - 1 moves).
    - [RSort]: rsort/rsort.c; [RSortSpec] (C38 it sorts, and
      [main] says so).
    - [Malloc]: debug/programs/tiny-malloc.c; [MallocArena] the abstract
      allocator; [MallocSpec] the simulation; [MallocClient] (C39 [malloc] and
      [free] refine the abstract allocator, C40 for every client of
      [malloc], [calloc], [realloc] and [free] whose sizes do not wrap and whose
      stack stays clear of the heap: its blocks are disjoint and keep their
      contents, and all memory joins again).
    - [Debug]: debug/programs/checksum.c and debug.c (C21 the program returns
      the CRC-32 of its text combined with that of the encrypted text, and
      restores the text).
    - [Multicore]: debug/programs/multicore.c, harts that share a buffer under
      a spin lock, as a transition system (C14 mutual exclusion, and no hart
      blocks before a counter comes near 2^32).
    - [Translate]: debug/programs/translate.c, which builds page tables for
      Sv32, Sv39 or Sv48 and works through them, with the walker of the hart;
      [TranslateSpec] (C34 the address space it makes, and its assertions).
    - [Vm]: env/v/vm.c and the Sv39 translation its tables are for; [VmWalk]
      (C23 the address space after boot); [VmSpec] (C26 demand paging refines
      a flat memory).
    - [Mt]: the multi-core kernels of mt, five sums of vectors and thirteen
      products of matrices; [MtSpec] (C36 every sum is right on any number of
      cores, for the lengths it is written for), [MatmulSpec] (C11 every
      optimised product is the product).  [MtBlock]: the twenty-five versions
      of the product that are blocked for 32 by 32 matrices; [MtBlockSpec]
      (C2 each of them is the product too).

    ** How the code is modelled

    An integer of width w is a [Z] with its wrap-around written out ([uwrap],
    [swrap]); signed overflow that C leaves undefined is [UB] where the code
    could reach it.  A function returns an [outcome]: a value, undefined
    behaviour (an access outside every object among it), or the end of its
    fuel.  Code with state is in the state monad [ST]; the state is a record
    of what the code keeps.  Arrays are lists accessed with a bounds check;
    the list cells of CoreMark and the nodes of towers are stores indexed by
    address, so aliasing is explicit; the attestation guest, the string
    routines and the allocator work on bytes at 64-bit addresses.  The
    console, the time counter, the firmware and the performance counters are
    parameters or inputs.  The concurrent code, the barrier and the
    spin lock, is a step relation over any interleaving of the cores; the
    barrier also with the one pair of stores that no fence orders.  The
    arithmetic kernels (CoreMark's matrices, the products and sums of mt) wrap
    modulo 2^32 where C leaves the overflow of [int] undefined, as their
    theorems say; the indices of mt are integers without a width, so the number of
    cores is taken to be small enough for an [int].

    Theorems about results are total: [wp] and [owp] exclude both undefined
    behaviour and the end of the fuel.  Fuel is always a bound the caller has:
    the length of a list or format, the size of the memory, the number of
    discs, three faults for an access to a page; each is shown to be enough by the theorem about the loop.
    [cbor_skip] is the exception: its fuel is proved sufficient when no
    length wraps (C27) and proved insufficient, whatever it is, for one input
    (C29).

    ** Not modelled

    - The firmware, the security manager and the shared definitions are Rust
      and assembly; the guests see them through the classes of [Sbi].
    - The floating-point conversions of [printf] (compiled out on the port),
      the debug printers, and the ports of CoreMark to other hosts.
    - The rates Dhrystone computes in floating point from its timer.
    - Of the virtual-memory environment: the 32-bit and Sv48 builds, the
      assembly that saves and restores registers, the caching of
      translations, and programs that page in the kernel's own data.
    - Of the test suite: the endless loops behind [exit], the instruction
      encodings, the floating-point benchmarks, and the instruction tests,
      which are assembly.  Of the forty-four matrix products in mt, six: ae,
      ce and dm, whose cores read a copy that another one has made, cf and cm,
      whose cores add to the same elements, and af, which reads past the end
      of a matrix.  The cores of [Mt] and [MtBlock] run one after the other:
      each writes only elements no other core reads or writes, as [MtSpec],
      [MatmulSpec] and [MtBlockSpec] show.

    ** What is left to do

    The alignment that [memalign] promises, over the simulation of
    [MallocSpec]; the comparison sort of benchmarks/qsort and the integer
    kernels beside it; the matrix products whose cores share a copy, over the
    barrier of [Barrier]. *)

From stdpp Require Export base tactics numbers list gmap sorting.
From Stdlib Require Export ZArith Lia.
From Stdlib Require String Ascii.
Export String.StringSyntax.

#[global] Open Scope Z_scope.
#[global] Set Default Goal Selector "!".

(** ** Machine integers

    A C integer of width [w] is a [Z]; the conversions below are the
    truncations a cast or an assignment performs on the LP64 target. *)

Definition uwrap (w x : Z) : Z := x mod 2 ^ w.
Definition swrap (w x : Z) : Z := (x + 2 ^ (w - 1)) mod 2 ^ w - 2 ^ (w - 1).

Abbreviation u8 := (uwrap 8).
Abbreviation u16 := (uwrap 16).
Abbreviation u32 := (uwrap 32).
Abbreviation u64 := (uwrap 64).
Abbreviation s8 := (swrap 8).
Abbreviation s16 := (swrap 16).
Abbreviation s32 := (swrap 32).
Abbreviation s64 := (swrap 64).

Definition in_u (w x : Z) : Prop := 0 <= x < 2 ^ w.
Definition in_s (w x : Z) : Prop := - 2 ^ (w - 1) <= x < 2 ^ (w - 1).

Create HintDb cint.

Lemma pow2_pos (w : Z) : 0 <= w -> 0 < 2 ^ w.
Proof. intros. apply Z.pow_pos_nonneg; lia. Qed.

Lemma uwrap_range (w x : Z) : 0 <= w -> in_u w (uwrap w x).
Proof. intros. apply Z.mod_pos_bound, pow2_pos; lia. Qed.

Lemma uwrap_small (w x : Z) : in_u w x -> uwrap w x = x.
Proof. intros. by apply Z.mod_small. Qed.

Lemma pow2_half (w : Z) : 1 <= w -> 2 ^ w = 2 * 2 ^ (w - 1).
Proof. intros. rewrite <- Z.pow_succ_r by lia. f_equal; lia. Qed.

Lemma swrap_range (w x : Z) : 1 <= w -> in_s w (swrap w x).
Proof.
  intros Hw. unfold in_s, swrap. pose proof (pow2_half w Hw).
  pose proof (Z.mod_pos_bound (x + 2 ^ (w - 1)) (2 ^ w) (pow2_pos w ltac:(lia))). lia.
Qed.

Lemma swrap_small (w x : Z) : 1 <= w -> in_s w x -> swrap w x = x.
Proof.
  intros Hw Hx. unfold in_s, swrap in *. pose proof (pow2_half w Hw).
  rewrite Z.mod_small; lia.
Qed.

(** Truncations absorb one another: only the residue modulo [2 ^ w] counts. *)
Lemma swrap_congr (w x : Z) : 1 <= w -> swrap w x mod 2 ^ w = x mod 2 ^ w.
Proof.
  intros Hw. unfold swrap. pose proof (pow2_pos w ltac:(lia)).
  rewrite Zminus_mod_idemp_l. f_equal; lia.
Qed.

Lemma swrap_eq (w x y : Z) : 1 <= w -> x mod 2 ^ w = y mod 2 ^ w -> swrap w x = swrap w y.
Proof.
  intros Hw E. unfold swrap. f_equal.
  rewrite (Z.add_mod x), (Z.add_mod y), E; auto; pose proof (pow2_pos w ltac:(lia)); lia.
Qed.

Lemma uwrap_eq (w x y : Z) : x mod 2 ^ w = y mod 2 ^ w -> uwrap w x = uwrap w y.
Proof. done. Qed.

Lemma pow2_divide (w w' : Z) : 0 <= w <= w' -> (2 ^ w | 2 ^ w').
Proof.
  intros. exists (2 ^ (w' - w)). rewrite <- Z.pow_add_r by lia. f_equal; lia.
Qed.

Lemma uwrap_uwrap (w w' x : Z) : 0 <= w <= w' -> uwrap w (uwrap w' x) = uwrap w x.
Proof. intros. apply Z.mod_mod_divide, pow2_divide. lia. Qed.

Lemma uwrap_swrap (w w' x : Z) : 0 <= w <= w' -> 1 <= w' -> uwrap w (swrap w' x) = uwrap w x.
Proof.
  intros Hw Hw'. rewrite <- (uwrap_uwrap w w') by lia. unfold uwrap at 2.
  rewrite swrap_congr by lia. by apply uwrap_uwrap.
Qed.

Lemma swrap_uwrap (w x : Z) : 1 <= w -> swrap w (uwrap w x) = swrap w x.
Proof. intros. apply swrap_eq; [done|]. unfold uwrap. by rewrite Z.mod_mod by (pose proof (pow2_pos w); lia). Qed.

Lemma swrap_swrap (w x : Z) : 1 <= w -> swrap w (swrap w x) = swrap w x.
Proof. intros. apply swrap_eq, swrap_congr; done. Qed.

Lemma swrap_add_l (w x y : Z) : 1 <= w -> swrap w (swrap w x + y) = swrap w (x + y).
Proof.
  intros. apply swrap_eq; [done|].
  rewrite <- Z.add_mod_idemp_l, swrap_congr, Z.add_mod_idemp_l; pose proof (pow2_pos w); lia.
Qed.

Lemma swrap_add_r (w x y : Z) : 1 <= w -> swrap w (x + swrap w y) = swrap w (x + y).
Proof. intros. rewrite Z.add_comm, swrap_add_l, Z.add_comm; done. Qed.

Lemma swrap_mul_l (w x y : Z) : 1 <= w -> swrap w (swrap w x * y) = swrap w (x * y).
Proof.
  intros. apply swrap_eq; [done|].
  rewrite <- Z.mul_mod_idemp_l, swrap_congr, Z.mul_mod_idemp_l; pose proof (pow2_pos w); lia.
Qed.

#[export] Hint Resolve uwrap_range swrap_range : cint.
#[export] Hint Extern 1 (_ <= _) => lia : cint.
#[export] Hint Extern 1 (_ < _) => lia : cint.

(** ** Outcomes of C code

    [Ok] is a normal return, [UB] an access outside every object (or another
    behaviour the C standard leaves undefined), [Fuel] a bound on the number
    of loop iterations that was too small. *)

Inductive outcome (A : Type) : Type :=
| Ok (a : A)
| UB
| Fuel.
Arguments Ok {A} a.
Arguments UB {A}.
Arguments Fuel {A}.

#[export] Instance outcome_ret : MRet outcome := @Ok.
#[export] Instance outcome_bind : MBind outcome := fun A B f m =>
  match m with Ok a => f a | UB => UB | Fuel => Fuel end.

#[export] Instance outcome_eq_dec `{EqDecision A} : EqDecision (outcome A).
Proof. solve_decision. Defined.

(** Code that reads and writes a state [S]. *)
Definition ST (S A : Type) : Type := S -> outcome (A * S).

#[export] Instance ST_ret (S : Type) : MRet (ST S) := fun A a s => Ok (a, s).
#[export] Instance ST_bind (S : Type) : MBind (ST S) := fun A B f m s =>
  match m s with Ok (a, s') => f a s' | UB => UB | Fuel => Fuel end.

Definition st_get {S : Type} : ST S S := fun s => Ok (s, s).
Definition st_put {S : Type} (s : S) : ST S unit := fun _ => Ok (tt, s).
Definition st_gets {S A : Type} (f : S -> A) : ST S A := fun s => Ok (f s, s).
Definition st_modify {S : Type} (f : S -> S) : ST S unit := fun s => Ok (tt, f s).
Definition lift {S A : Type} (o : outcome A) : ST S A := fun s =>
  match o with Ok a => Ok (a, s) | UB => UB | Fuel => Fuel end.
Definition st_ub {S A : Type} : ST S A := fun _ => UB.
Definition st_fuel {S A : Type} : ST S A := fun _ => Fuel.

Definition of_option {A : Type} (o : option A) : outcome A :=
  match o with Some a => Ok a | None => UB end.

(** An [int] that overflows is undefined. *)
Definition sint (x : Z) : outcome Z := if (- 2 ^ 31 <=? x) && (x <? 2 ^ 31) then Ok x else UB.

Lemma sint_ok (x : Z) : in_s 32 x -> sint x = Ok x.
Proof. intros [H0 H1]. change (2 ^ (32 - 1)) with (2 ^ 31) in *. unfold sint. by rewrite (proj2 (Z.leb_le _ _) H0), (proj2 (Z.ltb_lt _ _) H1). Qed.

(** [a / b] on [int]. *)
Definition sdiv (a b : Z) : outcome Z := if b =? 0 then UB else sint (Z.quot a b).

(** ** Total weakest preconditions

    [wp m Q s] holds when [m] started in [s] returns normally and its result
    and final state satisfy [Q]; neither [UB] nor [Fuel] satisfies it. *)

Definition wp {S A : Type} (m : ST S A) (Q : A -> S -> Prop) (s : S) : Prop :=
  match m s with Ok (a, s') => Q a s' | _ => False end.

Definition owp {A : Type} (m : outcome A) (Q : A -> Prop) : Prop :=
  match m with Ok a => Q a | _ => False end.

Section WpRules.
Context {S A B : Type}.
Implicit Types (s : S) (m : ST S A).

Lemma wp_ret (a : A) (Q : A -> S -> Prop) s : Q a s -> wp (mret a) Q s.
Proof. done. Qed.

Lemma wp_bind m (f : A -> ST S B) (Q : B -> S -> Prop) s :
  wp m (fun a s' => wp (f a) Q s') s -> wp (m ≫= f) Q s.
Proof.
  unfold wp, mbind, ST_bind. destruct (m s) as [[a s']| |]; naive_solver.
Qed.

Lemma wp_mono m (P Q : A -> S -> Prop) s :
  wp m P s -> (forall a s', P a s' -> Q a s') -> wp m Q s.
Proof. unfold wp. destruct (m s) as [[a s']| |]; naive_solver. Qed.

Lemma wp_ok m (Q : A -> S -> Prop) s :
  wp m Q s <-> exists a s', m s = Ok (a, s') /\ Q a s'.
Proof.
  unfold wp. destruct (m s) as [[a s']| |]; split; try done;
    try (by intros (?&?&[=]&?)); [by eauto|]. by intros (?&?&[= -> ->]&?).
Qed.

Lemma wp_lift (o : outcome A) (Q : A -> S -> Prop) s :
  owp o (fun a => Q a s) -> wp (lift o) Q s.
Proof. unfold wp, owp, lift. destruct o; naive_solver. Qed.

Lemma wp_gets (f : S -> A) (Q : A -> S -> Prop) s : Q (f s) s -> wp (st_gets f) Q s.
Proof. done. Qed.
End WpRules.

Lemma wp_modify {S} (f : S -> S) (Q : unit -> S -> Prop) s :
  Q tt (f s) -> wp (st_modify f) Q s.
Proof. done. Qed.

Lemma wp_get {S} (Q : S -> S -> Prop) (s : S) : Q s s -> wp st_get Q s.
Proof. done. Qed.

Lemma wp_put {S} (s' : S) (Q : unit -> S -> Prop) s : Q tt s' -> wp (st_put s') Q s.
Proof. done. Qed.

Lemma owp_bind {A B} (m : outcome A) (f : A -> outcome B) (Q : B -> Prop) :
  owp m (fun a => owp (f a) Q) -> owp (m ≫= f) Q.
Proof. unfold owp, mbind, outcome_bind. by destruct m. Qed.

Lemma owp_ok {A} (m : outcome A) (Q : A -> Prop) :
  owp m Q <-> exists a, m = Ok a /\ Q a.
Proof.
  unfold owp. destruct m; split; try done;
    try (by intros (?&[=]&?)); [by eauto|]. by intros (?&[= ->]&?).
Qed.

Lemma owp_mono {A} (m : outcome A) (P Q : A -> Prop) :
  owp m P -> (forall a, P a -> Q a) -> owp m Q.
Proof. unfold owp. destruct m; naive_solver. Qed.

(** [uwp m Q] allows undefined behaviour but not running out of fuel: [m]
    terminates, and a value it returns satisfies [Q]. *)
Definition uwp {A : Type} (m : outcome A) (Q : A -> Prop) : Prop :=
  match m with Ok a => Q a | UB => True | Fuel => False end.

Lemma uwp_bind {A B} (m : outcome A) (f : A -> outcome B) (Q : B -> Prop) :
  uwp m (fun a => uwp (f a) Q) -> uwp (m ≫= f) Q.
Proof. unfold uwp, mbind, outcome_bind. by destruct m. Qed.

Lemma uwp_mono {A} (m : outcome A) (P Q : A -> Prop) :
  uwp m P -> (forall a, P a -> Q a) -> uwp m Q.
Proof. unfold uwp. destruct m; naive_solver. Qed.

Lemma uwp_True {A B} (m : outcome A) (f : A -> outcome B) (Q : B -> Prop) :
  uwp m (fun _ => True) -> (forall a, uwp (f a) Q) -> uwp (m ≫= f) Q.
Proof. intros Hm Hf. apply uwp_bind. eapply uwp_mono; eauto. Qed.

(** One symbolic execution step of a [wp] or [owp] goal. *)
Ltac wp_step :=
  lazymatch goal with
  | |- wp (_ ≫= _) _ _ => apply wp_bind
  | |- wp (mret _) _ _ => apply wp_ret
  | |- wp (st_gets _) _ _ => apply wp_gets
  | |- wp (st_modify _) _ _ => apply wp_modify
  | |- wp st_get _ _ => apply wp_get
  | |- wp (st_put _) _ _ => apply wp_put
  | |- wp (lift _) _ _ => apply wp_lift
  | |- owp (_ ≫= _) _ => apply owp_bind
  | |- owp (Ok _) _ => red
  | |- owp (mret _) _ => red
  end.
Ltac wp_steps := repeat (wp_step; simpl).

(** ** Counted loops: [for (i = lo; i < hi; i++) body]

    The body is given the index and the variables the loop updates. *)

Fixpoint oloop_n {S : Type} (n : nat) (i : Z) (body : Z -> S -> outcome S) (s : S) : outcome S :=
  match n with
  | O => mret s
  | Datatypes.S n' => s' ← body i s; oloop_n n' (i + 1) body s'
  end.

Definition oloop {S : Type} (lo hi : Z) (body : Z -> S -> outcome S) (s : S) : outcome S :=
  oloop_n (Z.to_nat (hi - lo)) lo body s.

Lemma oloop_n_inv {S} (n : nat) (i : Z) (body : Z -> S -> outcome S) (I : Z -> S -> Prop) s :
  I i s ->
  (forall j s', i <= j < i + Z.of_nat n -> I j s' -> owp (body j s') (I (j + 1))) ->
  owp (oloop_n n i body s) (I (i + Z.of_nat n)).
Proof.
  revert i s. induction n as [|n IH]; intros i s Hi Hb; simpl.
  { by rewrite Z.add_0_r. }
  replace (i + Z.of_nat _) with (i + 1 + Z.of_nat n) by lia.
  apply owp_bind. eapply owp_mono; [apply Hb; [lia|done]|]. intros s' Hs'.
  apply IH; [done|]. intros. apply Hb; [lia|done].
Qed.

(** The invariant rule of a counted loop, for total correctness. *)
Lemma oloop_inv {S} (lo hi : Z) (body : Z -> S -> outcome S) (I : Z -> S -> Prop) s :
  lo <= hi -> I lo s ->
  (forall j s', lo <= j < hi -> I j s' -> owp (body j s') (I (j + 1))) ->
  owp (oloop lo hi body s) (I hi).
Proof.
  intros Hle Hlo Hb. unfold oloop.
  pose proof (oloop_n_inv (Z.to_nat (hi - lo)) lo body I s Hlo) as H.
  rewrite Z2Nat.id in H by lia. replace (lo + (hi - lo)) with hi in H by lia. auto.
Qed.

(** ** Arrays: [a[i]] and [a[i] = x], undefined outside the array *)

Definition aget {A : Type} (l : list A) (i : Z) : outcome A :=
  if 0 <=? i then of_option (l !! Z.to_nat i) else UB.

Definition aset {A : Type} (l : list A) (i : Z) (x : A) : outcome (list A) :=
  if (0 <=? i) && (i <? Z.of_nat (length l)) then Ok (<[Z.to_nat i := x]> l) else UB.

Lemma aget_Some {A} (l : list A) (i : Z) (x : A) :
  0 <= i -> l !! Z.to_nat i = Some x -> aget l i = Ok x.
Proof. intros Hi Hl. unfold aget. rewrite (proj2 (Z.leb_le 0 i) Hi), Hl. done. Qed.

Lemma aget_in_range {A} (l : list A) (i : Z) :
  0 <= i < Z.of_nat (length l) -> exists x, l !! Z.to_nat i = Some x /\ aget l i = Ok x.
Proof.
  intros Hi. destruct (lookup_lt_is_Some_2 l (Z.to_nat i)) as [x Hx]; [lia|].
  exists x. split; [done|]. apply aget_Some; [lia|done].
Qed.

Lemma aset_in_range {A} (l : list A) (i : Z) (x : A) :
  0 <= i < Z.of_nat (length l) -> aset l i x = Ok (<[Z.to_nat i := x]> l).
Proof.
  intros Hi. unfold aset. rewrite (proj2 (Z.leb_le 0 i)), (proj2 (Z.ltb_lt _ _)); [done|lia|lia].
Qed.

(** A cell that exists is read and rewritten by [alter]. *)
Lemma aset_alter {A} (l : list A) (i : Z) (f : A -> A) (x : A) :
  0 <= i -> l !! Z.to_nat i = Some x -> aset l i (f x) = Ok (alter f (Z.to_nat i) l).
Proof.
  intros Hi Hx. pose proof (lookup_lt_Some _ _ _ Hx).
  rewrite aset_in_range by lia. f_equal. apply list_eq. intros j.
  rewrite list_lookup_alter, list_lookup_insert. repeat case_decide; simplify_eq; try lia; try done.
  by rewrite Hx.
Qed.

Lemma aget_uwp {A} (l : list A) (i : Z) : uwp (aget l i) (fun _ => True).
Proof. unfold aget. destruct (0 <=? i); [|done]. by destruct (l !! Z.to_nat i). Qed.

Lemma oloop_uwp {S} (lo hi : Z) (body : Z -> S -> outcome S) (s : S) :
  (forall j s', uwp (body j s') (fun _ => True)) -> uwp (oloop lo hi body s) (fun _ => True).
Proof.
  intros Hb. unfold oloop. generalize (Z.to_nat (hi - lo)) as n. intros n. revert lo s.
  induction n as [|n IH]; intros lo s; simpl; [done|]. by apply uwp_True.
Qed.

(** ** Booleans of comparisons *)

Ltac zcase b :=
  let E := fresh "E" in
  destruct b eqn:E;
  rewrite ?Z.eqb_eq, ?Z.eqb_neq, ?Z.ltb_lt, ?Z.ltb_ge, ?Z.leb_le, ?Z.leb_gt in E.

Ltac zcases :=
  repeat match goal with
  | |- context [if ?b then _ else _] => zcase b
  end.

(** ** C strings

    [char] is unsigned on RISC-V; a string literal is its bytes, to which the
    compiler appends a NUL.  A read pointer into a string is the suffix it
    points at: [rd] dereferences it. *)

Definition bytes_of (s : String.string) : list Z :=
  (fun a => Z.of_nat (Ascii.nat_of_ascii a)) <$> String.list_ascii_of_string s.

Arguments bytes_of s%_string_scope.

(** A line of output: the literal followed by a newline. *)
Definition line (s : String.string) : list Z := bytes_of s ++ [10].
Arguments line s%_string_scope.

Definition cstr (s : String.string) : list Z := bytes_of s ++ [0].
Arguments cstr s%_string_scope.

Definition rd (s : list Z) : outcome Z :=
  match s with c :: _ => Ok c | [] => UB end.

(** ** Bitwise facts on [Z] *)

Lemma in_u_bits (w x n : Z) : in_u w x -> w <= n -> Z.testbit x n = false.
Proof.
  intros [H0 H1] Hn. destruct (decide (0 <= w)).
  - rewrite <- (Z.mod_small x (2 ^ w)) by lia. by apply Z.mod_pow2_bits_high.
  - rewrite Z.pow_neg_r in H1 by lia. lia.
Qed.

Lemma bits_in_u (w x : Z) :
  0 <= w -> 0 <= x -> (forall n, w <= n -> Z.testbit x n = false) -> in_u w x.
Proof.
  intros Hw Hx Hb. split; [done|].
  enough (x mod 2 ^ w = x) as <- by (apply Z.mod_pos_bound, pow2_pos; lia).
  apply Z.bits_inj'. intros n Hn. destruct (decide (n < w)).
  - by apply Z.mod_pow2_bits_low.
  - rewrite Z.mod_pow2_bits_high, Hb; [done|lia|lia].
Qed.

Lemma in_u_lxor (w x y : Z) : 0 <= w -> in_u w x -> in_u w y -> in_u w (Z.lxor x y).
Proof.
  intros Hw Hx Hy. apply bits_in_u; [done| |].
  - apply Z.lxor_nonneg. unfold in_u in *. lia.
  - intros n Hn. rewrite Z.lxor_spec, (in_u_bits w x), (in_u_bits w y); auto.
Qed.

Lemma in_u_land (w x m : Z) : 0 <= w -> in_u w m -> in_u w (Z.land x m).
Proof.
  intros Hw Hm. apply bits_in_u; [done| |].
  - apply Z.land_nonneg. right. apply Hm.
  - intros n Hn. rewrite Z.land_spec, (in_u_bits w m), andb_false_r; auto.
Qed.

Lemma in_u_lor (w x y : Z) : 0 <= w -> in_u w x -> in_u w y -> in_u w (Z.lor x y).
Proof.
  intros Hw Hx Hy. apply bits_in_u; [done| |].
  - apply Z.lor_nonneg. split; [apply Hx|apply Hy].
  - intros n Hn. rewrite Z.lor_spec, (in_u_bits w x), (in_u_bits w y); auto.
Qed.

Lemma in_u_shiftr (w x k : Z) : 0 <= w -> 0 <= k -> in_u (w + k) x -> in_u w (Z.shiftr x k).
Proof.
  intros Hw Hk Hx. apply bits_in_u; [done| |].
  - apply Z.shiftr_nonneg, Hx.
  - intros n Hn. rewrite Z.shiftr_spec by lia. apply (in_u_bits (w + k)); [done|lia].
Qed.

Lemma in_u_weaken (w w' x : Z) : w <= w' -> in_u w x -> in_u w' x.
Proof.
  intros Hw [H0 H1]. split; [done|]. destruct (decide (0 <= w)).
  - pose proof (Z.pow_le_mono_r 2 w w'). lia.
  - rewrite Z.pow_neg_r in H1 by lia. lia.
Qed.

#[export] Hint Resolve in_u_lxor in_u_land in_u_lor : cint.

(** [Nat.iter] of an invariant-preserving function. *)
Lemma iter_inv {A : Type} (P : A -> Prop) (f : A -> A) (n : nat) (a : A) :
  P a -> (forall x, P x -> P (f x)) -> P (Nat.iter n f a).
Proof. intros Ha Hf. induction n; simpl; auto. Qed.

(** A decidable check of all [0 <= i < n], for finite case analyses. *)
Definition allb (n : nat) (p : Z -> bool) : bool := forallb (fun i => p (Z.of_nat i)) (seq 0 n).

Lemma allb_spec (n : nat) (p : Z -> bool) (i : Z) :
  allb n p = true -> 0 <= i < Z.of_nat n -> p i = true.
Proof.
  unfold allb. rewrite forallb_forall. intros H Hi.
  rewrite <- (Z2Nat.id i) by lia. apply H, in_seq. lia.
Qed.

(** ** Lists *)

Lemma StronglySorted_impl_elem {A : Type} (R R' : A -> A -> Prop) (xs : list A) :
  (forall x y, x ∈ xs -> y ∈ xs -> R x y -> R' x y) -> StronglySorted R xs -> StronglySorted R' xs.
Proof.
  intros H Hs. induction Hs as [|x xs Hs IH Hall]; constructor.
  - apply IH. intros; apply H; set_solver.
  - rewrite Forall_forall in *. intros y Hy. apply H; [set_solver..|auto].
Qed.

Lemma list_filter_iff_elem {A : Type} (P Q : A -> Prop) `{!forall x, Decision (P x)}
    `{!forall x, Decision (Q x)} (xs : list A) :
  (forall x, x ∈ xs -> P x <-> Q x) -> filter P xs = filter Q xs.
Proof.
  induction xs as [|x xs IH]; intros HPQ; [done|]. rewrite !filter_cons, IH by (intros; apply HPQ; set_solver).
  assert (P x <-> Q x) by (apply HPQ; set_solver). repeat case_decide; naive_solver.
Qed.
