(* ===== verification/CoreUtil.v ===== *)
(** * CoreMark utilities ([guests/coremark/core_util.c])

    The 16-bit CRC that validates every CoreMark result, the seed accessors,
    the command-line number parser and the data-type self check.  The CRC is
    shown to be the reflected CRC-16 of polynomial 0x8005 (register constant
    0xA001), to be linear over exclusive or, and to separate any two 16-bit
    inputs fed to the same register value. *)

From S2P Require Import Prelude.

(** ** The CRC ([crcu8], [crcu16], [crcu32], [crc16]) *)

Module Crc.

(** One iteration of the loop of [crcu8] on the variables [data] and [crc]. *)
Definition crcu8_step (s : Z * Z) : Z * Z :=
  let '(data, crc) := s in
  let x16 := u8 (Z.lxor (Z.land data 1) (Z.land (u8 crc) 1)) in
  let data := Z.shiftr data 1 in
  let '(crc, carry) := if x16 =? 1 then (Z.lxor crc 0x4002, 1) else (crc, 0) in
  let crc := Z.shiftr crc 1 in
  let crc := if negb (carry =? 0) then Z.lor crc 0x8000 else Z.land crc 0x7fff in
  (data, crc).

Definition crcu8 (data crc : Z) : Z := snd (Nat.iter 8 crcu8_step (data, crc)).

Definition crcu16 (newval crc : Z) : Z :=
  let crc := crcu8 (u8 newval) crc in
  crcu8 (u8 (Z.shiftr newval 8)) crc.

Definition crc16 (newval crc : Z) : Z := crcu16 (u16 newval) crc.

Definition crcu32 (newval crc : Z) : Z :=
  let crc := crc16 (s16 newval) crc in
  crc16 (s16 (Z.shiftr newval 16)) crc.

(** *** Specification: the reflected CRC-16 shift register *)

(** One step of the register: shift right, and add the reflected polynomial
    when the bit shifted out is set. *)
Definition lfsr (r : Z) : Z :=
  Z.lxor (Z.shiftr r 1) (if Z.testbit r 0 then 0xA001 else 0).

(** A byte is added into the low bits of the register, which then runs for
    eight steps. *)
Definition crc_byte (r b : Z) : Z := Nat.iter 8 lfsr (Z.lxor r b).

(** Unfold [crc_byte] before the iteration inside it when terms are compared. *)
Strategy -10 [crc_byte].

(** The register after a sequence of bytes. *)
Definition crc_bytes (r : Z) (bs : list Z) : Z := foldl crc_byte r bs.

Lemma lfsr_lxor (a b : Z) : lfsr (Z.lxor a b) = Z.lxor (lfsr a) (lfsr b).
Proof.
  unfold lfsr. rewrite Z.shiftr_lxor, Z.lxor_spec. apply Z.bits_inj'. intros n Hn.
  rewrite !Z.lxor_spec.
  destruct (Z.testbit a 0), (Z.testbit b 0); simpl xorb; cbn iota;
    rewrite ?Z.bits_0, ?xorb_false_r; destruct (Z.testbit (Z.shiftr a 1) n),
    (Z.testbit (Z.shiftr b 1) n), (Z.testbit 0xA001 n); done.
Qed.

Lemma iter_lfsr_lxor (n : nat) (a b : Z) :
  Nat.iter n lfsr (Z.lxor a b) = Z.lxor (Nat.iter n lfsr a) (Nat.iter n lfsr b).
Proof. induction n as [|n IH]; simpl; [done|]. by rewrite IH, lfsr_lxor. Qed.

Lemma lfsr_range (r : Z) : in_u 16 r -> in_u 16 (lfsr r).
Proof.
  intros Hr. unfold lfsr. apply in_u_lxor; [lia| |by destruct (Z.testbit r 0)].
  apply (in_u_shiftr 16 r 1); [lia|lia|]. apply (in_u_weaken 16); [lia|done].
Qed.

Lemma lfsr_zero (r : Z) : in_u 16 r -> lfsr r = 0 -> r = 0.
Proof.
  intros Hr E. unfold lfsr in E. apply Z.lxor_eq in E.
  rewrite Z.shiftr_div_pow2 in E by lia. change (2 ^ 1) with 2 in E.
  pose proof (Z.div_mod r 2 ltac:(lia)) as D. unfold in_u in Hr. change (2 ^ 16) with 65536 in Hr.
  rewrite Z.bit0_odd in E. rewrite Zmod_odd in D. destruct (Z.odd r); lia.
Qed.

Lemma lfsr_inj (a b : Z) : in_u 16 a -> in_u 16 b -> lfsr a = lfsr b -> a = b.
Proof.
  intros Ha Hb E. apply Z.lxor_eq. apply lfsr_zero; [apply in_u_lxor; auto; lia|].
  rewrite lfsr_lxor, E. apply Z.lxor_nilpotent.
Qed.

Lemma iter_lfsr_range (n : nat) (r : Z) : in_u 16 r -> in_u 16 (Nat.iter n lfsr r).
Proof. intros. apply iter_inv; [done|apply lfsr_range]. Qed.

Lemma iter_lfsr_inj (n : nat) (a b : Z) :
  in_u 16 a -> in_u 16 b -> Nat.iter n lfsr a = Nat.iter n lfsr b -> a = b.
Proof.
  intros Ha Hb. induction n as [|n IH]; simpl; [done|].
  intros E. apply IH, lfsr_inj; auto using iter_lfsr_range.
Qed.

(** *** The C loop computes the register *)

(** The low bit the code extracts is bit 0 of the sum of [data] and [crc]. *)
Lemma x16_bit (data crc : Z) :
  u8 (Z.lxor (Z.land data 1) (Z.land (u8 crc) 1)) = Z.b2z (Z.testbit (Z.lxor crc data) 0).
Proof.
  unfold uwrap. rewrite <- !Z.land_ones by lia.
  replace (Z.land (Z.land crc (Z.ones 8)) 1) with (Z.land crc 1)
    by (rewrite <- Z.land_assoc; reflexivity).
  rewrite Z.lxor_spec, !Z.bit0_odd.
  change (Z.land data 1) with (Z.land data (Z.ones 1)).
  change (Z.land crc 1) with (Z.land crc (Z.ones 1)).
  rewrite !(fun x => Z.land_ones x 1) by lia. change (2 ^ 1) with 2.
  rewrite !Zmod_odd. by destruct (Z.odd data), (Z.odd crc).
Qed.

Lemma crcu8_step_shift (crc : Z) :
  in_u 16 crc -> Z.lor (Z.shiftr (Z.lxor crc 0x4002) 1) 0x8000 = Z.lxor (Z.shiftr crc 1) 0xA001.
Proof.
  intros Hc. apply Z.bits_inj'. intros n Hn.
  rewrite Z.lor_spec, Z.lxor_spec, !Z.shiftr_spec, Z.lxor_spec by lia.
  change 0xA001 with (Z.lxor 0x2001 (2 ^ 15)). change 0x2001 with (Z.shiftr 0x4002 1).
  change 0x8000 with (2 ^ 15).
  rewrite Z.lxor_spec, Z.shiftr_spec, Z.pow2_bits_eqb by lia.
  destruct (Z.eqb_spec 15 n) as [<-|].
  - rewrite (in_u_bits 16 crc) by (done || lia). done.
  - by rewrite orb_false_r, xorb_false_r.
Qed.

Lemma crcu8_step_noshift (crc : Z) :
  in_u 16 crc -> Z.land (Z.shiftr crc 1) 0x7fff = Z.shiftr crc 1.
Proof.
  intros Hc. change 0x7fff with (Z.ones 15). rewrite Z.land_ones by lia.
  apply Z.mod_small, (in_u_shiftr 15); done.
Qed.

Lemma crcu8_step_spec (data crc : Z) :
  in_u 16 crc ->
  let '(data', crc') := crcu8_step (data, crc) in
  data' = Z.shiftr data 1 /\ in_u 16 crc' /\ Z.lxor crc' data' = lfsr (Z.lxor crc data).
Proof.
  intros Hc. unfold crcu8_step. rewrite x16_bit. unfold lfsr. rewrite Z.shiftr_lxor.
  assert (in_u 16 (Z.shiftr crc 1)) as Hs
    by (apply (in_u_shiftr 16 crc 1); [lia..|]; by apply (in_u_weaken 16)).
  destruct (Z.testbit (Z.lxor crc data) 0) eqn:E; cbn -[Z.lxor Z.shiftr Z.lor Z.land].
  - rewrite crcu8_step_shift by done. split; [done|]. split.
    + by apply in_u_lxor.
    + rewrite !Z.lxor_assoc. f_equal. apply Z.lxor_comm.
  - rewrite crcu8_step_noshift by done. by rewrite Z.lxor_0_r.
Qed.

Lemma crcu8_iter (n : nat) (data crc : Z) :
  in_u 16 crc ->
  let '(data', crc') := Nat.iter n crcu8_step (data, crc) in
  data' = Z.shiftr data (Z.of_nat n) /\ in_u 16 crc' /\ Z.lxor crc' data' = Nat.iter n lfsr (Z.lxor crc data).
Proof.
  intros Hc. induction n as [|n IH]; [by rewrite Z.shiftr_0_r|].
  rewrite !Nat.iter_succ. destruct (Nat.iter n crcu8_step (data, crc)) as [d c].
  destruct IH as (-> & Hc' & E).
  pose proof (crcu8_step_spec (Z.shiftr data (Z.of_nat n)) c Hc') as Hs.
  destruct (crcu8_step _) as [d' c']. destruct Hs as (-> & ? & ->).
  rewrite Z.shiftr_shiftr, E by lia. split; [f_equal; lia|done].
Qed.

(** The eight shifts empty [data], so only the register remains. *)
Lemma crcu8_crc_byte (data crc : Z) :
  in_u 8 data -> in_u 16 crc -> crcu8 data crc = crc_byte crc data.
Proof.
  intros Hd Hc. unfold crcu8, crc_byte.
  pose proof (crcu8_iter 8 data crc Hc) as H.
  destruct (Nat.iter 8 crcu8_step (data, crc)) as [d c]. destruct H as (-> & _ & <-).
  rewrite (Z.shiftr_div_pow2 data) by lia. rewrite Z.div_small by apply Hd.
  by rewrite Z.lxor_0_r.
Qed.

Lemma crcu8_range (data crc : Z) : in_u 16 crc -> in_u 16 (crcu8 data crc).
Proof.
  intros Hc. unfold crcu8. pose proof (crcu8_iter 8 data crc Hc) as H.
  destruct (Nat.iter 8 crcu8_step (data, crc)). by destruct H as (_ & ? & _).
Qed.

Lemma crcu16_range (newval crc : Z) : in_u 16 crc -> in_u 16 (crcu16 newval crc).
Proof. intros. unfold crcu16. auto using crcu8_range. Qed.

Lemma crc16_range (newval crc : Z) : in_u 16 crc -> in_u 16 (crc16 newval crc).
Proof. intros. unfold crc16. auto using crcu16_range. Qed.

Lemma crcu32_range (newval crc : Z) : in_u 16 crc -> in_u 16 (crcu32 newval crc).
Proof. intros. unfold crcu32. auto using crc16_range. Qed.

#[export] Hint Resolve crcu8_range crcu16_range crc16_range crcu32_range : cint.

(** Little-endian bytes of a [w]-byte value. *)
Fixpoint le_bytes (n : nat) (x : Z) : list Z :=
  match n with O => [] | S n' => u8 x :: le_bytes n' (Z.shiftr x 8) end.

Lemma u8_shiftr_wrap (k w x : Z) :
  0 <= k -> 8 + k <= w -> u8 (Z.shiftr (uwrap w x) k) = u8 (Z.shiftr x k).
Proof.
  intros Hk Hw. unfold uwrap. apply Z.bits_inj'. intros n Hn.
  destruct (decide (n < 8)); [|by rewrite !Z.mod_pow2_bits_high by lia].
  rewrite !(Z.mod_pow2_bits_low _ 8), !Z.shiftr_spec by lia.
  by rewrite Z.mod_pow2_bits_low by lia.
Qed.

Lemma crcu16_bytes (x crc : Z) :
  in_u 16 crc -> crcu16 x crc = crc_bytes crc (le_bytes 2 x).
Proof.
  intros Hc. unfold crcu16, crc_bytes. cbn [le_bytes foldl].
  rewrite (crcu8_crc_byte _ (crcu8 _ _)), crcu8_crc_byte; auto with cint.
Qed.

Lemma crc16_bytes (x crc : Z) :
  in_u 16 crc -> crc16 x crc = crc_bytes crc (le_bytes 2 x).
Proof.
  intros Hc. unfold crc16. rewrite crcu16_bytes by done. cbn [le_bytes].
  by rewrite u8_shiftr_wrap, uwrap_uwrap by lia.
Qed.

Lemma crcu32_bytes (x crc : Z) :
  in_u 16 crc -> crcu32 x crc = crc_bytes crc (le_bytes 4 x).
Proof.
  intros Hc. unfold crcu32.
  rewrite (crc16_bytes _ (crc16 _ _)), crc16_bytes by auto with cint. unfold crc_bytes.
  rewrite <- foldl_app. f_equal. cbn [le_bytes app]. rewrite !Z.shiftr_shiftr by lia.
  assert (forall y k, 0 <= k <= 8 -> u8 (Z.shiftr (s16 y) k) = u8 (Z.shiftr y k)) as E.
  { intros y k Hk. rewrite <- (u8_shiftr_wrap k 16 (s16 y)), <- (u8_shiftr_wrap k 16 y) by lia.
    by rewrite uwrap_swrap by lia. }
  rewrite !E, !uwrap_swrap, !Z.shiftr_shiftr by lia. done.
Qed.

(** C1: the three CRC routines implement the reflected CRC-16 shift register
    (polynomial 0x8005, register constant 0xA001): each one advances the
    register over the little-endian bytes of its argument, whatever the
    argument, starting from any 16-bit register value. *)
Theorem crc_implements_register (x crc : Z) :
  in_u 16 crc ->
  crcu8 (u8 x) crc = crc_bytes crc (le_bytes 1 x) /\
  crcu16 x crc = crc_bytes crc (le_bytes 2 x) /\
  crc16 x crc = crc_bytes crc (le_bytes 2 x) /\
  crcu32 x crc = crc_bytes crc (le_bytes 4 x).
Proof.
  intros Hc. repeat apply conj; auto using crcu16_bytes, crc16_bytes, crcu32_bytes.
  apply crcu8_crc_byte; auto with cint.
Qed.

Lemma crc_implements_register_witness :
  in_u 16 0xffff /\
  crcu32 0x12345678 0xffff = crc_bytes 0xffff [0x78; 0x56; 0x34; 0x12].
Proof.
  split; [by vm_compute|].
  apply (crc_implements_register 0x12345678 0xffff). by vm_compute.
Defined.

(** *** Error detection *)

(** The register after eight steps from a non-zero byte has a bit above the
    low byte: checked on the 256 bytes. *)
Lemma lfsr8_high (d : Z) : in_u 8 d -> Nat.iter 8 lfsr d < 256 -> d = 0.
Proof.
  intros Hd Hl.
  assert (allb 256 (fun d => (256 <=? Nat.iter 8 lfsr d) || (d =? 0)) = true) as C
    by (by vm_compute).
  pose proof (allb_spec _ _ d C Hd) as B. cbn beta in B. apply orb_prop in B. lia.
Qed.

Lemma crc_byte_lxor (r r' b b' : Z) :
  Z.lxor (crc_byte r b) (crc_byte r' b') = Nat.iter 8 lfsr (Z.lxor (Z.lxor r r') (Z.lxor b b')).
Proof.
  unfold crc_byte. rewrite <- iter_lfsr_lxor. f_equal.
  rewrite !Z.lxor_assoc. f_equal. rewrite <- !Z.lxor_assoc. f_equal. apply Z.lxor_comm.
Qed.

Lemma u16_split (x y : Z) :
  in_u 16 x -> in_u 16 y -> u8 x = u8 y -> u8 (Z.shiftr x 8) = u8 (Z.shiftr y 8) -> x = y.
Proof.
  unfold in_u, uwrap. intros Hx Hy E1 E2. rewrite !Z.shiftr_div_pow2 in E2 by lia.
  change (2 ^ 16) with (2 ^ 8 * 2 ^ 8) in *.
  rewrite !(Z.mod_small (_ / _)) in E2
    by (split; [apply Z.div_pos; lia|apply Z.div_lt_upper_bound; lia]).
  rewrite (Z.div_mod x (2 ^ 8)), (Z.div_mod y (2 ^ 8)) by lia. congruence.
Qed.

Lemma crc_byte_inj (r r' b b' : Z) :
  in_u 16 r -> in_u 16 r' -> in_u 8 b -> in_u 8 b' ->
  crc_byte r b = crc_byte r' b' -> Z.lxor r b = Z.lxor r' b'.
Proof.
  intros Hr Hr' Hb Hb' E. unfold crc_byte in E.
  eapply (iter_lfsr_inj 8); [..|exact E];
    apply in_u_lxor; auto with cint; by apply (in_u_weaken 8).
Qed.

Lemma crc_byte_range (r b : Z) : in_u 16 r -> in_u 8 b -> in_u 16 (crc_byte r b).
Proof.
  intros. apply iter_lfsr_range, in_u_lxor; auto with cint. by apply (in_u_weaken 8).
Qed.

(** A difference confined to the low byte leaves the low byte in one step. *)
Lemma crc_byte_high (r b b' : Z) :
  in_u 8 b -> in_u 8 b' -> in_u 8 (Z.lxor (crc_byte r b) (crc_byte r b')) -> b = b'.
Proof.
  intros Hb Hb' [_ H]. rewrite crc_byte_lxor, Z.lxor_nilpotent, Z.lxor_0_l in H.
  apply Z.lxor_eq, lfsr8_high; [apply in_u_lxor; auto with cint|done].
Qed.

Lemma lxor_cross (a b c d : Z) : Z.lxor a b = Z.lxor c d -> Z.lxor a c = Z.lxor b d.
Proof.
  intros E. apply Z.bits_inj'. intros n Hn.
  apply (f_equal (fun z => Z.testbit z n)) in E. rewrite !Z.lxor_spec in *.
  by destruct (Z.testbit a n), (Z.testbit b n), (Z.testbit c n), (Z.testbit d n).
Qed.

(** Two different 16-bit values fed to the same register value never give
    the same CRC, so a single corrupted half-word is always detected. *)
Theorem crcu16_detects (x y crc : Z) :
  in_u 16 x -> in_u 16 y -> in_u 16 crc -> crcu16 x crc = crcu16 y crc -> x = y.
Proof.
  intros Hx Hy Hc. rewrite !crcu16_bytes by done. unfold crc_bytes. cbn [le_bytes foldl].
  intros E. apply crc_byte_inj, lxor_cross in E; auto using crc_byte_range with cint.
  assert (u8 x = u8 y) as El.
  { apply (crc_byte_high crc); [auto with cint..|]. rewrite E. apply in_u_lxor; auto with cint. }
  rewrite El, Z.lxor_nilpotent in E. apply u16_split; [done..|by apply Z.lxor_eq].
Qed.

End Crc.

(** ** Seeds ([get_seed_32], [parseval], [get_seed_args]) *)

Module Seeds.

(** The volatile seed variables of the port ([SEED_METHOD == SEED_VOLATILE]). *)
Record volatiles := Volatiles {
  seed1_volatile : Z;
  seed2_volatile : Z;
  seed3_volatile : Z;
  seed4_volatile : Z;
  seed5_volatile : Z
}.

Definition get_seed_32 (v : volatiles) (i : Z) : Z :=
  if i =? 1 then seed1_volatile v
  else if i =? 2 then seed2_volatile v
  else if i =? 3 then seed3_volatile v
  else if i =? 4 then seed4_volatile v
  else if i =? 5 then seed5_volatile v
  else 0.

(** The same accessor over system functions ([SEED_METHOD == SEED_FUNC]): the
    port supplies [portme_sys1] .. [portme_sys5]. *)
Definition get_seed_32_func (portme_sys : Z -> Z) (i : Z) : Z :=
  if i =? 1 then portme_sys 1
  else if i =? 2 then portme_sys 2
  else if i =? 3 then portme_sys 3
  else if i =? 4 then portme_sys 4
  else if i =? 5 then portme_sys 5
  else 0.

Definition is_dec (c : Z) : bool := (48 <=? c) && (c <=? 57).
Definition is_hex (c : Z) : bool := is_dec c || ((97 <=? c) && (c <=? 102)).

(** The two digit loops of [parseval]: they return the pointer to the first
    character that is not a digit and the accumulated value.  [retval] is an
    [ee_s32], whose overflow is undefined. *)
Fixpoint parseval_hex (s : list Z) (retval : Z) : outcome (list Z * Z) :=
  match s with
  | [] => UB
  | c :: s' =>
    if is_hex c then
      let digit := c - 48 in
      let digit := if 9 <? digit then 10 + c - 97 else digit in
      retval ← sint (retval * 16); retval ← sint (retval + digit);
      parseval_hex s' retval
    else Ok (s, retval)
  end.

Fixpoint parseval_dec (s : list Z) (retval : Z) : outcome (list Z * Z) :=
  match s with
  | [] => UB
  | c :: s' =>
    if is_dec c then
      let digit := c - 48 in
      retval ← sint (retval * 10); retval ← sint (retval + digit);
      parseval_dec s' retval
    else Ok (s, retval)
  end.

Definition parseval (valstring : list Z) : outcome Z :=
  c0 ← rd valstring;
  let '(neg, valstring) := if c0 =? 45 then (-1, tail valstring) else (1, valstring) in
  c0 ← rd valstring;
  hexmode ← (if c0 =? 48 then c1 ← rd (tail valstring); mret (c1 =? 120) else mret false);
  let valstring := if hexmode : bool then tail (tail valstring) else valstring in
  ' (valstring, retval) ← (if hexmode : bool then parseval_hex valstring 0
                           else parseval_dec valstring 0);
  c ← rd valstring;
  retval ← (if c =? 75 then sint (retval * 1024) else mret retval);
  retval ← (if c =? 77 then sint (retval * (1024 * 1024)) else mret retval);
  sint (retval * neg).

Definition get_seed_args (i : Z) (argc : Z) (argv : list (list Z)) : outcome Z :=
  if i <? argc then a ← aget argv i; parseval a else mret 0.

(** *** Specification: the numerals [parseval] accepts *)

Inductive qualifier := QNone | QK | QM.

Definition qual_bytes (q : qualifier) : list Z :=
  match q with QNone => [] | QK => [75] | QM => [77] end.
Definition qual_mult (q : qualifier) : Z :=
  match q with QNone => 1 | QK => 1024 | QM => 1024 * 1024 end.

Definition digit_char (d : Z) : Z := if d <? 10 then 48 + d else 97 + (d - 10).

Definition numeral (base : Z) (ds : list Z) : Z := foldl (fun a d => a * base + d) 0 ds.

(** [-]?(0x)?digits[KM]? *)
Definition render (neg hex : bool) (ds : list Z) (q : qualifier) : list Z :=
  (if neg then [45] else []) ++ (if hex then [48; 120] else []) ++
  (digit_char <$> ds) ++ qual_bytes q ++ [0].

(** The value that has been read, or undefined behaviour from 2^31 on. *)
Definition bounded {A : Type} (n : Z) (a : A) : outcome A := if n <? 2 ^ 31 then Ok a else UB.

Lemma sint_bounded (n : Z) : 0 <= n -> sint n = bounded n n.
Proof. intros Hn. unfold sint, bounded. rewrite (proj2 (Z.leb_le _ _)) by lia. done. Qed.

Lemma bounded_ub {A : Type} (n : Z) (a : A) : 2 ^ 31 <= n -> bounded n a = UB.
Proof. intros Hn. unfold bounded. by rewrite (proj2 (Z.ltb_ge _ _)). Qed.

Lemma numeral_mono (base acc : Z) (ds : list Z) :
  2 <= base -> 0 <= acc -> Forall (fun d => 0 <= d < base) ds -> acc <= foldl (fun a d => a * base + d) acc ds.
Proof.
  intros Hb Ha Hds. revert acc Ha. induction Hds as [|d ds Hd _ IH]; intros acc Ha; simpl; [lia|].
  pose proof (IH (acc * base + d) ltac:(nia)). nia.
Qed.

(** Both digit loops go on with the value of the digits so far, and once that
    is too large so is every longer one. *)
Lemma digit_step {A : Type} (base acc d : Z) (ds : list Z) (k : Z -> outcome A) (a : A) :
  2 <= base -> 0 <= acc -> 0 <= d < base -> Forall (fun d => 0 <= d < base) ds ->
  (acc * base + d < 2 ^ 31 -> k (acc * base + d) = bounded (foldl (fun a d => a * base + d) (acc * base + d) ds) a) ->
  (r ← sint (acc * base); r ← sint (r + d); k r) = bounded (foldl (fun a d => a * base + d) (acc * base + d) ds) a.
Proof.
  intros Hb Ha Hd Hds Hk. pose proof (numeral_mono base (acc * base + d) ds Hb ltac:(nia) Hds) as Hm.
  rewrite sint_bounded by nia. unfold bounded at 1. zcase (acc * base <? 2 ^ 31); [|by rewrite bounded_ub by lia].
  cbn [mbind outcome_bind]. rewrite sint_bounded by lia. unfold bounded at 1.
  zcase (acc * base + d <? 2 ^ 31); [by apply Hk|by rewrite bounded_ub by lia].
Qed.

Lemma digit_char_dec (d : Z) : 0 <= d < 10 -> is_dec (digit_char d) = true /\ digit_char d - 48 = d.
Proof. unfold is_dec, digit_char. intros. zcases; lia. Qed.

Lemma digit_char_hex (d : Z) :
  0 <= d < 16 -> is_hex (digit_char d) = true /\
  (if 9 <? digit_char d - 48 then 10 + digit_char d - 97 else digit_char d - 48) = d.
Proof. unfold is_hex, is_dec, digit_char. intros. zcases; lia. Qed.

Lemma parseval_dec_spec (ds : list Z) (c : Z) (rest : list Z) (acc : Z) :
  Forall (fun d => 0 <= d < 10) ds -> is_dec c = false -> 0 <= acc < 2 ^ 31 ->
  parseval_dec ((digit_char <$> ds) ++ c :: rest) acc
  = let n := foldl (fun a d => a * 10 + d) acc ds in bounded n (c :: rest, n).
Proof.
  intros Hds Hc. revert acc. induction Hds as [|d ds Hd Hds IH]; intros acc Ha; simpl.
  - rewrite Hc. unfold bounded. by rewrite (proj2 (Z.ltb_lt _ _)) by lia.
  - destruct (digit_char_dec d Hd) as [-> ->]. apply digit_step; [lia|lia|done|done|]. intros Hn. apply IH. lia.
Qed.

Lemma parseval_hex_spec (ds : list Z) (c : Z) (rest : list Z) (acc : Z) :
  Forall (fun d => 0 <= d < 16) ds -> is_hex c = false -> 0 <= acc < 2 ^ 31 ->
  parseval_hex ((digit_char <$> ds) ++ c :: rest) acc
  = let n := foldl (fun a d => a * 16 + d) acc ds in bounded n (c :: rest, n).
Proof.
  intros Hds Hc. revert acc. induction Hds as [|d ds Hd Hds IH]; intros acc Ha; simpl.
  - rewrite Hc. unfold bounded. by rewrite (proj2 (Z.ltb_lt _ _)) by lia.
  - destruct (digit_char_hex d Hd) as [-> ->]. apply digit_step; [lia|lia|done|done|]. intros Hn. apply IH. lia.
Qed.

(** The tail of [parseval], after the digits. *)
Lemma qual_tail (q : qualifier) (n : Z) (neg : bool) :
  0 <= n -> exists c rest, qual_bytes q ++ [0] = c :: rest /\ is_hex c = false /\ is_dec c = false /\
    c <> 48 /\ c <> 45 /\ c <> 120 /\
    (r ← bounded n n;
     r ← (if c =? 75 then sint (r * 1024) else mret r);
     r ← (if c =? 77 then sint (r * (1024 * 1024)) else mret r);
     sint (r * (if neg then -1 else 1))) = bounded (n * qual_mult q) (n * qual_mult q * (if neg then -1 else 1)).
Proof.
  intros Hn. assert (forall x, 0 <= x < 2 ^ 31 -> sint (x * (if neg then -1 else 1)) = Ok (x * (if neg then -1 else 1))) as Hs.
  { intros x Hx. apply sint_ok. unfold in_s. destruct neg; lia. }
  unfold bounded at 1. destruct q; eexists _, _; (split; [reflexivity|]); do 5 (split; [done|]); cbn [qual_mult Z.eqb Pos.eqb mret outcome_ret];
    (zcase (n <? 2 ^ 31); [|by rewrite bounded_ub by nia]); cbn [mbind outcome_bind mret outcome_ret].
  - rewrite Hs by lia. unfold bounded. rewrite Z.mul_1_r, (proj2 (Z.ltb_lt _ _)) by lia. done.
  - rewrite sint_bounded by lia. unfold bounded. zcase (n * 1024 <? 2 ^ 31); [|done]. cbn [mbind outcome_bind mret outcome_ret]. by rewrite Hs by lia.
  - rewrite sint_bounded by lia. unfold bounded. zcase (n * (1024 * 1024) <? 2 ^ 31); [|done]. cbn [mbind outcome_bind mret outcome_ret]. by rewrite Hs by lia.
Qed.

(** A decimal numeral never starts with 0x. *)
Lemma dec_not_hexmode (ds : list Z) (c : Z) (rest : list Z) :
  Forall (fun d => 0 <= d < 10) ds -> c <> 48 -> c <> 45 -> c <> 120 ->
  exists c0, rd ((digit_char <$> ds) ++ c :: rest) = Ok c0 /\ (c0 =? 45) = false /\
    (if c0 =? 48 then c1 ← rd (tail ((digit_char <$> ds) ++ c :: rest)); mret (c1 =? 120)
     else mret false) = Ok false.
Proof.
  intros Hds H48 H45 H120. destruct Hds as [|d ds Hd Hds]; simpl.
  - exists c. rewrite !(proj2 (Z.eqb_neq _ _)) by done. done.
  - exists (digit_char d). split; [done|]. unfold digit_char at 1 2.
    split; [zcases; lia|]. destruct (_ =? 48); [|done].
    destruct Hds as [|d' ds Hd' _]; simpl in *.
    + by rewrite (proj2 (Z.eqb_neq _ _)).
    + assert ((digit_char d' =? 120) = false) as E by (unfold digit_char; zcases; lia).
      by rewrite E.
Qed.

(** C3: [parseval] reads every numeral of the documented syntax (optional minus
    sign, optional 0x prefix with lower-case digits, optional K or M) as the
    number it denotes when its magnitude is below 2^31, and reads no byte
    beyond the terminator; from 2^31 on the [ee_s32] it accumulates in
    overflows, which is undefined (-2147483648 included). *)
Theorem parseval_numeral (neg hex : bool) (ds : list Z) (q : qualifier) :
  Forall (fun d => 0 <= d < (if hex then 16 else 10)) ds ->
  let n := numeral (if hex then 16 else 10) ds * qual_mult q in
  parseval (render neg hex ds q) = if n <? 2 ^ 31 then Ok (if neg then - n else n) else UB.
Proof.
  intros Hds n. assert (0 <= numeral (if hex then 16 else 10) ds) as Hn by (apply numeral_mono; [destruct hex; lia|lia|done]).
  assert ((if n <? 2 ^ 31 then Ok (if neg then - n else n) else UB) = bounded n (n * (if neg then -1 else 1))) as -> by (unfold bounded; destruct (_ <? _), neg; [f_equal; lia..|done|done]).
  subst n. unfold render, parseval. destruct (qual_tail q (numeral (if hex then 16 else 10) ds) neg Hn) as (c & rest & -> & Hhex & Hdec & H48 & H45 & H120 & <-).
  unfold numeral. destruct hex.
  - pose proof (parseval_hex_spec ds c rest 0 Hds Hhex ltac:(lia)) as E.
    destruct neg; cbn [app rd mbind mret outcome_bind outcome_ret tail Z.eqb Pos.eqb];
      rewrite E; unfold bounded; destruct (_ <? _); reflexivity.
  - destruct (dec_not_hexmode ds c rest Hds H48 H45 H120) as (c0 & E0 & E45 & Ehex).
    pose proof (parseval_dec_spec ds c rest 0 Hds Hdec ltac:(lia)) as E.
    destruct neg; cbn [app rd mbind mret outcome_bind outcome_ret tail Z.eqb Pos.eqb];
      rewrite ?E0; cbn [mbind outcome_bind]; rewrite ?E45, ?E0; cbn [mbind outcome_bind];
      rewrite Ehex; cbn [mbind outcome_bind]; rewrite E; unfold bounded; destruct (_ <? _); reflexivity.
Qed.

Lemma parseval_numeral_witness :
  parseval (cstr "-0x1fK") = Ok (-31744) /\ parseval (cstr "2048M") = UB.
Proof.
  split.
  - exact (parseval_numeral true true [1; 15] QK ltac:(by repeat constructor)).
  - exact (parseval_numeral false false [2; 0; 4; 8] QM ltac:(by repeat constructor)).
Defined.

End Seeds.

(** ** The data-type self check ([check_data_types]) *)

Module DataTypes.

(** What [sizeof] yields for the types the check looks at. *)
Record sizes := Sizes {
  sizeof_u8 : Z;
  sizeof_u16 : Z;
  sizeof_s16 : Z;
  sizeof_s32 : Z;
  sizeof_u32 : Z;
  sizeof_ptr_int : Z;
  sizeof_int_ptr : Z
}.

(** The riscv port on LP64. *)
Definition riscv64_sizes : sizes := Sizes 1 2 2 4 4 8 8.

(** Returns the error count and the messages printed. *)
Definition check_data_types (sz : sizes) : Z * list (list Z) :=
  let report (bad : bool) (msg : list Z) (acc : Z * list (list Z)) :=
    if bad then (u8 (acc.1 + 1), acc.2 ++ [msg]) else acc in
  let acc := report (negb (sizeof_u8 sz =? 1))
    (line "ERROR: ee_u8 is not an 8b datatype!") (0, []) in
  let acc := report (negb (sizeof_u16 sz =? 2))
    (line "ERROR: ee_u16 is not a 16b datatype!") acc in
  let acc := report (negb (sizeof_s16 sz =? 2))
    (line "ERROR: ee_s16 is not a 16b datatype!") acc in
  let acc := report (negb (sizeof_s32 sz =? 4))
    (line "ERROR: ee_s32 is not a 32b datatype!") acc in
  let acc := report (negb (sizeof_u32 sz =? 4))
    (line "ERROR: ee_u32 is not a 32b datatype!") acc in
  let acc := report (negb (sizeof_ptr_int sz =? sizeof_int_ptr sz))
    (line "ERROR: ee_ptr_int is not a datatype that holds an int pointer!") acc in
  if 0 <? acc.1 then
    (acc.1, acc.2 ++ [line "ERROR: Please modify the datatypes in core_portme.h!"])
  else acc.

End DataTypes.
