(* ===== verification/CoreState.v ===== *)
(** * The CoreMark state machine ([guests/coremark/core_state.c])

    A scanner that classifies comma-separated tokens as integers, floats,
    scientific numbers or invalid input, the benchmark that runs it over a
    memory block before and after corrupting the block, and the routine that
    fills the block.  Theorems: the scanner decides the token grammar, the
    benchmark stays inside the block and terminates on every initialised
    block, and the corruption is undone under an explicit side condition
    (without which it is not). *)

From S2P Require Import Prelude CoreUtil.

Module State.
Import Crc.

(** ** Data ([enum CORE_STATE] of [coremark.h]) *)

Inductive core_state_e :=
| CORE_START
| CORE_INVALID
| CORE_S1
| CORE_S2
| CORE_INT
| CORE_FLOAT
| CORE_EXPONENT
| CORE_SCIENTIFIC.

#[export] Instance core_state_e_eq_dec : EqDecision core_state_e.
Proof. solve_decision. Defined.

(** The value of the enumerator, an index into the count arrays. *)
Definition state_code (st : core_state_e) : nat :=
  match st with
  | CORE_START => 0 | CORE_INVALID => 1 | CORE_S1 => 2 | CORE_S2 => 3
  | CORE_INT => 4 | CORE_FLOAT => 5 | CORE_EXPONENT => 6 | CORE_SCIENTIFIC => 7
  end.

Definition NUM_CORE_STATES : nat := 8.

(** [counts[st]++] on an array of [NUM_CORE_STATES] 32-bit counters. *)
Definition bump (counts : list Z) (st : core_state_e) : list Z :=
  alter (fun n => u32 (n + 1)) (state_code st) counts.

(** ** The scanner ([ee_isdigit], [core_state_transition]) *)

Definition ee_isdigit (c : Z) : Z := if (48 <=? c) && (c <=? 57) then 1 else 0.

Definition isdigit (c : Z) : bool := negb (ee_isdigit c =? 0).
Definition issign (c : Z) : bool := (c =? 43) || (c =? 45).

(** The [switch] of [core_state_transition]: one symbol. *)
Definition transition_symbol (state : core_state_e) (NEXT_SYMBOL : Z) (tc : list Z)
  : core_state_e * list Z :=
  match state with
  | CORE_START =>
    let '(state, tc) :=
      if isdigit NEXT_SYMBOL then (CORE_INT, tc)
      else if issign NEXT_SYMBOL then (CORE_S1, tc)
      else if NEXT_SYMBOL =? 46 then (CORE_FLOAT, tc)
      else (CORE_INVALID, bump tc CORE_INVALID) in
    (state, bump tc CORE_START)
  | CORE_S1 =>
    if isdigit NEXT_SYMBOL then (CORE_INT, bump tc CORE_S1)
    else if NEXT_SYMBOL =? 46 then (CORE_FLOAT, bump tc CORE_S1)
    else (CORE_INVALID, bump tc CORE_S1)
  | CORE_INT =>
    if NEXT_SYMBOL =? 46 then (CORE_FLOAT, bump tc CORE_INT)
    else if negb (isdigit NEXT_SYMBOL) then (CORE_INVALID, bump tc CORE_INT)
    else (CORE_INT, tc)
  | CORE_FLOAT =>
    if (NEXT_SYMBOL =? 69) || (NEXT_SYMBOL =? 101) then (CORE_S2, bump tc CORE_FLOAT)
    else if negb (isdigit NEXT_SYMBOL) then (CORE_INVALID, bump tc CORE_FLOAT)
    else (CORE_FLOAT, tc)
  | CORE_S2 =>
    if issign NEXT_SYMBOL then (CORE_EXPONENT, bump tc CORE_S2)
    else (CORE_INVALID, bump tc CORE_S2)
  | CORE_EXPONENT =>
    if isdigit NEXT_SYMBOL then (CORE_SCIENTIFIC, bump tc CORE_EXPONENT)
    else (CORE_INVALID, bump tc CORE_EXPONENT)
  | CORE_SCIENTIFIC =>
    if negb (isdigit NEXT_SYMBOL) then (CORE_INVALID, bump tc CORE_INVALID)
    else (CORE_SCIENTIFIC, tc)
  | CORE_INVALID => (CORE_INVALID, tc)
  end.

(** The scanning loop; [str] is the part of memory the pointer points at. *)
Fixpoint transition_loop (str : list Z) (state : core_state_e) (tc : list Z)
  : outcome (list Z * core_state_e * list Z) :=
  match str with
  | [] => UB
  | NEXT_SYMBOL :: str' =>
    if negb (NEXT_SYMBOL =? 0) && negb (bool_decide (state = CORE_INVALID)) then
      if NEXT_SYMBOL =? 44 then Ok (str', state, tc)
      else
        let '(state, tc) := transition_symbol state NEXT_SYMBOL tc in
        transition_loop str' state tc
    else Ok (str, state, tc)
  end.

(** Returns the updated pointer, the final state and the updated counts. *)
Definition core_state_transition (instr : list Z) (transition_count : list Z)
  : outcome (list Z * core_state_e * list Z) :=
  transition_loop instr CORE_START transition_count.

(** ** The benchmark ([core_bench_state]) *)

(** [while ( *p != 0) { fstate = core_state_transition(&p, track_counts);
    final_counts[fstate]++; }] *)
Fixpoint scan_tokens (fuel : nat) (p : list Z) (final_counts track_counts : list Z)
  : outcome (list Z * list Z) :=
  match fuel with
  | O => Fuel
  | S fuel =>
    c ← rd p;
    if c =? 0 then mret (final_counts, track_counts)
    else
      ' (p, fstate, track_counts) ← core_state_transition p track_counts;
      scan_tokens fuel p (bump final_counts fstate) track_counts
  end.

(** [while (p < memblock + blksize) { if ( *p != ',') *p ^= (ee_u8)seed;
    p += step; }], with [i = p - memblock]. *)
Fixpoint corrupt (fuel : nat) (mem : list Z) (i blksize step seed : Z) : outcome (list Z) :=
  match fuel with
  | O => Fuel
  | S fuel =>
    if i <? blksize then
      c ← aget mem i;
      mem ← (if negb (c =? 44) then aset mem i (Z.lxor c (u8 seed)) else mret mem);
      corrupt fuel mem (i + step) blksize step seed
    else mret mem
  end.

(** [for (i = 0; i < NUM_CORE_STATES; i++) { crc = crcu32(final_counts[i], crc);
    crc = crcu32(track_counts[i], crc); }] *)
Definition crc_counts (final_counts track_counts : list Z) (crc : Z) : Z :=
  foldl (fun crc i => crcu32 (nth i track_counts 0) (crcu32 (nth i final_counts 0) crc))
    crc (seq 0 NUM_CORE_STATES).

(** [mem] is the object [memblock] points into; the result is the new CRC and
    the new contents of the object. *)
Definition core_bench_state (blksize : Z) (mem : list Z) (seed1 seed2 step crc : Z)
  : outcome (Z * list Z) :=
  let fuel := S (length mem) in
  let zeros := replicate NUM_CORE_STATES 0 in
  ' (final_counts, track_counts) ← scan_tokens fuel mem zeros zeros;
  mem ← corrupt (S (Z.to_nat blksize)) mem 0 blksize step seed1;
  ' (final_counts, track_counts) ← scan_tokens fuel mem final_counts track_counts;
  mem ← corrupt (S (Z.to_nat blksize)) mem 0 blksize step seed2;
  mret (crc_counts final_counts track_counts crc, mem).

(** ** Filling the block ([core_init_state]) *)

Definition intpat : list (list Z) :=
  [bytes_of "5012"; bytes_of "1234"; bytes_of "-874"; bytes_of "+122"].
Definition floatpat : list (list Z) :=
  [bytes_of "35.54400"; bytes_of ".1234500"; bytes_of "-110.700"; bytes_of "+0.64400"].
Definition scipat : list (list Z) :=
  [bytes_of "5.500e+3"; bytes_of "-.123e-2"; bytes_of "-87e+832"; bytes_of "+0.6e-12"].
Definition errpat : list (list Z) :=
  [bytes_of "T0.3e-1F"; bytes_of "-T.T++Tq"; bytes_of "1T3.4e4z"; bytes_of "34.0e-T^"].

(** The pattern selected by the [switch]: the buffer and its length [next]. *)
Definition select_pattern (seed : Z) : list Z * Z :=
  let k := Z.to_nat (Z.land (Z.shiftr seed 3) 0x3) in
  let c := Z.land seed 0x7 in
  if c <=? 2 then (nth k intpat [], 4)
  else if c <=? 4 then (nth k floatpat [], 8)
  else if c <=? 6 then (nth k scipat [], 8)
  else (nth k errpat [], 8).

(** [for (i = 0; i < next; i++) p[total + i] = buf[i];] *)
Fixpoint copy_pattern (n : nat) (i : Z) (mem buf : list Z) (total : Z) : outcome (list Z) :=
  match n with
  | O => mret mem
  | S n => b ← aget buf i; mem ← aset mem (total + i) b; copy_pattern n (i + 1) mem buf total
  end.

Fixpoint init_loop (fuel : nat) (size total next seed : Z) (buf mem : list Z)
  : outcome (Z * list Z) :=
  match fuel with
  | O => Fuel
  | S fuel =>
    if u32 (total + next + 1) <? size then
      ' (total, mem) ←
        (if 0 <? next then
           mem ← copy_pattern (Z.to_nat next) 0 mem buf total;
           mem ← aset mem (total + next) 44;
           mret (u32 (total + (next + 1)), mem)
         else mret (total, mem));
      let seed := s16 (seed + 1) in
      let '(buf, next) := select_pattern seed in
      init_loop fuel size total next seed buf mem
    else mret (total, mem)
  end.

(** [while (total < size) { p[total] = 0; total++; }] *)
Fixpoint zero_fill (n : nat) (mem : list Z) (total : Z) : outcome (list Z) :=
  match n with
  | O => mret mem
  | S n => mem ← aset mem total 0; zero_fill n mem (total + 1)
  end.

Definition core_init_state (size seed : Z) (mem : list Z) : outcome (list Z) :=
  let size := u32 (size - 1) in
  ' (total, mem) ← init_loop (S (Z.to_nat size)) size 0 0 seed [] mem;
  let size := u32 (size + 1) in
  zero_fill (Z.to_nat (size - total)) mem total.

Example init_state_30 :
  core_init_state 30 0 (replicate 30 255)
  = Ok (bytes_of "5012,5012,35.54400,35.54400," ++ [0; 0]).
Proof. vm_compute. reflexivity. Qed.

(** ** The token grammar *)

Definition digits (ds : list Z) : Prop := Forall (fun c => isdigit c = true) ds.
Definition opt_sign (sg : list Z) : Prop := sg = [] \/ exists c, sg = [c] /\ issign c = true.
Definition exp_mark (c : Z) : Prop := c = 69 \/ c = 101.

(** [token st t]: the string [t] is a complete token of kind [st], or the
    prefix of one that the state [st] stands for. *)
Inductive token : core_state_e -> list Z -> Prop :=
| tok_start : token CORE_START []
| tok_s1 c : issign c = true -> token CORE_S1 [c]
| tok_int sg ds : opt_sign sg -> ds <> [] -> digits ds -> token CORE_INT (sg ++ ds)
| tok_float sg ds fs : opt_sign sg -> digits ds -> digits fs ->
    token CORE_FLOAT (sg ++ ds ++ [46] ++ fs)
| tok_s2 sg ds fs e : opt_sign sg -> digits ds -> digits fs -> exp_mark e ->
    token CORE_S2 (sg ++ ds ++ [46] ++ fs ++ [e])
| tok_exponent sg ds fs e c : opt_sign sg -> digits ds -> digits fs -> exp_mark e ->
    issign c = true -> token CORE_EXPONENT (sg ++ ds ++ [46] ++ fs ++ [e; c])
| tok_scientific sg ds fs e c xs : opt_sign sg -> digits ds -> digits fs -> exp_mark e ->
    issign c = true -> xs <> [] -> digits xs ->
    token CORE_SCIENTIFIC (sg ++ ds ++ [46] ++ fs ++ [e; c] ++ xs).

(** The successor state does not depend on the counts. *)
Definition delta (st : core_state_e) (c : Z) : core_state_e := (transition_symbol st c []).1.

Lemma transition_symbol_delta (st : core_state_e) (c : Z) (tc : list Z) :
  (transition_symbol st c tc).1 = delta st c.
Proof. unfold delta. destruct st; simpl; zcases; done. Qed.

Lemma delta_invalid (t : list Z) : foldl delta CORE_INVALID t = CORE_INVALID.
Proof. by induction t. Qed.

Lemma digit_range (c : Z) : isdigit c = true <-> 48 <= c <= 57.
Proof. unfold isdigit, ee_isdigit. zcases; simpl; lia. Qed.

Lemma sign_range (c : Z) : issign c = true <-> c = 43 \/ c = 45.
Proof. unfold issign. lia. Qed.

(** Case analysis on the class of the next symbol. *)
Ltac classify c :=
  let D := fresh "D" in let G := fresh "G" in
  destruct (isdigit c) eqn:D; [pose proof (proj1 (digit_range c) D)|
    destruct (issign c) eqn:G; [pose proof (proj1 (sign_range c) G)|]].

Lemma digits_snoc (ds : list Z) (c : Z) : digits ds -> isdigit c = true -> digits (ds ++ [c]).
Proof. intros. apply Forall_app. split; [done|by constructor]. Qed.

Lemma run_digits (st : core_state_e) (ds : list Z) :
  st = CORE_INT \/ st = CORE_FLOAT \/ st = CORE_SCIENTIFIC -> digits ds -> foldl delta st ds = st.
Proof.
  intros Hst. induction 1 as [|c ds Hc _ IH]; simpl; [done|].
  assert (delta st c = st) as ->; [|done].
  apply digit_range in Hc as R. unfold delta.
  destruct Hst as [-> | [-> | ->]]; simpl; rewrite Hc; simpl; zcases; (done || lia).
Qed.

Lemma run_sign (sg : list Z) : opt_sign sg ->
  foldl delta CORE_START sg = CORE_START \/ foldl delta CORE_START sg = CORE_S1.
Proof.
  intros [-> | (c & -> & Hc)]; [by left|right]. apply sign_range in Hc.
  by destruct Hc as [-> | ->].
Qed.

(** From the start or after a sign, digits lead to an integer and a point to
    a float. *)
Lemma run_mantissa (st : core_state_e) (ds : list Z) :
  st = CORE_START \/ st = CORE_S1 -> digits ds -> ds <> [] -> foldl delta st ds = CORE_INT.
Proof.
  intros Hst Hds Hne. destruct Hds as [|c ds Hc Hds]; [done|]. simpl.
  assert (delta st c = CORE_INT) as -> by (unfold delta; destruct Hst as [-> | ->]; simpl; by rewrite Hc).
  by apply run_digits; [left|].
Qed.

Lemma run_point (sg ds fs : list Z) :
  opt_sign sg -> digits ds -> digits fs ->
  foldl delta CORE_START (sg ++ ds ++ [46] ++ fs) = CORE_FLOAT.
Proof.
  intros Hsg Hds Hfs. rewrite !foldl_app.
  assert (foldl delta (foldl delta (foldl delta CORE_START sg) ds) [46] = CORE_FLOAT) as ->;
    [|by apply run_digits; [right; left|]].
  destruct (run_sign sg Hsg) as [-> | ->]; destruct (decide (ds = [])) as [-> |Hne];
    try done; by rewrite (run_mantissa _ ds) by auto.
Qed.

Lemma run_exp_mark (e : Z) : exp_mark e -> delta CORE_FLOAT e = CORE_S2.
Proof. by intros [-> | ->]. Qed.

Lemma run_exp_sign (c : Z) : issign c = true -> delta CORE_S2 c = CORE_EXPONENT.
Proof. intros Hc. unfold delta. simpl. by rewrite Hc. Qed.

Lemma run_exp_digits (xs : list Z) :
  digits xs -> xs <> [] -> foldl delta CORE_EXPONENT xs = CORE_SCIENTIFIC.
Proof.
  intros Hxs Hne. destruct Hxs as [|x xs Hx Hxs]; [done|]. simpl.
  assert (delta CORE_EXPONENT x = CORE_SCIENTIFIC) as -> by (unfold delta; simpl; by rewrite Hx).
  apply run_digits; auto.
Qed.

Lemma token_run (st : core_state_e) (t : list Z) : token st t -> foldl delta CORE_START t = st.
Proof.
  intros Ht. destruct Ht as [|c Hc|sg ds Hs|sg ds fs|sg ds fs e Hs Hd Hf He
    |sg ds fs e c Hs Hd Hf He Hc|sg ds fs e c xs Hs Hd Hf He Hc].
  - done.
  - by apply sign_range in Hc as [-> | ->].
  - rewrite foldl_app. destruct (run_sign sg Hs) as [-> | ->]; apply run_mantissa; auto.
  - by apply run_point.
  - rewrite (app_assoc _ fs), (app_assoc ds), (app_assoc sg), foldl_app, run_point by done.
    by apply run_exp_mark.
  - rewrite (app_assoc _ fs), (app_assoc ds), (app_assoc sg), foldl_app, run_point by done.
    simpl. by rewrite run_exp_mark, run_exp_sign.
  - rewrite (app_assoc _ fs), (app_assoc ds), (app_assoc sg), foldl_app, run_point by done.
    rewrite foldl_app. simpl. rewrite run_exp_mark, run_exp_sign by done. by apply run_exp_digits.
Qed.

Ltac reassoc := rewrite <- ?app_assoc; cbn [app]; rewrite <- ?app_assoc; cbn [app].

(** One more symbol: the grammar follows the machine. *)
Lemma token_snoc (st : core_state_e) (t : list Z) (c : Z) :
  token st t -> delta st c <> CORE_INVALID -> token (delta st c) (t ++ [c]).
Proof.
  intros Ht. destruct Ht as [|s Hs|sg ds Hs Hne Hd|sg ds fs|sg ds fs e Hs Hd Hf He
    |sg ds fs e s Hs Hd Hf He Hc|sg ds fs e s xs Hs Hd Hf He Hc Hne]; unfold delta; simpl.
  - classify c; simpl; [intros _; apply (tok_int [] [c]); [by left|done|by constructor]
      |intros _; by apply tok_s1|]. zcase (c =? 46); simpl; [subst|done].
    intros _. apply (tok_float [] [] []); [by left|constructor..].
  - assert (opt_sign [s]) by (right; eauto).
    classify c; simpl; [intros _; apply (tok_int [s] [c]); [done..|by constructor]|..];
      (zcase (c =? 46); simpl; [subst|done]); try lia;
      intros _; apply (tok_float [s] [] []); [done|constructor..].
  - zcase (c =? 46); simpl; [subst; intros _|].
    + rewrite <- app_assoc. apply (tok_float sg ds []); [done..|constructor].
    + destruct (isdigit c) eqn:D; simpl; [intros _|done]. rewrite <- app_assoc.
      apply tok_int; [done|by destruct ds|by apply digits_snoc].
  - reassoc. zcase ((c =? 69) || (c =? 101)); simpl.
    + intros _. apply tok_s2; [done..|unfold exp_mark; lia].
    + destruct (isdigit c) eqn:D; simpl; [intros _|done].
      apply tok_float; [done..|by apply digits_snoc].
  - reassoc. destruct (issign c) eqn:G; simpl; [intros _|done].
    by apply tok_exponent.
  - reassoc. destruct (isdigit c) eqn:D; simpl; [intros _|done].
    apply (tok_scientific sg ds fs e s [c]); try done. by constructor.
  - reassoc. destruct (isdigit c) eqn:D; simpl; [intros _|done].
    apply (tok_scientific sg ds fs e s (xs ++ [c])); try done; [by destruct xs|by apply digits_snoc].
Qed.


Lemma run_token (t : list Z) :
  foldl delta CORE_START t <> CORE_INVALID -> token (foldl delta CORE_START t) t.
Proof.
  induction t as [|c t IH] using rev_ind; [constructor|].
  rewrite foldl_app. simpl. intros Hv. apply token_snoc; [|done]. apply IH.
  intros E. rewrite E in Hv. done.
Qed.

Lemma run_token_iff (t : list Z) (st : core_state_e) :
  st <> CORE_INVALID -> foldl delta CORE_START t = st <-> token st t.
Proof. intros Hst. split; [intros <-; by apply run_token|apply token_run]. Qed.

(** ** The scanner decides the grammar *)

Definition token_char (c : Z) : Prop := c <> 0 /\ c <> 44.

Lemma loop_run (t : list Z) (st : core_state_e) (c : Z) (rest tc : list Z) :
  Forall token_char t -> c = 0 \/ c = 44 ->
  exists p tc', transition_loop (t ++ c :: rest) st tc = Ok (p, foldl delta st t, tc') /\
    (foldl delta st t <> CORE_INVALID -> p = if c =? 44 then rest else c :: rest) /\
    (exists k, t ++ c :: rest = k ++ p /\ (length k <= S (length t))%nat).
Proof.
  intros Ht Hc. revert st tc. induction Ht as [|x t [Hx0 Hx] _ IH]; intros st tc; simpl.
  - destruct Hc as [-> | ->]; simpl.
    { eexists _, _. split; [done|]. split; [done|]. exists []. split; [done|simpl; lia]. }
    destruct (bool_decide (st = CORE_INVALID)) eqn:E; simpl.
    + apply bool_decide_eq_true in E. eexists _, _. split; [done|].
      split; [done|]. exists []. split; [done|simpl; lia].
    + eexists _, _. split; [done|]. split; [done|]. exists [44]. split; [done|simpl; lia].
  - rewrite !(proj2 (Z.eqb_neq _ _)) by done. simpl.
    destruct (bool_decide (st = CORE_INVALID)) eqn:E; simpl.
    + apply bool_decide_eq_true in E as ->. change (delta CORE_INVALID x) with CORE_INVALID.
      rewrite delta_invalid. eexists _, _. split; [done|]. split; [done|].
      exists []. split; [done|simpl; lia].
    + destruct (transition_symbol st x tc) as [st' tc1] eqn:Es.
      assert (st' = delta st x) as ->.
      { rewrite <- (transition_symbol_delta _ _ tc). by rewrite Es. }
      destruct (IH (delta st x) tc1) as (p & tc' & E1 & E2 & k & E3 & Hk).
      eexists _, _. split; [exact E1|]. split; [exact E2|].
      exists (x :: k). split; [by rewrite E3|simpl; lia].
Qed.

(** C4: on a token [t] followed by a comma or the terminator, the scanner
    returns a valid state exactly when [t] belongs to the grammar, and then
    the state names the kind of the token and the pointer is just past the
    token and its comma; on any other input it returns [CORE_INVALID] with the
    pointer inside the token. *)
Theorem transition_decides_grammar (t : list Z) (c : Z) (rest tc : list Z) :
  Forall token_char t -> c = 0 \/ c = 44 ->
  exists p st tc', core_state_transition (t ++ c :: rest) tc = Ok (p, st, tc') /\
    (forall kind, kind <> CORE_INVALID -> st = kind <-> token kind t) /\
    (st <> CORE_INVALID -> p = if c =? 44 then rest else c :: rest) /\
    (exists k, t ++ c :: rest = k ++ p /\ (length k <= S (length t))%nat).
Proof.
  intros Ht Hc.
  destruct (loop_run t CORE_START c rest tc Ht Hc) as (p & tc' & E & Hp & Hk).
  exists p, (foldl delta CORE_START t), tc'. split; [done|].
  split; [|done]. intros kind Hkind. by apply run_token_iff.
Qed.

Lemma transition_decides_grammar_witness :
  exists tc', core_state_transition (bytes_of "-87.5e+832,1") (replicate 8 0)
    = Ok (bytes_of "1", CORE_SCIENTIFIC, tc').
Proof.
  destruct (transition_decides_grammar (bytes_of "-87.5e+832") 44 (bytes_of "1") (replicate 8 0))
    as (p & st & tc' & E & H & Hp & _); [by repeat constructor|by right|].
  assert (st = CORE_SCIENTIFIC) as ->.
  { apply H; [done|]. apply (tok_scientific [45] [56; 55] [53] 101 43 [56; 51; 50]);
      (done || (by repeat constructor) || (right; eauto; done)). }
  exists tc'. rewrite (Hp ltac:(done)) in E. exact E.
Defined.

(** ** Scanning a block that contains a terminator *)

Lemma loop_terminated (str : list Z) (st : core_state_e) (tc : list Z) :
  0 ∈ str ->
  exists k p st' tc', transition_loop str st tc = Ok (p, st', tc') /\ str = k ++ p /\ 0 ∈ p /\
    (st <> CORE_INVALID -> head str <> Some 0 -> k <> []).
Proof.
  revert st tc. induction str as [|c str IH]; intros st tc Hz; simpl; [by apply not_elem_of_nil in Hz|].
  destruct (Z.eqb_spec c 0) as [-> |Hc]; simpl.
  { eexists [], _, _, _. split; [done|]. split; [done|]. split; [by left|done]. }
  apply elem_of_cons in Hz as [Hz|Hz]; [congruence|].
  destruct (bool_decide (st = CORE_INVALID)) eqn:E; simpl.
  { apply bool_decide_eq_true in E. eexists [], _, _, _. split; [done|]. split; [done|].
    split; [by right|done]. }
  destruct (c =? 44).
  { eexists [c], _, _, _. split; [done|]. split; [done|]. split; [done|done]. }
  destruct (transition_symbol st c tc) as [st1 tc1].
  destruct (IH st1 tc1 Hz) as (k & p & st' & tc' & E1 & -> & Hp & _).
  eexists (c :: k), p, _, _. split; [exact E1|]. split; [done|]. split; [done|done].
Qed.

Lemma scan_terminated (fuel : nat) (p fc tc : list Z) :
  0 ∈ p -> (length p <= fuel)%nat -> exists r, scan_tokens fuel p fc tc = Ok r.
Proof.
  revert p fc tc. induction fuel as [|fuel IH]; intros p fc tc Hz Hf.
  { destruct p; simpl in Hf; [by apply not_elem_of_nil in Hz|lia]. }
  destruct p as [|c p]; [by apply not_elem_of_nil in Hz|]. simpl.
  destruct (Z.eqb_spec c 0) as [-> |Hc]; [by eexists|].
  destruct (loop_terminated (c :: p) CORE_START tc Hz) as (k & q & st' & tc' & E & Ek & Hq & Hne).
  unfold core_state_transition. rewrite E. simpl. apply IH; [done|].
  assert (k <> []) by (apply Hne; [done|simpl; congruence]).
  apply (f_equal length) in Ek. rewrite length_app in Ek. simpl in *.
  destruct k; [done|simpl in *; lia].
Qed.

(** ** The effect of the corruption loop *)

Definition xor_cell (seed c : Z) : Z := if c =? 44 then c else Z.lxor c (u8 seed).

(** Cell [j] is visited by the loop started at [i]. *)
Definition touched (i blksize step : Z) (j : nat) : bool :=
  (i <=? Z.of_nat j) && (Z.of_nat j <? blksize) && ((Z.of_nat j - i) mod step =? 0).

Lemma corrupt_cell (mem : list Z) (i seed : Z) :
  0 <= i < Z.of_nat (length mem) ->
  (c ← aget mem i; if negb (c =? 44) then aset mem i (Z.lxor c (u8 seed)) else mret mem)
  = Ok (alter (xor_cell seed) (Z.to_nat i) mem).
Proof.
  intros Hi. destruct (aget_in_range mem i Hi) as (c & Hc & ->). simpl. unfold xor_cell.
  destruct (c =? 44) eqn:E; simpl; rewrite ?aset_in_range by done; unfold mret, outcome_ret;
    f_equal; apply list_eq; intros j; rewrite list_lookup_alter, ?list_lookup_insert;
    repeat case_decide; simplify_eq; rewrite ?Hc; simpl; rewrite ?E; try done.
  all: try (apply lookup_lt_Some in Hc; lia).
Qed.

Lemma touched_next (i blksize step : Z) (j : nat) :
  0 <= i -> 1 <= step -> j <> Z.to_nat i ->
  touched i blksize step j = touched (i + step) blksize step j.
Proof.
  intros Hi Hs Hj. unfold touched.
  replace (Z.of_nat j - (i + step)) with (Z.of_nat j - i + (-1) * step) by lia.
  rewrite Z.mod_add by lia.
  destruct (Z.eqb_spec ((Z.of_nat j - i) mod step) 0) as [E|]; [|by rewrite !andb_false_r].
  destruct (Z.leb_spec i (Z.of_nat j)), (Z.leb_spec (i + step) (Z.of_nat j)); simpl; try lia.
  rewrite Z.mod_small in E by lia. lia.
Qed.

Lemma touched_first (i blksize step : Z) :
  0 <= i < blksize -> touched i blksize step (Z.to_nat i) = true.
Proof.
  intros Hi. unfold touched. rewrite Z2Nat.id, Z.sub_diag, Zmod_0_l by lia. lia.
Qed.

Lemma touched_past (i blksize step : Z) (j : nat) : blksize <= i -> touched i blksize step j = false.
Proof.
  intros. unfold touched. destruct (Z.leb_spec i (Z.of_nat j)); [|done].
  by rewrite (proj2 (Z.ltb_ge _ _)) by lia.
Qed.

Lemma corrupt_spec (fuel : nat) (mem : list Z) (i blksize step seed : Z) :
  0 <= i -> 1 <= step -> blksize <= Z.of_nat (length mem) -> blksize - i < Z.of_nat fuel ->
  (1 <= fuel)%nat ->
  exists mem', corrupt fuel mem i blksize step seed = Ok mem' /\ length mem' = length mem /\
    forall j, mem' !! j = (if touched i blksize step j then xor_cell seed else id) <$> mem !! j.
Proof.
  revert mem i. induction fuel as [|fuel IH]; intros mem i Hi Hs Hl Hf H1; [lia|]. simpl.
  zcase (i <? blksize).
  - pose proof (corrupt_cell mem i seed ltac:(lia)) as Ec.
    destruct (aget mem i) as [c| |]; simpl in *; [|discriminate..]. rewrite Ec. simpl.
    destruct (IH (alter (xor_cell seed) (Z.to_nat i) mem) (i + step)) as (mem' & -> & El & Hm);
      rewrite ?length_alter; try lia.
    eexists. split; [done|]. split; [by rewrite El, length_alter|].
    intros j. rewrite Hm, list_lookup_alter. case_decide as Ej.
    + subst j. rewrite touched_first by lia.
      assert (touched (i + step) blksize step (Z.to_nat i) = false) as ->
        by (unfold touched; by rewrite (proj2 (Z.leb_gt _ _)) by lia).
      by rewrite option_fmap_id.
    + by rewrite (touched_next i) by (done || congruence).
  - eexists. split; [done|]. split; [done|]. intros j.
    rewrite touched_past by lia. by rewrite option_fmap_id.
Qed.

(** ** The benchmark is safe, terminates and has a known effect *)

Lemma crc_counts_range (fc tc : list Z) (crc : Z) : in_u 16 crc -> in_u 16 (crc_counts fc tc crc).
Proof. intros. unfold crc_counts. simpl. auto 20 with cint. Qed.

(** The two last bytes of an initialised block are zero, and a stride of at
    least two leaves one of them untouched. *)
Definition terminated (blksize : Z) (mem : list Z) : Prop :=
  2 <= blksize /\ Z.of_nat (length mem) = blksize /\
  mem !! Z.to_nat (blksize - 2) = Some 0 /\ mem !! Z.to_nat (blksize - 1) = Some 0.

Lemma terminated_zero (blksize : Z) (mem : list Z) : terminated blksize mem -> 0 ∈ mem.
Proof. intros (_ & _ & H & _). by eapply list_elem_of_lookup_2. Qed.

(** A zero byte the stride does not visit survives, so both scans end in the
    block. *)
Lemma bench_state_run_zero (blksize seed1 seed2 step crc : Z) (mem : list Z) (z : nat) :
  Z.of_nat (length mem) = blksize -> 1 <= step -> mem !! z = Some 0 -> touched 0 blksize step z = false ->
  in_u 16 crc ->
  exists crc' mem', core_bench_state blksize mem seed1 seed2 step crc = Ok (crc', mem') /\
    in_u 16 crc' /\ length mem' = length mem /\
    forall j, mem' !! j =
      (if touched 0 blksize step j then xor_cell seed2 ∘ xor_cell seed1 else id) <$> mem !! j.
Proof.
  intros Hl Hs Hz Ht Hc. unfold core_bench_state.
  assert (forall (m : list Z) (seed : Z), (forall j, m !! j = (if touched 0 blksize step j then xor_cell seed else id) <$> mem !! j)
            -> 0 ∈ m) as Hzero.
  { intros m seed Hm. apply (list_elem_of_lookup_2 _ z). by rewrite Hm, Ht, Hz. }
  remember (S (length mem)) as fuel eqn:Ef. remember (S (Z.to_nat blksize)) as fuel' eqn:Ef'.
  destruct (scan_terminated fuel mem (replicate NUM_CORE_STATES 0)
    (replicate NUM_CORE_STATES 0) ltac:(by eapply list_elem_of_lookup_2) ltac:(lia)) as [[fc tc] ->]. simpl.
  destruct (corrupt_spec fuel' mem 0 blksize step seed1) as (m1 & -> & L1 & H1); [lia..|]. simpl.
  destruct (scan_terminated fuel m1 fc tc (Hzero _ _ H1) ltac:(lia)) as [[fc' tc'] ->]. simpl.
  destruct (corrupt_spec fuel' m1 0 blksize step seed2) as (m2 & -> & L2 & H2); [lia..|]. simpl.
  eexists _, m2. split; [done|]. split; [by apply crc_counts_range|]. split; [lia|].
  intros j. rewrite H2, H1. destruct (touched 0 blksize step j); by destruct (mem !! j).
Qed.

(** A stride of at least two misses one of two neighbouring bytes. *)
Lemma untouched_zero (blksize step : Z) (mem : list Z) :
  terminated blksize mem -> 2 <= step ->
  exists z, mem !! z = Some 0 /\ touched 0 blksize step z = false.
Proof.
  intros (Hb & _ & H2 & H1) Hs.
  destruct (touched 0 blksize step (Z.to_nat (blksize - 2))) eqn:T; [|by eauto].
  exists (Z.to_nat (blksize - 1)). split; [done|].
  unfold touched in *. rewrite !Z2Nat.id, !Z.sub_0_r in * by lia.
  apply andb_prop in T as [_ T]. apply Z.eqb_eq in T.
  assert ((blksize - 1) mod step = 1) as ->; [|lia].
  replace (blksize - 1) with (blksize - 2 + 1) by lia.
  by rewrite Z.add_mod, T, Z.add_0_l, Z.mod_mod, Z.mod_1_l by lia.
Qed.

Lemma bench_state_run (blksize seed1 seed2 step crc : Z) (mem : list Z) :
  terminated blksize mem -> 2 <= step -> in_u 16 crc ->
  exists crc' mem', core_bench_state blksize mem seed1 seed2 step crc = Ok (crc', mem') /\
    in_u 16 crc' /\ length mem' = length mem /\
    forall j, mem' !! j =
      (if touched 0 blksize step j then xor_cell seed2 ∘ xor_cell seed1 else id) <$> mem !! j.
Proof.
  intros Ht Hs Hc. destruct (untouched_zero _ _ _ Ht Hs) as (z & Hz & HT). destruct Ht as (_ & Hl & _).
  apply (bench_state_run_zero _ _ _ _ _ _ z); done || lia.
Qed.

(** C5: on a block whose two last bytes are zero, with a stride of at least
    two, the benchmark never reads or writes outside the block and returns; the
    CRC stays a 16-bit value, and the final block is the initial one with each
    visited cell put through both exclusive-ors. *)
Theorem bench_state_safe (blksize seed1 seed2 step crc : Z) (mem : list Z) :
  terminated blksize mem -> 2 <= step -> in_u 16 crc ->
  exists crc' mem', core_bench_state blksize mem seed1 seed2 step crc = Ok (crc', mem') /\
    in_u 16 crc' /\ length mem' = length mem /\
    forall j, mem' !! j =
      (if touched 0 blksize step j then xor_cell seed2 ∘ xor_cell seed1 else id) <$> mem !! j.
Proof.
  apply bench_state_run.
Qed.

Lemma bench_state_safe_witness :
  exists crc' mem', core_bench_state 12 (bytes_of "1.5e+3,-2" ++ [0; 0; 0]) 0x15 0x15 2 0
    = Ok (crc', mem') /\ in_u 16 crc'.
Proof.
  destruct (bench_state_safe 12 0x15 0x15 2 0 (bytes_of "1.5e+3,-2" ++ [0; 0; 0]))
    as (crc' & mem' & E & Hc & _); [by vm_compute|lia|by vm_compute|].
  exists crc', mem'. exact (conj E Hc).
Defined.

(** The second pass undoes the first one on a byte unless that made a comma of
    it, which the second pass skips. *)
Lemma xor_cell_undo (seed c : Z) :
  xor_cell seed (xor_cell seed c) = c <-> (c <> 44 -> Z.lxor c (u8 seed) <> 44).
Proof.
  unfold xor_cell. zcase (c =? 44); [subst c; by split|].
  zcase (Z.lxor c (u8 seed) =? 44).
  - rewrite E0. split; [congruence|]. intros H. by destruct (H E).
  - by rewrite Z.lxor_assoc, Z.lxor_nilpotent, Z.lxor_0_r.
Qed.

(** C6: when both seeds are equal, the benchmark gives the block back
    unchanged exactly when no visited byte is turned into a comma by the seed:
    the undo loop skips commas, so such a byte keeps its corruption. *)
Theorem bench_state_restores (blksize seed step crc : Z) (mem : list Z) :
  terminated blksize mem -> 2 <= step -> in_u 16 crc ->
  exists crc' mem', core_bench_state blksize mem seed seed step crc = Ok (crc', mem') /\
    (mem' = mem <-> forall j c, touched 0 blksize step j = true -> mem !! j = Some c -> c <> 44 ->
      Z.lxor c (u8 seed) <> 44).
Proof.
  intros Ht Hs Hc.
  destruct (bench_state_run blksize seed seed step crc mem Ht Hs Hc)
    as (crc' & mem' & E & _ & _ & Hm).
  exists crc', mem'. split; [done|]. split.
  - intros -> j c HT Hj. specialize (Hm j). rewrite HT, Hj in Hm. apply xor_cell_undo.
    injection Hm as Hm. by symmetry.
  - intros Hk. apply list_eq. intros j. rewrite Hm.
    destruct (touched 0 blksize step j) eqn:T; destruct (mem !! j) as [c|] eqn:Ej; simpl; try done.
    f_equal. apply xor_cell_undo. eauto.
Qed.

Lemma bench_state_restores_witness :
  exists crc' mem', core_bench_state 12 (bytes_of "1.5e+3,-2" ++ [0; 0; 0]) 0x15 0x15 2 0
    = Ok (crc', mem') /\ mem' = bytes_of "1.5e+3,-2" ++ [0; 0; 0].
Proof.
  destruct (bench_state_restores 12 0x15 2 0 (bytes_of "1.5e+3,-2" ++ [0; 0; 0]))
    as (crc' & mem' & E & Hm); [by vm_compute|lia|by vm_compute|].
  exists crc', mem'. split; [exact E|]. apply Hm.
  intros j c _ Hj Hc. apply list_elem_of_lookup_2 in Hj. revert c Hj Hc.
  apply (proj1 (Forall_forall (fun c => c <> 44 -> Z.lxor c (u8 0x15) <> 44) _)).
  by repeat constructor.
Defined.

(** An instance where equal seeds do not undo the corruption: the byte
    8 becomes a comma under the seed 0x14 and stays one. *)
Theorem bench_state_undo_incomplete :
  exists crc mem', core_bench_state 4 (bytes_of "8." ++ [0; 0]) 0x14 0x14 4 0 = Ok (crc, mem') /\
    mem' <> bytes_of "8." ++ [0; 0].
Proof. eexists _, _. split; [vm_compute; reflexivity|done]. Qed.

(** ** The initialised block *)

(** The patterns in the order of the seed: its low three bits select the kind
    and the next two one of the four of that kind. *)
Definition pattern_table : list (list (list Z)) :=
  [intpat; intpat; intpat; floatpat; floatpat; scipat; scipat; errpat].
Definition pattern (seed : Z) : list Z :=
  nth (Z.to_nat (seed / 8 mod 4)) (nth (Z.to_nat (seed mod 8)) pattern_table []) [].

(** The tokens of a block: those of the seeds that follow. *)
Definition tokens (seed : Z) (k : nat) : list (list Z) := (fun i => pattern (seed + 1 + Z.of_nat i)) <$> seq 0 k.

Lemma tokens_snoc (seed : Z) (k : nat) : tokens seed (S k) = tokens seed k ++ [pattern (seed + 1 + Z.of_nat k)].
Proof. unfold tokens. by rewrite seq_S, fmap_app. Qed.

(** The tokens, each followed by a comma. *)
Definition blocks (toks : list (list Z)) : list Z := foldr (fun t acc => t ++ 44 :: acc) [] toks.

Lemma blocks_snoc (toks : list (list Z)) (t : list Z) :
  blocks (toks ++ [t]) = blocks toks ++ t ++ [44].
Proof.
  induction toks as [|u toks IH]; simpl; [done|]. unfold blocks in *. by rewrite IH, <- app_assoc.
Qed.

Lemma pattern_length (seed : Z) : length (pattern seed) = 4%nat \/ length (pattern seed) = 8%nat.
Proof.
  unfold pattern. pose proof (Z.mod_pos_bound seed 8 ltac:(lia)) as H8. pose proof (Z.mod_pos_bound (seed / 8) 4 ltac:(lia)) as H4.
  generalize dependent (seed mod 8). generalize dependent (seed / 8 mod 4). intros k Hk c Hc.
  assert (allb 8 (fun c => allb 4 (fun k => let n := length (nth (Z.to_nat k) (nth (Z.to_nat c) pattern_table []) []) in (n =? 4)%nat || (n =? 8)%nat)) = true) as C by (by vm_compute).
  pose proof (allb_spec _ _ c C Hc) as B. cbn beta in B. pose proof (allb_spec _ _ k B Hk) as B'. cbv beta zeta in B'.
  apply orb_prop in B' as [B' | B']; apply Nat.eqb_eq in B'; auto.
Qed.

(** The pattern depends on the low five bits only, which the wrap-around of the
    16-bit seed keeps. *)
Lemma pattern_mod (x y : Z) : x mod 32 = y mod 32 -> pattern x = pattern y.
Proof.
  assert (forall x, x / 8 mod 4 = x mod 32 / 8 /\ x mod 8 = (x mod 32) mod 8) as E.
  { intros z. change 32 with (8 * 4). rewrite Z.rem_mul_r by lia. split.
    - rewrite Z.mul_comm, Z.div_add, (Z.div_small (z mod 8)) by (lia || apply Z.mod_pos_bound; lia). done.
    - rewrite Z.mul_comm, Z.mod_add, Z.mod_mod by lia. done. }
  intros H. unfold pattern. destruct (E x) as [-> ->], (E y) as [-> ->]. by rewrite H.
Qed.

Lemma select_pattern_spec (seed : Z) : select_pattern seed = (pattern seed, Z.of_nat (length (pattern seed))).
Proof.
  unfold select_pattern, pattern.
  assert (Z.land (Z.shiftr seed 3) 3 = seed / 8 mod 4) as -> by (transitivity (Z.shiftr seed 3 mod 4); [by apply (Z.land_ones _ 2)|by rewrite Z.shiftr_div_pow2]).
  assert (Z.land seed 7 = seed mod 8) as -> by (by apply (Z.land_ones _ 3)).
  pose proof (Z.mod_pos_bound seed 8 ltac:(lia)) as H8. pose proof (Z.mod_pos_bound (seed / 8) 4 ltac:(lia)) as H4.
  generalize dependent (seed mod 8). generalize dependent (seed / 8 mod 4). intros k Hk c Hc.
  set (f c k := if c <=? 2 then (nth (Z.to_nat k) intpat [], 4) else if c <=? 4 then (nth (Z.to_nat k) floatpat [], 8)
    else if c <=? 6 then (nth (Z.to_nat k) scipat [], 8) else (nth (Z.to_nat k) errpat [], 8)).
  set (g c k := nth (Z.to_nat k) (nth (Z.to_nat c) pattern_table []) []). change (f c k = (g c k, Z.of_nat (length (g c k)))).
  assert (allb 8 (fun c => allb 4 (fun k => bool_decide (f c k = (g c k, Z.of_nat (length (g c k)))))) = true) as C by (by vm_compute).
  pose proof (allb_spec _ _ c C Hc) as B. cbn beta in B. pose proof (allb_spec _ _ k B Hk) as B'. cbv beta in B'.
  by apply bool_decide_eq_true in B'.
Qed.

Lemma aset_app (dn tl : list Z) (x b : Z) :
  aset (dn ++ x :: tl) (Z.of_nat (length dn)) b = Ok (dn ++ b :: tl).
Proof.
  rewrite aset_in_range by (rewrite length_app; simpl; lia).
  rewrite Nat2Z.id, insert_app_r_alt by lia. by rewrite Nat.sub_diag.
Qed.

Lemma copy_pattern_spec (b2 b1 dn rest : list Z) :
  (length b2 <= length rest)%nat ->
  copy_pattern (length b2) (Z.of_nat (length b1)) (dn ++ b1 ++ rest) (b1 ++ b2)
    (Z.of_nat (length dn)) = Ok (dn ++ b1 ++ b2 ++ drop (length b2) rest).
Proof.
  revert b1 rest. induction b2 as [|b b2 IH]; intros b1 rest Hl; simpl in *.
  - done.
  - destruct rest as [|x rest]; simpl in *; [lia|].
    rewrite (aget_Some _ _ b) by (lia || (rewrite Nat2Z.id; by apply list_lookup_middle)). simpl.
    rewrite <- Nat2Z.inj_add, <- length_app, (app_assoc dn), aset_app. simpl.
    pose proof (IH (b1 ++ [b]) rest ltac:(lia)) as H.
    rewrite <- !app_assoc in H. simpl in H. rewrite length_app in H. simpl in H.
    rewrite <- app_assoc. rewrite Nat2Z.inj_add in H. exact H.
Qed.

Lemma zero_fill_spec (n : nat) (dn tl : list Z) :
  (n <= length tl)%nat ->
  zero_fill n (dn ++ tl) (Z.of_nat (length dn)) = Ok (dn ++ replicate n 0 ++ drop n tl).
Proof.
  revert dn tl. induction n as [|n IH]; intros dn tl Hl; simpl; [done|].
  destruct tl as [|x tl]; simpl in *; [lia|]. rewrite aset_app. simpl.
  pose proof (IH (dn ++ [0]) tl ltac:(lia)) as H. rewrite length_app, <- !app_assoc in H.
  simpl in H. by rewrite Nat2Z.inj_add in H.
Qed.

Lemma seed_step (seed seed0 : Z) (k : nat) :
  seed mod 32 = (seed0 + 1 + Z.of_nat k) mod 32 -> s16 (seed + 1) mod 32 = (seed0 + 1 + Z.of_nat (S k)) mod 32.
Proof.
  intros H. transitivity ((seed + 1) mod 32); [apply (uwrap_swrap 5 16); lia|].
  rewrite Z.add_mod, H, <- Z.add_mod by lia. f_equal. lia.
Qed.

(** The loop adds tokens as long as the next one and its comma leave a byte
    of [size]; the first round, with [next = 0], adds none.  [buf] is the token
    of the seed. *)
Lemma init_loop_spec (fuel : nat) (size seed0 total seed : Z) (k : nat) (tl : list Z) :
  size < 2 ^ 31 -> seed mod 32 = (seed0 + 1 + Z.of_nat k) mod 32 ->
  total = Z.of_nat (length (blocks (tokens seed0 k))) -> total < size ->
  size < Z.of_nat (length (blocks (tokens seed0 k) ++ tl)) -> size - total <= Z.of_nat fuel ->
  exists k' tl', let bs := blocks (tokens seed0 k') in
    init_loop fuel size total (Z.of_nat (length (pattern seed))) seed (pattern seed) (blocks (tokens seed0 k) ++ tl)
      = Ok (Z.of_nat (length bs), bs ++ tl') /\
    Z.of_nat (length bs) < size <= Z.of_nat (length bs) + Z.of_nat (length (pattern (seed0 + 1 + Z.of_nat k'))) + 1 /\
    length (bs ++ tl') = length (blocks (tokens seed0 k) ++ tl).
Proof.
  revert total seed k tl.
  induction fuel as [|fuel IH]; intros total seed k tl Hsz Hseed Htot Hlt Hlen Hf; [lia|].
  pose proof (pattern_mod _ _ Hseed) as Hpat.
  pose proof (pattern_length seed) as Hl. cbn [init_loop]. rewrite uwrap_small by (unfold in_u; lia).
  zcase (total + Z.of_nat (length (pattern seed)) + 1 <? size);
    [|exists k, tl; rewrite <- Hpat; split; [by rewrite Htot|lia]].
  zcase (0 <? Z.of_nat (length (pattern seed))); [|lia]. rewrite length_app in Hlen.
  pose proof (copy_pattern_spec (pattern seed) [] (blocks (tokens seed0 k)) tl ltac:(lia)) as Hcp.
  change (Z.of_nat (length [])) with 0 in Hcp. cbn [app] in Hcp.
  rewrite Nat2Z.id, Htot, Hcp. cbn [mbind outcome_bind].
  destruct (drop (length (pattern seed)) tl) as [|x rest] eqn:Ed.
  { apply (f_equal length) in Ed. rewrite length_drop in Ed. simpl in Ed. lia. }
  rewrite <- Nat2Z.inj_add, <- length_app, app_assoc, aset_app. cbn [mbind outcome_bind mret outcome_ret].
  rewrite uwrap_small by (unfold in_u; lia). rewrite select_pattern_spec.
  apply (f_equal length) in Ed. rewrite length_drop in Ed. simpl in Ed.
  replace ((blocks (tokens seed0 k) ++ pattern seed) ++ 44 :: rest) with (blocks (tokens seed0 (S k)) ++ rest)
    by (rewrite tokens_snoc, blocks_snoc, <- Hpat, <- !app_assoc; done).
  assert (length (blocks (tokens seed0 (S k)) ++ rest) = length (blocks (tokens seed0 k) ++ tl)) as El.
  { rewrite tokens_snoc, blocks_snoc, <- Hpat, !length_app. simpl. lia. }
  rewrite <- El. apply IH.
  - done.
  - by apply seed_step.
  - rewrite tokens_snoc, blocks_snoc, <- Hpat, !length_app. simpl. lia.
  - lia.
  - rewrite El, length_app. lia.
  - lia.
Qed.

(** C8: [core_init_state] fills a block of 2 to 2^31 - 1 bytes, from any seed,
    without leaving it.  The i-th token is the pattern that seed + 1 + i selects
    (kind by its low three bits, one of four by the next two), each token is
    followed by a comma, and there are as many as leave two bytes: one more
    would not fit.  The rest, at least two bytes, is zero, which is what the
    benchmark needs to stay inside the block. *)
Theorem init_state_block (size seed : Z) (mem : list Z) :
  2 <= size < 2 ^ 31 -> Z.of_nat (length mem) = size ->
  exists k n, let block := blocks (tokens seed k) ++ replicate n 0 in
    core_init_state size seed mem = Ok block /\ terminated size block /\
    (2 <= n < length (pattern (seed + 1 + Z.of_nat k)) + 3)%nat.
Proof.
  intros Hs Hl. unfold core_init_state.
  rewrite (uwrap_small 32 (size - 1)) by (unfold in_u; lia).
  assert (exists k tl, let bs := blocks (tokens seed k) in
    init_loop (S (Z.to_nat (size - 1))) (size - 1) 0 0 seed [] mem = Ok (Z.of_nat (length bs), bs ++ tl) /\
    Z.of_nat (length bs) < size - 1 <= Z.of_nat (length bs) + Z.of_nat (length (pattern (seed + 1 + Z.of_nat k))) + 1 /\
    length (bs ++ tl) = length mem) as (k & tl & E & Hk & Hlen).
  { cbn [init_loop]. rewrite uwrap_small by (unfold in_u; lia). pose proof (pattern_length (seed + 1 + Z.of_nat 0)).
    zcase (0 + 0 + 1 <? size - 1); [|exists 0%nat, mem; split; [done|]; cbn [blocks tokens fmap list_fmap seq foldr length app]; lia].
    rewrite select_pattern_spec. cbn [Z.ltb Z.compare mbind outcome_bind mret outcome_ret].
    apply (init_loop_spec (Z.to_nat (size - 1)) (size - 1) seed 0 (s16 (seed + 1)) 0 mem); try (simpl; lia).
    rewrite Z.add_0_r. apply (uwrap_swrap 5 16); lia. }
  rewrite E. cbn [mbind outcome_bind]. clear E. rewrite length_app in Hlen.
  rewrite uwrap_small by (unfold in_u; lia). replace (size - 1 + 1) with size by lia.
  rewrite zero_fill_spec by lia.
  remember (Z.to_nat (size - Z.of_nat (length (blocks (tokens seed k))))) as n eqn:En.
  assert (length tl = n) as Etl by lia. rewrite (drop_ge tl n), app_nil_r by lia.
  exists k, n. split; [done|]. split; [|lia].
  split; [lia|]. split; [rewrite length_app, length_replicate; lia|].
  split; rewrite lookup_app_r by lia; apply lookup_replicate_2; lia.
Qed.

Lemma init_state_block_witness :
  exists k n, core_init_state 40 7 (replicate 40 255) = Ok (blocks (tokens 7 k) ++ replicate n 0) /\
    terminated 40 (blocks (tokens 7 k) ++ replicate n 0).
Proof.
  destruct (init_state_block 40 7 (replicate 40 255)) as (k & n & E & Ht & _);
    [lia|by vm_compute|]. exists k, n. exact (conj E Ht).
Defined.

End State.
