(* ===== verification/CoreMatrix.v ===== *)
(** * The CoreMark matrix kernel ([guests/coremark/core_matrix.c])

    Matrix arithmetic on 16-bit data with 32-bit results, the benchmark around
    it and the layout of the three matrices in a memory block.  Theorems: the
    product kernels compute the mathematical products modulo [2 ^ 32] (and
    exactly, for initialised matrices), [matrix_test] gives its operand back,
    and the chosen dimension is the largest whose matrices leave a byte of the
    block. *)

From S2P Require Import Prelude CoreUtil.

Module Matrix.
Import Crc.

(** ** The macros *)

Definition matrix_clip (x y : Z) : Z := if negb (y =? 0) then Z.land x 0x0ff else Z.land x 0x0ffff.
Definition matrix_big (x : Z) : Z := Z.lor 0xf000 x.
Definition bit_extract (x from to : Z) : Z :=
  Z.land (u32 (Z.shiftr x from)) (u32 (Z.lnot (u32 (Z.shiftl 0xffffffff to)))).
Definition align_mem (x : Z) : Z := u64 (4 + Z.land (u64 (x - 1)) (u64 (Z.lnot 3))).

(** The index expression [i * N + j] in [ee_u32]. *)
Definition ix (N i j : Z) : Z := u32 (i * N + j).

(** ** The kernels

    An array parameter that is only read is a list; an array that is written
    is threaded through and returned. *)

Definition matrix_add_const (N : Z) (A : list Z) (val : Z) : outcome (list Z) :=
  oloop 0 N (fun i => oloop 0 N (fun j A =>
    a ← aget A (ix N i j);
    aset A (ix N i j) (s16 (a + val)))) A.

Definition matrix_mul_const (N : Z) (C A : list Z) (val : Z) : outcome (list Z) :=
  oloop 0 N (fun i => oloop 0 N (fun j C =>
    a ← aget A (ix N i j);
    aset C (ix N i j) (s32 (a * val)))) C.

Definition matrix_mul_vect (N : Z) (C A B : list Z) : outcome (list Z) :=
  oloop 0 N (fun i C =>
    C ← aset C i 0;
    oloop 0 N (fun j C =>
      a ← aget A (ix N i j);
      b ← aget B j;
      c ← aget C i;
      aset C i (s32 (c + s32 (a * b)))) C) C.

Definition matrix_mul_matrix (N : Z) (C A B : list Z) : outcome (list Z) :=
  oloop 0 N (fun i => oloop 0 N (fun j C =>
    C ← aset C (ix N i j) 0;
    oloop 0 N (fun k C =>
      a ← aget A (ix N i k);
      b ← aget B (ix N k j);
      c ← aget C (ix N i j);
      aset C (ix N i j) (s32 (c + s32 (a * b)))) C)) C.

Definition matrix_mul_matrix_bitextract (N : Z) (C A B : list Z) : outcome (list Z) :=
  oloop 0 N (fun i => oloop 0 N (fun j C =>
    C ← aset C (ix N i j) 0;
    oloop 0 N (fun k C =>
      a ← aget A (ix N i k);
      b ← aget B (ix N k j);
      let tmp := s32 (a * b) in
      c ← aget C (ix N i j);
      aset C (ix N i j) (s32 (c + u32 (bit_extract tmp 2 4 * bit_extract tmp 5 7)))) C)) C.

(** The loop variables of [matrix_sum]: [tmp], [prev] and [ret]. *)
Definition matrix_sum (N : Z) (C : list Z) (clipval : Z) : outcome Z :=
  ' (tmp, prev, ret) ←
    oloop 0 N (fun i => oloop 0 N (fun j '(tmp, prev, ret) =>
      cur ← aget C (ix N i j);
      let tmp := s32 (tmp + cur) in
      if clipval <? tmp then mret (0, cur, s16 (ret + 10))
      else mret (tmp, cur, s16 (ret + (if prev <? cur then 1 else 0))))) (0, 0, 0);
  mret ret.

(** ** The test and the benchmark *)

(** Returns the CRC and the final contents of [A] and [C]. *)
Definition matrix_test (N : Z) (C A B : list Z) (val : Z) : outcome (Z * list Z * list Z) :=
  let crc := 0 in
  let clipval := s16 (matrix_big val) in
  A ← matrix_add_const N A val;
  C ← matrix_mul_const N C A val;
  sum ← matrix_sum N C clipval;
  let crc := crc16 sum crc in
  C ← matrix_mul_vect N C A B;
  sum ← matrix_sum N C clipval;
  let crc := crc16 sum crc in
  C ← matrix_mul_matrix N C A B;
  sum ← matrix_sum N C clipval;
  let crc := crc16 sum crc in
  C ← matrix_mul_matrix_bitextract N C A B;
  sum ← matrix_sum N C clipval;
  let crc := crc16 sum crc in
  A ← matrix_add_const N A (s16 (- val));
  mret (s16 crc, A, C).

(** [struct MAT_PARAMS_S], with the addresses and the contents of the arrays. *)
Record mat_params := MatParams {
  N : Z;
  addr_A : Z; addr_B : Z; addr_C : Z;
  A : list Z; B : list Z; C : list Z
}.

Definition core_bench_matrix (p : mat_params) (seed crc : Z) : outcome (Z * mat_params) :=
  let val := s16 seed in
  ' (t, A', C') ← matrix_test (N p) (C p) (A p) (B p) val;
  mret (crc16 t crc, MatParams (N p) (addr_A p) (addr_B p) (addr_C p) A' (B p) C').

(** ** Initialisation ([core_init_matrix]) *)

(** [while (j < blksize) { i++; j = i * i * 2 * 4; }] *)
Fixpoint dim_loop (fuel : nat) (i j blksize : Z) : outcome Z :=
  match fuel with
  | O => Fuel
  | S fuel =>
    if j <? blksize then
      let i := u32 (i + 1) in dim_loop fuel i (u32 (i * i * 2 * 4)) blksize
    else mret i
  end.

(** The body of the fill loops on [A], [B], [order] and [seed]; the arithmetic
    is on [int], whose overflow is undefined. *)
Definition fill_cell (N i j : Z) (s : list Z * list Z * Z * Z) : outcome (list Z * list Z * Z * Z) :=
  let '(A, B, order, seed) := s in
  prod ← sint (order * seed);
  let seed := Z.rem prod 65536 in
  sum ← sint (seed + order);
  let val := s16 sum in
  let val := s16 (matrix_clip val 0) in
  B ← aset B (ix N i j) val;
  sum ← sint (val + order);
  let val := s16 sum in
  let val := s16 (matrix_clip val 1) in
  A ← aset A (ix N i j) val;
  order ← sint (order + 1);
  mret (A, B, order, seed).

(** The fill loops overwrite every cell of [A] and [B], so what the block held
    there does not matter; [C0] is what it holds in the cells of [C], which the
    initialisation leaves alone. *)
Definition core_init_matrix (fuel : nat) (blksize memblk seed : Z) (C0 : list Z)
  : outcome (Z * mat_params) :=
  let seed := if seed =? 0 then 1 else seed in
  i ← dim_loop fuel 0 0 blksize;
  let N := u32 (i - 1) in
  let a := align_mem memblk in
  let b := u64 (a + 2 * u32 (N * N)) in
  let cells := replicate (Z.to_nat (N * N)) 0 in
  ' (A, B, order, seed) ←
    oloop 0 N (fun i => oloop 0 N (fun j => fill_cell N i j)) (cells, cells, 1, seed);
  mret (N, MatParams N a b (align_mem (u64 (b + 2 * u32 (N * N)))) A B C0).

(** ** Row-major loops *)

(** The sum of [f k] for [lo <= k < lo + n]. *)
Fixpoint zsum (n : nat) (lo : Z) (f : Z -> Z) : Z :=
  match n with O => 0 | S n => f lo + zsum n (lo + 1) f end.

Lemma zsum_snoc (n : nat) (lo : Z) (f : Z -> Z) :
  zsum (S n) lo f = zsum n lo f + f (lo + Z.of_nat n).
Proof.
  revert lo. induction n as [|n IH]; intros lo.
  { cbn [zsum]. change (Z.of_nat 0) with 0. rewrite (Z.add_0_r lo). lia. }
  change (zsum (S (S n)) lo f) with (f lo + zsum (S n) (lo + 1) f).
  rewrite IH. cbn [zsum]. rewrite Nat2Z.inj_succ.
  replace (lo + 1 + Z.of_nat n) with (lo + Z.succ (Z.of_nat n)) by lia. lia.
Qed.

Lemma zsum_ext (n : nat) (lo : Z) (f g : Z -> Z) :
  (forall k, lo <= k < lo + Z.of_nat n -> f k = g k) -> zsum n lo f = zsum n lo g.
Proof.
  revert lo. induction n as [|n IH]; intros lo H; simpl; [done|].
  rewrite H by lia. f_equal. apply IH. intros. apply H. lia.
Qed.

Lemma zsum_bound (n : nat) (lo b : Z) (f : Z -> Z) :
  (forall k, lo <= k < lo + Z.of_nat n -> Z.abs (f k) <= b) -> Z.abs (zsum n lo f) <= Z.of_nat n * b.
Proof.
  revert lo. induction n as [|n IH]; intros lo H; [done|]. cbn [zsum].
  specialize (IH (lo + 1) ltac:(intros; apply H; lia)). specialize (H lo ltac:(lia)). lia.
Qed.

Section Loops.
Context (n : Z) (Hn : 0 <= n < 2 ^ 16).

Lemma ix_small (i j : Z) : 0 <= i < n -> 0 <= j < n -> ix n i j = i * n + j.
Proof. intros. apply uwrap_small. unfold in_u. nia. Qed.

Lemma cell_range (i j : Z) : 0 <= i < n -> 0 <= j < n -> 0 <= i * n + j < n * n.
Proof. intros. nia. Qed.

(** The cells before position [p] have been updated, the others not. *)
Definition upto (g : Z -> Z -> Z -> Z) (p : Z) (l : list Z) : list Z :=
  imap (fun k c => if Z.of_nat k <? p then g (Z.of_nat k / n) (Z.of_nat k mod n) c else c) l.

Lemma upto_length g p l : length (upto g p l) = length l.
Proof. apply length_imap. Qed.

Lemma upto_lookup g p l k :
  upto g p l !! k =
  (fun c => if Z.of_nat k <? p then g (Z.of_nat k / n) (Z.of_nat k mod n) c else c) <$> l !! k.
Proof. apply list_lookup_imap. Qed.

Lemma upto_0 g l : upto g 0 l = l.
Proof.
  apply list_eq. intros k. rewrite upto_lookup. destruct (l !! k); simpl; [|done].
  by rewrite (proj2 (Z.ltb_ge _ _)) by lia.
Qed.

Lemma upto_step g i j l :
  0 <= i < n -> 0 <= j < n ->
  alter (g i j) (Z.to_nat (i * n + j)) (upto g (i * n + j) l) = upto g (i * n + (j + 1)) l.
Proof.
  intros Hi Hj. apply list_eq. intros k. rewrite list_lookup_alter, !upto_lookup.
  case_decide as E.
  - subst k. rewrite !Z2Nat.id by nia. destruct (l !! _); simpl; [|done].
    rewrite (proj2 (Z.ltb_ge _ _)), (proj2 (Z.ltb_lt _ _)) by lia.
    rewrite Z.div_add_l, Z.div_small, Z.add_0_r by lia.
    by rewrite Z.add_comm, Z.mod_add, Z.mod_small by lia.
  - destruct (l !! k); simpl; [|done].
    replace (Z.of_nat k <? i * n + (j + 1)) with (Z.of_nat k <? i * n + j) by lia. done.
Qed.

(** A double loop whose body updates the cell of its indices updates the
    whole matrix. *)
Lemma row_major (body : Z -> Z -> list Z -> outcome (list Z)) (g : Z -> Z -> Z -> Z) (l : list Z) :
  n * n <= Z.of_nat (length l) ->
  (forall i j l', 0 <= i < n -> 0 <= j < n -> length l' = length l ->
    body i j l' = Ok (alter (g i j) (Z.to_nat (i * n + j)) l')) ->
  oloop 0 n (fun i => oloop 0 n (body i)) l = Ok (upto g (n * n) l).
Proof.
  intros Hl Hb.
  assert (owp (oloop 0 n (fun i => oloop 0 n (body i)) l) (fun l' => l' = upto g (n * n) l)) as H.
  { apply (oloop_inv 0 n _ (fun i l' => l' = upto g (i * n) l)); [lia|by rewrite upto_0|].
    intros i l' Hi ->.
    eapply owp_mono; [apply (oloop_inv 0 n _ (fun j l' => l' = upto g (i * n + j) l)); [lia|..]|].
    - by rewrite Z.add_0_r.
    - intros j l' Hj ->. rewrite Hb by (rewrite ?upto_length; done || lia). red.
      by apply upto_step.
    - intros l' ->. f_equal. lia. }
  apply owp_ok in H as (l' & -> & ->). done.
Qed.

(** Accumulating into one cell. *)
Lemma accumulate (p : nat) (term : Z -> Z) (body : Z -> list Z -> outcome (list Z)) (l : list Z) (c : Z) :
  l !! p = Some c ->
  (forall k l' c', 0 <= k < n -> length l' = length l -> l' !! p = Some c' ->
    body k l' = Ok (<[p := s32 (c' + term k)]> l')) ->
  oloop 0 n body (<[p := 0]> l) = Ok (<[p := s32 (zsum (Z.to_nat n) 0 term)]> l).
Proof.
  intros Hp Hb. pose proof (lookup_lt_Some _ _ _ Hp) as Hlt.
  assert (owp (oloop 0 n body (<[p := 0]> l))
    (fun l' => l' = <[p := s32 (zsum (Z.to_nat n) 0 term)]> l)) as H.
  { apply (oloop_inv 0 n _ (fun k l' => l' = <[p := s32 (zsum (Z.to_nat k) 0 term)]> l)); [lia|done|].
    intros k l' Hk ->.
    rewrite (Hb k _ (s32 (zsum (Z.to_nat k) 0 term)))
      by (rewrite ?length_insert, ?list_lookup_insert_eq; done || lia). red.
    rewrite list_insert_insert_eq, swrap_add_l by lia.
    replace (Z.to_nat (k + 1)) with (S (Z.to_nat k)) by lia.
    by rewrite zsum_snoc, Z2Nat.id, Z.add_0_l by lia. }
  apply owp_ok in H as (l' & -> & ->). done.
Qed.
End Loops.

(** ** What the kernels compute *)

(** The entry of row [i], column [j] (row-major). *)
Definition entry (n : Z) (l : list Z) (i j : Z) : Z := nth (Z.to_nat (i * n + j)) l 0.

Lemma aget_entry (n : Z) (l : list Z) (i j : Z) :
  0 <= n < 2 ^ 16 -> n * n <= Z.of_nat (length l) -> 0 <= i < n -> 0 <= j < n ->
  aget l (ix n i j) = Ok (entry n l i j).
Proof.
  intros Hn Hl Hi Hj. rewrite ix_small by done. pose proof (cell_range n Hn i j Hi Hj).
  destruct (aget_in_range l (i * n + j)) as (x & Hx & ->); [lia|].
  unfold entry. by rewrite (nth_lookup_Some _ _ _ _ Hx).
Qed.

Section Kernels.
Context (n : Z) (Hn : 0 <= n < 2 ^ 16).
Context (MA MB MC : list Z).
Context (HA : n * n <= Z.of_nat (length MA)) (HB : n * n <= Z.of_nat (length MB))
        (HC : n * n <= Z.of_nat (length MC)).

Lemma cell_exists (l : list Z) (i j : Z) :
  length l = length MC -> 0 <= i < n -> 0 <= j < n ->
  exists c, l !! Z.to_nat (i * n + j) = Some c.
Proof.
  intros Hl Hi Hj. pose proof (cell_range n Hn i j Hi Hj).
  apply lookup_lt_is_Some_2. lia.
Qed.

Lemma mul_const_spec (val : Z) :
  matrix_mul_const n MC MA val
  = Ok (upto n (fun i j _ => s32 (entry n MA i j * val)) (n * n) MC).
Proof.
  apply row_major; [done..|]. intros i j l Hi Hj Hl.
  rewrite aget_entry by done. simpl. rewrite ix_small by done.
  destruct (cell_exists l i j Hl Hi Hj) as [c Hc].
  by apply (aset_alter l (i * n + j) (fun _ => _) c); [nia|].
Qed.

(** Reset the cell, then accumulate: the cell holds the sum. *)
Lemma mul_cell (i j : Z) (l : list Z) (term : Z -> Z) (body : Z -> list Z -> outcome (list Z)) :
  0 <= i < n -> 0 <= j < n -> length l = length MC ->
  (forall k l' c, 0 <= k < n -> length l' = length l -> l' !! Z.to_nat (i * n + j) = Some c ->
    body k l' = Ok (<[Z.to_nat (i * n + j) := s32 (c + term k)]> l')) ->
  (l' ← aset l (ix n i j) 0; oloop 0 n body l')
  = Ok (alter (fun _ => s32 (zsum (Z.to_nat n) 0 term)) (Z.to_nat (i * n + j)) l).
Proof.
  intros Hi Hj Hl Hb. rewrite ix_small by done. pose proof (cell_range n Hn i j Hi Hj).
  destruct (cell_exists l i j Hl Hi Hj) as [c Hc].
  rewrite aset_in_range by lia. simpl.
  rewrite (accumulate n Hn _ term _ _ c Hc); [|done]. by rewrite list_insert_alter.
Qed.

Lemma mul_matrix_spec :
  matrix_mul_matrix n MC MA MB
  = Ok (upto n (fun i j _ => s32 (zsum (Z.to_nat n) 0
      (fun k => s32 (entry n MA i k * entry n MB k j)))) (n * n) MC).
Proof.
  apply row_major; [done..|]. intros i j l Hi Hj Hl. apply mul_cell; [done..|].
  intros k l' c Hk Hl' Hc. pose proof (cell_range n Hn i j Hi Hj).
  rewrite (aget_entry n MA) by done. simpl. rewrite (aget_entry n MB) by done. simpl.
  rewrite ix_small by done.
  rewrite (aget_Some _ _ c) by (done || lia). simpl. rewrite aset_in_range by lia. done.
Qed.

Lemma mul_matrix_bitextract_spec :
  matrix_mul_matrix_bitextract n MC MA MB
  = Ok (upto n (fun i j _ => s32 (zsum (Z.to_nat n) 0
      (fun k => let tmp := s32 (entry n MA i k * entry n MB k j) in
                u32 (bit_extract tmp 2 4 * bit_extract tmp 5 7)))) (n * n) MC).
Proof.
  apply row_major; [done..|]. intros i j l Hi Hj Hl. apply mul_cell; [done..|].
  intros k l' c Hk Hl' Hc. pose proof (cell_range n Hn i j Hi Hj).
  rewrite (aget_entry n MA) by done. simpl. rewrite (aget_entry n MB) by done. simpl.
  rewrite ix_small by done.
  rewrite (aget_Some _ _ c) by (done || lia). simpl. rewrite aset_in_range by lia. done.
Qed.
End Kernels.

(** The first [p] cells hold [g], the others are unchanged. *)
Definition filled (g : Z -> Z) (p : Z) (l : list Z) : list Z :=
  imap (fun k c => if Z.of_nat k <? p then g (Z.of_nat k) else c) l.

Lemma filled_step (g : Z -> Z) (p : Z) (l : list Z) :
  0 <= p -> <[Z.to_nat p := g p]> (filled g p l) = filled g (p + 1) l.
Proof.
  intros Hp. apply list_eq. intros k. unfold filled.
  rewrite list_lookup_insert, length_imap, !list_lookup_imap.
  case_decide as E.
  - destruct E as [<- E].
    destruct (lookup_lt_is_Some_2 l (Z.to_nat p) E) as [c ->]. simpl.
    rewrite Z2Nat.id by lia. by rewrite (proj2 (Z.ltb_lt _ _)) by lia.
  - destruct (l !! k) eqn:Hk; simpl; [|done]. apply lookup_lt_Some in Hk.
    replace (Z.of_nat k <? p + 1) with (Z.of_nat k <? p) by lia. done.
Qed.

Lemma mul_vect_spec (n : Z) (MA MB MC : list Z) :
  0 <= n < 2 ^ 16 -> n * n <= Z.of_nat (length MA) -> n <= Z.of_nat (length MB) ->
  n <= Z.of_nat (length MC) ->
  matrix_mul_vect n MC MA MB
  = Ok (filled (fun i => s32 (zsum (Z.to_nat n) 0
      (fun j => s32 (entry n MA i j * nth (Z.to_nat j) MB 0)))) n MC).
Proof.
  intros Hn HA HB HC. set (g := fun i => s32 _).
  assert (owp (matrix_mul_vect n MC MA MB) (fun l => l = filled g n MC)) as H.
  { apply (oloop_inv 0 n _ (fun i l => l = filled g i MC)); [lia|..].
    { apply list_eq. intros k. unfold filled. rewrite list_lookup_imap.
      destruct (MC !! k); simpl; [|done]. by rewrite (proj2 (Z.ltb_ge _ _)) by lia. }
    intros i l Hi ->.
    assert (length (filled g i MC) = length MC) as Hl by apply length_imap.
    destruct (lookup_lt_is_Some_2 (filled g i MC) (Z.to_nat i)) as [c Hc]; [lia|].
    rewrite aset_in_range by lia. apply owp_bind. red.
    rewrite (accumulate n Hn (Z.to_nat i)
      (fun j => s32 (entry n MA i j * nth (Z.to_nat j) MB 0)) _ _ c Hc).
    { apply (filled_step g i MC). lia. }
    intros j l' c' Hj Hl' Hc'. rewrite (aget_entry n MA) by done. simpl.
    destruct (aget_in_range MB j) as (b & Hb & ->); [lia|]. simpl.
    rewrite (aget_Some _ _ c') by (done || lia). simpl.
    rewrite aset_in_range by lia. by rewrite (nth_lookup_Some _ _ _ _ Hb). }
  apply owp_ok in H as (l & -> & ->). done.
Qed.

Lemma add_const_spec (n : Z) (MA : list Z) (val : Z) :
  0 <= n < 2 ^ 16 -> n * n <= Z.of_nat (length MA) ->
  matrix_add_const n MA val = Ok (upto n (fun _ _ c => s16 (c + val)) (n * n) MA).
Proof.
  intros Hn HA. apply row_major; [done..|]. intros i j l Hi Hj Hl.
  rewrite ix_small by done. pose proof (cell_range n Hn i j Hi Hj).
  destruct (aget_in_range l (i * n + j)) as (c & Hc & ->); [lia|]. simpl.
  by apply (aset_alter l (i * n + j) (fun c => s16 (c + val)) c); [lia|].
Qed.

Lemma matrix_sum_total (n : Z) (MC : list Z) (clipval : Z) :
  0 <= n < 2 ^ 16 -> n * n <= Z.of_nat (length MC) ->
  exists ret, matrix_sum n MC clipval = Ok ret /\ in_s 16 ret.
Proof.
  intros Hn HC. apply owp_ok. unfold matrix_sum. apply owp_bind.
  set (I := fun (_ : Z) (s : Z * Z * Z) => in_s 16 s.2).
  eapply owp_mono; [apply (oloop_inv 0 n _ I); [lia|by vm_compute|]|].
  2:{ intros [[tmp prev] ret] Hret. exact Hret. }
  intros i s Hi Hs. apply (oloop_inv 0 n _ I); [lia|exact Hs|].
  intros j [[tmp prev] ret] Hj Hret. rewrite aget_entry by done. apply owp_bind. red.
  unfold I. zcases; simpl; apply swrap_range; lia.
Qed.

(** Adding a constant and then its opposite is the identity on 16-bit cells. *)
Lemma add_const_undo (n val : Z) (MA : list Z) :
  0 <= n < 2 ^ 16 -> n * n <= Z.of_nat (length MA) -> Forall (in_s 16) MA ->
  matrix_add_const n (upto n (fun _ _ c => s16 (c + val)) (n * n) MA) (s16 (- val)) = Ok MA.
Proof.
  intros Hn HA Hs. rewrite add_const_spec by (rewrite ?upto_length; done). f_equal.
  apply list_eq. intros k. rewrite !upto_lookup. destruct (MA !! k) as [c|] eqn:Hk; simpl; [|done].
  f_equal. zcases; [|done].
  rewrite swrap_add_l, swrap_add_r by lia. replace (c + val + - val) with c by lia.
  apply swrap_small; [lia|]. by eapply Forall_lookup_1 in Hk.
Qed.

(** ** Well-formed parameters and the theorems *)

Definition wf (p : mat_params) : Prop :=
  0 <= N p < 2 ^ 16 /\ Z.of_nat (length (A p)) = N p * N p /\
  Z.of_nat (length (B p)) = N p * N p /\ Z.of_nat (length (C p)) = N p * N p /\
  Forall (in_s 16) (A p) /\ Forall (in_s 16) (B p).

Lemma filled_length (g : Z -> Z) (q : Z) (l : list Z) : length (filled g q l) = length l.
Proof. apply length_imap. Qed.

Lemma matrix_test_run (n val : Z) (MA MB MC : list Z) :
  0 <= n < 2 ^ 16 -> n * n <= Z.of_nat (length MA) -> n * n <= Z.of_nat (length MB) ->
  n * n <= Z.of_nat (length MC) -> Forall (in_s 16) MA ->
  exists crc MC', matrix_test n MC MA MB val = Ok (s16 crc, MA, MC') /\ length MC' = length MC.
Proof.
  intros Hn HA HB HC Hs. unfold matrix_test.
  rewrite add_const_spec by done. cbn [mbind outcome_bind].
  rewrite mul_const_spec by (rewrite ?upto_length; done). cbn [mbind outcome_bind].
  edestruct matrix_sum_total as (s1 & -> & _); [done|rewrite ?upto_length; done|].
  cbn [mbind outcome_bind].
  rewrite mul_vect_spec by (rewrite ?upto_length; done || nia). cbn [mbind outcome_bind].
  edestruct matrix_sum_total as (s2 & -> & _); [done|rewrite ?filled_length, ?upto_length; done|].
  cbn [mbind outcome_bind].
  rewrite mul_matrix_spec by (rewrite ?filled_length, ?upto_length; done). cbn [mbind outcome_bind].
  edestruct matrix_sum_total as (s3 & -> & _);
    [done|rewrite ?upto_length, ?filled_length, ?upto_length; done|]. cbn [mbind outcome_bind].
  rewrite mul_matrix_bitextract_spec by (rewrite ?upto_length, ?filled_length, ?upto_length; done).
  cbn [mbind outcome_bind].
  edestruct matrix_sum_total as (s4 & -> & _);
    [done|rewrite ?upto_length, ?filled_length, ?upto_length; done|]. cbn [mbind outcome_bind].
  rewrite add_const_undo by done. cbn [mbind outcome_bind].
  eexists _, _. split; [reflexivity|]. by rewrite !upto_length, filled_length, upto_length.
Qed.

Lemma bench_matrix_run (p : mat_params) (seed crc : Z) :
  wf p -> in_u 16 crc ->
  exists crc' C', core_bench_matrix p seed crc
      = Ok (crc', MatParams (N p) (addr_A p) (addr_B p) (addr_C p) (A p) (B p) C') /\
    length C' = length (C p) /\ in_u 16 crc'.
Proof.
  intros (Hn & HA & HB & HC & Hs & _) Hc. unfold core_bench_matrix.
  destruct (matrix_test_run (N p) (s16 seed) (A p) (B p) (C p)) as (t & C' & -> & Hl);
    [done|lia..|done|]. cbn [mbind outcome_bind].
  eexists _, C'. split; [reflexivity|]. split; [done|auto with cint].
Qed.

(** C9: a run of the matrix benchmark reads and writes only cells of its
    matrices, and gives back the two operands unchanged: adding [val] and at the
    end its opposite restores every 16-bit entry of [A]. *)
Theorem bench_matrix_restores (p : mat_params) (seed crc : Z) :
  wf p -> in_u 16 crc ->
  exists crc' C', core_bench_matrix p seed crc
      = Ok (crc', MatParams (N p) (addr_A p) (addr_B p) (addr_C p) (A p) (B p) C') /\
    length C' = length (C p) /\ in_u 16 crc'.
Proof. apply bench_matrix_run. Qed.

Definition small_params : mat_params :=
  MatParams 2 0 8 16 [1; 2; 3; -4] [5; 6; 7; 8] [0; 0; 0; 0].

Lemma bench_matrix_restores_witness :
  exists crc' C', core_bench_matrix small_params 0x33 0
    = Ok (crc', MatParams 2 0 8 16 [1; 2; 3; -4] [5; 6; 7; 8] C') /\ in_u 16 crc'.
Proof.
  destruct (bench_matrix_restores small_params 0x33 0) as (crc' & C' & E & _ & Hc).
  - split; [simpl; lia|]. repeat (split; [done|]). split; repeat constructor; done.
  - by vm_compute.
  - exists crc', C'. exact (conj E Hc).
Defined.

(** Wrapping each term does not change the wrapped sum. *)
Lemma zsum_wrap (m : nat) (lo : Z) (f : Z -> Z) :
  s32 (zsum m lo (fun k => s32 (f k))) = s32 (zsum m lo f).
Proof.
  revert lo. induction m as [|m IH]; intros lo; [done|]. cbn [zsum].
  rewrite swrap_add_l by lia. rewrite <- swrap_add_r, IH, swrap_add_r by lia. done.
Qed.

(** The mathematical product of two matrices. *)
Definition dot (n : Z) (MA MB : list Z) (i j : Z) : Z :=
  zsum (Z.to_nat n) 0 (fun k => entry n MA i k * entry n MB k j).

Lemma entry_upto (n : Z) (g : Z -> Z -> Z -> Z) (l : list Z) (i j : Z) :
  0 <= n < 2 ^ 16 -> n * n <= Z.of_nat (length l) -> 0 <= i < n -> 0 <= j < n ->
  entry n (upto n g (n * n) l) i j = g i j (entry n l i j).
Proof.
  intros Hn Hl Hi Hj. pose proof (cell_range n Hn i j Hi Hj) as Hr. unfold entry.
  destruct (lookup_lt_is_Some_2 l (Z.to_nat (i * n + j))) as [c Hc]; [lia|].
  pose proof (upto_lookup n g (n * n) l (Z.to_nat (i * n + j))) as E. rewrite Hc in E. simpl in E.
  rewrite Z2Nat.id in E by lia. rewrite (proj2 (Z.ltb_lt _ _)) in E by lia.
  rewrite Z.div_add_l, Z.div_small, Z.add_0_r in E by lia.
  rewrite Z.add_comm, Z.mod_add, Z.mod_small in E by lia.
  rewrite (Z.add_comm j) in E. by rewrite (nth_lookup_Some _ _ _ _ E), (nth_lookup_Some _ _ _ _ Hc).
Qed.

Lemma mul_matrix_entries (n : Z) (MA MB MC : list Z) :
  0 <= n < 2 ^ 16 -> n * n <= Z.of_nat (length MA) -> n * n <= Z.of_nat (length MB) ->
  n * n <= Z.of_nat (length MC) ->
  exists MC', matrix_mul_matrix n MC MA MB = Ok MC' /\ length MC' = length MC /\
    (forall i j, 0 <= i < n -> 0 <= j < n -> entry n MC' i j = s32 (dot n MA MB i j)) /\
    (forall k, n * n <= Z.of_nat k -> MC' !! k = MC !! k).
Proof.
  intros Hn HA HB HC. rewrite mul_matrix_spec by done.
  eexists. split; [done|]. split; [apply upto_length|]. split.
  - intros i j Hi Hj. rewrite entry_upto by done. apply zsum_wrap.
  - intros k Hk. rewrite upto_lookup. destruct (MC !! k); simpl; [|done].
    by rewrite (proj2 (Z.ltb_ge _ _)) by lia.
Qed.

(** C10: [matrix_mul_matrix] stores in every entry of [C] the dot product of the
    row of [A] and the column of [B] modulo [2 ^ 32], and touches nothing
    beyond the [N * N] entries. *)
Theorem mul_matrix_product (n : Z) (MA MB MC : list Z) :
  0 <= n < 2 ^ 16 -> n * n <= Z.of_nat (length MA) -> n * n <= Z.of_nat (length MB) ->
  n * n <= Z.of_nat (length MC) ->
  exists MC', matrix_mul_matrix n MC MA MB = Ok MC' /\ length MC' = length MC /\
    (forall i j, 0 <= i < n -> 0 <= j < n -> entry n MC' i j = s32 (dot n MA MB i j)) /\
    (forall k, n * n <= Z.of_nat k -> MC' !! k = MC !! k).
Proof. apply mul_matrix_entries. Qed.

Lemma mul_matrix_product_witness :
  exists MC', matrix_mul_matrix 2 [0; 0; 0; 0; 9] [1; 2; 3; 4] [5; 6; 7; 8] = Ok MC' /\
    entry 2 MC' 1 1 = 50 /\ MC' !! 4%nat = Some 9.
Proof.
  destruct (mul_matrix_product 2 [1; 2; 3; 4] [5; 6; 7; 8] [0; 0; 0; 0; 9])
    as (MC' & E & _ & H & Hk); [simpl; lia..|].
  exists MC'. split; [exact E|]. split; [by rewrite H by lia|by rewrite Hk by lia].
Defined.

(** On the matrices the benchmark multiplies (entries of [A] from the
    8-bit initial values plus an 8-bit constant, any 16-bit entries of [B], at
    most 128 rows) no product overflows: the entries of [C] are the exact dot
    products. *)
Theorem mul_matrix_exact (n : Z) (MA MB MC : list Z) :
  0 <= n <= 128 -> Z.of_nat (length MA) = n * n -> Z.of_nat (length MB) = n * n ->
  Z.of_nat (length MC) = n * n ->
  Forall (fun a => 0 <= a <= 510) MA -> Forall (in_s 16) MB ->
  exists MC', matrix_mul_matrix n MC MA MB = Ok MC' /\
    forall i j, 0 <= i < n -> 0 <= j < n -> entry n MC' i j = dot n MA MB i j.
Proof.
  intros Hn HA HB HC HFA HFB.
  destruct (mul_matrix_entries n MA MB MC) as (MC' & E & _ & He & _); [lia..|].
  exists MC'. split; [done|]. intros i j Hi Hj. rewrite He by done.
  assert (forall l (P : Z -> Prop) a b, Z.of_nat (length l) = n * n -> Forall P l ->
    0 <= a < n -> 0 <= b < n -> P (entry n l a b)) as HP.
  { intros l P a b Hl HF Ha Hb. pose proof (cell_range n ltac:(lia) a b Ha Hb).
    destruct (lookup_lt_is_Some_2 l (Z.to_nat (a * n + b))) as [c Hc]; [lia|].
    unfold entry. rewrite (nth_lookup_Some _ _ _ _ Hc). by eapply Forall_lookup_1. }
  apply swrap_small; [lia|].
  pose proof (zsum_bound (Z.to_nat n) 0 (510 * 32768)
    (fun k => entry n MA i k * entry n MB k j)) as Hb.
  fold (dot n MA MB i j) in Hb. unfold in_s. rewrite Z2Nat.id in Hb by lia.
  enough (Z.abs (dot n MA MB i j) <= n * (510 * 32768)) by lia. apply Hb. intros k Hk.
  pose proof (HP MA _ i k HA HFA Hi ltac:(lia)). pose proof (HP MB _ k j HB HFB ltac:(lia) Hj) as Hs.
  unfold in_s in Hs. cbn beta in *. rewrite Z.abs_mul. nia.
Qed.

Lemma mul_matrix_exact_witness :
  exists MC', matrix_mul_matrix 2 [0; 0; 0; 0] [1; 510; 3; 4] [5; 6; -32768; 8] = Ok MC' /\
    entry 2 MC' 0 0 = -16711675.
Proof.
  destruct (mul_matrix_exact 2 [1; 510; 3; 4] [5; 6; -32768; 8] [0; 0; 0; 0])
    as (MC' & E & H); [lia|done|done|done|by repeat constructor|by repeat constructor|].
  exists MC'. split; [exact E|by rewrite H by lia].
Defined.

(** ** Dimension and layout *)

Lemma align_mem_spec (x : Z) :
  1 <= x < 2 ^ 64 - 4 -> align_mem x mod 4 = 0 /\ x <= align_mem x < x + 4.
Proof.
  intros Hx. unfold align_mem.
  assert (Z.land (u64 (x - 1)) (u64 (Z.lnot 3)) = (x - 1) / 4 * 4) as ->.
  { rewrite uwrap_small by (unfold in_u; lia). change 4 with (2 ^ 2).
    rewrite <- Z.shiftl_mul_pow2, <- Z.shiftr_div_pow2 by lia.
    apply Z.bits_inj'. intros k Hk. rewrite Z.land_spec.
    destruct (decide (k < 2)) as [|Hk2].
    - rewrite Z.shiftl_spec_low by lia. unfold uwrap. rewrite Z.mod_pow2_bits_low by lia.
      rewrite Z.lnot_spec by lia. assert (k = 0 \/ k = 1) as [-> | ->] by lia;
        by rewrite andb_false_r.
    - rewrite Z.shiftl_spec, Z.shiftr_spec by lia. replace (k - 2 + 2) with k by lia.
      destruct (decide (k < 64)).
      + unfold uwrap. rewrite Z.mod_pow2_bits_low, Z.lnot_spec by lia.
        rewrite (in_u_bits 2 3) by (done || lia). by rewrite andb_true_r.
      + rewrite (in_u_bits 64 (x - 1)) by (unfold in_u; lia). done. }
  pose proof (Z.div_mod (x - 1) 4 ltac:(lia)). pose proof (Z.mod_pos_bound (x - 1) 4 ltac:(lia)).
  rewrite uwrap_small by (unfold in_u; lia).
  split; [|lia]. replace (4 + (x - 1) / 4 * 4) with (((x - 1) / 4 + 1) * 4) by lia.
  apply Z.mod_mul. lia.
Qed.

Lemma dim_loop_spec (fuel : nat) (i blksize : Z) :
  1 <= blksize < 2 ^ 31 -> 0 <= i -> i = 0 \/ 8 * ((i - 1) * (i - 1)) < blksize ->
  (1 <= fuel)%nat ->
  blksize <= 8 * ((i + Z.of_nat fuel - 1) * (i + Z.of_nat fuel - 1)) ->
  exists m, dim_loop fuel i (8 * (i * i)) blksize = Ok m /\ 1 <= m /\
    8 * ((m - 1) * (m - 1)) < blksize <= 8 * (m * m).
Proof.
  revert i. induction fuel as [|fuel IH]; intros i Hb Hi Hlow H1 Hf; [lia|]. cbn [dim_loop].
  zcase (8 * (i * i) <? blksize).
  - assert (i < 2 ^ 14) by nia.
    rewrite (uwrap_small 32 (i + 1)) by (unfold in_u; lia).
    rewrite uwrap_small by (unfold in_u; nia).
    replace ((i + 1) * (i + 1) * 2 * 4) with (8 * ((i + 1) * (i + 1))) by lia.
    destruct fuel as [|fuel].
    { exfalso. replace (i + Z.of_nat 1 - 1) with i in Hf by lia. lia. }
    apply IH; [done|lia| |lia|].
    + right. replace (i + 1 - 1) with i by lia. done.
    + replace (i + 1 + Z.of_nat (S fuel) - 1) with (i + Z.of_nat (S (S fuel)) - 1) by lia. done.
  - exists i. split; [done|]. destruct Hlow as [-> |]; [lia|]. split; [|lia].
    destruct (decide (i = 0)) as [-> |]; lia.
Qed.

(** *** The products of the fill loops do not overflow

    Before the cell of number [k + 1] the seed is a multiple of [k!] as far as
    2^16 can tell, and 2^16 divides 18!: from then on the seed is 0, however
    large [order] grows. *)

Fixpoint zfact (k : nat) : Z := match k with O => 1 | S k => Z.of_nat (S k) * zfact k end.

Lemma zfact_divide (k k' : nat) : (k <= k')%nat -> (zfact k | zfact k').
Proof. induction 1 as [|k' _ IH]; [done|]. cbn [zfact]. by apply Z.divide_mul_r. Qed.

Definition fill_seed (order seed : Z) : Prop :=
  1 <= order /\ in_s 32 seed /\ (1 < order -> Z.abs seed < 65536) /\
  (Z.gcd (zfact (Z.to_nat (order - 1))) 65536 | seed).

Lemma fill_seed_zero (order seed : Z) : fill_seed order seed -> 18 < order -> seed = 0.
Proof.
  intros (_ & _ & Hs & Hd) Ho. specialize (Hs ltac:(lia)).
  assert ((65536 | Z.gcd (zfact (Z.to_nat (order - 1))) 65536)) as Hg.
  { apply Z.gcd_greatest; [|done]. etransitivity; [|apply (zfact_divide 18); lia]. by exists 97692469875. }
  destruct (Z.divide_trans _ _ _ Hg Hd) as [k ->]. lia.
Qed.

Lemma fill_seed_product (order seed : Z) : fill_seed order seed -> in_s 32 (order * seed).
Proof.
  intros H. destruct (decide (18 < order)) as [Ho|Ho].
  - rewrite (fill_seed_zero _ _ H Ho), Z.mul_0_r. by unfold in_s.
  - destruct H as (H1 & Hs & H2 & _). destruct (decide (order = 1)) as [->|]; [by rewrite Z.mul_1_l|].
    specialize (H2 ltac:(lia)). unfold in_s. nia.
Qed.

Lemma fill_seed_next (order seed : Z) : fill_seed order seed -> fill_seed (order + 1) (Z.rem (order * seed) 65536).
Proof.
  intros (H1 & Hs & _ & Hd). pose proof (Z.rem_bound_abs (order * seed) 65536 ltac:(lia)) as Hr.
  split; [lia|]. split; [unfold in_s; lia|]. split; [lia|].
  replace (Z.to_nat (order + 1 - 1)) with (S (Z.to_nat (order - 1))) by lia. cbn [zfact].
  replace (Z.of_nat (S (Z.to_nat (order - 1)))) with order by lia. set (f := zfact _) in *.
  assert ((Z.gcd (order * f) 65536 | order * seed)) as Hg.
  { transitivity (order * Z.gcd f 65536); [|by apply Z.mul_divide_mono_l].
    rewrite <- (Z.abs_eq order) at 2 by lia. rewrite <- Z.gcd_mul_mono_l.
    apply Z.gcd_greatest; [apply Z.gcd_divide_l|]. apply Z.divide_mul_r, Z.gcd_divide_r. }
  rewrite Z.rem_eq by lia. apply Z.divide_sub_r; [done|]. apply Z.divide_mul_l, Z.gcd_divide_r.
Qed.

(** The fill loops keep the sizes and the ranges of the entries; [k] cells are
    filled. *)
Definition filling (n k : Z) (st : list Z * list Z * Z * Z) : Prop :=
  let '(MA, MB, order, seed) := st in
  order = k + 1 /\ fill_seed order seed /\
  Z.of_nat (length MA) = n * n /\ Z.of_nat (length MB) = n * n /\
  Forall (fun a => 0 <= a <= 255) MA /\ Forall (in_s 16) MB.

Lemma clip_byte (x : Z) : 0 <= s16 (matrix_clip x 1) <= 255.
Proof.
  change (matrix_clip x 1) with (Z.land x 255).
  pose proof (in_u_land 8 x 255 ltac:(lia) ltac:(by vm_compute)) as [H0 H1].
  rewrite swrap_small by (unfold in_s; lia). lia.
Qed.

Lemma fill_cell_ok (n i j : Z) (st : list Z * list Z * Z * Z) :
  0 <= n < 2 ^ 14 -> 0 <= i < n -> 0 <= j < n -> filling n (i * n + j) st ->
  owp (fill_cell n i j st) (filling n (i * n + (j + 1))).
Proof.
  intros Hn Hi Hj. destruct st as [[[MA MB] order] seed]. intros (-> & Hsd & HA & HB & FA & FB).
  pose proof (cell_range n ltac:(lia) i j Hi Hj). assert (n * n < 2 ^ 28) by nia.
  unfold fill_cell. rewrite (sint_ok ((i * n + j + 1) * seed)) by (by apply fill_seed_product). cbn [mbind outcome_bind].
  apply fill_seed_next in Hsd. set (seed' := Z.rem _ _) in *.
  assert (Z.abs seed' < 65536) as Hs' by (apply Hsd; lia).
  rewrite (sint_ok (seed' + _)) by (unfold in_s; lia). cbn [mbind outcome_bind].
  rewrite ix_small by (lia || done). rewrite aset_in_range by lia. cbn [mbind outcome_bind].
  set (v := s16 (matrix_clip _ 0)). assert (in_s 16 v) as Hv by (by apply swrap_range).
  rewrite (sint_ok (v + _)) by (unfold in_s in *; lia). cbn [mbind outcome_bind].
  rewrite aset_in_range by lia. cbn [mbind outcome_bind].
  rewrite sint_ok by (unfold in_s in *; lia).
  cbn [owp mbind outcome_bind mret outcome_ret filling]. rewrite !length_insert. split; [lia|]. repeat (split; [done|]).
  split; [|apply Forall_insert; auto with cint]. apply Forall_insert; [done|].
  apply clip_byte.
Qed.

(** C12: for a block of [blksize] bytes at [memblk] and every 32-bit seed,
    [core_init_matrix] returns without overflow in its signed arithmetic, with
    the largest dimension whose three matrices occupy strictly fewer than
    [blksize] bytes (800 bytes give 9, though 10 would just fit) and well-formed matrices (8-bit entries in [A], 16-bit entries in
    [B]), aligned and laid out one after the other; they stay inside the block
    when its address is 4-byte aligned, and otherwise pass its end by at most
    the two bytes that the alignment of [A] can cost. *)
Theorem init_matrix_layout (fuel : nat) (blksize memblk seed : Z) (C0 : list Z) :
  1 <= blksize < 2 ^ 31 -> 1 <= memblk -> memblk + blksize < 2 ^ 63 -> in_s 32 seed -> (1 <= fuel)%nat ->
  blksize <= 8 * ((Z.of_nat fuel - 1) * (Z.of_nat fuel - 1)) ->
  exists n a MA MB,
    let p := MatParams n a (a + 2 * (n * n)) (a + 4 * (n * n)) MA MB C0 in
    core_init_matrix fuel blksize memblk seed C0 = Ok (n, p) /\
    8 * (n * n) < blksize <= 8 * ((n + 1) * (n + 1)) /\
    (Z.of_nat (length C0) = n * n -> wf p) /\
    Forall (fun x => 0 <= x <= 255) MA /\
    memblk <= a < memblk + 4 /\ a mod 4 = 0 /\
    a + 8 * (n * n) <= memblk + blksize + 2 /\
    (memblk mod 4 = 0 -> a + 8 * (n * n) < memblk + blksize).
Proof.
  intros Hb Hm Hend Hseed Hf1 Hf. unfold core_init_matrix.
  destruct (dim_loop_spec fuel 0 blksize) as (m & Em & Hm1 & Hlo & Hhi); [lia..|].
  change (8 * (0 * 0)) with 0 in Em. set (n := m - 1) in *.
  assert (0 <= n < 2 ^ 14) as Hn by nia. assert (m = n + 1) as Em' by lia.
  destruct (align_mem_spec memblk) as [Ha4 Ha]; [lia|].
  assert (0 <= n * n < 2 ^ 28) as Hnn by nia.
  destruct (align_mem_spec (align_mem memblk + 4 * (n * n))) as [_ Hc]; [lia|].
  assert (align_mem (align_mem memblk + 4 * (n * n)) = align_mem memblk + 4 * (n * n)) as Ec.
  { destruct (align_mem_spec (align_mem memblk + 4 * (n * n))) as [Hc4 Hc']; [lia|].
    pose proof (Z.div_mod (align_mem memblk) 4 ltac:(lia)).
    pose proof (Z.div_mod (align_mem (align_mem memblk + 4 * (n * n))) 4 ltac:(lia)). lia. }
  set (cells := replicate (Z.to_nat (n * n)) 0).
  assert (owp (oloop 0 n (fun i => oloop 0 n (fun j => fill_cell n i j))
    (cells, cells, 1, if seed =? 0 then 1 else seed)) (filling n (n * n))) as Hfill.
  { apply (oloop_inv 0 n _ (fun i => filling n (i * n))); [lia|..].
    - unfold filling, cells. rewrite length_replicate, Z2Nat.id by lia. split; [lia|]. split.
      + split; [lia|]. split; [zcases; [by unfold in_s|done]|]. split; [lia|]. apply Z.divide_1_l.
      + repeat (split; [done|]). split; apply Forall_replicate; [lia|by vm_compute].
    - intros i st Hi Hst. replace ((i + 1) * n) with (i * n + n) by lia.
      apply (oloop_inv 0 n _ (fun j => filling n (i * n + j))); [lia|by rewrite Z.add_0_r|].
      intros j st' Hj Hst'. apply fill_cell_ok; done || lia. }
  apply owp_ok in Hfill as ([[[MA MB] order] seed'] & Efill & _ & _ & HA & HB & FA & FB).
  exists n, (align_mem memblk), MA, MB. cbv zeta.
  assert (Forall (in_s 16) MA) as FA'.
  { eapply Forall_impl; [exact FA|]. unfold in_s. intros; cbn beta in *; lia. }
  split.
  - rewrite Em. cbn [mbind outcome_bind]. fold n.
    rewrite (uwrap_small 32 n) by (unfold in_u; lia).
    rewrite (uwrap_small 32 (n * n)) by (unfold in_u; lia).
    fold cells. rewrite Efill. cbn [mbind outcome_bind].
    rewrite (uwrap_small 64 (align_mem memblk + _)) by (unfold in_u; lia).
    rewrite uwrap_small by (unfold in_u; lia).
    replace (align_mem memblk + 2 * (n * n) + 2 * (n * n)) with (align_mem memblk + 4 * (n * n)) by lia.
    by rewrite Ec.
  - split; [rewrite <- Em'; lia|]. split.
    { intros HC. split; cbn [N A B C]; [lia|]. repeat (split; [done|]). done. }
    split; [done|]. split; [lia|]. split; [done|]. split; [lia|].
    intros Hmod. pose proof (Z.div_mod (align_mem memblk) 4 ltac:(lia)).
    pose proof (Z.div_mod memblk 4 ltac:(lia)). lia.
Qed.

Lemma init_matrix_layout_witness :
  exists n, 8 * (n * n) < 666 <= 8 * ((n + 1) * (n + 1)) /\
    exists p, core_init_matrix 100 666 0x1002 0 [] = Ok (n, p).
Proof.
  destruct (init_matrix_layout 100 666 0x1002 0 []) as (n & a & MA & MB & E & H & _);
    [lia|lia|lia|by unfold in_s|lia|lia|].
  exists n. split; [exact H|]. eexists. exact E.
Defined.

End Matrix.
