(* ===== verification/CoreList.v ===== *)
(** * The CoreMark linked list ([guests/coremark/core_list_join.c])

    Singly linked lists threaded through a memory block: insertion, removal
    and its undo, search, reversal and the in-place merge sort.  The store maps
    the index of a list cell in the block to the cell, so that aliasing and
    in-place updates are explicit; a pointer is an index or NULL. *)

From S2P Require Import Prelude.

Module LinkedList.

(** ** Data ([list_data], [list_head] of [coremark.h]) *)

Record list_data := ListData { data16 : Z; idx : Z }.
Record list_head := ListHead { next : option nat; info : nat }.

Definition ptr : Type := option nat.
Abbreviation heads := (gmap nat list_head).
Abbreviation datas := (gmap nat list_data).

(** ** Memory accesses

    The store is a pair of the list cells and the rest; where the data items
    are needed the rest is a pair of the data items and something else. *)

Section Access.
Context {S : Type}.

Definition ld_head (p : ptr) : ST (heads * S) list_head := fun s =>
  match p with
  | Some n => match s.1 !! n with Some c => Ok (c, s) | None => UB end
  | None => UB
  end.

Definition ld_next (p : ptr) : ST (heads * S) ptr := c ← ld_head p; mret (next c).
Definition ld_info (p : ptr) : ST (heads * S) nat := c ← ld_head p; mret (info c).

Definition st_head (p : ptr) (f : list_head -> list_head) : ST (heads * S) unit := fun s =>
  match p with
  | Some n => match s.1 !! n with Some c => Ok (tt, (<[n := f c]> s.1, s.2)) | None => UB end
  | None => UB
  end.

(** [p->next = q], [p->info = d] *)
Definition st_next (p q : ptr) : ST (heads * S) unit := st_head p (fun c => ListHead q (info c)).
Definition st_info (p : ptr) (d : nat) : ST (heads * S) unit := st_head p (fun c => ListHead (next c) d).

(** Code that only touches the rest of the store. *)
Definition on_rest {A : Type} (m : ST S A) : ST (heads * S) A := fun s =>
  match m s.2 with Ok (a, r) => Ok (a, (s.1, r)) | UB => UB | Fuel => Fuel end.

(** An upper bound on the number of cells any walk along a list visits. *)
Definition walk_fuel : ST (heads * S) nat := st_gets (fun s => Datatypes.S (size s.1)).
End Access.

Section DataAccess.
Context {R : Type}.

Definition ld_data (d : nat) : ST (datas * R) list_data := fun s =>
  match s.1 !! d with Some x => Ok (x, s) | None => UB end.

Definition st_data (d : nat) (x : list_data) : ST (datas * R) unit := fun s =>
  Ok (tt, (<[d := x]> s.1, s.2)).
End DataAccess.

(** ** Insertion, removal, search, reversal *)

Section Ops.
Context {R : Type}.

(** [copy_info(to, from)], where [from] is a local variable of the caller. *)
Definition copy_info (to : nat) (from : list_data) : ST (datas * R) unit :=
  st_data to (ListData (data16 from) (idx from)).

(** Returns the new item (or NULL) and the advanced block pointers.  Both
    fields of the fresh cell are written at once. *)
Definition core_list_insert_new (insert_point : ptr) (inf : list_data)
    (memblock datablock memblock_end datablock_end : nat)
    : ST (heads * (datas * R)) (ptr * nat * nat) :=
  if (memblock_end <=? memblock + 1)%nat then mret (None, memblock, datablock)
  else if (datablock_end <=? datablock + 1)%nat then mret (None, memblock, datablock)
  else
    let newitem := memblock in
    nxt ← ld_next insert_point;
    ' (h, r) ← st_get;
    st_put (<[newitem := ListHead nxt datablock]> h, r) ;;
    st_next insert_point (Some newitem) ;;
    on_rest (copy_info datablock inf) ;;
    mret (Some newitem, (memblock + 1)%nat, (datablock + 1)%nat).

(** [while (list && list->info->idx != info->idx) list = list->next], and the
    same loop on the low byte of the data. *)
Fixpoint find_loop (fuel : nat) (test : list_data -> bool) (list : ptr)
    : ST (heads * (datas * R)) ptr :=
  match fuel with
  | O => st_fuel
  | S fuel =>
    match list with
    | None => mret None
    | Some _ =>
      c ← ld_head list;
      d ← on_rest (ld_data (info c));
      if test d then mret list else find_loop fuel test (next c)
    end
  end.

Definition core_list_find (list : ptr) (inf : list_data) : ST (heads * (datas * R)) ptr :=
  fuel ← walk_fuel;
  if 0 <=? idx inf then find_loop fuel (fun d => idx d =? idx inf) list
  else find_loop fuel (fun d => Z.land (data16 d) 0xff =? data16 inf) list.
End Ops.

Section PtrOps.
Context {S : Type}.

Definition core_list_remove (item : ptr) : ST (heads * S) ptr :=
  ret ← ld_next item;
  tmp ← ld_info item;
  i ← ld_info ret;
  st_info item i ;;
  st_info ret tmp ;;
  n ← ld_next item;
  nn ← ld_next n;
  st_next item nn ;;
  st_next ret None ;;
  mret ret.

Definition core_list_undo_remove (item_removed item_modified : ptr) : ST (heads * S) ptr :=
  tmp ← ld_info item_removed;
  i ← ld_info item_modified;
  st_info item_removed i ;;
  st_info item_modified tmp ;;
  n ← ld_next item_modified;
  st_next item_removed n ;;
  st_next item_modified item_removed ;;
  mret item_removed.

Fixpoint reverse_loop (fuel : nat) (list nxt : ptr) : ST (heads * S) ptr :=
  match fuel with
  | O => st_fuel
  | Datatypes.S fuel =>
    match list with
    | None => mret nxt
    | Some _ =>
      tmp ← ld_next list;
      st_next list nxt ;;
      reverse_loop fuel tmp list
    end
  end.

Definition core_list_reverse (list : ptr) : ST (heads * S) ptr :=
  fuel ← walk_fuel; reverse_loop fuel list None.

(** ** The merge sort ([core_list_mergesort])

    [psize], [qsize] and the loop counter are bounded by [insize], and
    [nmerges] by the length of the list, so only the doubling of [insize] can
    leave the range of [ee_s32]. *)

Context (cmp : nat -> nat -> ST S Z).

(** [for (i = 0; i < insize; i++) { psize++; q = q->next; if (!q) break; }] *)
Fixpoint step_q (n : nat) (q : ptr) (psize : Z) : ST (heads * S) (ptr * Z) :=
  match n with
  | O => mret (q, psize)
  | Datatypes.S n =>
    let psize := psize + 1 in
    q ← ld_next q;
    match q with None => mret (q, psize) | Some _ => step_q n q psize end
  end.

(** Which of the two runs gives the next element: the new values of
    [e], [p], [q], [psize], [qsize]. *)
Definition take_next (p q : ptr) (psize qsize : Z) : ST (heads * S) (ptr * ptr * ptr * Z * Z) :=
  if psize =? 0 then
    n ← ld_next q; mret (q, p, n, psize, qsize - 1)
  else if (qsize =? 0) || bool_decide (q = None) then
    n ← ld_next p; mret (p, n, q, psize - 1, qsize)
  else
    pi ← ld_info p;
    qi ← ld_info q;
    c ← on_rest (cmp pi qi);
    if c <=? 0 then n ← ld_next p; mret (p, n, q, psize - 1, qsize)
    else n ← ld_next q; mret (q, p, n, psize, qsize - 1).

(** [while (psize > 0 || (qsize > 0 && q)) { ... }]: returns [q], [list] and
    [tail]. *)
Fixpoint merge_loop (fuel : nat) (p q : ptr) (psize qsize : Z) (list tail : ptr)
    : ST (heads * S) (ptr * ptr * ptr) :=
  match fuel with
  | O => st_fuel
  | Datatypes.S fuel =>
    if (0 <? psize) || ((0 <? qsize) && bool_decide (q <> None)) then
      ' (e, p, q, psize, qsize) ← take_next p q psize qsize;
      list ← match tail with
             | Some _ => st_next tail e ;; mret list
             | None => mret e
             end;
      merge_loop fuel p q psize qsize list e
    else mret (q, list, tail)
  end.

(** [while (p) { ... }]: one pass over the list. *)
Fixpoint pass_loop (fuel : nat) (insize : Z) (p list tail : ptr) (nmerges : Z)
    : ST (heads * S) (ptr * ptr * Z) :=
  match fuel with
  | O => st_fuel
  | Datatypes.S fuel =>
    match p with
    | None => mret (list, tail, nmerges)
    | Some _ =>
      ' (q, psize) ← step_q (Z.to_nat insize) p 0;
      f ← walk_fuel;
      ' (q, list, tail) ← merge_loop f p q psize insize list tail;
      pass_loop fuel insize q list tail (nmerges + 1)
    end
  end.

Fixpoint sort_loop (fuel : nat) (insize : Z) (list : ptr) : ST (heads * S) ptr :=
  match fuel with
  | O => st_fuel
  | Datatypes.S fuel =>
    f ← walk_fuel;
    ' (list, tail, nmerges) ← pass_loop f insize list None None 0;
    st_next tail None ;;
    if nmerges <=? 1 then mret list
    else sort_loop fuel (s32 (insize * 2)) list
  end.

Definition core_list_mergesort (list : ptr) : ST (heads * S) ptr :=
  fuel ← walk_fuel; sort_loop fuel 1 list.
End PtrOps.

(** ** Comparison by index ([cmp_idx])

    With a NULL [res] the comparison also regenerates the data of both items
    from the backup in the upper byte. *)

Definition regen (x : list_data) : list_data :=
  ListData (s16 (Z.lor (Z.land (data16 x) 0xff00) (Z.land 0x00ff (Z.shiftr (data16 x) 8)))) (idx x).

Definition cmp_idx {R : Type} (res_is_null : bool) (a b : nat) : ST (datas * R) Z :=
  (if res_is_null then
     x ← ld_data a; st_data a (regen x) ;;
     y ← ld_data b; st_data b (regen y)
   else mret tt) ;;
  x ← ld_data a;
  y ← ld_data b;
  mret (idx x - idx y).

(** ** Building the list ([core_list_init]) *)

Section Init.
Context {R : Type}.

(** [for (i = 0; i < size; i++) { ... core_list_insert_new(...); }] *)
Fixpoint init_insert (n : nat) (i seed : Z) (list : ptr) (memblock datablock : nat)
    (memblock_end datablock_end : nat) : ST (heads * (datas * R)) (nat * nat) :=
  match n with
  | O => mret (memblock, datablock)
  | S n =>
    let datpat := Z.land (u16 (Z.lxor (u32 seed) i)) 0xf in
    let dat := u16 (Z.lor (Z.shiftl datpat 3) (Z.land i 0x7)) in
    let inf := ListData (s16 (Z.lor (Z.shiftl dat 8) dat)) 0x7fff in
    ' (_, memblock, datablock) ←
      core_list_insert_new list inf memblock datablock memblock_end datablock_end;
    init_insert n (i + 1) seed list memblock datablock memblock_end datablock_end
  end.

(** [while (finder->next != NULL) { ... }]: number the items. *)
Fixpoint init_index (fuel : nat) (finder : ptr) (i size seed : Z) : ST (heads * (datas * R)) unit :=
  match fuel with
  | O => st_fuel
  | S fuel =>
    c ← ld_head finder;
    match next c with
    | None => mret tt
    | Some _ =>
      d ← on_rest (ld_data (info c));
      ' (i, new_idx) ←
        mret (if i <? size / 5 then (u32 (i + 1), s16 i)
              else
                let pat := u16 (Z.lxor i (u32 seed)) in
                let i := u32 (i + 1) in
                (i, s16 (Z.land 0x3fff (Z.lor (Z.shiftl (Z.land i 0x07) 8) pat))));
      on_rest (st_data (info c) (ListData (data16 d) new_idx)) ;;
      init_index fuel (next c) i size seed
    end
  end.

(** [sizeof (struct list_data_s)] is 4; the cells are numbered from the start
    of the block and the data items from [datablock].  This is everything
    before the final sort. *)
Definition fill_list (blksize seed : Z) : ST (heads * (datas * R)) unit :=
  let per_item := 16 + 4 in
  let size := u32 (blksize / per_item - 2) in
  let memblock_end := Z.to_nat size in
  let datablock_end := Z.to_nat size in
  ' (h, (d, r)) ← st_get;
  st_put (<[0%nat := ListHead None 0]> h, (<[0%nat := ListData (s16 0x8080) 0x0000]> d, r)) ;;
  ' (_, memblock, datablock) ←
    core_list_insert_new (Some 0%nat) (ListData (s16 0xffff) 0x7fff) 1 1 memblock_end datablock_end;
  init_insert (Z.to_nat size) 0 seed (Some 0%nat) memblock datablock memblock_end datablock_end ;;
  finder ← ld_next (Some 0%nat);
  fuel ← walk_fuel;
  init_index fuel finder 1 size seed.

Definition core_list_init (blksize seed : Z) : ST (heads * (datas * R)) ptr :=
  fill_list blksize seed ;;
  core_list_mergesort (cmp_idx true) (Some 0%nat).
End Init.

End LinkedList.
