(* ===== verification/CoreBench.v ===== *)
(** * The CoreMark benchmark ([calc_func], [cmp_complex], [core_bench_list],
    [iterate])

    The list benchmark of [core_list_join.c], whose comparison function runs
    the state-machine and the matrix benchmarks, and the iteration loop of
    [core_main.c]. *)

From S2P Require Import Prelude CoreUtil CoreState CoreMatrix CoreList.

Module Bench.
Import Crc LinkedList.

(** ** Data ([struct RESULTS_S] of [coremark.h]) *)

Record core_results := Results {
  seed1 : Z;
  seed2 : Z;
  seed3 : Z;
  memblock3 : list Z;         (* the bytes of the state machine's block *)
  size : Z;
  iterations : Z;
  execs : Z;
  list : ptr;
  mat : Matrix.mat_params;
  crc : Z;
  crclist : Z;
  crcmatrix : Z;
  crcstate : Z;
  err : Z
}.

Definition set_crc (r : core_results) (x : Z) : core_results :=
  Results (seed1 r) (seed2 r) (seed3 r) (memblock3 r) (size r) (iterations r) (execs r) (list r)
    (mat r) x (crclist r) (crcmatrix r) (crcstate r) (err r).
Definition set_crclist (r : core_results) (x : Z) : core_results :=
  Results (seed1 r) (seed2 r) (seed3 r) (memblock3 r) (size r) (iterations r) (execs r) (list r)
    (mat r) (crc r) x (crcmatrix r) (crcstate r) (err r).
Definition set_state (r : core_results) (m : Datatypes.list Z) (x : Z) : core_results :=
  Results (seed1 r) (seed2 r) (seed3 r) m (size r) (iterations r) (execs r) (list r)
    (mat r) (crc r) (crclist r) (crcmatrix r) x (err r).
Definition set_matrix (r : core_results) (p : Matrix.mat_params) (x : Z) : core_results :=
  Results (seed1 r) (seed2 r) (seed3 r) (memblock3 r) (size r) (iterations r) (execs r) (list r)
    p (crc r) (crclist r) x (crcstate r) (err r).

Definition get_res {D : Type} : ST (D * core_results) core_results := st_gets snd.
Definition mod_res {D : Type} (f : core_results -> core_results) : ST (D * core_results) unit :=
  st_modify (fun s => (s.1, f s.2)).

(** ** The list benchmark *)

(** The [switch] of [calc_func] on the type of operation. *)
Definition calc_switch (data flag dtype : Z) : ST (datas * core_results) Z :=
  res ← get_res;
  if flag =? 0 then
    let dtype := if dtype <? 0x22 then 0x22 else dtype in
    ' (c, mem) ← lift (State.core_bench_state (size res) (memblock3 res) (seed1 res) (seed2 res)
                         dtype (crc res));
    let retval := s16 c in
    mod_res (fun r => set_state r mem (if crcstate r =? 0 then u16 retval else crcstate r)) ;;
    mret retval
  else if flag =? 1 then
    ' (c, p) ← lift (Matrix.core_bench_matrix (mat res) dtype (crc res));
    let retval := s16 c in
    mod_res (fun r => set_matrix r p (if crcmatrix r =? 0 then u16 retval else crcmatrix r)) ;;
    mret retval
  else mret data.

(** [calc_func(&(d->data16), res)] *)
Definition calc_func (d : nat) : ST (datas * core_results) Z :=
  x ← ld_data d;
  let data := data16 x in
  let optype := u8 (Z.land (Z.shiftr data 7) 1) in
  if negb (optype =? 0) then mret (Z.land data 0x007f)
  else
    let flag := Z.land data 0x7 in
    let dtype := Z.land (Z.shiftr data 3) 0xf in
    let dtype := s16 (Z.lor dtype (Z.shiftl dtype 4)) in
    retval ← calc_switch data flag dtype;
    mod_res (fun r => set_crc r (crcu16 (u16 retval) (crc r))) ;;
    let retval := Z.land retval 0x007f in
    st_data d (ListData (s16 (Z.lor (Z.lor (Z.land data 0xff00) 0x0080) retval)) (idx x)) ;;
    mret retval.

Definition cmp_complex (a b : nat) : ST (datas * core_results) Z :=
  val1 ← calc_func a;
  val2 ← calc_func b;
  mret (s32 (val1 - val2)).

Abbreviation world := (heads * (datas * core_results))%type.

(** [p->info->data16] *)
Definition ld_data16 (p : ptr) : ST world Z :=
  i ← ld_info p; d ← on_rest (ld_data i); mret (data16 d).

(** Move the item after [this_find] to the second position of the list. *)
Definition cache_next (this_find lst : ptr) : ST world unit :=
  finder ← ld_next this_find;
  match finder with
  | None => mret tt
  | Some _ =>
    n ← ld_next finder;
    st_next this_find n ;;
    m ← ld_next lst;
    st_next finder m ;;
    st_next lst finder
  end.

(** The search loop: [retval], [found], [missed], [info] and [list]. *)
Fixpoint find_items (n : nat) (i retval found missed : Z) (inf : list_data) (lst : ptr)
    : ST world (Z * Z * Z * list_data * ptr) :=
  match n with
  | O => mret (retval, found, missed, inf, lst)
  | S n =>
    let inf := ListData (Z.land i 0xff) (idx inf) in
    this_find ← core_list_find lst inf;
    lst ← core_list_reverse lst;
    ' (retval, found, missed) ←
      match this_find with
      | None =>
        n1 ← ld_next lst;
        d ← ld_data16 n1;
        mret (u16 (retval + Z.land (Z.shiftr d 8) 1), found, u16 (missed + 1))
      | Some _ =>
        d ← ld_data16 this_find;
        let retval :=
          if negb (Z.land d 0x1 =? 0) then u16 (retval + Z.land (Z.shiftr d 9) 1) else retval in
        cache_next this_find lst ;;
        mret (retval, u16 (found + 1), missed)
      end;
    let inf := if 0 <=? idx inf then ListData (data16 inf) (s16 (idx inf + 1)) else inf in
    find_items n (i + 1) retval found missed inf lst
  end.

(** [while (finder) { retval = crc16(list->info->data16, retval);
    finder = finder->next; }] *)
Fixpoint crc_walk (fuel : nat) (lst finder : ptr) (retval : Z) : ST world Z :=
  match fuel with
  | O => st_fuel
  | S fuel =>
    match finder with
    | None => mret retval
    | Some _ =>
      d ← ld_data16 lst;
      finder ← ld_next finder;
      crc_walk fuel lst finder (crc16 d retval)
    end
  end.

(** Remove the second item, CRC the data from the item searched for to the end
    of the list, and undo the removal. *)
Definition remove_and_crc (lst : ptr) (inf : list_data) (retval : Z) : ST world Z :=
  n ← ld_next lst;
  remover ← core_list_remove n;
  finder ← core_list_find lst inf;
  finder ← match finder with None => ld_next lst | Some _ => mret finder end;
  fuel ← walk_fuel;
  retval ← crc_walk fuel lst finder retval;
  n ← ld_next lst;
  core_list_undo_remove remover n ;;
  mret retval.

Definition core_bench_list (finder_idx : Z) : ST world Z :=
  ' (_, (_, res)) ← st_get;
  let find_num := seed3 res in
  ' (retval, found, missed, inf, lst) ←
    find_items (Z.to_nat find_num) 0 0 0 0 (ListData 0 finder_idx) (list res);
  let retval := u16 (retval + (found * 4 - missed)) in
  lst ← (if 0 <? finder_idx then core_list_mergesort cmp_complex lst else mret lst);
  retval ← remove_and_crc lst inf retval;
  lst ← core_list_mergesort (cmp_idx true) lst;
  finder ← ld_next lst;
  fuel ← walk_fuel;
  crc_walk fuel lst finder retval.

(** ** The iteration loop ([iterate] of [core_main.c]) *)

Fixpoint iterate_loop (n : nat) (i : Z) : ST world unit :=
  match n with
  | O => mret tt
  | S n =>
    c ← core_bench_list 1;
    on_rest (mod_res (fun r => set_crc r (crcu16 c (crc r)))) ;;
    c ← core_bench_list (-1);
    on_rest (mod_res (fun r => set_crc r (crcu16 c (crc r)))) ;;
    (if i =? 0 then on_rest (mod_res (fun r => set_crclist r (crc r))) else mret tt) ;;
    iterate_loop n (i + 1)
  end.

Definition clear_crcs (r : core_results) : core_results :=
  Results (seed1 r) (seed2 r) (seed3 r) (memblock3 r) (size r) (iterations r) (execs r) (list r)
    (mat r) 0 0 0 0 (err r).

Definition iterate : ST world unit :=
  ' (_, (_, res)) ← st_get;
  on_rest (mod_res clear_crcs) ;;
  iterate_loop (Z.to_nat (iterations res)) 0.

End Bench.
