(* ===== verification/ListChain.v ===== *)
(** * Chains of list cells

    The shape invariant of the CoreMark linked list and the behaviour of the
    operations of [core_list_join.c] that do not compare items: reversal,
    removal and its undo, search and insertion.  A chain lists the address and
    the data pointer of every cell it goes through, so that a theorem about a
    chain is a theorem about the cells themselves and not only the values. *)

From S2P Require Import Prelude CoreList.

Module Chain.
Import LinkedList.

(** A cell of a chain: its address and its [info] pointer. *)
Abbreviation cell := (nat * nat)%type.

(** [chain h p xs r]: from [p] the [next] pointers go through exactly [xs] and
    then reach [r]. *)
Fixpoint chain (h : heads) (p : ptr) (xs : list cell) (r : ptr) : Prop :=
  match xs with
  | [] => p = r
  | x :: xs => p = Some x.1 /\ exists n, h !! x.1 = Some (ListHead n x.2) /\ chain h n xs r
  end.

(** The cells outside [xs] are untouched. *)
Definition frame (xs : list cell) (h h' : heads) : Prop :=
  forall a, a ∉ xs.*1 -> h' !! a = h !! a.

(** ** Facts on chains *)

Section Facts.
Implicit Types (h : heads) (p q r : ptr) (xs ys : list cell) (a i : nat).

Lemma chain_app h p xs ys r :
  chain h p (xs ++ ys) r <-> exists q, chain h p xs q /\ chain h q ys r.
Proof. revert p. induction xs as [|x xs IH]; intros p; simpl; [|setoid_rewrite IH]; naive_solver. Qed.

Lemma chain_ext h h' p xs r :
  chain h p xs r -> (forall a, a ∈ xs.*1 -> h' !! a = h !! a) -> chain h' p xs r.
Proof.
  revert p. induction xs as [|x xs IH]; intros p; simpl; [done|].
  intros (-> & n & Hn & Hc) Hext. split; [done|]. exists n.
  rewrite Hext by set_solver. split; [done|]. apply IH; [done|]. intros; apply Hext; set_solver.
Qed.

Lemma chain_insert h p xs r a c :
  chain h p xs r -> a ∉ xs.*1 -> chain (<[a := c]> h) p xs r.
Proof.
  intros Hc Ha. eapply chain_ext; [done|]. intros b Hb.
  rewrite lookup_insert_ne; [done|]. by intros ->.
Qed.

Lemma chain_fun h p xs ys : chain h p xs None -> chain h p ys None -> xs = ys.
Proof.
  revert p ys. induction xs as [|[a i] xs IH]; intros p [|[b j] ys]; simpl; [naive_solver..|].
  intros (-> & n & Hn & Hc) ([= <-] & m & Hm & Hd). simplify_eq. f_equal; eauto.
Qed.

Lemma chain_suffix h p xs1 xs2 : chain h p (xs1 ++ xs2) None -> exists q, chain h q xs2 None.
Proof. rewrite chain_app. naive_solver. Qed.

(** A list that ends in NULL has no cycle. *)
Lemma chain_NoDup h p xs : chain h p xs None -> NoDup xs.*1.
Proof.
  revert p. induction xs as [|[a i] xs IH]; intros p Hc; simpl; [constructor|].
  pose proof Hc as (-> & n & Hn & Hc'). simpl in *. constructor; [|by eauto].
  intros (y & -> & (l1 & l2 & ->)%list_elem_of_split)%list_elem_of_fmap.
  pose proof Hc' as (m & _ & Hsuf)%chain_app.
  pose proof (proj1 Hsuf) as Em. subst m. pose proof (chain_fun h _ ((y.1, i) :: l1 ++ y :: l2) _ Hc Hsuf) as E.
  apply (f_equal length) in E. simpl in E. rewrite length_app in E. simpl in E. lia.
Qed.

Lemma chain_lookup h p xs r a : chain h p xs r -> a ∈ xs.*1 -> is_Some (h !! a).
Proof.
  revert p. induction xs as [|x xs IH]; intros p; simpl; [set_solver|].
  intros (_ & n & Hn & Hc) [-> | ?]%elem_of_cons; eauto.
Qed.

(** The walk bound of the loops covers every list. *)
Lemma chain_size h p xs : chain h p xs None -> (length xs <= size h)%nat.
Proof.
  intros Hc. pose proof (chain_NoDup _ _ _ Hc) as Hnd.
  rewrite <- (length_fmap fst xs), <- (size_list_to_set (C := gset nat)), <- size_dom by done.
  apply subseteq_size. intros a Ha. apply elem_of_dom. eapply chain_lookup; [done|set_solver].
Qed.

(** A chain of the same cells in the same order restores the store. *)
Lemma chain_same h h' p p' xs :
  chain h p xs None -> chain h' p' xs None -> frame xs h h' -> h' = h /\ p' = p.
Proof.
  intros Hc Hc' Hf. split; [|destruct xs; simpl in *; naive_solver].
  apply map_eq. intros a. destruct (decide (a ∈ xs.*1)) as [Ha|Ha]; [|by apply Hf].
  clear Hf. revert p p' Hc Hc'. induction xs as [|x xs IH]; [set_solver|].
  intros p p' (-> & n & Hn & Hc) (-> & m & Hm & Hc').
  apply elem_of_cons in Ha as [-> | Ha]; [|by eauto].
  rewrite Hn, Hm. repeat f_equal. destruct xs; simpl in *; naive_solver.
Qed.

Lemma frame_trans xs h1 h2 h3 : frame xs h1 h2 -> frame xs h2 h3 -> frame xs h1 h3.
Proof. intros H1 H2 a Ha. by rewrite H2, H1. Qed.

Lemma frame_perm xs ys h1 h2 : xs ≡ₚ ys -> frame xs h1 h2 -> frame ys h1 h2.
Proof. intros HP H a Ha. apply H. by rewrite HP. Qed.

Lemma frame_insert xs h a c : a ∈ xs.*1 -> frame xs h (<[a := c]> h).
Proof. intros Ha b Hb. apply lookup_insert_ne. by intros ->. Qed.

Lemma frame_refl xs h : frame xs h h.
Proof. done. Qed.
End Facts.

#[export] Hint Resolve frame_refl chain_insert : cint.

(** ** Rules for the memory accesses *)

Section Rules.
Context {S : Type}.
Implicit Types (h : heads) (s : S).

Lemma wp_ld_head a c h s (Q : list_head -> heads * S -> Prop) :
  h !! a = Some c -> Q c (h, s) -> wp (ld_head (Some a)) Q (h, s).
Proof. intros E HQ. unfold wp, ld_head. simpl. by rewrite E. Qed.

Lemma wp_ld_next a n i h s (Q : ptr -> heads * S -> Prop) :
  h !! a = Some (ListHead n i) -> Q n (h, s) -> wp (ld_next (Some a)) Q (h, s).
Proof. intros. apply wp_bind. by eapply wp_ld_head. Qed.

Lemma wp_ld_info a n i h s (Q : nat -> heads * S -> Prop) :
  h !! a = Some (ListHead n i) -> Q i (h, s) -> wp (ld_info (Some a)) Q (h, s).
Proof. intros. apply wp_bind. by eapply wp_ld_head. Qed.

Lemma wp_st_next a q n i h s (Q : unit -> heads * S -> Prop) :
  h !! a = Some (ListHead n i) -> Q tt (<[a := ListHead q i]> h, s) -> wp (st_next (Some a) q) Q (h, s).
Proof. intros E HQ. unfold wp, st_next, st_head. simpl. by rewrite E. Qed.

Lemma wp_st_info a j n i h s (Q : unit -> heads * S -> Prop) :
  h !! a = Some (ListHead n i) -> Q tt (<[a := ListHead n j]> h, s) -> wp (st_info (Some a) j) Q (h, s).
Proof. intros E HQ. unfold wp, st_info, st_head. simpl. by rewrite E. Qed.

Lemma wp_on_rest {A} (m : ST S A) (Q : A -> heads * S -> Prop) h s :
  wp m (fun a s' => Q a (h, s')) s -> wp (on_rest m) Q (h, s).
Proof. unfold wp, on_rest. simpl. by destruct (m s) as [[]| |]. Qed.

Lemma wp_walk_fuel (Q : nat -> heads * S -> Prop) h s :
  Q (Datatypes.S (size h)) (h, s) -> wp walk_fuel Q (h, s).
Proof. done. Qed.
End Rules.

(** Executes accesses whose cell is known, looking through updates. *)
Ltac cell_lookup :=
  first [eassumption
        | rewrite lookup_insert_eq; reflexivity
        | rewrite lookup_insert_ne by (first [assumption | congruence]); cell_lookup].
Ltac mem_step :=
  first [ apply wp_walk_fuel
        | wp_step; simpl
        | eapply wp_ld_next; [cell_lookup|]; simpl
        | eapply wp_ld_info; [cell_lookup|]; simpl
        | eapply wp_ld_head; [cell_lookup|]; simpl
        | eapply wp_st_next; [cell_lookup|]; simpl
        | eapply wp_st_info; [cell_lookup|]; simpl ].
Ltac mem_steps := repeat mem_step.

(** Equality of two stores that differ by updates of cells. *)
Ltac map_cells :=
  apply map_eq; intros ?c; rewrite ?lookup_insert; repeat case_decide; subst; congruence.

(** ** Reversal ([core_list_reverse]) *)

Section Reverse.
Context {S : Type}.

Lemma reverse_loop_spec (fuel : nat) (h : heads) (s : S) (l nxt : ptr) (xs dn : list cell) :
  (length xs < fuel)%nat -> chain h l xs None -> chain h nxt dn None -> NoDup (dn ++ xs).*1 ->
  wp (reverse_loop fuel l nxt) (fun l' '(h', s') =>
    chain h' l' (reverse xs ++ dn) None /\ s' = s /\ frame xs h h') (h, s).
Proof.
  revert h l nxt xs dn. induction fuel as [|fuel IH]; intros h l nxt xs dn Hf Hl Hn Hnd; [lia|].
  destruct xs as [|[a i] xs]; simpl in *.
  { subst l. simpl. by repeat split. }
  destruct Hl as (-> & n & Ha & Hc). rewrite fmap_app in Hnd. simpl in Hnd. mem_steps.
  pose proof Hnd as (_ & Hdis & [Hax _]%NoDup_cons)%NoDup_app.
  assert (a ∉ dn.*1) by set_solver.
  eapply wp_mono; [apply (IH _ _ _ xs ((a, i) :: dn))|].
  - lia.
  - by apply chain_insert.
  - simpl. split; [done|]. exists nxt. rewrite lookup_insert_eq. auto with cint.
  - rewrite fmap_app. simpl. by rewrite <- Permutation_middle in Hnd.
  - intros l' [h' s'] (Hc' & -> & Hf'). rewrite reverse_cons, <- app_assoc. repeat split; [done|].
    intros b Hb. rewrite Hf' by set_solver. apply lookup_insert_ne. set_solver.
Qed.

Lemma reverse_spec (h : heads) (s : S) (l : ptr) (xs : list cell) :
  chain h l xs None ->
  wp (core_list_reverse l) (fun l' '(h', s') =>
    chain h' l' (reverse xs) None /\ s' = s /\ frame xs h h') (h, s).
Proof.
  intros Hc. apply wp_bind, wp_walk_fuel. rewrite <- (app_nil_r (reverse xs)).
  apply reverse_loop_spec; [|done|done|by eapply chain_NoDup].
  pose proof (chain_size _ _ _ Hc). lia.
Qed.
End Reverse.

(** ** Removal and its undo *)

Section Remove.
Context {S : Type}.
Implicit Types (h : heads) (s : S).

(** What [core_list_remove] leaves: the cell of the item takes over the data
    and the successor of the next cell, which is cut off with the item's. *)
Definition removed (h : heads) (a b i j : nat) (n : ptr) : heads :=
  <[b := ListHead None i]> (<[a := ListHead n j]> h).

Lemma remove_run h s a b i j n :
  a <> b -> h !! a = Some (ListHead (Some b) i) -> h !! b = Some (ListHead n j) ->
  core_list_remove (Some a) (h, s) = Ok (Some b, (removed h a b i j n, s)).
Proof.
  intros Hab Ha Hb. enough (wp (core_list_remove (Some a))
    (fun r w => r = Some b /\ w = (removed h a b i j n, s)) (h, s)) as H.
  { apply wp_ok in H as (? & ? & -> & -> & ->). done. }
  assert (b <> a) by congruence. unfold core_list_remove. mem_steps. split; [done|]. f_equal. unfold removed.
  map_cells.
Qed.

Lemma undo_run h s a b i j n m :
  a <> b -> h !! a = Some (ListHead n j) -> h !! b = Some (ListHead m i) ->
  core_list_undo_remove (Some b) (Some a) (h, s) =
    Ok (Some b, (<[a := ListHead (Some b) i]> (<[b := ListHead n j]> h), s)).
Proof.
  intros Hab Ha Hb. enough (wp (core_list_undo_remove (Some b) (Some a))
    (fun r w => r = Some b /\ w = (<[a := ListHead (Some b) i]> (<[b := ListHead n j]> h), s)) (h, s)) as H.
  { apply wp_ok in H as (? & ? & -> & -> & ->). done. }
  assert (b <> a) by congruence. unfold core_list_undo_remove. mem_steps. split; [done|]. f_equal. map_cells.
Qed.

Lemma undo_removed h a b i j n :
  a <> b -> h !! a = Some (ListHead (Some b) i) -> h !! b = Some (ListHead n j) ->
  <[a := ListHead (Some b) i]> (<[b := ListHead n j]> (removed h a b i j n)) = h.
Proof.
  intros Hab Ha Hb. unfold removed. map_cells.
Qed.

Lemma removed_chain h l pre a b i j n xs :
  chain h l (pre ++ (a, i) :: (b, j) :: xs) None -> h !! b = Some (ListHead n j) ->
  chain (removed h a b i j n) l (pre ++ (a, j) :: xs) None.
Proof.
  intros Hc Hn. pose proof (chain_NoDup _ _ _ Hc) as Hnd.
  rewrite !fmap_app, !fmap_cons in Hnd. simpl in Hnd.
  pose proof Hnd as (_ & Hdis & [Hax [Hbx _]%NoDup_cons]%NoDup_cons)%NoDup_app.
  apply chain_app in Hc as (q & Hpre & -> & m & Ha & -> & m' & Hb & Hxs). simpl in *.
  assert (m' = n) as -> by congruence.
  assert (a ∉ pre.*1) by set_solver. assert (b ∉ pre.*1) by set_solver.
  apply chain_app. exists (Some a). unfold removed. split; [by auto with cint|]. split; [done|].
  exists n. simpl. rewrite lookup_insert_ne, lookup_insert_eq by set_solver. split; [done|].
  apply chain_insert; [apply chain_insert|]; set_solver.
Qed.
End Remove.

(** ** Search and insertion *)

Section Data.
Context {R : Type}.
Implicit Types (h : heads) (d : datas) (r : R).

Definition allocated (d : datas) (xs : list cell) : Prop := Forall (fun x => is_Some (d !! x.2)) xs.

(** The data item of a cell. *)
Definition item (d : datas) (x : cell) : list_data := default (ListData 0 0) (d !! x.2).

Lemma wp_ld_data i x d r (Q : list_data -> datas * R -> Prop) :
  d !! i = Some x -> Q x (d, r) -> wp (ld_data i) Q (d, r).
Proof. intros E HQ. unfold wp, ld_data. simpl. by rewrite E. Qed.

Lemma wp_st_data i x d r (Q : unit -> datas * R -> Prop) :
  Q tt (<[i := x]> d, r) -> wp (st_data i x) Q (d, r).
Proof. done. Qed.

(** The first cell of a chain whose item passes a test. *)
Definition first_match (test : list_data -> bool) (d : datas) (xs : list cell) : ptr :=
  (fun y : nat * cell => y.2.1) <$> list_find (fun x => Is_true (test (item d x))) xs.

Lemma find_loop_spec (fuel : nat) h d r (test : list_data -> bool) (l : ptr) (xs : list cell) :
  (length xs < fuel)%nat -> chain h l xs None -> allocated d xs ->
  find_loop fuel test l (h, (d, r)) = Ok (first_match test d xs, (h, (d, r))).
Proof.
  revert l xs. induction fuel as [|fuel IH]; intros l xs Hf Hc Hd; [lia|].
  destruct xs as [|[a i] xs]; simpl in *; [by subst l|].
  destruct Hc as (-> & n & Ha & Hc). apply Forall_cons in Hd as [[x Hx] Hd]. simpl in *.
  unfold mbind, ST_bind, ld_head, on_rest, ld_data. simpl. rewrite Ha. simpl. rewrite Hx.
  assert (item d (a, i) = x) as Ei by (unfold item; simpl; by rewrite Hx).
  unfold first_match. simpl. case_decide as E; rewrite Ei in E.
  - by rewrite (proj1 (Is_true_true _) E).
  - rewrite (proj1 (Is_true_false _) E), (IH n xs) by (done || lia). unfold first_match.
    by destruct (list_find _ xs) as [[]|].
Qed.

Definition find_test (inf : list_data) (x : list_data) : bool :=
  if 0 <=? idx inf then idx x =? idx inf else Z.land (data16 x) 0xff =? data16 inf.

Lemma find_spec h d r (l : ptr) (xs : list cell) (inf : list_data) :
  chain h l xs None -> allocated d xs ->
  core_list_find l inf (h, (d, r)) = Ok (first_match (find_test inf) d xs, (h, (d, r))).
Proof.
  intros Hc Hd. pose proof (chain_size _ _ _ Hc).
  unfold core_list_find, find_test, mbind, ST_bind, walk_fuel, st_gets. cbn [fst].
  destruct (0 <=? idx inf); apply find_loop_spec; done || lia.
Qed.

Lemma first_match_Some (test : list_data -> bool) d xs a :
  first_match test d xs = Some a -> exists pre i post,
    xs = pre ++ (a, i) :: post /\ test (item d (a, i)) = true
    /\ Forall (fun x => test (item d x) = false) pre.
Proof.
  unfold first_match. intros ([k [b i]] & (Hk & Ht & Hmin)%list_find_Some & ->)%fmap_Some.
  exists (take k xs), i, (drop (S k) xs). simpl.
  rewrite take_drop_middle by done. split; [done|]. split; [by apply Is_true_true|].
  apply Forall_forall. intros y (k' & Hy)%list_elem_of_lookup.
  pose proof (lookup_lt_Some _ _ _ Hy) as Hlt. rewrite length_take in Hlt.
  rewrite lookup_take_lt in Hy by lia. apply not_true_is_false. intros E.
  apply (Hmin k' y); [done|lia|by apply Is_true_true].
Qed.

Lemma first_match_None (test : list_data -> bool) d xs :
  first_match test d xs = None -> Forall (fun x => test (item d x) = false) xs.
Proof.
  unfold first_match. intros Hn%fmap_None%list_find_None. eapply Forall_impl; [done|].
  simpl. intros x Hx. apply not_true_is_false. intros E. by apply Hx, Is_true_true.
Qed.

(** Both errors of [core_list_insert_new] leave everything as it was. *)
Lemma insert_new_full (p : ptr) (inf : list_data) (mb db mbe dbe : nat) (w : heads * (datas * R)) :
  (mbe <= mb + 1)%nat \/ (dbe <= db + 1)%nat ->
  core_list_insert_new p inf mb db mbe dbe w = Ok ((None, mb, db), w).
Proof.
  intros H. unfold core_list_insert_new. destruct (Nat.leb_spec mbe (mb + 1)); [done|].
  destruct (Nat.leb_spec dbe (db + 1)); [done|lia].
Qed.

Lemma insert_new_spec h d r (p l : ptr) pre post (a i : nat) (inf : list_data) (mb db mbe dbe : nat) :
  chain h l (pre ++ (a, i) :: post) None -> mb ∉ (pre ++ (a, i) :: post).*1 ->
  (mb + 1 < mbe)%nat -> (db + 1 < dbe)%nat -> p = Some a ->
  wp (core_list_insert_new p inf mb db mbe dbe) (fun res '(h', (d', r')) =>
    res = (Some mb, (mb + 1)%nat, (db + 1)%nat) /\ r' = r /\ d' = <[db := inf]> d
    /\ chain h' l (pre ++ (a, i) :: (mb, db) :: post) None) (h, (d, r)).
Proof.
  intros Hc Hfresh H1 H2 ->. pose proof (chain_NoDup _ _ _ Hc) as Hnd.
  rewrite fmap_app, fmap_cons in Hnd, Hfresh. simpl in Hnd, Hfresh.
  apply not_elem_of_app in Hfresh as [Hpre' [Hne Hpost']%not_elem_of_cons].
  pose proof Hnd as (_ & Hdis & [Hax _]%NoDup_cons)%NoDup_app.
  apply chain_app in Hc as (q & Hpre & -> & n & Ha & Hxs). simpl in *.
  assert (a <> mb) by congruence. assert (a ∉ pre.*1) by set_solver.
  unfold core_list_insert_new. rewrite !(proj2 (Nat.leb_gt _ _)) by lia. mem_steps.
  apply wp_on_rest, wp_st_data. simpl. destruct inf as [dt ix]. simpl. repeat split.
  apply chain_app. exists (Some a). split; [by auto with cint|]. split; [done|].
  exists (Some mb). rewrite lookup_insert_eq. split; [done|]. split; [done|]. exists n. simpl.
  rewrite lookup_insert_ne, lookup_insert_eq by done. auto with cint.
Qed.
End Data.

(** ** Properties *)

(** A store with the list 2 -> 0 -> 1 -> 3, for the examples. *)
Definition demo_heads : heads :=
  {[ 0%nat := ListHead (Some 1%nat) 10; 1%nat := ListHead (Some 3%nat) 11;
     2%nat := ListHead (Some 0%nat) 12; 3%nat := ListHead None 13; 9%nat := ListHead None 9 ]}.
Definition demo_datas : datas :=
  {[ 10%nat := ListData 0x0102 5; 11%nat := ListData 0x0304 3; 12%nat := ListData 0x0506 5;
     13%nat := ListData 0x0708 1 ]}.
Definition demo_cells : list cell := [(2, 12); (0, 10); (1, 11); (3, 13)]%nat.

Lemma demo_chain : chain demo_heads (Some 2%nat) demo_cells None.
Proof.
  split; [reflexivity|]. exists (Some 0%nat). split; [reflexivity|].
  split; [reflexivity|]. exists (Some 1%nat). split; [reflexivity|].
  split; [reflexivity|]. exists (Some 3%nat). split; [reflexivity|].
  split; [reflexivity|]. exists None. split; reflexivity.
Defined.

Lemma demo_allocated : allocated demo_datas demo_cells.
Proof. unfold allocated, demo_cells. repeat constructor; vm_compute; eexists; reflexivity. Defined.

(** [C13] Reversal: on every NULL-terminated list [core_list_reverse] returns
    (the walk bound is enough), the cells reached from the returned pointer are
    exactly the cells of the list in reverse order, every cell keeps its data
    pointer, and no other cell and nothing else of the store is written. *)
Theorem reverse_correct {R : Type} (h : heads) (r : R) (l : ptr) (xs : list cell) :
  chain h l xs None ->
  exists l' h', core_list_reverse l (h, r) = Ok (l', (h', r))
    /\ chain h' l' (reverse xs) None /\ frame xs h h'.
Proof.
  intros Hc. pose proof (reverse_spec h r l xs Hc) as (l' & [h' r'] & E & Hc' & -> & Hf)%wp_ok.
  eauto 10.
Qed.

Lemma reverse_correct_witness :
  exists l' h', core_list_reverse (Some 2%nat) (demo_heads, tt) = Ok (l', (h', tt))
    /\ chain h' l' [(3, 13); (1, 11); (0, 10); (2, 12)]%nat None /\ frame demo_cells demo_heads h'.
Proof. exact (reverse_correct demo_heads tt (Some 2%nat) demo_cells demo_chain). Defined.

(** Search: on every NULL-terminated list whose items are allocated
    [core_list_find] returns without changing the store; a cell it returns is
    the first of the list whose item matches (by index when the index searched
    for is not negative, by the low byte of the data otherwise), and NULL means
    that no item of the list matches. *)
Theorem find_correct {R : Type} (h : heads) (d : datas) (r : R) (l : ptr) (xs : list cell) (inf : list_data) :
  chain h l xs None -> allocated d xs ->
  exists p, core_list_find l inf (h, (d, r)) = Ok (p, (h, (d, r))) /\
    match p with
    | Some a => exists pre i post, xs = pre ++ (a, i) :: post
        /\ find_test inf (item d (a, i)) = true
        /\ Forall (fun x => find_test inf (item d x) = false) pre
    | None => Forall (fun x => find_test inf (item d x) = false) xs
    end.
Proof.
  intros Hc Hd. eexists. split; [by apply (find_spec h d r l xs inf)|].
  destruct (first_match _ _ _) as [a|] eqn:E; [by apply first_match_Some|by apply first_match_None].
Qed.

Lemma find_correct_witness :
  core_list_find (Some 2%nat) (ListData 0 3) (demo_heads, (demo_datas, tt))
    = Ok (Some 1%nat, (demo_heads, (demo_datas, tt)))
  /\ core_list_find (Some 2%nat) (ListData 0x99 (-1)) (demo_heads, (demo_datas, tt))
    = Ok (None, (demo_heads, (demo_datas, tt))).
Proof.
  destruct (find_correct demo_heads demo_datas tt (Some 2%nat) demo_cells (ListData 0 3)
              demo_chain demo_allocated) as (p & E & _).
  destruct (find_correct demo_heads demo_datas tt (Some 2%nat) demo_cells (ListData 0x99 (-1))
              demo_chain demo_allocated) as (q & E' & _).
  split; vm_compute; reflexivity.
Defined.

(** [C15] Removal and undo: for an item with a successor, [core_list_remove]
    takes the item's data out of the list (the item's cell now carries the data
    of its successor, whose cell it returns), all other cells staying in place,
    and [core_list_undo_remove] applied to the cell returned and the cell
    modified gives back the store that was there before. *)
Theorem remove_undo {R : Type} (h : heads) (r : R) (l : ptr) (pre post : list cell) (a i b j : nat) :
  chain h l (pre ++ (a, i) :: (b, j) :: post) None ->
  exists h1, core_list_remove (Some a) (h, r) = Ok (Some b, (h1, r))
    /\ chain h1 l (pre ++ (a, j) :: post) None
    /\ core_list_undo_remove (Some b) (Some a) (h1, r) = Ok (Some b, (h, r)).
Proof.
  intros Hc. pose proof (chain_NoDup _ _ _ Hc) as Hnd. rewrite fmap_app in Hnd.
  apply NoDup_app in Hnd as (_ & _ & [Hab _]%NoDup_cons).
  assert (a <> b) as Hne by set_solver.
  pose proof Hc as (q & _ & -> & m & Ha & -> & n & Hb & _)%chain_app. simpl in *.
  exists (removed h a b i j n). split; [by apply remove_run|]. split; [by apply removed_chain|].
  rewrite (undo_run _ r a b i j n None), (undo_removed h a b i j n); try done.
  - unfold removed. by rewrite lookup_insert_ne, lookup_insert_eq.
  - unfold removed. by rewrite lookup_insert_eq.
Qed.

Lemma remove_undo_witness :
  exists h1, core_list_remove (Some 0%nat) (demo_heads, tt) = Ok (Some 1%nat, (h1, tt))
    /\ chain h1 (Some 2%nat) [(2, 12); (0, 11); (3, 13)]%nat None
    /\ core_list_undo_remove (Some 1%nat) (Some 0%nat) (h1, tt) = Ok (Some 1%nat, (demo_heads, tt)).
Proof.
  exact (remove_undo demo_heads tt (Some 2%nat) [(2, 12)]%nat [(3, 13)]%nat 0 10 1 11 demo_chain).
Defined.

End Chain.
