(* ===== verification/MergePure.v ===== *)
(** * Bottom-up merging on plain lists

    What [core_list_mergesort] does to the sequence of the items, for a
    comparison that is known only where it was made: [K x] is the key of [x]
    once some comparison has revealed it.  A merge, a pass over all runs, and
    the facts that make the sort correct: nothing is lost, equal keys keep
    their order, and the sorted runs double in length. *)

From S2P Require Import Prelude.

Module MergePure.
Section Merge.
Context {A : Type}.
Implicit Types (K : A -> option Z) (xs ys ps qs out : list A) (n : nat).

Definition key_le K (x y : A) : Prop :=
  exists a b, K x = Some a /\ K y = Some b /\ a <= b.
Definition key_lt K (x y : A) : Prop :=
  exists a b, K x = Some a /\ K y = Some b /\ a < b.

(** More comparisons may be made, none is forgotten. *)
Definition key_sub K K' : Prop := forall x a, K x = Some a -> K' x = Some a.

Inductive Merge K : list A -> list A -> list A -> Prop :=
| merge_nil_l qs : Merge K [] qs qs
| merge_nil_r ps : Merge K ps [] ps
| merge_l p ps q qs out :
    key_le K p q -> Merge K ps (q :: qs) out -> Merge K (p :: ps) (q :: qs) (p :: out)
| merge_r p ps q qs out :
    key_lt K q p -> Merge K (p :: ps) qs out -> Merge K (p :: ps) (q :: qs) (q :: out).

(** One pass over the runs of length [n], making [m] merges. *)
Inductive Pass K n : list A -> list A -> nat -> Prop :=
| pass_nil : Pass K n [] [] 0
| pass_cons xs out rest m :
    xs <> [] -> Merge K (take n xs) (take n (drop n xs)) out ->
    Pass K n (drop n (drop n xs)) rest m -> Pass K n xs (out ++ rest) (S m).

(** [xs] consists of sorted runs of length [n] (the last may be shorter). *)
Inductive Runs K n : list A -> Prop :=
| runs_nil : Runs K n []
| runs_cons xs :
    xs <> [] -> StronglySorted (key_le K) (take n xs) -> Runs K n (drop n xs) -> Runs K n xs.

(** *** Revealing more keys *)

Lemma key_le_mono K K' x y : key_sub K K' -> key_le K x y -> key_le K' x y.
Proof. intros Hs (a & b & Ha & Hb & Hle). exists a, b. auto. Qed.

Lemma key_lt_mono K K' x y : key_sub K K' -> key_lt K x y -> key_lt K' x y.
Proof. intros Hs (a & b & Ha & Hb & Hle). exists a, b. auto. Qed.

Lemma Merge_mono K K' ps qs out : key_sub K K' -> Merge K ps qs out -> Merge K' ps qs out.
Proof. intros Hs. induction 1; constructor; eauto using key_le_mono, key_lt_mono. Qed.

Lemma StronglySorted_mono (R R' : A -> A -> Prop) xs :
  (forall x y, R x y -> R' x y) -> StronglySorted R xs -> StronglySorted R' xs.
Proof. intros HR. induction 1; constructor; eauto using Forall_impl. Qed.

Lemma Runs_mono K K' n xs : key_sub K K' -> Runs K n xs -> Runs K' n xs.
Proof.
  intros Hs. induction 1; [constructor|]. constructor; auto.
  eauto using StronglySorted_mono, key_le_mono.
Qed.

(** *** Merges *)

Lemma Merge_perm K ps qs out : Merge K ps qs out -> out ≡ₚ ps ++ qs.
Proof.
  induction 1 as [| |p ps q qs out _ _ IH|p ps q qs out _ _ IH];
    [done|by rewrite app_nil_r|simpl; by rewrite IH|].
  rewrite IH. apply Permutation_middle.
Qed.

Lemma key_le_trans K x y z : key_le K x y -> key_le K y z -> key_le K x z.
Proof. intros (a & b & ? & ? & ?) (b' & c & ? & ? & ?). simplify_eq. exists a, c. repeat split; done || lia. Qed.

Lemma key_lt_le K x y : key_lt K x y -> key_le K x y.
Proof. intros (a & b & ? & ? & ?). exists a, b. repeat split; done || lia. Qed.

Lemma Merge_sorted K ps qs out :
  Merge K ps qs out -> StronglySorted (key_le K) ps -> StronglySorted (key_le K) qs ->
  StronglySorted (key_le K) out.
Proof.
  induction 1 as [| |p ps q qs out Hle HM IH|p ps q qs out Hlt HM IH]; intros Hp Hq; [done..| |].
  - apply StronglySorted_inv in Hp as [Hp Hall]. constructor; [by apply IH|].
    rewrite (Merge_perm _ _ _ _ HM). apply Forall_app. split; [done|]. constructor; [done|].
    apply StronglySorted_inv in Hq as [_ Hq]. eapply Forall_impl; [done|]. eauto using key_le_trans.
  - apply StronglySorted_inv in Hq as [Hq Hall]. constructor; [by apply IH|].
    rewrite (Merge_perm _ _ _ _ HM). apply Forall_app. split; [|done].
    apply key_lt_le in Hlt. constructor; [done|].
    apply StronglySorted_inv in Hp as [_ Hp]. eapply Forall_impl; [done|]. eauto using key_le_trans.
Qed.

(** The items with a given key, in order. *)
Definition with_key K (k : Z) xs : list A := filter (fun x => K x = Some k) xs.

Lemma with_key_none K k xs : Forall (fun x => K x <> Some k) xs -> with_key K k xs = [].
Proof. induction 1; [done|]. unfold with_key. by rewrite filter_cons_False. Qed.

Lemma Merge_stable K k ps qs out :
  Merge K ps qs out -> StronglySorted (key_le K) ps ->
  with_key K k out = with_key K k ps ++ with_key K k qs.
Proof.
  unfold with_key.
  induction 1 as [| |p ps q qs out _ HM IH|p ps q qs out Hlt HM IH]; intros Hp.
  - done.
  - by rewrite filter_nil, app_nil_r.
  - apply StronglySorted_inv in Hp as [Hp _]. rewrite !(filter_cons _ p), IH by done.
    by case_decide.
  - rewrite (filter_cons _ q), (filter_cons _ q qs), IH by done. case_decide as E; [|done].
    apply key_lt_le in Hlt as Hle.
    change (filter _ (p :: ps)) with (with_key K k (p :: ps)).
    rewrite (with_key_none K k (p :: ps)); [done|].
    destruct Hlt as (b & a & Hb & Ha & Hab). constructor; [intros E'; simplify_eq; lia|].
    apply StronglySorted_inv in Hp as [_ Hall]. eapply Forall_impl; [done|].
    intros x (a' & c & Ha' & Hc & Hac). simplify_eq. rewrite Hc. intros [= ->]. lia.
Qed.

(** *** Passes *)

Lemma Pass_mono K K' n xs out m : key_sub K K' -> Pass K n xs out m -> Pass K' n xs out m.
Proof. intros Hs. induction 1; econstructor; eauto using Merge_mono. Qed.

Lemma Merge_length K ps qs out : Merge K ps qs out -> length out = (length ps + length qs)%nat.
Proof. intros HM. by rewrite (Merge_perm _ _ _ _ HM), length_app. Qed.

Lemma Pass_perm K n xs out m : Pass K n xs out m -> out ≡ₚ xs.
Proof.
  induction 1 as [|xs out rest m _ HM _ IH]; [done|].
  rewrite (Merge_perm _ _ _ _ HM), IH, <- app_assoc. by rewrite !take_drop.
Qed.

Lemma Runs_take K n xs : Runs K n xs -> StronglySorted (key_le K) (take n xs).
Proof. destruct 1; [rewrite take_nil; constructor|done]. Qed.

Lemma Runs_drop K n xs : Runs K n xs -> Runs K n (drop n xs).
Proof. destruct 1; [rewrite drop_nil; constructor|done]. Qed.

Lemma Pass_stable K n k xs out m :
  Pass K n xs out m -> Runs K n xs -> with_key K k out = with_key K k xs.
Proof.
  induction 1 as [|xs out rest m _ HM _ IH]; intros HR; [done|].
  rewrite <- (take_drop n xs) at 1. rewrite <- (take_drop n (drop n xs)).
  unfold with_key in *. rewrite !filter_app. rewrite IH by (by apply Runs_drop, Runs_drop).
  pose proof (Merge_stable K k _ _ _ HM (Runs_take _ _ _ HR)) as E. unfold with_key in E.
  by rewrite E, app_assoc.
Qed.

Lemma Pass_runs K n xs out m : Pass K n xs out m -> Runs K n xs -> Runs K (2 * n) out.
Proof.
  induction 1 as [|xs out rest m Hne HM HP IH]; intros HR; [constructor|].
  pose proof (Runs_drop _ _ _ HR) as HR'.
  pose proof (Merge_sorted _ _ _ _ HM (Runs_take _ _ _ HR) (Runs_take _ _ _ HR')) as Hs.
  pose proof (Merge_length _ _ _ _ HM) as Hl. rewrite !length_take, length_drop in Hl.
  specialize (IH (Runs_drop _ _ _ HR')).
  destruct (decide (2 * n <= length xs)%nat) as [Hle|Hgt].
  - assert (2 * n = length out)%nat as -> by lia.
    destruct (decide (out ++ rest = [])) as [->|Hne']; [constructor|].
    constructor; [done|by rewrite take_app_length|]. rewrite drop_app_length.
    by replace (length out) with (2 * n)%nat by lia.
  - assert (rest = []) as ->.
    { apply Permutation_nil_r. rewrite (Pass_perm _ _ _ _ _ HP).
      by rewrite (drop_ge (drop n xs)) by (rewrite length_drop; lia). }
    rewrite app_nil_r. destruct (decide (out = [])) as [->|Hne']; [constructor|].
    constructor; [done|by rewrite take_ge by lia|]. rewrite drop_ge by lia. constructor.
Qed.

Lemma Pass_count K n xs out m :
  (0 < n)%nat -> Pass K n xs out m -> (m <= 1)%nat <-> (length xs <= 2 * n)%nat.
Proof.
  intros Hn. destruct 1 as [|xs out rest m Hne HM HP]; [simpl; lia|].
  remember (drop n (drop n xs)) as zs eqn:Ez.
  destruct HP as [|ys ? ? ? Hne']; split; intros; try lia.
  - apply (f_equal length) in Ez. rewrite !length_drop in Ez. simpl in Ez. lia.
  - exfalso. apply Hne'. subst ys. apply drop_ge. rewrite length_drop. lia.
Qed.

Lemma Runs_sorted K n xs : Runs K n xs -> (length xs <= n)%nat -> StronglySorted (key_le K) xs.
Proof. intros HR Hl. rewrite <- (take_ge xs n) by done. by apply Runs_take. Qed.

Lemma Runs_one K xs : Runs K 1 xs.
Proof.
  induction xs as [|x xs IH]; constructor; [done| |].
  - simpl. rewrite take_0. repeat constructor.
  - simpl. by rewrite drop_0.
Qed.

(** A sorted list is determined by its items when the keys are distinct. *)
Lemma sorted_unique K xs ys :
  xs ≡ₚ ys -> StronglySorted (key_lt K) xs -> StronglySorted (key_le K) ys -> xs = ys.
Proof.
  intros HP Hx. revert ys HP. induction Hx as [|x xs Hx IH Hall]; intros ys HP Hy.
  { by apply Permutation_nil_l in HP. }
  destruct ys as [|y ys]; [by apply Permutation_nil_r in HP|].
  apply StronglySorted_inv in Hy as [Hy Hall'].
  assert (x = y) as ->.
  { assert (y ∈ x :: xs) as [-> | Hin]%elem_of_cons by (rewrite HP; set_solver); [done|].
    rewrite Forall_forall in Hall. specialize (Hall _ Hin).
    assert (x ∈ y :: ys) as [-> | Hin']%elem_of_cons by (rewrite <- HP; set_solver); [done|].
    rewrite Forall_forall in Hall'. specialize (Hall' _ Hin').
    destruct Hall as (?&?&?&?&?), Hall' as (?&?&?&?&?). simplify_eq. lia. }
  f_equal. apply IH; [|done]. by apply (Permutation_cons_inv (a := y)).
Qed.

(** A sorted list of at least two items has only revealed keys. *)
Lemma sorted_revealed K xs (P : A -> Prop) :
  StronglySorted (key_le K) xs -> (2 <= length xs)%nat ->
  (forall x k, x ∈ xs -> K x = Some k -> P x) -> Forall P xs.
Proof.
  intros Hs Hlen HP. destruct Hs as [|x xs Hs Hall]; [simpl in Hlen; lia|].
  destruct xs as [|y xs]; [simpl in Hlen; lia|]. constructor.
  - apply Forall_cons in Hall as [(a & b & Ha & _) _]. eapply HP; [|exact Ha]. set_solver.
  - apply Forall_forall. intros z Hz. rewrite Forall_forall in Hall.
    destruct (Hall z Hz) as (a & b & _ & Hb & _). eapply HP; [|exact Hb]. set_solver.
Qed.

Lemma key_sub_refl K : key_sub K K.
Proof. by intros x a. Qed.

Lemma key_sub_trans K1 K2 K3 : key_sub K1 K2 -> key_sub K2 K3 -> key_sub K1 K3.
Proof. intros H1 H2 x a Hx. auto. Qed.
End Merge.
End MergePure.
