(* ===== verification/ListSort.v ===== *)
(** * The in-place merge sort ([core_list_mergesort])

    Total correctness of the sort against an interface for its comparison
    function.  A comparison may run code with effects of its own, as
    [cmp_complex] and [cmp_idx] do; the interface asks that it reveals keys
    that never change afterwards. *)

From S2P Require Import Prelude CoreList ListChain MergePure.

Module Sort.
Import LinkedList Chain MergePure.

(** What the sort needs from [cmp]: items stay valid, revealed keys persist,
    and the result orders the revealed keys. *)
Class Comparator {S : Type} (cmp : nat -> nat -> ST S Z) := {
  valid : S -> nat -> Prop;
  key : S -> nat -> option Z;
  ext : S -> S -> Prop;
  ext_preorder :: PreOrder ext;
  ext_valid s s' a : ext s s' -> valid s a -> valid s' a;
  ext_key s s' a k : ext s s' -> key s a = Some k -> key s' a = Some k;
  cmp_spec s a b : valid s a -> valid s b ->
    wp (cmp a b) (fun c s' => ext s s' /\ exists ka kb,
      key s' a = Some ka /\ key s' b = Some kb /\ (c <= 0 <-> ka <= kb)) s
}.

(** Taking the next item of a merge, as a relation. *)
Inductive Take {A : Type} (K : A -> option Z) : list A -> list A -> A -> list A -> list A -> Prop :=
| take_p x ps qs : (forall y qs', qs = y :: qs' -> key_le K x y) -> Take K (x :: ps) qs x ps qs
| take_q x ps qs : (forall y ps', ps = y :: ps' -> key_lt K x y) -> Take K ps (x :: qs) x ps qs.

Lemma Take_Merge {A : Type} (K : A -> option Z) ps qs x ps' qs' out :
  Take K ps qs x ps' qs' -> Merge K ps' qs' out -> Merge K ps qs (x :: out).
Proof.
  intros [y ps1 qs1 H|y ps1 qs1 H] HM.
  - destruct qs1 as [|z qs1]; [|constructor; eauto]. inversion HM; subst; constructor.
  - destruct ps1 as [|z ps1]; [|constructor; eauto]. inversion HM; subst; constructor.
Qed.

Lemma Take_mono {A : Type} (K K' : A -> option Z) ps qs x ps' qs' :
  key_sub K K' -> Take K ps qs x ps' qs' -> Take K' ps qs x ps' qs'.
Proof. intros Hs []; constructor; intros; [eapply key_le_mono|eapply key_lt_mono]; eauto. Qed.

Lemma Take_length {A : Type} (K : A -> option Z) ps qs x ps' qs' :
  Take K ps qs x ps' qs' -> (length ps + length qs = S (length ps' + length qs'))%nat.
Proof. intros []; simpl; lia. Qed.

(** The merged part of the list: its last cell is [tail], whose [next] has not
    been set yet. *)
Definition seg (h : heads) (list tail : ptr) (dn : Datatypes.list cell) : Prop :=
  match tail with
  | None => dn = []
  | Some t => exists dn' i r, dn = dn' ++ [(t, i)] /\ chain h list dn r
  end.

Section Sort.
Context {S : Type} (cmp : nat -> nat -> ST S Z) `{!Comparator cmp}.
Implicit Types (h : heads) (s : S) (p q : ptr) (xs ps zs dn : list cell).

(** The keys of the cells and their validity in a state. *)
Definition K (s : S) (x : cell) : option Z := key s x.2.
Definition valids (s : S) (xs : list cell) : Prop := Forall (fun x => valid s x.2) xs.

Lemma ext_key_sub s s' : ext s s' -> key_sub (K s) (K s').
Proof. intros He x a. by apply ext_key. Qed.

Lemma ext_valids s s' xs : ext s s' -> valids s xs -> valids s' xs.
Proof. intros He Hv. eapply Forall_impl; [done|]. simpl. eauto using ext_valid. Qed.

(** ** Stepping [insize] places along *)
Lemma step_q_spec (n : nat) h s p (psize : Z) xs :
  chain h p xs None -> xs <> [] ->
  wp (step_q n p psize) (fun '(q, ps) w =>
    w = (h, s) /\ ps = psize + Z.of_nat (length (take n xs))
    /\ chain h p (take n xs) q /\ chain h q (drop n xs) None) (h, s).
Proof.
  revert p psize xs. induction n as [|n IH]; intros p psize [|[a i] xs] Hc Hne; try done.
  { simpl. split; [done|]. rewrite Z.add_0_r. done. }
  destruct Hc as (-> & n' & Ha & Hc). simpl in *. mem_steps.
  destruct xs as [|x xs].
  - simpl in Hc. subst n'. mem_steps. rewrite take_nil, drop_nil. repeat split; try done. by exists None.
  - pose proof (proj1 Hc) as ->. eapply wp_mono; [by apply (IH _ _ (x :: xs))|].
    intros [q ps] w (-> & -> & H1 & H2). split; [done|]. split; [lia|]. eauto.
Qed.

(** ** Choosing the next item *)
Definition taken (h : heads) (pe : ptr) (ps zs : list cell) (qsize : Z) (s' : S)
    (e p' q' : ptr) (psize' qsize' : Z) : Prop :=
  exists x ps' zs' n, e = Some x.1 /\ h !! x.1 = Some (ListHead n x.2)
    /\ Take (K s') ps (take (Z.to_nat qsize) zs) x ps' (take (Z.to_nat qsize') zs')
    /\ drop (Z.to_nat qsize') zs' = drop (Z.to_nat qsize) zs
    /\ chain h p' ps' pe /\ chain h q' zs' None
    /\ psize' = Z.of_nat (length ps') /\ 0 <= qsize' /\ ps ++ zs ≡ₚ x :: ps' ++ zs'.

Lemma taken_p h pe x ps zs qsize s' n q :
  h !! x.1 = Some (ListHead n x.2) -> chain h n ps pe -> chain h q zs None -> 0 <= qsize ->
  (forall y qs', take (Z.to_nat qsize) zs = y :: qs' -> key_le (K s') x y) ->
  taken h pe (x :: ps) zs qsize s' (Some x.1) n q (Z.of_nat (length ps)) qsize.
Proof. intros. exists x, ps, zs, n. repeat split; try done. by constructor. Qed.

Lemma taken_q h pe x ps zs qsize s' n p :
  h !! x.1 = Some (ListHead n x.2) -> chain h p ps pe -> chain h n zs None -> 0 < qsize ->
  (forall y ps', ps = y :: ps' -> key_lt (K s') x y) ->
  taken h pe ps (x :: zs) qsize s' (Some x.1) p n (Z.of_nat (length ps)) (qsize - 1).
Proof.
  intros. exists x, ps, zs, n. replace (Z.to_nat qsize) with (Datatypes.S (Z.to_nat (qsize - 1))) by lia.
  simpl. repeat split; try done; [by constructor|lia|]. by rewrite Permutation_middle.
Qed.

Lemma take_next_spec h s p q (psize qsize : Z) pe ps zs :
  chain h p ps pe -> chain h q zs None -> psize = Z.of_nat (length ps) -> 0 <= qsize ->
  valids s (ps ++ zs) -> 0 < psize \/ (0 < qsize /\ q <> None) ->
  wp (take_next cmp p q psize qsize) (fun '(e, p', q', psize', qsize') '(h', s') =>
    h' = h /\ ext s s' /\ taken h pe ps zs qsize s' e p' q' psize' qsize') (h, s).
Proof.
  intros Hp Hq -> Hqs Hv Hcond. unfold take_next.
  destruct ps as [|x ps].
  { destruct zs as [|y zs]; [simpl in *; destruct Hcond as [|[]]; [lia|done]|].
    destruct Hq as (-> & n & Hy & Hq). simpl. mem_steps. split; [done|]. split; [done|].
    apply (taken_q h pe y [] zs); [done..| |]; [simpl in *; lia|done]. }
  simpl length. destruct (Z.eqb_spec (Z.of_nat (Datatypes.S (length ps))) 0) as [|_]; [lia|].
  destruct Hp as (-> & n & Hx & Hp). case (_ || _) eqn:E.
  { mem_steps. split; [done|]. split; [done|].
    replace (Z.of_nat (Datatypes.S (length ps)) - 1) with (Z.of_nat (length ps)) by lia.
    apply taken_p; [done..|]. intros y qs' Hy. exfalso. apply orb_true_iff in E as [E | E%bool_decide_eq_true].
    - apply Z.eqb_eq in E. by subst qsize.
    - subst q. destruct zs; [by rewrite take_nil in Hy|]. by destruct Hq. }
  apply orb_false_iff in E as [E1%Z.eqb_neq E2%bool_decide_eq_false].
  destruct zs as [|y zs]; [by destruct E2|]. destruct Hq as (-> & m & Hy & Hq).
  apply Forall_app in Hv as [[Hvx _]%Forall_cons [Hvy _]%Forall_cons].
  mem_steps. apply wp_on_rest. eapply wp_mono; [by apply (cmp_spec s x.2 y.2)|].
  intros c s' (He & ka & kb & Hka & Hkb & Hc). destruct (Z.leb_spec c 0) as [Hle|Hgt]; mem_steps.
  - split; [done|]. split; [done|].
    replace (Z.of_nat (Datatypes.S (length ps)) - 1) with (Z.of_nat (length ps)) by lia.
    apply taken_p; [done..| by simpl; eauto | done |]. intros y' qs' Hy'.
    replace (Z.to_nat qsize) with (Datatypes.S (Z.to_nat (qsize - 1))) in Hy' by lia.
    injection Hy' as <- _. exists ka, kb. unfold K. repeat split; try done. by apply Hc.
  - split; [done|]. split; [done|].
    apply (taken_q h pe y (x :: ps) zs); [done|by simpl; eauto|done|lia|].
    intros y' ps' [= <- _]. exists kb, ka. unfold K. repeat split; try done. lia.
Qed.

(** ** Appending to the merged list *)
Lemma link_spec h s (l tail : ptr) dn (e : cell) n :
  seg h l tail dn -> h !! e.1 = Some (ListHead n e.2) -> NoDup (dn ++ [e]).*1 ->
  wp (match tail with
      | Some _ => st_next tail (Some e.1) ;; mret l
      | None => mret (Some e.1)
      end) (fun l' '(h', s') =>
    s' = s /\ seg h' l' (Some e.1) (dn ++ [e]) /\ frame dn h h') (h, s).
Proof.
  intros Hseg He Hnd. destruct tail as [t|]; simpl in Hseg.
  - destruct Hseg as (dn' & i & r & -> & Hc).
    apply chain_app in Hc as (q & Hc & -> & r' & Ht & _). simpl in *.
    rewrite !fmap_app in Hnd. simpl in Hnd.
    apply NoDup_app in Hnd as (Hnd & Hdis & _).
    apply NoDup_app in Hnd as (_ & Hdis' & _).
    assert (t <> e.1) by set_solver. assert (t ∉ dn'.*1) by set_solver.
    mem_steps. split; [done|]. split.
    + exists (dn' ++ [(t, i)]), e.2, n. split; [by destruct e|]. rewrite <- app_assoc.
      apply chain_app. exists (Some t). split; [by auto with cint|].
      split; [done|]. exists (Some e.1). rewrite lookup_insert_eq. split; [done|].
      split; [done|]. exists n. rewrite lookup_insert_ne by done. done.
    + apply frame_insert. rewrite fmap_app. set_solver.
  - subst dn. mem_steps. split; [done|]. split; [|done].
    exists [], e.2, n. split; [by destruct e|]. split; [done|]. by exists n.
Qed.

Lemma NoDup_fst_perm (xs ys : list cell) : xs ≡ₚ ys -> NoDup xs.*1 -> NoDup ys.*1.
Proof. intros HP. by rewrite HP. Qed.

(** ** Merging two runs *)
Lemma merge_loop_spec (fuel : nat) h s p q (psize qsize : Z) (l tail pe : ptr) dn ps zs :
  (length ps + length (take (Z.to_nat qsize) zs) < fuel)%nat ->
  seg h l tail dn -> chain h p ps pe -> chain h q zs None ->
  NoDup (dn ++ ps ++ zs).*1 -> valids s (ps ++ zs) ->
  psize = Z.of_nat (length ps) -> 0 <= qsize ->
  wp (merge_loop cmp fuel p q psize qsize l tail) (fun '(q', l', tail') '(h', s') => exists out,
    Merge (K s') ps (take (Z.to_nat qsize) zs) out /\ seg h' l' tail' (dn ++ out)
    /\ chain h' q' (drop (Z.to_nat qsize) zs) None /\ ext s s' /\ frame (dn ++ ps ++ zs) h h') (h, s).
Proof.
  revert h s p q psize qsize l tail dn ps zs. induction fuel as [|fuel IH];
    intros h s p q psize qsize l tail dn ps zs Hf Hseg Hp Hq Hnd Hv Hps Hqs; [lia|].
  simpl. case (_ || _) eqn:Hcond.
  - assert (0 < psize \/ 0 < qsize /\ q <> None) as Hcond'.
    { apply orb_true_iff in Hcond as [?%Z.ltb_lt | [?%Z.ltb_lt ?%bool_decide_eq_true]%andb_true_iff]; auto. }
    apply wp_bind. eapply wp_mono; [by eapply take_next_spec|].
    intros [[[[e p'] q'] psize'] qsize'] [h1 s1]
      (-> & Hext & x & ps' & zs' & n & -> & Hx & HT & Hdrop & Hp' & Hq' & Hps' & Hqs' & HP).
    assert (NoDup ((dn ++ [x]) ++ ps' ++ zs').*1) as Hnd'.
    { eapply NoDup_fst_perm; [|done]. rewrite HP, <- app_assoc. done. }
    apply wp_bind. eapply wp_mono; [apply (link_spec h s1 l tail dn x n); [done..|]|].
    { rewrite fmap_app in Hnd'. by apply NoDup_app in Hnd' as [? _]. }
    intros l' [h2 s2] (-> & Hseg' & Hfr).
    assert (forall b, b ∈ (ps' ++ zs').*1 -> h2 !! b = h !! b) as Hsame.
    { intros b Hb. apply Hfr. rewrite (fmap_app _ (dn ++ [x])) in Hnd'.
      apply NoDup_app in Hnd' as (_ & Hdis & _). 
      intros Hb'. apply (Hdis b); [rewrite fmap_app; apply elem_of_app; by left|done]. }
    eapply wp_mono; [apply (IH h2 s1 p' q' psize' qsize' l' (Some x.1) (dn ++ [x]) ps' zs'); try done|].
    + pose proof (Take_length _ _ _ _ _ _ HT). lia.
    + eapply chain_ext; [done|]. intros; apply Hsame. set_solver.
    + eapply chain_ext; [done|]. intros; apply Hsame. set_solver.
    + eapply ext_valids; [done|]. unfold valids in Hv. rewrite HP in Hv. by apply Forall_cons in Hv as [_ ?].
    + intros [[q2 l2] t2] [h3 s3] (out & HM & Hseg2 & Hc2 & Hext2 & Hfr2). exists (x :: out).
      rewrite <- app_assoc in Hseg2. split; [|split; [done|split; [by rewrite <- Hdrop|split]]].
      * eapply Take_Merge; [|done]. eapply Take_mono; [by apply ext_key_sub|done].
      * by etrans.
      * intros b Hb. rewrite HP in Hb. rewrite Hfr2 by (rewrite <- app_assoc; done). apply Hfr. set_solver.
  - apply orb_false_iff in Hcond as [Hp0%Z.ltb_ge Hq0].
    assert (ps = []) as -> by (destruct ps; simpl in *; [done|lia]).
    assert (take (Z.to_nat qsize) zs = [] /\ drop (Z.to_nat qsize) zs = zs) as [Et Ed].
    { apply andb_false_iff in Hq0 as [?%Z.ltb_ge | Hq0%bool_decide_eq_false].
      - by replace qsize with 0 by lia.
      - destruct zs; [by rewrite take_nil, drop_nil|]. destruct Hq as (-> & _). by destruct Hq0. }
    mem_steps. exists []. rewrite Et, Ed, app_nil_r. repeat split; try done. constructor.
Qed.

(** ** One pass *)
Lemma pass_loop_spec (fuel n : nat) h s p (l tail : ptr) (nmerges : Z) dn xs :
  (0 < n)%nat -> (length xs < fuel)%nat -> (length xs <= size h)%nat ->
  seg h l tail dn -> chain h p xs None -> NoDup (dn ++ xs).*1 -> valids s xs ->
  wp (pass_loop cmp fuel (Z.of_nat n) p l tail nmerges) (fun '(l', tail', nm) '(h', s') =>
    exists out m, Pass (K s') n xs out m /\ seg h' l' tail' (dn ++ out)
    /\ nm = nmerges + Z.of_nat m /\ ext s s' /\ frame (dn ++ xs) h h') (h, s).
Proof.
  intros Hn. revert h s p l tail nmerges dn xs. induction fuel as [|fuel IH];
    intros h s p l tail nmerges dn xs Hf Hsz Hseg Hc Hnd Hv; [lia|].
  destruct (decide (xs = [])) as [->|Hne]; simpl.
  { simpl in Hc. subst p. exists [], 0%nat. rewrite app_nil_r. repeat split; try done; [constructor|lia]. }
  assert (exists a, p = Some a) as [a ->] by (destruct xs; [done|]; destruct Hc as [-> _]; eauto).
  rewrite Nat2Z.id. apply wp_bind. eapply wp_mono; [by apply (step_q_spec n h s)|].
  intros [q psize] w (-> & -> & Hp & Hq). apply wp_bind, wp_walk_fuel, wp_bind.
  eapply wp_mono; [eapply (merge_loop_spec _ h s (Some a) q _ (Z.of_nat n) l tail q dn (take n xs) (drop n xs));
    rewrite ?take_drop; try done; rewrite ?Nat2Z.id, ?length_take, ?length_drop; lia|].
  intros [[q' l'] t'] [h' s'] (out & HM & Hseg' & Hc' & Hext & Hfr).
  rewrite Nat2Z.id in HM, Hc'. rewrite take_drop in Hfr.
  assert (out ++ drop n (drop n xs) ≡ₚ xs) as HP.
  { rewrite (Merge_perm _ _ _ _ HM), <- app_assoc. by rewrite !take_drop. }
  assert (length (drop n (drop n xs)) <= length xs - n)%nat by (rewrite !length_drop; lia).
  eapply wp_mono; [apply (IH h' s' q' l' t' (nmerges + 1) (dn ++ out) (drop n (drop n xs))); try done|].
  - destruct xs; simpl in *; [done|lia].
  - by apply chain_size in Hc'.
  - rewrite <- app_assoc. eapply NoDup_fst_perm; [|done]. by rewrite HP.
  - eapply ext_valids; [done|]. unfold valids in Hv. rewrite <- HP in Hv.
    by apply Forall_app in Hv as [_ ?].
  - intros [[l2 t2] nm] [h2 s2] (rest & m & HP2 & Hseg2 & -> & Hext2 & Hfr2).
    exists (out ++ rest), (Datatypes.S m). rewrite <- app_assoc in Hseg2.
    split; [|split; [done|split; [lia|split; [by etrans|]]]].
    + constructor; [done| |done]. eapply Merge_mono; [by apply ext_key_sub|done].
    + eapply frame_trans; [done|]. eapply frame_perm; [|done]. by rewrite <- app_assoc, HP.
Qed.

(** ** The whole sort *)

Definition sorted_as (s : S) (xs ys : list cell) : Prop :=
  ys ≡ₚ xs /\ StronglySorted (key_le (K s)) ys /\ forall k, with_key (K s) k ys = with_key (K s) k xs.

Lemma close_spec h s (l tail : ptr) dn :
  seg h l tail dn -> dn <> [] -> NoDup dn.*1 ->
  wp (st_next tail None) (fun _ '(h', s') => s' = s /\ chain h' l dn None /\ frame dn h h') (h, s).
Proof.
  intros Hseg Hne Hnd. destruct tail as [t|]; [|done]. destruct Hseg as (dn' & i & r & -> & Hc).
  apply chain_app in Hc as (q & Hc & -> & n & Ht & _). simpl in *. rewrite fmap_app in Hnd.
  apply NoDup_app in Hnd as (_ & Hdis & _).
  mem_steps. split; [done|]. split.
  - apply chain_app. exists (Some t). split; [apply chain_insert; [done|set_solver]|].
    split; [done|]. exists None. by rewrite lookup_insert_eq.
  - apply frame_insert. rewrite fmap_app. set_solver.
Qed.

Lemma sort_loop_spec (fuel n : nat) h s (l : ptr) xs xs0 :
  (length xs + 2 <= fuel + n)%nat -> (0 < n <= length xs)%nat -> Z.of_nat (length xs) < 2 ^ 31 ->
  chain h l xs None -> valids s xs -> xs ≡ₚ xs0 ->
  Runs (K s) n xs -> (forall s', ext s s' -> forall k, with_key (K s') k xs = with_key (K s') k xs0) ->
  wp (sort_loop cmp fuel (Z.of_nat n) l) (fun l' '(h', s') => exists ys,
    chain h' l' ys None /\ sorted_as s' xs0 ys /\ ext s s' /\ frame xs0 h h') (h, s).
Proof.
  revert n h s l xs. induction fuel as [|fuel IH]; intros n h s l xs Hf Hn Hlen Hc Hv HP HR Hst; [lia|].
  simpl. apply wp_bind, wp_walk_fuel, wp_bind. pose proof (chain_size _ _ _ Hc).
  eapply wp_mono; [eapply (pass_loop_spec _ n h s l None None 0 [] xs); try done;
    [lia|lia|by eapply chain_NoDup]|].
  intros [[l' tail] nm] [h' s'] (out & m & HPs & Hseg & -> & Hext & Hfr). simpl in Hseg, Hfr.
  pose proof (Pass_perm _ _ _ _ _ HPs) as HPo.
  assert (length out = length xs) as Hlo by (by rewrite HPo).
  assert (Runs (K s') n xs) as HR' by (eapply Runs_mono; [by apply ext_key_sub|done]).
  pose proof (Pass_runs _ _ _ _ _ HPs HR') as HR2.
  assert (forall s2, ext s' s2 -> forall k, with_key (K s2) k out = with_key (K s2) k xs0) as Hst2.
  { intros s2 He k. rewrite <- Hst by (by etrans). pose proof (ext_key_sub _ _ He).
    eapply Pass_stable; [eapply Pass_mono; done|eapply Runs_mono; done]. }
  apply wp_bind. eapply wp_mono; [apply (close_spec h' s' l' tail out); [done|intros ->; simpl in *; lia|]|].
  { eapply NoDup_fst_perm; [by symmetry|by eapply chain_NoDup]. }
  intros _ [h2 s2] (-> & Hc2 & Hfr2).
  assert (frame xs0 h h2) as Hfr3.
  { eapply frame_perm; [exact HP|]. eapply frame_trans; [done|]. eapply frame_perm; done. }
  pose proof (Pass_count _ _ _ _ _ (proj1 Hn) HPs) as Hcount.
  destruct (Z.leb_spec (0 + Z.of_nat m) 1); mem_steps.
  - exists out. split; [done|]. split; [|by split]. split; [by rewrite HPo|].
    split; [|by apply Hst2].
    eapply Runs_sorted; [done|]. rewrite Hlo. lia.
  - rewrite swrap_small by (unfold in_s; lia). replace (Z.of_nat n * 2) with (Z.of_nat (2 * n)) by lia.
    eapply wp_mono; [apply (IH (2 * n)%nat h2 s' l' out); try done; try lia; [|by rewrite HPo]|].
    { eapply ext_valids; [done|]. unfold valids in *. by rewrite HPo. }
    intros l2 [h3 s3] (ys & H1 & H2 & H3 & H4). exists ys.
    repeat split; try done; try apply H2; [by etrans|by eapply frame_trans].
Qed.

(** The contract of [core_list_mergesort], for its clients. *)
Lemma mergesort_spec h s (l : ptr) xs :
  chain h l xs None -> xs <> [] -> Z.of_nat (length xs) < 2 ^ 31 -> valids s xs ->
  wp (core_list_mergesort cmp l) (fun l' '(h', s') => exists ys,
    chain h' l' ys None /\ sorted_as s' xs ys /\ ext s s' /\ frame xs h h') (h, s).
Proof.
  intros Hc Hne Hlen Hv. apply wp_bind, wp_walk_fuel. pose proof (chain_size _ _ _ Hc).
  apply (sort_loop_spec _ 1 h s l xs xs); try done; [lia| |by apply Runs_one].
  destruct xs; simpl; [done|lia].
Qed.
End Sort.
End Sort.
