(* ===== verification/ListIdx.v ===== *)
(** * Sorting by index, and the list operations as a whole

    The comparison [cmp_idx] of [core_list_join.c] as an instance of the sort's
    interface, and the properties of the list operations. *)

From S2P Require Import Prelude CoreList ListChain MergePure ListSort.

Module ListIdx.
Import LinkedList Chain MergePure Sort.

#[export] Instance list_data_eq_dec : EqDecision list_data.
Proof. solve_decision. Defined.

(** ** The backup in the upper byte of an item *)

Definition backup (x : list_data) : Z := Z.land (data16 x) 0xff00.

(** An item that holds its original data. *)
Definition original (x : list_data) : Prop := regen x = x.

#[export] Instance original_dec (x : list_data) : Decision (original x).
Proof. unfold original. apply _. Defined.

Lemma swrap_testbit (w x n : Z) : 1 <= w -> 0 <= n < w -> Z.testbit (swrap w x) n = Z.testbit x n.
Proof.
  intros Hw Hn. rewrite <- (Z.mod_pow2_bits_low (swrap w x) w n) by lia.
  by rewrite swrap_congr, Z.mod_pow2_bits_low by lia.
Qed.

(** The bits of the upper byte, and the bits the regeneration computes. *)
Lemma upper_testbit (x n : Z) : 0 <= n ->
  Z.testbit (Z.land x 0xff00) n = (8 <=? n) && (n <? 16) && Z.testbit x n.
Proof.
  intros Hn. change 0xff00 with (Z.shiftl (Z.ones 8) 8).
  rewrite Z.land_spec, Z.shiftl_spec by lia. destruct (Z.leb_spec 8 n); simpl.
  - rewrite Z.testbit_ones_nonneg by lia.
    destruct (Z.ltb_spec (n - 8) 8), (Z.ltb_spec n 16); try lia;
      by rewrite ?andb_true_r, ?andb_false_r.
  - by rewrite (Z.testbit_neg_r (Z.ones 8)), andb_false_r by lia.
Qed.

Lemma regen_testbit (x : list_data) (n : Z) : 0 <= n < 16 ->
  Z.testbit (data16 (regen x)) n = Z.testbit (data16 x) (if n <? 8 then n + 8 else n).
Proof.
  intros Hn. simpl. rewrite swrap_testbit, Z.lor_spec, upper_testbit by lia.
  change 0x00ff with (Z.ones 8). rewrite Z.land_comm, Z.land_ones, Z.testbit_mod_pow2 by lia.
  rewrite Z.shiftr_spec by lia. destruct (Z.ltb_spec n 8), (Z.leb_spec 8 n), (Z.ltb_spec n 16);
    simpl; try lia; [done|by rewrite orb_false_r].
Qed.

Lemma backup_bits (x y : list_data) :
  (forall n, 8 <= n < 16 -> Z.testbit (data16 x) n = Z.testbit (data16 y) n) -> backup x = backup y.
Proof.
  intros H. apply Z.bits_inj'. intros n Hn. unfold backup. rewrite !upper_testbit by done.
  destruct (Z.leb_spec 8 n), (Z.ltb_spec n 16); simpl; auto.
Qed.

Lemma backup_bits_inv (x y : list_data) (n : Z) :
  backup x = backup y -> 8 <= n < 16 -> Z.testbit (data16 x) n = Z.testbit (data16 y) n.
Proof.
  intros E Hn. apply (f_equal (fun z => Z.testbit z n)) in E. unfold backup in E.
  rewrite !upper_testbit in E by lia.
  destruct (Z.leb_spec 8 n), (Z.ltb_spec n 16); simpl in E; try lia; done.
Qed.

Lemma backup_regen (x : list_data) : backup (regen x) = backup x.
Proof.
  apply backup_bits. intros n Hn. rewrite regen_testbit by lia.
  by destruct (Z.ltb_spec n 8); [lia|].
Qed.

(** Regeneration only depends on the backup. *)
Lemma regen_backup (x y : list_data) : backup x = backup y -> idx x = idx y -> regen x = regen y.
Proof.
  intros Hb Hi. destruct x as [u i], y as [v j]. simpl in *. subst j. unfold regen. simpl. f_equal. f_equal.
  apply Z.bits_inj'. intros n Hn. rewrite !Z.lor_spec, !Z.land_spec, !Z.shiftr_spec by lia.
  change 0x00ff with (Z.ones 8). rewrite Z.testbit_ones_nonneg by lia.
  change (Z.land u 0xff00 = Z.land v 0xff00) in Hb.
  rewrite <- !Z.land_spec, Hb. f_equal. destruct (Z.ltb_spec n 8); simpl; [|done].
  apply (backup_bits_inv (ListData u i) (ListData v i)); [done|lia].
Qed.

Lemma regen_regen (x : list_data) : regen (regen x) = regen x.
Proof. apply regen_backup; [apply backup_regen|done]. Qed.

(** Two items with the same backup and index that hold their original data are equal. *)
Lemma original_eq (x y : list_data) :
  original x -> original y -> backup x = backup y -> idx x = idx y -> x = y.
Proof. intros Hx Hy Hb Hi. rewrite <- Hx, <- Hy. by apply regen_backup. Qed.

(** ** The comparison by index *)

Section CmpIdx.
Context {R : Type} (D : nat -> Prop).
Implicit Types (s : datas * R).

(** The items that may be compared: allocated ones in [D]. *)
Definition idx_valid s (a : nat) : Prop := D a /\ is_Some (s.1 !! a).

(** Revealing an index is regenerating the item. *)
Definition idx_key s (a : nat) : option Z :=
  x ← s.1 !! a; if decide (original x) then Some (idx x) else None.

(** Items of [D] may be regenerated; nothing else changes. *)
Definition regens (x y : list_data) : Prop := y = x \/ y = regen x.
Definition idx_ext s s' : Prop :=
  s'.2 = s.2 /\ (forall a, ~ D a -> s'.1 !! a = s.1 !! a)
  /\ (forall a, option_Forall2 regens (s.1 !! a) (s'.1 !! a)).

#[local] Instance idx_ext_preorder : PreOrder idx_ext.
Proof.
  split.
  - intros s. split; [done|]. split; [done|]. intros a. destruct (s.1 !! a); constructor. by left.
  - intros s1 s2 s3 (E1 & F1 & H1) (E2 & F2 & H2). split; [congruence|]. split.
    { intros a Ha. by rewrite F2, F1. }
    intros a. specialize (H1 a). specialize (H2 a).
    destruct H1 as [x y H1|]; inversion H2 as [? z H3|]; constructor; subst.
    destruct H1 as [-> | ->], H3 as [-> | ->]; unfold regens; rewrite ?regen_regen; auto.
Qed.

Lemma idx_ext_lookup s s' (a : nat) (x : list_data) :
  idx_ext s s' -> s.1 !! a = Some x -> exists y, s'.1 !! a = Some y /\ regens x y.
Proof.
  intros (_ & _ & H) E. specialize (H a). rewrite E in H. inversion H; subst. eauto.
Qed.

Lemma idx_ext_regen (d : datas) (r : R) (a : nat) (x : list_data) :
  D a -> d !! a = Some x -> idx_ext (d, r) (<[a := regen x]> d, r).
Proof.
  intros Ha E. split; [done|]. split; simpl.
  - intros b Hb. apply lookup_insert_ne. by intros ->.
  - intros b. destruct (decide (a = b)) as [<-|Hne].
    + rewrite E, lookup_insert_eq. constructor. by right.
    + rewrite lookup_insert_ne by done. destruct (d !! b); constructor. by left.
Qed.

Lemma idx_key_regen s (a : nat) (x : list_data) :
  s.1 !! a = Some (regen x) -> idx_key s a = Some (idx x).
Proof.
  intros E. unfold idx_key. rewrite E. simpl. rewrite decide_True; [done|]. apply regen_regen.
Qed.

Lemma idx_key_ext s s' (a : nat) (k : Z) : idx_ext s s' -> idx_key s a = Some k -> idx_key s' a = Some k.
Proof.
  intros He. unfold idx_key. destruct (s.1 !! a) as [x|] eqn:E; [|done]. simpl. case_decide as Ho; [|done].
  intros [= <-]. destruct (idx_ext_lookup _ _ _ _ He E) as (y & -> & Hy). simpl.
  assert (y = x) as -> by (unfold regens in Hy; rewrite Ho in Hy; naive_solver). by rewrite decide_True.
Qed.

Lemma cmp_idx_spec s (a b : nat) : idx_valid s a -> idx_valid s b ->
  wp (cmp_idx true a b) (fun c s' => idx_ext s s' /\ exists ka kb,
    idx_key s' a = Some ka /\ idx_key s' b = Some kb /\ (c <= 0 <-> ka <= kb)) s.
Proof.
  destruct s as [d r]. intros [HDa [x Hx]] [HDb [y Hy]]. simpl in *.
  pose proof (idx_ext_regen d r a x HDa Hx) as He1.
  destruct (idx_ext_lookup _ _ _ _ He1 Hy) as (y' & Hy' & _). simpl in Hy'.
  pose proof (idx_ext_regen _ r b y' HDb Hy') as He2.
  assert (<[b := regen y']> (<[a := regen x]> d) !! a = Some (regen x)) as Ha.
  { destruct (decide (b = a)) as [->|Hne]; [|by rewrite lookup_insert_ne, lookup_insert_eq].
    rewrite lookup_insert_eq in Hy'. injection Hy' as <-. by rewrite lookup_insert_eq, regen_regen. }
  pose proof (lookup_insert_eq (<[a := regen x]> d) b (regen y')) as Hb.
  unfold cmp_idx. repeat first [wp_step; simpl | eapply wp_ld_data; [eassumption|] | apply wp_st_data].
  split; [by etrans|]. exists (idx x), (idx y').
  rewrite (idx_key_regen _ a x), (idx_key_regen _ b y') by done. split; [done|]. split; [done|].
  unfold regen. cbn [idx]. lia.
Qed.

#[export] Instance cmp_idx_comparator : Comparator (cmp_idx (R := R) true).
Proof.
  refine {| valid := idx_valid; key := idx_key; ext := idx_ext |}.
  - intros s s' a He [HD [x Hx]]. destruct (idx_ext_lookup _ _ _ _ He Hx) as (y & Hy & _). by split.
  - apply idx_key_ext.
  - apply cmp_idx_spec.
Defined.
End CmpIdx.

Section SortIdx.
Context {R : Type}.
Implicit Types (h : heads) (d : datas) (r : R) (l : ptr) (xs ys : list cell).

Lemma allocated_valids d r xs :
  allocated d xs -> valids (Comparator0 := cmp_idx_comparator (fun a => a ∈ xs.*2)) (cmp_idx true) (d, r) xs.
Proof.
  intros Hd. unfold allocated in Hd. unfold valids. rewrite Forall_forall in *. intros x Hx.
  split; [by apply list_elem_of_fmap_2|]. by apply Hd.
Qed.

(** The contract of the sort by index in terms of the items. *)
Lemma mergesort_idx_spec h d r l xs :
  chain h l xs None -> xs <> [] -> Z.of_nat (length xs) < 2 ^ 31 -> allocated d xs ->
  wp (core_list_mergesort (cmp_idx true) l) (fun l' '(h', (d', r')) => exists ys,
    r' = r /\ chain h' l' ys None /\ frame xs h h' /\ ys ≡ₚ xs
    /\ StronglySorted (key_le (K (cmp_idx (R := R) true)
         (Comparator0 := cmp_idx_comparator (fun a => a ∈ xs.*2)) (d', r))) ys
    /\ (forall k, with_key (K (cmp_idx (R := R) true)
         (Comparator0 := cmp_idx_comparator (fun a => a ∈ xs.*2)) (d', r)) k ys
       = with_key (K (cmp_idx (R := R) true)
         (Comparator0 := cmp_idx_comparator (fun a => a ∈ xs.*2)) (d', r)) k xs)
    /\ (forall a, a ∉ xs.*2 -> d' !! a = d !! a)
    /\ (forall a, option_Forall2 regens (d !! a) (d' !! a))) (h, (d, r)).
Proof.
  intros Hc Hne Hlen Hd.
  eapply wp_mono; [apply (mergesort_spec (Comparator0 := cmp_idx_comparator (fun a => a ∈ xs.*2))
    (cmp_idx true) h (d, r) l xs Hc Hne Hlen), allocated_valids, Hd|].
  intros l' [h' [d' r']] (ys & Hc' & (HP & Hs & Hst) & (Hr & HD & He) & Hf). simpl in Hr. subst r'.
  exists ys. split_and!; done.
Qed.

(** The key of an item of the list is its index, once it is regenerated. *)
Lemma idx_key_item d d' r xs (x : cell) (k : Z) :
  allocated d xs -> x ∈ xs -> (forall a, option_Forall2 regens (d !! a) (d' !! a)) ->
  K (cmp_idx (R := R) true) (Comparator0 := cmp_idx_comparator (fun a => a ∈ xs.*2)) (d', r) x = Some k
  <-> original (item d' x) /\ idx (item d x) = k.
Proof.
  intros Hd Hx He. unfold allocated in Hd. rewrite Forall_forall in Hd.
  destruct (Hd x Hx) as [u Hu]. specialize (He x.2). unfold K, item. simpl. unfold idx_key. simpl.
  rewrite Hu in *. inversion He as [? v Hv|]; subst. simpl.
  assert (idx v = idx u) as Hi by (destruct Hv as [-> | ->]; done).
  case_decide; rewrite <- Hi; naive_solver.
Qed.
End SortIdx.

(** ** Properties of the list operations *)

(** [C16] The merge sort with [cmp_idx]: on every non-empty NULL-terminated list
    of fewer than 2^31 allocated items [core_list_mergesort] returns; the cells
    reached from the result are those of the list, with their data pointers, in
    an order in which the indices ascend and items of equal index keep their
    order; every compared item holds its original data again, no item outside
    the list is changed and no item is changed in any other way. *)
Theorem mergesort_idx_correct {R : Type} (h : heads) (d : datas) (r : R) (l : ptr) (xs : list cell) :
  chain h l xs None -> xs <> [] -> Z.of_nat (length xs) < 2 ^ 31 -> allocated d xs ->
  exists l' h' d' ys,
    core_list_mergesort (cmp_idx true) l (h, (d, r)) = Ok (l', (h', (d', r)))
    /\ chain h' l' ys None /\ frame xs h h'
    /\ ys ≡ₚ xs
    /\ StronglySorted (fun x y => idx (item d x) <= idx (item d y)
                                  /\ original (item d' x) /\ original (item d' y)) ys
    /\ (forall k, filter (fun x => original (item d' x) /\ idx (item d x) = k) ys
                = filter (fun x => original (item d' x) /\ idx (item d x) = k) xs)
    /\ (forall a, a ∉ xs.*2 -> d' !! a = d !! a)
    /\ (forall a, d' !! a = d !! a \/ d' !! a = regen <$> d !! a).
Proof.
  intros Hc Hne Hlen Hd. pose proof (mergesort_idx_spec h d r l xs Hc Hne Hlen Hd)
    as (l' & [h' [d' r']] & E & ys & -> & Hc' & Hf & HP & Hs & Hst & HD & He)%wp_ok.
  exists l', h', d', ys. split_and!; try done.
  - eapply StronglySorted_impl_elem; [|exact Hs]. intros x y Hx Hy (a & b & Ha & Hb & Hab).
    rewrite HP in Hx, Hy.
    apply (idx_key_item d d' r xs) in Ha as [? <-]; [|done..].
    apply (idx_key_item d d' r xs) in Hb as [? <-]; done.
  - intros k. specialize (Hst k). unfold with_key in Hst.
    erewrite (list_filter_iff_elem _ _ ys), (list_filter_iff_elem _ _ xs); [exact Hst| |].
    + intros x Hx. symmetry. by apply idx_key_item.
    + intros x Hx. symmetry. apply idx_key_item; [done| |done]. by rewrite <- HP.
  - intros a. destruct (He a) as [x y [-> | ->]|]; auto.
Qed.

Lemma mergesort_idx_correct_witness :
  exists l' h' d' ys,
    core_list_mergesort (cmp_idx true) (Some 2%nat) (demo_heads, (demo_datas, tt)) = Ok (l', (h', (d', tt)))
    /\ chain h' l' ys None /\ ys ≡ₚ demo_cells.
Proof.
  destruct (mergesort_idx_correct demo_heads demo_datas tt (Some 2%nat) demo_cells demo_chain
              ltac:(discriminate) ltac:(vm_compute; reflexivity) demo_allocated)
    as (l' & h' & d' & ys & E & Hc & _ & HP & _).
  exists l', h', d', ys. exact (conj E (conj Hc HP)).
Defined.

(** On the example: the indices 1, 3, 5, 5, the two equal ones in their order. *)
Example mergesort_demo :
  match core_list_mergesort (cmp_idx true) (Some 2%nat) (demo_heads, (demo_datas, tt)) with
  | Ok (l', (h', _)) => l' = Some 3%nat
      /\ h' !! 3%nat = Some (ListHead (Some 1%nat) 13) /\ h' !! 1%nat = Some (ListHead (Some 2%nat) 11)
      /\ h' !! 2%nat = Some (ListHead (Some 0%nat) 12) /\ h' !! 0%nat = Some (ListHead None 10)
  | _ => False
  end.
Proof. vm_compute. repeat split. Qed.

(** The empty list: [core_list_mergesort] on NULL writes through the NULL
    [tail] pointer before it looks at [nmerges], whatever the comparison, so the
    empty-list case that the comment on the [nmerges] test allows for is not
    handled. *)
Lemma mergesort_empty_ub {S : Type} (cmp : nat -> nat -> ST S Z) (h : heads) (s : S) :
  core_list_mergesort cmp None (h, s) = UB.
Proof. done. Qed.
End ListIdx.
