(* ===== verification/ListInit.v ===== *)
(** * Building the benchmark list ([core_list_init])

    The initial list is well formed for every block size and seed: it returns a
    chain through the cells of the block, ordered by index, headed by the header
    item. *)

From S2P Require Import Prelude CoreList ListChain MergePure ListSort ListIdx.

Module ListInit.
Import LinkedList Chain MergePure Sort ListIdx.

Section Init.
Context {R : Type}.
Implicit Types (h : heads) (d : datas) (r : R) (n k : nat).

(** The cells after [k] insertions: the header, the inserted cells with the
    latest first, the tail. *)
Definition inserted (k : nat) : list cell := (fun j => (j, j)) <$> reverse (seq 2 k).
Definition init_cells (k : nat) : list cell := (0, 0)%nat :: inserted k ++ [(1, 1)%nat].

Lemma inserted_S k : inserted (S k) = (k + 2, k + 2)%nat :: inserted k.
Proof.
  unfold inserted. rewrite seq_S, reverse_app. simpl. by replace (S (S k)) with (k + 2)%nat by lia.
Qed.

Lemma init_cells_length k : length (init_cells k) = (k + 2)%nat.
Proof. unfold init_cells, inserted. simpl. rewrite length_app, length_fmap, length_reverse, length_seq. simpl. lia. Qed.

Lemma init_cells_elem k (x : cell) : x ∈ init_cells k <-> x.1 = x.2 /\ (x.1 < k + 2)%nat.
Proof.
  unfold init_cells, inserted. destruct x as [a b]. rewrite elem_of_cons, elem_of_app, list_elem_of_fmap.
  setoid_rewrite elem_of_reverse. setoid_rewrite elem_of_seq. rewrite list_elem_of_singleton. split.
  - intros [[= -> ->]|[(j & [= -> ->] & Hj)|[= -> ->]]]; simpl; lia.
  - simpl. intros [-> Hb]. destruct b as [|[|b]]; [by left|by right; right|]. right. left. exists (S (S b)).
    split; [done|lia].
Qed.

(** The first [n] items exist and have an index that is not negative. *)
Definition small_idx (x : list_data) : Prop := 0 <= idx x.
Definition numbered (d : datas) (n : nat) : Prop :=
  forall j, (j < n)%nat -> exists x, d !! j = Some x /\ small_idx x.

Lemma numbered_insert d (n : nat) (x : list_data) :
  numbered d n -> small_idx x -> numbered (<[n := x]> d) (S n).
Proof.
  intros Hd Hx j Hj. destruct (decide (n = j)) as [<-|Hne]; [rewrite lookup_insert_eq; eauto|].
  rewrite lookup_insert_ne by done. apply Hd. lia.
Qed.

Lemma init_cells_alloc d k : numbered d (k + 2) -> allocated d (init_cells k).
Proof.
  intros H. apply Forall_forall. intros x [Hx Hlt]%init_cells_elem.
  destruct (H x.2) as (u & Hu & _); [lia|]. by exists u.
Qed.

(** The insertion loop fills the block up to its last but one cell. *)
Lemma init_insert_spec n (i seed : Z) h d r k (size : nat) :
  chain h (Some 0%nat) (init_cells k) None -> (k + 3 <= size <= k + 3 + n)%nat ->
  numbered d (k + 2) ->
  wp (init_insert n i seed (Some 0%nat) (k + 2) (k + 2) size size) (fun _ '(h', (d', r')) =>
    r' = r /\ chain h' (Some 0%nat) (init_cells (size - 3)) None
    /\ numbered d' (size - 1) /\ d' !! 0%nat = d !! 0%nat) (h, (d, r)).
Proof.
  revert i h d k. induction n as [|n IH]; intros i h d k Hc Hsz Hd; simpl.
  { replace (size - 3)%nat with k by lia. split; [done|]. split; [done|]. split; [|done].
    intros j Hj. apply Hd. lia. }
  set (inf := ListData _ _). apply wp_bind. destruct (decide (k + 3 < size)%nat) as [Hlt|Hge].
  - eapply wp_mono; [apply (insert_new_spec h d r (Some 0%nat) (Some 0%nat) [] (inserted k ++ [(1, 1)%nat])
      0 0 inf (k + 2) (k + 2) size size Hc); [|lia|lia|done]|].
    { intros ([a b] & Ha & [Hab Hlt']%init_cells_elem)%list_elem_of_fmap. simpl in *. lia. }
    intros [[p mb] db] [h' [d' r']] ([= -> -> ->] & -> & -> & Hc').
    replace (k + 2 + 1)%nat with (S k + 2)%nat by lia.
    eapply wp_mono; [apply (IH _ _ _ (S k))|].
    + unfold init_cells. rewrite inserted_S. exact Hc'.
    + lia.
    + by apply numbered_insert.
    + intros _ [h2 [d2 r2]] (-> & Hc2 & Hd2 & E2). split; [done|]. split; [exact Hc2|].
      split; [exact Hd2|].
      rewrite E2, lookup_insert_ne by lia. done.
  - apply wp_ok. do 2 eexists. split; [apply insert_new_full; lia|]. apply IH; [done|lia|done].
Qed.

(** The numbering, for lists whose first fifth has fewer than 2^15 items. *)

Lemma low14_nonneg (x : Z) : 0 <= s16 (Z.land 0x3fff x).
Proof.
  rewrite Z.land_comm. pose proof (in_u_land 14 x 0x3fff ltac:(lia) ltac:(split; vm_compute; [discriminate|reflexivity])) as Hr.
  unfold in_u in Hr. rewrite swrap_small; [lia|lia|unfold in_s; lia].
Qed.

Lemma init_index_spec (fuel : nat) h d r (finder : ptr) (i size seed : Z) (xs : list cell) :
  chain h finder xs None -> xs <> [] -> (length xs <= fuel)%nat -> allocated d xs ->
  0 <= i < 2 ^ 32 -> size / 5 < 2 ^ 15 ->
  wp (init_index fuel finder i size seed) (fun _ '(h', (d', r')) =>
    h' = h /\ r' = r /\ dom d' = dom d /\ (forall a, a ∉ xs.*2 -> d' !! a = d !! a)
    /\ (forall a x, d' !! a = Some x -> d !! a = Some x \/ small_idx x)) (h, (d, r)).
Proof.
  revert d finder i xs. induction fuel as [|fuel IH]; intros d finder i xs Hc Hne Hf Hd Hi Hsz.
  { destruct xs; [done|simpl in Hf; lia]. }
  destruct xs as [|x xs]; [done|]. destruct Hc as (-> & n & Hx & Hc). simpl.
  apply wp_bind. eapply wp_ld_head; [done|]. simpl.
  destruct n as [n|]; [|apply wp_ret; split_and!; naive_solver].
  apply Forall_cons in Hd as [[u Hu] Hd].
  apply wp_bind, wp_on_rest. eapply wp_ld_data; [done|]. apply wp_bind, wp_ret.
  set (v := if i <? size / 5 then _ else _).
  assert (0 <= v.1 < 2 ^ 32 /\ 0 <= v.2) as [Hv1 Hv2].
  { unfold v. destruct (Z.ltb_spec i (size / 5)); simpl.
    - pose proof (uwrap_range 32 (i + 1) ltac:(lia)) as Hr. unfold in_u in Hr.
      rewrite swrap_small; unfold in_s; lia.
    - pose proof (uwrap_range 32 (i + 1) ltac:(lia)) as Hr. unfold in_u in Hr. split; [lia|apply low14_nonneg]. }
  destruct v as [i' ni]. simpl in Hv1, Hv2. apply wp_bind, wp_on_rest, wp_st_data.
  set (d1 := <[x.2 := _]> d).
  assert (forall y, is_Some (d !! y) -> is_Some (d1 !! y)) as Hal.
  { intros y Hy. unfold d1. destruct (decide (x.2 = y)) as [<-|?]; [rewrite lookup_insert_eq; eauto|by rewrite lookup_insert_ne]. }
  eapply wp_mono; [apply (IH d1 (Some n) i' xs); try done|].
  - intros ->. done.
  - simpl in Hf. lia.
  - unfold allocated in *. eapply Forall_impl; [exact Hd|]. auto.
  - intros _ [h2 [d2 r2]] (-> & -> & Hdom & Hout & Hsm). split; [done|]. split; [done|]. split; [|split].
    + rewrite Hdom. unfold d1. rewrite dom_insert_L. apply elem_of_dom_2 in Hu. set_solver.
    + intros a Ha. simpl in Ha. rewrite Hout by set_solver. unfold d1. apply lookup_insert_ne. set_solver.
    + intros a y Hy. destruct (Hsm a y Hy) as [Hy' | ?]; [|by right]. unfold d1 in Hy'.
      destruct (decide (x.2 = a)) as [<-|?]; [rewrite lookup_insert_eq in Hy'|by left; rewrite lookup_insert_ne in Hy'].
      injection Hy' as <-. by right.
Qed.

(** The list before it is sorted. *)
Lemma init_cells_tail k : exists a xs, init_cells k = (0, 0)%nat :: (a, a) :: xs.
Proof.
  unfold init_cells. destruct k as [|k]; [by exists 1%nat, []|]. rewrite inserted_S. simpl. eauto.
Qed.

(** The smallest key of a list keeps its first item in front of a stable sort. *)
Lemma stable_head (K : cell -> option Z) (x y : cell) (xs ys : list cell) :
  StronglySorted (key_le K) (y :: ys) -> y :: ys ≡ₚ x :: xs ->
  (forall v : Z, with_key K v (y :: ys) = with_key K v (x :: xs)) ->
  (forall z (v : Z), z ∈ x :: xs -> K z = Some v -> 0 <= v) -> K x = Some 0 -> y = x.
Proof.
  intros Hs HP Hst Hpos Hx. assert (K y = Some 0) as Hy.
  { assert (x ∈ y :: ys) as [-> | Hin]%elem_of_cons by (rewrite HP; set_solver); [done|].
    apply StronglySorted_inv in Hs as [_ Hall]. rewrite Forall_forall in Hall.
    destruct (Hall x Hin) as (a & b & Ha & Hb & Hab). rewrite Hx in Hb. injection Hb as <-.
    rewrite Ha. f_equal. assert (0 <= a); [|lia]. apply (Hpos y); [rewrite <- HP; set_solver|done]. }
  specialize (Hst 0). unfold with_key in Hst. rewrite !filter_cons_True in Hst by done. by injection Hst.
Qed.

Lemma regens_idx x y : regens x y -> idx y = idx x.
Proof. by intros [-> | ->]. Qed.

(** The numbering reaches every item and leaves the header alone. *)
Lemma numbered_dom d d' n :
  numbered d n -> dom d' = dom d ->
  (forall a x, d' !! a = Some x -> d !! a = Some x \/ small_idx x) -> numbered d' n.
Proof.
  intros Hd Hdom Hsm j Hj. destruct (Hd j Hj) as (x & Hx & Hxs). apply elem_of_dom_2 in Hx as Hxd.
  rewrite <- Hdom in Hxd. apply elem_of_dom in Hxd as [y Hy]. exists y. split; [done|].
  destruct (Hsm j y Hy) as [Hy' | ?]; [congruence|done].
Qed.

Lemma item_other k d d' h :
  chain h (Some 0%nat) (init_cells k) None ->
  (forall a, a ∉ (inserted k ++ [(1, 1)%nat]).*2 -> d' !! a = d !! a) ->
  item d' (0, 0)%nat = item d (0, 0)%nat.
Proof.
  intros Hc Hout. unfold item. simpl. rewrite Hout; [done|].
  intros ([a b] & Hab & Hin)%list_elem_of_fmap. simpl in Hab. subst b.
  assert ((a, 0)%nat ∈ init_cells k) as [Ea _]%init_cells_elem by (unfold init_cells; set_solver).
  simpl in Ea. subst a. pose proof (chain_NoDup _ _ _ Hc) as [Hnin _]%NoDup_cons.
  apply Hnin. apply list_elem_of_fmap. by exists (0, 0)%nat.
Qed.

(** Regenerating items keeps the numbers. *)
Lemma numbered_regens d d' k :
  numbered d (k + 2) -> (forall a, option_Forall2 regens (d !! a) (d' !! a)) ->
  forall x, x ∈ init_cells k -> idx (item d' x) = idx (item d x) /\ 0 <= idx (item d x).
Proof.
  intros Hd Hreg x Hx. pose proof Hx as [Hx12 Hlt]%init_cells_elem.
  destruct (Hd x.2) as (u & Hu & Hus); [lia|]. specialize (Hreg x.2). unfold item. rewrite Hu in *.
  inversion Hreg as [? v Hv|]; subst. simpl. split; [by apply regens_idx|done].
Qed.

(** The number of cells of the list for a block size. *)
Definition cells_of (blksize : Z) : nat := Z.to_nat (blksize / 20 - 3).

(** The list before the sort: all cells linked, every item numbered, the
    header with index 0. *)
Lemma fill_list_spec h d r (blksize seed : Z) :
  100 <= blksize < 2 ^ 21 ->
  wp (fill_list blksize seed) (fun _ '(h', (d', r')) => r' = r
    /\ chain h' (Some 0%nat) (init_cells (cells_of blksize - 2)) None
    /\ numbered d' (cells_of blksize) /\ idx (item d' (0, 0)%nat) = 0) (h, (d, r)).
Proof.
  intros Hb. assert (5 <= blksize / 20 < 2 ^ 17) as Hdiv.
  { split; [apply Z.div_le_lower_bound; lia|apply Z.div_lt_upper_bound; lia]. }
  unfold fill_list. change (16 + 4) with 20. rewrite (uwrap_small 32) by (unfold in_u; lia).
  remember (Z.to_nat (blksize / 20 - 2)) as sz eqn:Esz. remember (sz - 3)%nat as k eqn:Ek.
  assert (cells_of blksize = k + 2)%nat as -> by (unfold cells_of; lia).
  replace (k + 2 - 2)%nat with k by lia.
  apply wp_bind, wp_get, wp_bind, wp_put, wp_bind.
  set (h1 := <[0%nat := ListHead None 0]> h). set (d1 := <[0%nat := ListData _ 0]> d).
  eapply wp_mono; [apply (insert_new_spec h1 d1 r (Some 0%nat) (Some 0%nat) [] [] 0 0 _ 1 1 sz sz); [|set_solver|lia|lia|done]|].
  { split; [done|]. exists None. unfold h1. by rewrite lookup_insert_eq. }
  intros [[p mb] db] [h2 [d2 r2]] ([= -> -> ->] & -> & -> & Hc2). apply wp_bind.
  eapply wp_mono; [apply (init_insert_spec sz 0 seed h2 _ r 0 sz Hc2)|]; [lia| |].
  { apply (numbered_insert _ 1); [|done]. intros j Hj. assert (j = 0%nat) as -> by lia.
    unfold d1. rewrite lookup_insert_eq. by eexists. }
  intros _ [h3 [d3 r3]] (-> & Hc3 & Hn3 & E3). rewrite <- Ek in Hc3.
  replace (sz - 1)%nat with (k + 2)%nat in Hn3 by lia.
  pose proof (init_cells_alloc d3 k Hn3) as Ha3. pose proof Hc3 as (_ & q & Hq & Hcq). simpl in Hq, Hcq.
  apply wp_bind. eapply wp_ld_next; [done|]. apply wp_bind, wp_walk_fuel. pose proof (chain_size _ _ _ Hcq).
  eapply wp_mono; [eapply (init_index_spec _ h3 d3 r q 1 _ seed (inserted k ++ [(1, 1)%nat]) Hcq)|].
  - by destruct (inserted k).
  - lia.
  - by apply Forall_cons in Ha3 as [_ ?].
  - lia.
  - apply Z.div_lt_upper_bound; lia.
  - intros _ [h4 [d4 r4]] (-> & -> & Hdom & Hout & Hsm). split; [done|]. split; [exact Hc3|].
    split; [by eapply numbered_dom|].
    rewrite (item_other k d3 d4 h3 Hc3 Hout). unfold item. simpl.
    rewrite E3, lookup_insert_ne by lia. unfold d1. by rewrite lookup_insert_eq.
Qed.

(** The contract of the initialisation. *)
Definition built_list (h : heads) (d : datas) (l : ptr) (n : nat) (ys : list cell) : Prop :=
  chain h l ys None /\ l = Some 0%nat /\ ys ≡ₚ (fun j => (j, j)) <$> seq 0 n
  /\ StronglySorted (fun x y => idx (item d x) <= idx (item d y)) ys
  /\ Forall (fun x => original (item d x) /\ 0 <= idx (item d x)) ys.

Lemma init_cells_perm h k :
  chain h (Some 0%nat) (init_cells k) None -> init_cells k ≡ₚ (fun j => (j, j)) <$> seq 0 (k + 2).
Proof.
  intros Hc. apply NoDup_Permutation.
  - eapply NoDup_fmap_1, (chain_NoDup _ _ _ Hc).
  - apply NoDup_fmap_2; [intros ? ? [=]; done|apply NoDup_seq].
  - intros [a b]. rewrite init_cells_elem, list_elem_of_fmap. setoid_rewrite elem_of_seq. simpl. split.
    + intros [-> ?]. exists b. split; [done|lia].
    + intros (j & [= -> ->] & ?). lia.
Qed.

Lemma list_init_spec h d r (blksize seed : Z) :
  100 <= blksize < 2 ^ 21 ->
  wp (core_list_init blksize seed) (fun l '(h', (d', r')) => exists ys,
    r' = r /\ built_list h' d' l (cells_of blksize) ys) (h, (d, r)).
Proof.
  intros Hb. apply wp_bind. eapply wp_mono; [by apply fill_list_spec|].
  intros _ [h3 [d4 r3]] (-> & Hc3 & Hn4 & H40).
  assert (5 <= blksize / 20 < 2 ^ 17) as Hdiv.
  { split; [apply Z.div_le_lower_bound; lia|apply Z.div_lt_upper_bound; lia]. }
  remember (cells_of blksize - 2)%nat as k eqn:Ek.
  assert (cells_of blksize = k + 2)%nat as En by (unfold cells_of in *; lia). rewrite En in *.
  pose proof (init_cells_alloc d4 k Hn4) as Ha4.
  assert (Z.of_nat (length (init_cells k)) < 2 ^ 31) as Hlen by (rewrite init_cells_length; unfold cells_of in *; lia).
  eapply wp_mono; [apply (mergesort_idx_spec h3 d4 r (Some 0%nat) (init_cells k) Hc3 ltac:(done) Hlen Ha4)|].
  intros l' [h' [d' r']] (ys & -> & Hc' & _ & HP & Hs & Hst & _ & Hreg). exists ys. split; [done|].
  pose proof (numbered_regens d4 d' k Hn4 Hreg) as Hidx.
  assert (Forall (fun x => original (item d' x)) ys) as Ho.
  { apply (sorted_revealed _ _ _ Hs); [rewrite HP, init_cells_length; lia|]. intros x kk Hx Hkx.
    rewrite HP in Hx. by apply (idx_key_item d4 d' r (init_cells k)) in Hkx as [? _]. }
  split; [done|]. split; [|split; [|split]].
  - destruct ys as [|y ys]; [by apply Permutation_nil_l in HP|]. pose proof (proj1 Hc') as ->.
    rewrite (stable_head _ (0, 0)%nat y _ ys Hs HP Hst); [done| |].
    + intros z kk Hz [_ <-]%(idx_key_item d4 d' r (init_cells k)); [|done..]. by apply Hidx.
    + apply (idx_key_item d4 d' r (init_cells k)); [done|set_solver|done|]. split; [|done].
      rewrite Forall_forall in Ho. apply Ho. rewrite HP. set_solver.
  - rewrite HP. by eapply init_cells_perm.
  - eapply StronglySorted_impl_elem; [|exact Hs]. intros x y Hx Hy (a & b & Hka & Hkb & Hab).
    rewrite HP in Hx, Hy. apply (idx_key_item d4 d' r (init_cells k)) in Hka as [_ <-]; [|done..].
    apply (idx_key_item d4 d' r (init_cells k)) in Hkb as [_ <-]; [|done..].
    by rewrite (proj1 (Hidx x Hx)), (proj1 (Hidx y Hy)).
  - rewrite Forall_forall in *. intros x Hx. split; [by apply Ho|]. rewrite HP in Hx.
    destruct (Hidx x Hx) as [-> ?]. done.
Qed.
End Init.

(** [C24] Initialisation: for every block of 100 to 2^21 bytes, whatever it
    holds, and every seed, [core_list_init] returns the header cell; the list
    goes through each of the first [blksize / 20 - 3] cells of the block exactly
    once, each with its own data item; the indices ascend and are not negative,
    and every item holds the data its backup byte stands for. *)
Theorem list_init_built {R : Type} (h : heads) (d : datas) (r : R) (blksize seed : Z) :
  100 <= blksize < 2 ^ 21 ->
  exists l h' d' ys, core_list_init blksize seed (h, (d, r)) = Ok (l, (h', (d', r)))
    /\ built_list h' d' l (cells_of blksize) ys.
Proof.
  intros Hb. pose proof (list_init_spec h d r blksize seed Hb) as (l & [h' [d' r']] & E & ys & -> & Hl)%wp_ok.
  eauto 10.
Qed.

Lemma list_init_built_witness :
  exists l h' d' ys, core_list_init 666 0 (∅, (∅, tt)) = Ok (l, (h', (d', tt)))
    /\ built_list h' d' l 30 ys.
Proof. apply (list_init_built ∅ ∅ tt 666 0). lia. Defined.

End ListInit.
