(* ===== verification/BenchSpec.v ===== *)
(** * The list benchmark gives the list back

    The comparison [cmp_complex], which runs the state-machine and the matrix
    benchmarks and caches their results in the items, as an instance of the
    sort's interface; then [core_bench_list] as a whole: it never leaves its
    data, it returns, and it restores the list. *)

From S2P Require Import Prelude CoreUtil CoreState CoreMatrix CoreList CoreBench.
From S2P Require Import ListChain MergePure ListSort ListIdx.

Module BenchSpec.
Import LinkedList Chain MergePure Sort ListIdx.

(** ** The state the comparison runs on *)

Record ready (r : Bench.core_results) : Prop := Ready {
  ready_crc : in_u 16 (Bench.crc r);
  ready_len : Z.of_nat (length (Bench.memblock3 r)) = Bench.size r;
  ready_end : Bench.memblock3 r !! Z.to_nat (Bench.size r - 1) = Some 0;
  (* the strides of the corruption are multiples of 17 *)
  ready_stride : (Bench.size r - 1) mod 17 <> 0;
  ready_mat : Matrix.wf (Bench.mat r)
}.

(** The fields that no benchmark writes. *)
Definition params (r : Bench.core_results) :=
  (Bench.seed1 r, Bench.seed2 r, Bench.seed3 r, Bench.size r, Bench.iterations r, Bench.execs r,
   Bench.list r, Bench.err r).

(** The checksums of the matrix and of the state machine are those of their
    first run. *)
Record latched (r r' : Bench.core_results) : Prop := Latched {
  latched_params : params r' = params r;
  latched_matrix : Bench.crcmatrix r <> 0 -> Bench.crcmatrix r' = Bench.crcmatrix r;
  latched_state : Bench.crcstate r <> 0 -> Bench.crcstate r' = Bench.crcstate r
}.

#[export] Instance latched_preorder : PreOrder latched.
Proof.
  split; [by intros r|]. intros r1 r2 r3 [P1 M1 S1] [P2 M2 S2]. split; [congruence|..].
  - intros H. rewrite M2, M1; [done|done|by rewrite M1].
  - intros H. rewrite S2, S1; [done|done|by rewrite S1].
Qed.

(** What the list benchmark does to the results: it also leaves [crclist]. *)
Definition steady (r r' : Bench.core_results) : Prop :=
  latched r r' /\ Bench.crclist r' = Bench.crclist r.

#[export] Instance steady_preorder : PreOrder steady.
Proof. split; [by intros r|]. intros r1 r2 r3 [L1 E1] [L2 E2]. split; [by etrans|congruence]. Qed.

Definition keeps (r r' : Bench.core_results) : Prop := (ready r -> ready r') /\ steady r r'.

#[export] Instance keeps_preorder : PreOrder keeps.
Proof.
  split.
  - by intros r.
  - intros r1 r2 r3 [H1 E1] [H2 E2]. split; [auto|by etrans].
Qed.

Lemma ready_set_crc r c : in_u 16 c -> ready r -> ready (Bench.set_crc r c).
Proof. intros Hc []. by constructor. Qed.

(** The operand of the operation is its low four bits twice. *)
Lemma dtype_17 (data : Z) :
  let t := Z.land (Z.shiftr data 3) 0xf in
  s16 (Z.lor t (Z.shiftl t 4)) = 17 * t /\ 0 <= t < 16.
Proof.
  simpl. assert (0 <= Z.land (Z.shiftr data 3) 0xf < 16) as Ht by (apply (in_u_land 4); done).
  split; [|done]. revert Ht. generalize (Z.land (Z.shiftr data 3) 0xf). intros t Ht.
  apply Z.eqb_eq. apply (allb_spec 16 (fun t => s16 (Z.lor t (Z.shiftl t 4)) =? 17 * t)); [|lia].
  by vm_compute.
Qed.

Lemma untouched_end (r : Bench.core_results) (k : Z) :
  ready r -> 0 < k -> State.touched 0 (Bench.size r) (17 * k) (Z.to_nat (Bench.size r - 1)) = false.
Proof.
  intros [_ Hl He Hs _] Hk. apply lookup_lt_Some in He as Hlt. unfold State.touched.
  rewrite Z2Nat.id by lia. apply andb_false_iff. right. apply Z.eqb_neq. rewrite Z.sub_0_r.
  intros E. apply Hs. apply Z.mod_divide in E as [q E]; [|lia]. rewrite E.
  replace (q * (17 * k)) with (q * k * 17) by lia. by apply Z.mod_mul.
Qed.

Lemma wp_mod_res {D : Type} (f : Bench.core_results -> Bench.core_results) (d : D) r Q :
  Q tt (d, f r) -> wp (Bench.mod_res f) Q (d, r).
Proof. done. Qed.

Lemma steady_state r m c :
  steady r (Bench.set_state r m (if Bench.crcstate r =? 0 then c else Bench.crcstate r)).
Proof. split; [split|]; try done. intros H. simpl. by rewrite (proj2 (Z.eqb_neq _ 0)). Qed.

Lemma steady_matrix r p c :
  steady r (Bench.set_matrix r p (if Bench.crcmatrix r =? 0 then c else Bench.crcmatrix r)).
Proof. split; [split|]; try done. intros H. simpl. by rewrite (proj2 (Z.eqb_neq _ 0)). Qed.

Lemma steady_set_crc r r' c : steady r r' -> steady r (Bench.set_crc r' c).
Proof. intros [[]]. by split. Qed.

Section Calc.
Implicit Types (d : datas) (r : Bench.core_results).

Lemma calc_switch_spec d r (data flag t : Z) :
  ready r -> 0 <= t < 16 ->
  wp (Bench.calc_switch data flag (17 * t)) (fun _ '(d', r') =>
    d' = d /\ ready r' /\ steady r r') (d, r).
Proof.
  intros Hr Ht. unfold Bench.calc_switch. apply wp_bind, wp_gets. simpl.
  destruct (flag =? 0); [|destruct (flag =? 1); [|done]].
  - assert (exists k, (if 17 * t <? 0x22 then 0x22 else 17 * t) = 17 * k /\ 0 < k) as (k & -> & Hk).
    { zcases; [by exists 2|exists t; lia]. }
    pose proof (untouched_end r k Hr Hk) as HT.
    destruct (State.bench_state_run_zero (Bench.size r) (Bench.seed1 r) (Bench.seed2 r) (17 * k)
      (Bench.crc r) (Bench.memblock3 r) (Z.to_nat (Bench.size r - 1))) as (c & m & -> & Hc & Hl & Hm);
      [apply Hr|lia|apply Hr|done|apply Hr|].
    wp_steps. split; [done|]. split; [|apply steady_state]. destruct Hr as [? Hlen He ? ?]. constructor; simpl; try done.
    + by rewrite Hl.
    + by rewrite Hm, HT, He.
  - destruct (Matrix.bench_matrix_run (Bench.mat r) (17 * t) (Bench.crc r)) as (c & C' & -> & Hl & Hc);
      [apply Hr..|].
    wp_steps. split; [done|]. split; [|apply steady_matrix]. destruct Hr as [? ? ? ? (?&?&?&?&?&?)]. constructor; simpl; try done.
    unfold Matrix.wf. simpl. rewrite Hl. tauto.
Qed.

(** An item as the benchmark may leave it: with its index and its backup. *)
Definition same_item (x y : list_data) : Prop := backup y = backup x /\ idx y = idx x.

Definition cached (x : list_data) : bool := Z.testbit (data16 x) 7.

(** The item [calc_func] writes. *)
Definition cache (x : list_data) (v : Z) : list_data :=
  ListData (s16 (Z.lor (Z.lor (Z.land (data16 x) 0xff00) 0x0080) (Z.land v 0x007f))) (idx x).

Lemma cache_testbit x v (n : Z) : 0 <= n < 16 ->
  Z.testbit (data16 (cache x v)) n =
    if n <? 7 then Z.testbit v n else if n =? 7 then true else Z.testbit (data16 x) n.
Proof.
  intros Hn. simpl. rewrite swrap_testbit, !Z.lor_spec, upper_testbit by lia.
  change 0x007f with (Z.ones 7). rewrite Z.land_ones, Z.testbit_mod_pow2 by lia.
  change 0x0080 with (2 ^ 7). rewrite Z.pow2_bits_eqb, (Z.eqb_sym 7) by lia.
  destruct (Z.ltb_spec n 7), (Z.eqb_spec n 7), (Z.leb_spec 8 n), (Z.ltb_spec n 16); simpl; try lia;
    rewrite ?orb_false_r; done.
Qed.

Lemma cache_same x v : same_item x (cache x v).
Proof.
  split; [|done]. apply backup_bits. intros n Hn. rewrite cache_testbit by lia.
  by destruct (Z.ltb_spec n 7), (Z.eqb_spec n 7); try lia.
Qed.

Lemma low7_bits (u v : Z) : (forall n, 0 <= n < 7 -> Z.testbit u n = Z.testbit v n) ->
  Z.land u 0x007f = Z.land v 0x007f.
Proof.
  intros H. change 0x007f with (Z.ones 7). apply Z.bits_inj'. intros n Hn. rewrite !Z.land_spec.
  rewrite Z.testbit_ones_nonneg by lia. destruct (Z.ltb_spec n 7); rewrite ?andb_false_r; [|done].
  by rewrite H.
Qed.

Lemma cache_value x v : Z.land (data16 (cache x v)) 0x007f = Z.land v 0x007f.
Proof.
  apply low7_bits. intros n Hn. rewrite cache_testbit by lia. by destruct (Z.ltb_spec n 7); [|lia].
Qed.

Lemma cache_cached x v : cached (cache x v) = true.
Proof. apply (cache_testbit x v 7). lia. Qed.

Lemma optype_cached x : negb (u8 (Z.land (Z.shiftr (data16 x) 7) 1) =? 0) = cached x.
Proof.
  unfold cached. change 1 with (Z.ones 1). rewrite Z.land_ones by lia. change (2 ^ 1) with 2.
  rewrite <- Z.bit0_mod, Z.shiftr_spec, Z.add_0_l by lia. by destruct (Z.testbit (data16 x) 7).
Qed.

(** [calc_func] on an item with a cached result only reads; otherwise it
    caches the low seven bits of the result it computes. *)
Lemma calc_func_spec d r (a : nat) (x : list_data) :
  d !! a = Some x -> ready r ->
  wp (Bench.calc_func a) (fun v '(d', r') => exists y,
    d' = <[a := y]> d /\ ready r' /\ steady r r' /\ same_item x y /\ cached y = true
    /\ v = Z.land (data16 y) 0x007f /\ (cached x = true -> y = x /\ r' = r)) (d, r).
Proof.
  intros Hx Hr. unfold Bench.calc_func. apply wp_bind. eapply wp_ld_data; [done|]. simpl.
  rewrite optype_cached. destruct (cached x) eqn:Hca; wp_steps.
  { exists x. rewrite insert_id by done. assert (same_item x x) by by split. assert (steady r r) by done. split_and!; auto. }
  destruct (dtype_17 (data16 x)) as [-> Ht].
  eapply wp_mono; [by apply calc_switch_spec|]. intros v [d' r'] (-> & Hr' & Hp).
  apply wp_bind, wp_mod_res, wp_bind, wp_st_data, wp_ret. change (ListData _ _) with (cache x v). exists (cache x v).
  split; [done|]. split; [|split; [by apply steady_set_crc|split; [apply cache_same|split; [apply cache_cached|split; [|done]]]]].
  - apply ready_set_crc; [|done]. apply Crc.crcu16_range, Hr'.
  - by rewrite cache_value.
Qed.
End Calc.

(** Items of [D] keep their index and backup, the others are unchanged. *)
Definition kept (D : nat -> Prop) (d d' : datas) : Prop :=
  (forall a, ~ D a -> d' !! a = d !! a) /\ (forall a, option_Forall2 same_item (d !! a) (d' !! a)).

#[export] Instance same_item_preorder : PreOrder same_item.
Proof. split; [by intros x|]. intros x y z [] []. split; congruence. Qed.

#[export] Instance kept_preorder D : PreOrder (kept D).
Proof.
  split.
  - intros d. split; [done|]. intros a. reflexivity.
  - intros d1 d2 d3 [F1 H1] [F2 H2]. split; [intros a Ha; by rewrite F2, F1|].
    intros a. etrans; [apply H1|apply H2].
Qed.

Lemma regens_same x y : regens x y -> same_item x y.
Proof. intros [-> | ->]; [done|]. split; [apply backup_regen|done]. Qed.

Lemma kept_lookup D d d' (a : nat) (x : list_data) :
  kept D d d' -> d !! a = Some x -> exists y, d' !! a = Some y /\ same_item x y.
Proof. intros [_ H] E. specialize (H a). rewrite E in H. inversion H; subst. eauto. Qed.

Lemma kept_allocated D d d' xs : kept D d d' -> allocated d xs -> allocated d' xs.
Proof.
  intros Hk Hd. eapply Forall_impl; [done|]. intros x [u Hu]. simpl in *.
  destruct (kept_lookup _ _ _ _ _ Hk Hu) as (v & Hv & _). by exists v.
Qed.

Lemma kept_insert (D : nat -> Prop) d (a : nat) (x y : list_data) :
  D a -> d !! a = Some x -> same_item x y -> kept D d (<[a := y]> d).
Proof.
  intros Ha E Hs. split.
  - intros b Hb. apply lookup_insert_ne. by intros ->.
  - intros b. destruct (decide (a = b)) as [<-|Hne].
    + rewrite E, lookup_insert_eq. by constructor.
    + by rewrite lookup_insert_ne.
Qed.

(** ** The comparison by computed value *)

Section CmpComplex.
Context (D : nat -> Prop).
Implicit Types (s : datas * Bench.core_results).

Definition cpx_valid s (a : nat) : Prop := D a /\ is_Some (s.1 !! a) /\ ready s.2.

(** The value of an item is known once it is cached. *)
Definition cpx_key s (a : nat) : option Z :=
  x ← s.1 !! a; if cached x then Some (Z.land (data16 x) 0x007f) else None.

Definition cpx_ext s s' : Prop :=
  keeps s.2 s'.2 /\ kept D s.1 s'.1
  /\ forall a x, s.1 !! a = Some x -> cached x = true -> s'.1 !! a = Some x.

#[local] Instance cpx_ext_preorder : PreOrder cpx_ext.
Proof.
  split.
  - intros s. by split_and!.
  - intros s1 s2 s3 (H1 & K1 & C1) (H2 & K2 & C2). split; [by etrans|]. split; [by etrans|].
    intros a x Hx Hc. auto.
Qed.

Lemma calc_func_ext s (a : nat) : cpx_valid s a ->
  wp (Bench.calc_func a) (fun v s' => cpx_ext s s' /\ cpx_key s' a = Some v) s.
Proof.
  destruct s as [d r]. intros (Ha & [x Hx] & Hr). simpl in *.
  eapply wp_mono; [by apply (calc_func_spec d r a x)|].
  intros v [d' r'] (y & -> & Hr' & Hp & Hs & Hc & -> & Hcx). split.
  - split; [by split|]. split; [by apply (kept_insert D d a x)|].
    intros b z Hz Hzc. simpl in *. destruct (decide (a = b)) as [<-|Hne].
    + rewrite Hx in Hz. injection Hz as <-. destruct (Hcx Hzc) as [-> _]. apply lookup_insert_eq.
    + by rewrite lookup_insert_ne.
  - unfold cpx_key. simpl. rewrite lookup_insert_eq. simpl. by rewrite Hc.
Qed.

Lemma cpx_valid_ext s s' (a : nat) : cpx_ext s s' -> cpx_valid s a -> cpx_valid s' a.
Proof.
  intros ([Hr _] & Hk & _) (Ha & [x Hx] & Hrd). split; [done|]. split; [|by apply Hr].
  destruct (kept_lookup _ _ _ _ _ Hk Hx) as (y & Hy & _). by exists y.
Qed.

Lemma cpx_key_ext s s' (a : nat) (k : Z) : cpx_ext s s' -> cpx_key s a = Some k -> cpx_key s' a = Some k.
Proof.
  intros (_ & _ & Hc). unfold cpx_key. destruct (s.1 !! a) as [x|] eqn:E; [|done]. simpl.
  destruct (cached x) eqn:Ec; [|done]. rewrite (Hc a x E Ec). simpl. by rewrite Ec.
Qed.

Lemma cpx_key_range s (a : nat) (k : Z) : cpx_key s a = Some k -> 0 <= k < 128.
Proof.
  unfold cpx_key. destruct (s.1 !! a) as [x|]; [|done]. simpl. destruct (cached x); [|done].
  intros [= <-]. apply (in_u_land 7); done.
Qed.

Lemma cmp_complex_spec s (a b : nat) : cpx_valid s a -> cpx_valid s b ->
  wp (Bench.cmp_complex a b) (fun c s' => cpx_ext s s' /\ exists ka kb,
    cpx_key s' a = Some ka /\ cpx_key s' b = Some kb /\ (c <= 0 <-> ka <= kb)) s.
Proof.
  intros Ha Hb. apply wp_bind. eapply wp_mono; [by apply calc_func_ext|].
  intros ka s1 [He1 Hka]. apply wp_bind. eapply wp_mono; [eapply calc_func_ext, cpx_valid_ext; done|].
  intros kb s2 [He2 Hkb]. apply wp_ret. split; [by etrans|]. exists ka, kb.
  pose proof (cpx_key_ext _ _ _ _ He2 Hka) as Hka2. split; [done|]. split; [done|].
  apply cpx_key_range in Hka, Hkb. rewrite swrap_small by (unfold in_s; lia). lia.
Qed.

#[export] Instance cmp_complex_comparator : Comparator Bench.cmp_complex.
Proof.
  refine {| valid := cpx_valid; key := cpx_key; ext := cpx_ext |}.
  - apply cpx_valid_ext.
  - apply cpx_key_ext.
  - apply cmp_complex_spec.
Defined.
End CmpComplex.

(** ** Searching and caching *)

Section Find.
Implicit Types (h : heads) (d : datas) (r : Bench.core_results) (xs ys : list cell).

Lemma wp_ld_data16 h d r (a : nat) n (i : nat) (x : list_data) (Q : Z -> Bench.world -> Prop) :
  h !! a = Some (ListHead n i) -> d !! i = Some x -> Q (data16 x) (h, (d, r)) ->
  wp (Bench.ld_data16 (Some a)) Q (h, (d, r)).
Proof.
  intros Ha Hi HQ. apply wp_bind. eapply wp_ld_info; [done|]. apply wp_bind, wp_on_rest.
  by eapply wp_ld_data.
Qed.

Lemma chain_allocated h d p xs q (a : nat) :
  chain h p xs q -> allocated d xs -> a ∈ xs.*1 ->
  exists n i x, h !! a = Some (ListHead n i) /\ d !! i = Some x.
Proof.
  revert p. induction xs as [|x xs IH]; intros p; [set_solver|].
  intros (_ & n & Hn & Hc) [[u Hu] Hd]%Forall_cons [-> | Ha]%elem_of_cons; [by eauto 10|by eauto].
Qed.

(** Moving the item after the one found to the second place only permutes
    the list, also when the item found is the head. *)
Lemma cache_next_spec h w (f : nat) (l : ptr) xs :
  chain h l xs None -> f ∈ xs.*1 ->
  wp (Bench.cache_next (Some f) l) (fun _ '(h', w') => w' = w /\
    exists ys, chain h' l ys None /\ ys ≡ₚ xs /\ frame xs h h') (h, w).
Proof.
  intros Hc Hf. pose proof (chain_NoDup _ _ _ Hc) as Hnd.
  apply list_elem_of_fmap in Hf as ([f' i] & Hff & (pre & post & ->)%list_elem_of_split).
  simpl in Hff. subst f'. pose proof Hc as (q & Hpre & -> & n & Hf & Hpost)%chain_app. simpl in *.
  unfold Bench.cache_next. apply wp_bind. eapply wp_ld_next; [done|].
  destruct post as [|[g j] post]; simpl in Hpost.
  { subst n. apply wp_ret. split; [done|]. eexists. split; [exact Hc|done]. }
  destruct Hpost as (-> & m & Hg & Hpost). simpl in *.
  rewrite fmap_app in Hnd. simpl in Hnd.
  apply NoDup_app in Hnd as (Hnd1 & Hdis & [Hfp [Hgp Hnd2]%NoDup_cons]%NoDup_cons).
  assert (f <> g) by set_solver. assert (g <> f) by congruence.
  destruct pre as [|[l0 k] pre]; simpl in Hpre.
  - subst l. mem_steps. split; [done|]. exists ((f, i) :: (g, j) :: post). split; [|split; [done|]].
    + split; [done|]. exists (Some g). rewrite lookup_insert_eq. split; [done|]. split; [done|].
      exists m. rewrite lookup_insert_ne, lookup_insert_eq by done. split; [done|].
      repeat apply chain_insert; set_solver.
    + intros b Hb. simpl in Hb. rewrite !lookup_insert_ne; set_solver.
  - destruct Hpre as (-> & l1 & Hl & Hpre). simpl in *. apply NoDup_cons in Hnd1 as [Hl0 _].
    assert (l0 <> f) by set_solver. assert (f <> l0) by congruence.
    assert (l0 <> g) by set_solver. assert (g <> l0) by congruence.
    assert (f ∉ pre.*1) by set_solver. assert (g ∉ pre.*1) by set_solver.
    assert (l0 ∉ post.*1) by set_solver. assert (f ∉ post.*1) by set_solver.
    mem_steps. split; [done|]. exists ((l0, k) :: (g, j) :: pre ++ (f, i) :: post). split; [|split].
    + split; [done|]. exists (Some g). rewrite lookup_insert_eq. split; [done|]. split; [done|].
      exists l1. rewrite lookup_insert_ne, lookup_insert_eq by done. split; [done|].
      apply chain_app. exists (Some f). split; [by auto with cint|]. split; [done|].
      exists m. rewrite !lookup_insert_ne, lookup_insert_eq by done. split; [done|]. by auto with cint.
    + apply perm_skip. rewrite (Permutation_middle pre). simpl. by rewrite perm_swap.
    + intros b Hb. simpl in Hb. rewrite fmap_app in Hb. rewrite !lookup_insert_ne; set_solver.
Qed.

Lemma find_items_spec (n : nat) h d r (i retval found missed : Z) (inf : list_data) (l : ptr) xs :
  chain h l xs None -> allocated d xs -> (2 <= length xs)%nat ->
  wp (Bench.find_items n i retval found missed inf l) (fun '(_, _, _, _, l') '(h', w') =>
    w' = (d, r) /\ exists ys, chain h' l' ys None /\ ys ≡ₚ xs /\ frame xs h h') (h, (d, r)).
Proof.
  revert h i retval found missed inf l xs.
  induction n as [|n IH]; intros h i retval found missed inf l xs Hc Hd Hlen; simpl.
  { split; [done|]. eexists. split; [exact Hc|done]. }
  set (inf' := ListData (Z.land i 0xff) (idx inf)). apply wp_bind.
  apply wp_ok. do 2 eexists. split; [by apply (find_spec h d r l xs inf')|].
  apply wp_bind. eapply wp_mono; [by apply (reverse_spec h (d, r) l xs)|].
  intros l1 [h1 w1] (Hc1 & -> & Hf1).
  assert (allocated d (reverse xs)) as Hd1 by (unfold allocated in *; by rewrite reverse_Permutation).
  assert (exists a b xs', reverse xs = a :: b :: xs') as (a & b & xs' & Hrev).
  { rewrite <- length_reverse in Hlen. destruct (reverse xs) as [|a [|b xs']]; simpl in *; [lia..|eauto]. }
  apply wp_bind.
  assert (forall h2 l2 ys, chain h2 l2 ys None -> ys ≡ₚ reverse xs -> frame xs h h2 -> forall v,
    wp (Bench.find_items n (i + 1) v.1.1 v.1.2 v.2
      (if 0 <=? idx inf' then ListData (data16 inf') (s16 (idx inf' + 1)) else inf') l2)
    (fun '(_, _, _, _, l') '(h', w') =>
      w' = (d, r) /\ exists ys, chain h' l' ys None /\ ys ≡ₚ xs /\ frame xs h h') (h2, (d, r))) as Hnext.
  { intros h2 l2 ys Hc2 HP Hf2 v. rewrite reverse_Permutation in HP.
    eapply wp_mono; [apply (IH h2 _ _ _ _ _ _ ys Hc2)|].
    - unfold allocated in *. by rewrite HP.
    - by rewrite HP.
    - intros [[[[? ?] ?] ?] l'] [h' w'] (-> & zs & Hc3 & HP3 & Hf3). split; [done|]. exists zs.
      split; [done|]. split; [by rewrite HP3|]. eapply frame_trans; [done|]. by eapply frame_perm. }
  destruct (first_match (find_test inf') d xs) as [f|] eqn:Ef.
  - apply first_match_Some in Ef as (pre & k & post & E & _).
    assert (f ∈ (reverse xs).*1) as Hf.
    { rewrite reverse_Permutation, E, fmap_app. simpl. set_solver. }
    destruct (chain_allocated _ _ _ _ _ _ Hc1 Hd1 Hf) as (n1 & i1 & x1 & Hn1 & Hx1).
    apply wp_bind. eapply wp_ld_data16; [done..|]. apply wp_bind.
    eapply wp_mono; [by apply (cache_next_spec h1 (d, r) f l1 (reverse xs))|].
    intros _ [h2 w2] (-> & ys & Hc2 & HP2 & Hf2). apply wp_ret.
    eapply (Hnext h2 l1 ys Hc2 HP2 _ (_, _, _)).
  - rewrite Hrev in Hc1. pose proof Hc1 as (-> & n1 & Ha & -> & n2 & Hb & _).
    apply wp_bind. eapply wp_ld_next; [done|]. apply wp_bind.
    destruct (chain_allocated h1 d (Some a.1) (a :: b :: xs') None b.1) as (n3 & i3 & x3 & Hn3 & Hx3);
      [done|by rewrite <- Hrev|set_solver|].
    eapply wp_ld_data16; [done..|]. apply wp_ret. rewrite <- Hrev in Hc1.
    eapply (Hnext h1 _ (reverse xs) Hc1 _ Hf1 (_, _, _)).
  Unshelve. all: try done. eapply frame_trans; [exact Hf1|]. eapply frame_perm; [|exact Hf2].
  apply reverse_Permutation.
Qed.

Lemma crc_walk_spec (fuel : nat) h d r (l finder : ptr) (retval : Z) xs ys :
  chain h l xs None -> allocated d xs -> xs <> [] -> chain h finder ys None -> (length ys < fuel)%nat ->
  in_u 16 retval ->
  wp (Bench.crc_walk fuel l finder retval) (fun c w => w = (h, (d, r)) /\ in_u 16 c) (h, (d, r)).
Proof.
  intros Hc Hd Hne. revert finder retval ys.
  induction fuel as [|fuel IH]; intros finder retval ys Hy Hf Hv; [lia|].
  destruct ys as [|y ys]; simpl in *; [by subst finder|]. destruct Hy as (-> & n & Hn & Hy).
  destruct xs as [|x xs]; [done|]. pose proof Hc as (El & n1 & Hn1 & _).
  destruct (chain_allocated h d l (x :: xs) None x.1) as (n3 & i3 & x3 & Hn3 & Hx3); [done..|set_solver|].
  rewrite El. apply wp_bind. eapply wp_ld_data16; [done..|]. apply wp_bind. eapply wp_ld_next; [done|].
  rewrite <- El. apply (IH _ _ ys); [done|lia|by apply Crc.crc16_range].
Qed.

Lemma remove_and_crc_spec h d r (l : ptr) (inf : list_data) (retval : Z) a b c xs :
  chain h l (a :: b :: c :: xs) None -> allocated d (a :: b :: c :: xs) -> in_u 16 retval ->
  wp (Bench.remove_and_crc l inf retval) (fun v w => w = (h, (d, r)) /\ in_u 16 v) (h, (d, r)).
Proof.
  destruct a as [a i], b as [b j], c as [c k]. intros Hc Hd Hv.
  pose proof (chain_NoDup _ _ _ Hc) as ([Ha _]%not_elem_of_cons & [Hbc _]%NoDup_cons)%NoDup_cons.
  assert (b <> c) as Hbc' by set_solver. simpl in Ha. assert (a <> b) by set_solver. assert (b <> a) by congruence.
  pose proof Hc as (-> & ? & Hh & -> & ? & Hb & -> & n & Hcc & _). simpl in *.
  apply wp_bind. eapply wp_ld_next; [done|]. apply wp_bind, wp_ok. do 2 eexists.
  split; [by apply (remove_run h (d, r) b c j k n)|].
  set (h1 := removed h b c j k n) in *.
  assert (chain h1 (Some a) ((a, i) :: (b, k) :: xs) None) as Hc1
    by exact (removed_chain h (Some a) [(a, i)] b c j k n xs Hc Hcc).
  assert (allocated d ((a, i) :: (b, k) :: xs)) as Hd1.
  { apply Forall_cons in Hd as [? [? [? ?]%Forall_cons]%Forall_cons]. by repeat constructor. }
  assert (h1 !! a = Some (ListHead (Some b) i)) as Ha1 by (by destruct Hc1 as (_ & ? & ? & -> & _)).
  assert (h1 !! b = Some (ListHead n k)) as Hb1
    by (unfold h1, removed; by rewrite lookup_insert_ne, lookup_insert_eq).
  assert (h1 !! c = Some (ListHead None j)) as Hcc1 by (unfold h1, removed; by rewrite lookup_insert_eq).
  apply wp_bind, wp_ok. do 2 eexists. split; [by apply (find_spec h1 d r (Some a) ((a, i) :: (b, k) :: xs) inf)|].
  apply wp_bind. apply (wp_mono _ (fun p w => w = (h1, (d, r)) /\ exists zs, chain h1 p zs None)).
  { destruct (first_match _ _ _) as [f|] eqn:Ef.
    - apply wp_ret. split; [done|].
      apply first_match_Some in Ef as (pre & e & post & E & _). rewrite E in Hc1.
      pose proof Hc1 as (q & _ & Hq)%chain_app. pose proof (proj1 Hq) as ->. by exists ((f, e) :: post).
    - eapply wp_ld_next; [done|]. split; [done|]. pose proof Hc1 as (_ & ? & ? & Hq).
      simpl in *. simplify_eq. by exists ((b, k) :: xs). }
  intros finder w (-> & zs & Hzs). apply wp_bind, wp_walk_fuel, wp_bind.
  pose proof (chain_size _ _ _ Hzs). eapply wp_mono; [eapply crc_walk_spec; try done; lia|].
  intros v w (-> & Hv'). apply wp_bind. eapply wp_ld_next; [done|]. apply wp_bind, wp_ok. do 2 eexists.
  split; [by apply (undo_run h1 (d, r) b c j k n None)|].
  apply wp_ret. unfold h1. by rewrite undo_removed.
Qed.

(** The first part: the searches and, for a positive index, the sort by
    computed value. *)
Lemma sort_complex_spec h d r (l : ptr) xs (b : bool) :
  chain h l xs None -> xs <> [] -> Z.of_nat (length xs) < 2 ^ 31 -> allocated d xs -> ready r ->
  wp (if b then core_list_mergesort Bench.cmp_complex l else mret l) (fun l' '(h', (d', r')) =>
    exists ys, chain h' l' ys None /\ ys ≡ₚ xs /\ frame xs h h' /\ kept (fun a => a ∈ xs.*2) d d'
    /\ ready r' /\ steady r r') (h, (d, r)).
Proof.
  intros Hc Hne Hlen Hd Hr. destruct b; [|apply wp_ret; exists xs; by split_and!].
  eapply wp_mono; [apply (mergesort_spec (Comparator0 := cmp_complex_comparator (fun a => a ∈ xs.*2))
    _ h (d, r) l xs Hc Hne Hlen)|].
  - unfold valids, allocated in *. rewrite Forall_forall in *. intros x Hx.
    split; [by apply list_elem_of_fmap_2|]. split; [by apply Hd|done].
  - intros l' [h' [d' r']] (ys & Hc' & (HP & _ & _) & ((Hr' & Hp) & Hk & _) & Hf).
    exists ys. split_and!; auto.
Qed.
End Find.

(** ** The whole list benchmark *)

(** The list as [core_list_init] leaves it: at least three cells, all items
    allocated and holding their original data, in strictly ascending order. *)
Record sorted_list (h : heads) (d : datas) (l : ptr) (xs : list cell) : Prop := SortedList {
  sl_chain : chain h l xs None;
  sl_len : 3 <= Z.of_nat (length xs) < 2 ^ 31;
  sl_alloc : allocated d xs;
  sl_orig : Forall (fun x => original (item d x)) xs;
  sl_sorted : StronglySorted (fun x y => idx (item d x) < idx (item d y)) xs
}.

Section BenchList.
Implicit Types (h : heads) (d : datas) (r : Bench.core_results) (xs ys : list cell).

Lemma kept_regens D d d1 d2 :
  kept D d d1 -> (forall a, ~ D a -> d2 !! a = d1 !! a) ->
  (forall a, option_Forall2 regens (d1 !! a) (d2 !! a)) -> kept D d d2.
Proof.
  intros Hk HD Hr. etrans; [exact Hk|]. split; [done|]. intros a.
  destruct (Hr a); constructor. by apply regens_same.
Qed.

Lemma item_Some d (x : cell) (u : list_data) : d !! x.2 = Some u -> item d x = u.
Proof. unfold item. by intros ->. Qed.

Lemma kept_idx D d d' xs (x : cell) :
  kept D d d' -> allocated d xs -> x ∈ xs -> same_item (item d x) (item d' x).
Proof.
  intros Hk Hd Hx. unfold allocated in Hd. rewrite Forall_forall in Hd. destruct (Hd x Hx) as [u Hu].
  destruct (kept_lookup _ _ _ _ _ Hk Hu) as (v & Hv & Hs). by rewrite (item_Some d x u), (item_Some d' x v).
Qed.

(** Data that are original again are the data that were there. *)
Lemma kept_original d d' xs :
  kept (fun a => a ∈ xs.*2) d d' -> allocated d xs ->
  Forall (fun x => original (item d x)) xs -> Forall (fun x => original (item d' x)) xs -> d' = d.
Proof.
  intros Hk Hd Ho Ho'. apply map_eq. intros a. destruct (decide (a ∈ xs.*2)) as [Ha|Ha]; [|by apply Hk].
  apply list_elem_of_fmap in Ha as (x & -> & Hx).
  destruct (kept_idx _ _ _ _ _ Hk Hd Hx) as [Hb Hi]. unfold allocated in Hd. rewrite Forall_forall in *.
  destruct (Hd x Hx) as [u Hu]. destruct (kept_lookup _ _ _ _ _ Hk Hu) as (v & Hv & _).
  specialize (Ho x Hx). specialize (Ho' x Hx). rewrite (item_Some d x u) in * by done.
  rewrite (item_Some d' x v) in * by done. rewrite Hu, Hv. f_equal. by apply original_eq.
Qed.

(** Sorting by index any arrangement of the list gives the list back. *)
Lemma resort_restores h0 d0 l0 h d r (l : ptr) xs ys :
  sorted_list h0 d0 l0 xs -> chain h l ys None -> ys ≡ₚ xs -> frame xs h0 h ->
  kept (fun a => a ∈ xs.*2) d0 d ->
  wp (core_list_mergesort (cmp_idx true) l) (fun l' w => l' = l0 /\ w = (h0, (d0, r))) (h, (d, r)).
Proof.
  intros [Hc0 Hlen Hd0 Ho Hs0] Hc HP Hf Hk.
  assert (allocated d ys) as Hd by (unfold allocated; rewrite HP; by eapply kept_allocated).
  assert (length ys = length xs) as Hly by (by rewrite HP).
  eapply wp_mono; [apply (mergesort_idx_spec h d r l ys Hc); [|lia|done]|].
  { intros ->. simpl in Hly. lia. }
  intros l' [h' [d' r']] (zs & -> & Hc' & Hf' & HP' & Hs & _ & HD & Hr).
  assert (kept (fun a => a ∈ xs.*2) d0 d') as Hk'.
  { eapply kept_regens; [done| |done]. intros a Ha. apply HD. by rewrite HP. }
  assert (Forall (fun x => original (item d' x)) zs) as Ho'.
  { apply (sorted_revealed _ _ _ Hs); [rewrite HP', HP; lia|]. intros x k Hx Hkx.
    rewrite HP' in Hx. by apply (idx_key_item d d' r ys) in Hkx as [? _]. }
  assert (xs = zs) as <-.
  { eapply sorted_unique; [by rewrite HP', HP| |exact Hs].
    eapply StronglySorted_impl_elem; [|exact Hs0]. intros x y Hx Hy Hlt.
    assert (forall z, z ∈ xs -> K (cmp_idx true) (Comparator0 := cmp_idx_comparator (fun a => a ∈ ys.*2))
      (d', r) z = Some (idx (item d0 z))) as HK.
    { intros z Hz. apply (idx_key_item d d' r ys); [done|by rewrite HP|done|]. split.
      - rewrite Forall_forall in Ho'. apply Ho'. by rewrite HP', HP.
      - by apply (kept_idx _ _ _ _ _ Hk Hd0). }
    exists (idx (item d0 x)), (idx (item d0 y)). by rewrite !HK. }
  destruct (chain_same h0 h' l0 l' xs) as [-> ->]; [done..| |].
  { eapply frame_trans; [done|]. eapply frame_perm; [|done]. done. }
  by rewrite (kept_original d0 d' xs).
Qed.

Lemma bench_list_spec h d r xs (finder_idx : Z) :
  sorted_list h d (Bench.list r) xs -> ready r ->
  wp (Bench.core_bench_list finder_idx) (fun c '(h', (d', r')) =>
    h' = h /\ d' = d /\ ready r' /\ steady r r' /\ in_u 16 c) (h, (d, r)).
Proof.
  intros Hsl Hr. pose proof Hsl as [Hc Hlen Hd _ _].
  apply wp_bind, wp_get, wp_bind.
  eapply wp_mono; [apply (find_items_spec _ h d r _ _ _ _ _ (Bench.list r) xs); [done..|lia]|].
  intros [[[[v fnd] mis] inf] l1] [h1 w1] (-> & ys1 & Hc1 & HP1 & Hf1).
  assert (length ys1 = length xs) as Hl1 by (by rewrite HP1).
  assert (allocated d ys1) as Hd1 by (unfold allocated in *; by rewrite HP1).
  apply wp_bind. eapply wp_mono; [apply (sort_complex_spec h1 d r l1 ys1); [done| |lia|done|done]|].
  { intros ->. simpl in Hl1. lia. }
  intros l2 [h2 [d2 r2]] (ys2 & Hc2 & HP2 & Hf2 & Hk2 & Hr2 & Hp2).
  assert (allocated d2 ys2) as Hd2 by (unfold allocated; rewrite HP2; by eapply kept_allocated).
  assert (exists a b c ys, ys2 = a :: b :: c :: ys) as (a & b & c & ys & E).
  { assert (length ys2 = length xs) by (by rewrite HP2, HP1).
    destruct ys2 as [|a [|b [|c ys]]]; simpl in *; [lia..|eauto]. }
  apply wp_bind. rewrite E in Hc2, Hd2.
  eapply wp_mono; [apply (remove_and_crc_spec h2 d2 r2 l2 inf _ a b c ys Hc2 Hd2); auto with cint|].
  intros v2 w (-> & Hv2). rewrite <- E in Hc2. apply wp_bind.
  eapply wp_mono; [eapply (resort_restores h d (Bench.list r) h2 d2 r2 l2 xs ys2 Hsl Hc2)|].
  - by rewrite HP2, HP1.
  - eapply frame_trans; [done|]. by eapply frame_perm.
  - destruct Hk2 as [HD Hk]. split; [|done]. intros a' Ha'. apply HD. by rewrite HP1.
  - intros l3 w (-> & ->). destruct xs as [|x xs]; [simpl in Hlen; lia|].
    pose proof Hc as (El & n & Hn & Hcx). rewrite El. apply wp_bind. eapply wp_ld_next; [done|].
    apply wp_bind, wp_walk_fuel. pose proof (chain_size _ _ _ Hcx).
    rewrite <- El. eapply wp_mono; [eapply (crc_walk_spec _ h d r2 (Bench.list r) n _ (x :: xs) xs); try done; lia|].
    intros c' w (-> & Hc'). split_and!; done.
Qed.
End BenchList.

(** An example: five cells, small blocks. *)
Definition demo_results : Bench.core_results :=
  Bench.Results 0x15 0x15 6 (bytes_of "1.5e+3,-2" ++ [0; 0; 0]) 12 3 7 (Some 4%nat)
    Matrix.small_params 0 0 0 0 0.
Definition bench_heads : heads :=
  {[ 4%nat := ListHead (Some 0%nat) 0; 0%nat := ListHead (Some 3%nat) 2; 3%nat := ListHead (Some 1%nat) 4;
     1%nat := ListHead (Some 2%nat) 1; 2%nat := ListHead None 3 ]}.
Definition bench_datas : datas :=
  {[ 0%nat := ListData (s16 0x8080) 0; 2%nat := ListData 0x1010 1; 4%nat := ListData 0x0909 2;
     1%nat := ListData 0x3a3a 7; 3%nat := ListData (-1) 0x7fff ]}.
Definition bench_cells : list cell := [(4, 0); (0, 2); (3, 4); (1, 1); (2, 3)]%nat.

Lemma bench_sorted : sorted_list bench_heads bench_datas (Some 4%nat) bench_cells.
Proof.
  split.
  - split; [reflexivity|]. exists (Some 0%nat). split; [reflexivity|].
    split; [reflexivity|]. exists (Some 3%nat). split; [reflexivity|].
    split; [reflexivity|]. exists (Some 1%nat). split; [reflexivity|].
    split; [reflexivity|]. exists (Some 2%nat). split; [reflexivity|].
    split; [reflexivity|]. exists None. split; reflexivity.
  - vm_compute. split; [discriminate|reflexivity].
  - unfold allocated, bench_cells. repeat constructor; vm_compute; eexists; reflexivity.
  - unfold bench_cells. repeat constructor; vm_compute; reflexivity.
  - unfold bench_cells. repeat constructor; vm_compute; reflexivity.
Defined.

Lemma demo_ready : ready demo_results.
Proof.
  split; [split; vm_compute; [discriminate|reflexivity]|vm_compute; reflexivity..| |].
  - vm_compute. discriminate.
  - unfold Matrix.wf. simpl. split; [lia|]. split; [lia|]. split; [lia|]. split; [lia|].
    split; repeat constructor; unfold in_s; simpl; lia.
Defined.

(** [C17] The list benchmark gives the list back: on a list of at least three
    items in strictly ascending index order holding their original data, and on
    blocks as the initialisation leaves them, [core_bench_list] returns, the
    CRC it returns is a 16-bit value, every list cell and every data item is
    exactly what it was before (so the pointer in [res->list], which the
    function does not update, still is the head of the list), the blocks are
    again fit for the next run, and of the results only the running CRC and the
    checksums of the first matrix and state-machine runs change. *)
Theorem bench_list_restores (h : heads) (d : datas) (r : Bench.core_results) (xs : list cell) (finder_idx : Z) :
  sorted_list h d (Bench.list r) xs -> ready r ->
  exists c r', Bench.core_bench_list finder_idx (h, (d, r)) = Ok (c, (h, (d, r')))
    /\ in_u 16 c /\ ready r' /\ steady r r'.
Proof.
  intros Hsl Hr. pose proof (bench_list_spec h d r xs finder_idx Hsl Hr)
    as (c & [h' [d' r']] & E & -> & -> & Hr' & Hp & Hc)%wp_ok. eauto 10.
Qed.

Lemma bench_list_restores_witness :
  exists c r', Bench.core_bench_list 1 (bench_heads, (bench_datas, demo_results))
      = Ok (c, (bench_heads, (bench_datas, r')))
    /\ in_u 16 c /\ ready r' /\ steady demo_results r'.
Proof. exact (bench_list_restores bench_heads bench_datas demo_results bench_cells 1 bench_sorted demo_ready). Defined.

(** ** Iterations *)

Lemma sorted_list_latched h d r r' xs :
  latched r r' -> sorted_list h d (Bench.list r) xs -> sorted_list h d (Bench.list r') xs.
Proof. intros [[=] _ _]. by replace (Bench.list r') with (Bench.list r). Qed.

(** One run of the list benchmark and the accumulation of its CRC. *)
Lemma bench_step_spec h d r xs (finder_idx : Z) :
  sorted_list h d (Bench.list r) xs -> ready r ->
  wp (c ← Bench.core_bench_list finder_idx;
      on_rest (Bench.mod_res (fun r => Bench.set_crc r (Crc.crcu16 c (Bench.crc r)))))
    (fun _ w => exists r', w = (h, (d, r')) /\ ready r' /\ steady r r') (h, (d, r)).
Proof.
  intros Hsl Hr. apply wp_bind. eapply wp_mono; [by apply (bench_list_spec h d r xs)|].
  intros c [h1 [d1 r1]] (-> & -> & Hr1 & Hs & Hc). apply wp_on_rest, wp_mod_res.
  eexists. split; [done|]. split; [|by apply steady_set_crc].
  apply ready_set_crc; [apply Crc.crcu16_range, Hr1|done].
Qed.

Lemma bind_assoc {S A B C} (m : ST S A) (f : A -> ST S B) (g : B -> ST S C) s :
  (m ≫= fun a => f a ≫= g) s = ((m ≫= f) ≫= g) s.
Proof. unfold mbind, ST_bind. by destruct (m s) as [[]| |]. Qed.

Lemma wp_assoc {S A B C} (m : ST S A) (f : A -> ST S B) (g : B -> ST S C) Q s :
  wp ((m ≫= f) ≫= g) Q s -> wp (m ≫= fun a => f a ≫= g) Q s.
Proof. unfold wp. by rewrite bind_assoc. Qed.

Lemma iterate_loop_spec (n : nat) (i : Z) h d r xs :
  0 <= i -> sorted_list h d (Bench.list r) xs -> ready r ->
  wp (Bench.iterate_loop n i) (fun _ w => exists r', w = (h, (d, r')) /\ ready r' /\ latched r r'
    /\ (0 < i -> Bench.crclist r' = Bench.crclist r)) (h, (d, r)).
Proof.
  revert i r. induction n as [|n IH]; intros i r Hi Hsl Hr; simpl; [by eexists|].
  apply wp_assoc, wp_bind. eapply wp_mono; [by apply (bench_step_spec h d r xs)|].
  intros _ w (r1 & -> & Hr1 & Hs1). pose proof (sorted_list_latched h d r r1 xs (proj1 Hs1) Hsl) as Hsl1.
  apply wp_assoc, wp_bind. eapply wp_mono; [by apply (bench_step_spec h d r1 xs)|].
  intros _ w (r2 & -> & Hr2 & Hs2). assert (steady r r2) as Hs by (by etrans).
  apply wp_bind. apply (wp_mono _ (fun _ w => exists r3, w = (h, (d, r3)) /\ ready r3 /\ latched r r3
    /\ (0 < i -> Bench.crclist r3 = Bench.crclist r))).
  { destruct (Z.eqb_spec i 0).
    - apply wp_on_rest, wp_mod_res. eexists. split; [done|]. split; [by destruct Hr2|].
      split; [by destruct Hs as [[]]|lia].
    - apply wp_ret. eexists. split; [done|]. split; [done|]. split; [apply Hs|intros; apply Hs]. }
  intros _ w (r3 & -> & Hr3 & Hl3 & Hc3).
  eapply wp_mono; [apply IH; [lia|by eapply sorted_list_latched|done]|].
  intros _ w (r4 & -> & Hr4 & Hl4 & Hc4). eexists. split; [done|]. split; [done|]. split; [by etrans|].
  intros H. rewrite Hc4, Hc3; done || lia.
Qed.



End BenchSpec.
