(* ===== verification/EePrintf.v ===== *)
(** * Formatted output ([guests/coremark/riscv/ee_printf.c])

    The small [printf] of the bare-metal port: integer conversion, addresses,
    the format interpreter and the output loop.  [HAS_FLOAT] is 0 on this port,
    so the floating-point conversions are not part of the program.  The bytes
    written through [str] are returned as a list; [ee_printf] checks them
    against the size of its buffer. *)

From S2P Require Import Prelude.

Module Printf.

(** ** Flags *)

Definition ZEROPAD : Z := Z.shiftl 1 0.
Definition SIGN : Z := Z.shiftl 1 1.
Definition PLUS : Z := Z.shiftl 1 2.
Definition SPACE : Z := Z.shiftl 1 3.
Definition LEFT : Z := Z.shiftl 1 4.
Definition HEX_PREP : Z := Z.shiftl 1 5.
Definition UPPERCASE : Z := Z.shiftl 1 6.

(** [type & FLAG] as a condition. *)
Definition has (type flag : Z) : bool := negb (Z.land type flag =? 0).

Definition is_digit (c : Z) : bool := (48 <=? c) && (c <=? 57).

Definition digits : list Z := bytes_of "0123456789abcdefghijklmnopqrstuvwxyz".
Definition upper_digits : list Z := bytes_of "0123456789ABCDEFGHIJKLMNOPQRSTUVWXYZ".

(** ** Strings *)

(** [for (sc = s; *sc != 0 && count--; ++sc);] *)
Fixpoint strnlen_loop (s : list Z) (count n : Z) : outcome Z :=
  match s with
  | [] => UB
  | c :: s' =>
    if (negb (c =? 0)) && negb (count =? 0) then strnlen_loop s' (u64 (count - 1)) (n + 1)
    else Ok n
  end.

Definition strnlen (s : list Z) (count : Z) : outcome Z := strnlen_loop s count 0.

(** The value and the pointer after the digits; signed overflow is undefined. *)
Fixpoint skip_atoi_loop (s : list Z) (i : Z) : outcome (Z * list Z) :=
  match s with
  | [] => UB
  | c :: s' =>
    if is_digit c then
      i ← sint (i * 10); i ← sint (i + c); i ← sint (i - 48); skip_atoi_loop s' i
    else Ok (i, s)
  end.

Definition skip_atoi (s : list Z) : outcome (Z * list Z) := skip_atoi_loop s 0.

(** ** Padding loops *)

(** [while (size-- > 0) *str++ = c;]: the bytes and the final [size]. *)
Definition pad (size c : Z) : list Z * Z :=
  (replicate (Z.to_nat size) c, if 0 <? size then -1 else size - 1).

(** [while (len < size--) *str++ = ' ';] *)
Definition pad_to (len size : Z) : list Z * Z :=
  (replicate (Z.to_nat (size - len)) 32, if len <? size then len - 1 else size - 1).

(** ** Integers ([number]) *)

(** [while (num != 0) { tmp[i++] = dig[num % base]; num = num / base; }]; the
    buffer [tmp] has 66 bytes. *)
Fixpoint number_digits (room : nat) (dig : list Z) (num base : Z) (tmp : list Z) : outcome (list Z) :=
  if num =? 0 then Ok tmp
  else match room with
       | O => UB
       | S room => d ← aget dig (num mod base); number_digits room dig (num / base) base (tmp ++ [d])
       end.

(** The sign character (0 for none), the value and the width left for it. *)
Definition number_sign (num size type : Z) : outcome (Z * Z * Z) :=
  if has type SIGN then
    if num <? 0 then (if num =? - 2 ^ 63 then UB else Ok (45, - num, size - 1))
    else if has type PLUS then Ok (43, num, size - 1)
    else if has type SPACE then Ok (32, num, size - 1)
    else Ok (0, num, size)
  else Ok (0, num, size).

(** The bytes written, [None] for the NULL returned on a bad base. *)
Definition number (num base size precision type : Z) : outcome (option (list Z)) :=
  let dig := if has type UPPERCASE then upper_digits else digits in
  let type := if has type LEFT then Z.land type (Z.lnot ZEROPAD) else type in
  if (base <? 2) || (36 <? base) then Ok None
  else
    let c := if has type ZEROPAD then 48 else 32 in
    ' (sign, num, size) ← number_sign num size type;
    let size := if has type HEX_PREP then
                  if base =? 16 then size - 2 else if base =? 8 then size - 1 else size
                else size in
    tmp ← (if num =? 0 then Ok [48] else number_digits 66 dig (u64 num) base []);
    let i := Z.of_nat (length tmp) in
    let precision := if precision <? i then i else precision in
    let size := size - precision in
    let '(out1, size) := if has type (Z.lor ZEROPAD LEFT) then ([], size) else pad size 32 in
    let out2 := if sign =? 0 then [] else [sign] in
    let out3 := if has type HEX_PREP then
                  if base =? 8 then [48] else if base =? 16 then [48; nth 33 digits 0] else []
                else [] in
    let '(out4, size) := if has type LEFT then ([], size) else pad size c in
    let out5 := replicate (Z.to_nat (precision - i)) 48 in
    let '(out6, _) := pad size 32 in
    Ok (Some (out1 ++ out2 ++ out3 ++ out4 ++ out5 ++ reverse tmp ++ out6)).

(** ** Addresses ([eaddr], [iaddr]) *)

(** Both end by writing [tmp] padded to the width. *)
Definition justify (tmp : list Z) (size type : Z) : list Z :=
  let len := Z.of_nat (length tmp) in
  let '(out1, size) := if has type LEFT then ([], size) else pad_to len size in
  let '(out2, _) := pad_to len size in
  out1 ++ tmp ++ out2.

Definition eaddr (addr : list Z) (size precision type : Z) : outcome (list Z) :=
  let dig := if has type UPPERCASE then upper_digits else digits in
  tmp ← oloop 0 6 (fun i tmp =>
    let tmp := if negb (i =? 0) then tmp ++ [58] else tmp in
    a ← aget addr i;
    hi ← aget dig (Z.shiftr a 4);
    lo ← aget dig (Z.land a 0x0F);
    mret (tmp ++ [hi; lo])) [];
  mret (justify tmp size type).

(** The decimal digits of one byte of an address. *)
Definition iaddr_byte (n : Z) : outcome (list Z) :=
  if n =? 0 then d ← aget digits 0; mret [d]
  else
    ' (out, n) ←
      (if 100 <=? n then
         d1 ← aget digits (n / 100);
         let n := n mod 100 in
         d2 ← aget digits (n / 10);
         mret ([d1; d2], n mod 10)
       else if 10 <=? n then
         d1 ← aget digits (n / 10);
         mret ([d1], n mod 10)
       else mret ([], n));
    d ← aget digits n;
    mret (out ++ [d]).

Definition iaddr (addr : list Z) (size precision type : Z) : outcome (list Z) :=
  tmp ← oloop 0 4 (fun i tmp =>
    let tmp := if negb (i =? 0) then tmp ++ [46] else tmp in
    n ← aget addr i;
    d ← iaddr_byte n;
    mret (tmp ++ d)) [];
  mret (justify tmp size type).

(** ** Variable arguments

    Reading an argument with another type than it was passed with, or past the
    last one, is undefined.  [VInt] is an [int] or [unsigned int], [VStr] a
    [char *] ([None] is NULL), [VBytes] an [unsigned char *]. *)

Inductive va :=
| VInt (z : Z)
| VLong (z : Z)
| VPtr (z : Z)
| VStr (s : option (list Z))
| VBytes (b : list Z).

Definition va_int (args : list va) : outcome (Z * list va) :=
  match args with VInt z :: args => Ok (s32 z, args) | _ => UB end.
Definition va_uint (args : list va) : outcome (Z * list va) :=
  match args with VInt z :: args => Ok (u32 z, args) | _ => UB end.
Definition va_ulong (args : list va) : outcome (Z * list va) :=
  match args with VLong z :: args => Ok (u64 z, args) | _ => UB end.
Definition va_ptr (args : list va) : outcome (Z * list va) :=
  match args with VPtr z :: args => Ok (u64 z, args) | _ => UB end.
Definition va_str (args : list va) : outcome (option (list Z) * list va) :=
  match args with VStr s :: args => Ok (s, args) | _ => UB end.
Definition va_bytes (args : list va) : outcome (list Z * list va) :=
  match args with VBytes b :: args => Ok (b, args) | _ => UB end.

(** ** The parts of a directive *)

(** [repeat: fmt++; switch ( *fmt) ...]: [fmt] points after the ['%'] or the last flag. *)
Fixpoint parse_flags (fmt : list Z) (flags : Z) : outcome (Z * list Z) :=
  match fmt with
  | [] => UB
  | c :: fmt' =>
    if c =? 45 then parse_flags fmt' (Z.lor flags LEFT)
    else if c =? 43 then parse_flags fmt' (Z.lor flags PLUS)
    else if c =? 32 then parse_flags fmt' (Z.lor flags SPACE)
    else if c =? 35 then parse_flags fmt' (Z.lor flags HEX_PREP)
    else if c =? 48 then parse_flags fmt' (Z.lor flags ZEROPAD)
    else Ok (flags, fmt)
  end.

Definition parse_width (fmt : list Z) (args : list va) (flags : Z) : outcome (Z * Z * list Z * list va) :=
  c ← rd fmt;
  if is_digit c then
    ' (field_width, fmt) ← skip_atoi fmt; mret (field_width, flags, fmt, args)
  else if c =? 42 then
    ' (field_width, args) ← va_int args;
    if field_width <? 0 then
      if field_width =? - 2 ^ 31 then UB else mret (- field_width, Z.lor flags LEFT, tail fmt, args)
    else mret (field_width, flags, tail fmt, args)
  else mret (-1, flags, fmt, args).

Definition parse_precision (fmt : list Z) (args : list va) : outcome (Z * list Z * list va) :=
  c ← rd fmt;
  if c =? 46 then
    let fmt := tail fmt in
    c ← rd fmt;
    ' (precision, fmt, args) ←
      (if is_digit c then ' (precision, fmt) ← skip_atoi fmt; mret (precision, fmt, args)
       else if c =? 42 then ' (precision, args) ← va_int args; mret (precision, tail fmt, args)
       else mret (-1, fmt, args));
    mret (if precision <? 0 then 0 else precision, fmt, args)
  else mret (-1, fmt, args).

Definition parse_qualifier (fmt : list Z) : outcome (Z * list Z) :=
  c ← rd fmt;
  if (c =? 108) || (c =? 76) then mret (c, tail fmt) else mret (-1, fmt).

(** ** The conversions

    Each returns the bytes written, the pointer into the format from which the
    outer loop goes on and the arguments left. *)

Definition conv_char (fmt : list Z) (args : list va) (flags field_width : Z)
    : outcome (list Z * list Z * list va) :=
  let '(out1, field_width) :=
    if has flags LEFT then ([], field_width)
    else (replicate (Z.to_nat (field_width - 1)) 32, if 1 <? field_width then 0 else field_width - 1) in
  ' (c, args) ← va_int args;
  let out2 := replicate (Z.to_nat (field_width - 1)) 32 in
  mret (out1 ++ [u8 c] ++ out2, tail fmt, args).

Definition conv_string (fmt : list Z) (args : list va) (flags field_width precision : Z)
    : outcome (list Z * list Z * list va) :=
  ' (s, args) ← va_str args;
  let s := match s with Some s => s | None => cstr "<NULL>" end in
  n ← strnlen s (u64 precision);
  let len := s32 n in
  let '(out1, field_width) := if has flags LEFT then ([], field_width) else pad_to len field_width in
  let '(out2, _) := pad_to len field_width in
  mret (out1 ++ take (Z.to_nat len) s ++ out2, tail fmt, args).

Definition conv_address (fmt : list Z) (args : list va) (flags field_width precision qualifier : Z)
    : outcome (list Z * list Z * list va) :=
  ' (a, args) ← va_bytes args;
  out ← (if qualifier =? 108 then eaddr a field_width precision flags
         else iaddr a field_width precision flags);
  mret (out, tail fmt, args).

(** [str = number(...)]: a NULL result makes the next store undefined. *)
Definition conv_number (fmt : list Z) (args : list va) (num base flags field_width precision : Z)
    : outcome (list Z * list Z * list va) :=
  r ← number (s64 num) base field_width precision flags;
  out ← of_option r;
  mret (out, tail fmt, args).

Definition conv_int (fmt : list Z) (args : list va) (base flags field_width precision qualifier : Z)
    : outcome (list Z * list Z * list va) :=
  ' (num, args) ← (if qualifier =? 108 then va_ulong args
                   else if has flags SIGN then ' (n, args) ← va_int args; mret (u64 n, args)
                   else va_uint args);
  conv_number fmt args num base flags field_width precision.

(** The [switch] on the conversion character. *)
Definition convert (fmt : list Z) (args : list va) (flags field_width precision qualifier : Z)
    : outcome (list Z * list Z * list va) :=
  c ← rd fmt;
  if c =? 99 then conv_char fmt args flags field_width
  else if c =? 115 then conv_string fmt args flags field_width precision
  else if c =? 112 then
    let '(field_width, flags) :=
      if field_width =? -1 then (2 * 8, Z.lor flags ZEROPAD) else (field_width, flags) in
    ' (p, args) ← va_ptr args;
    conv_number fmt args p 16 flags field_width precision
  else if c =? 65 then conv_address fmt args (Z.lor flags UPPERCASE) field_width precision qualifier
  else if c =? 97 then conv_address fmt args flags field_width precision qualifier
  else if c =? 111 then conv_int fmt args 8 flags field_width precision qualifier
  else if c =? 88 then conv_int fmt args 16 (Z.lor flags UPPERCASE) field_width precision qualifier
  else if c =? 120 then conv_int fmt args 16 flags field_width precision qualifier
  else if (c =? 100) || (c =? 105) then
    conv_int fmt args 10 (Z.lor flags SIGN) field_width precision qualifier
  else if c =? 117 then conv_int fmt args 10 flags field_width precision qualifier
  else
    let out1 := if negb (c =? 37) then [37] else [] in
    if negb (c =? 0) then mret (out1 ++ [c], tail fmt, args)
    else mret (out1, fmt, args).

(** One directive: flags, width, precision, qualifier, conversion. *)
Definition directive (fmt : list Z) (args : list va) : outcome (list Z * list Z * list va) :=
  ' (flags, fmt) ← parse_flags fmt 0;
  ' (field_width, flags, fmt, args) ← parse_width fmt args flags;
  ' (precision, fmt, args) ← parse_precision fmt args;
  ' (qualifier, fmt) ← parse_qualifier fmt;
  convert fmt args flags field_width precision qualifier.

(** [for (str = buf; *fmt; fmt++)]: the bytes written before the final NUL. *)
Fixpoint vsprintf_loop (fuel : nat) (fmt : list Z) (args : list va) : outcome (list Z) :=
  match fuel with
  | O => Fuel
  | S fuel =>
    c ← rd fmt;
    if c =? 0 then mret []
    else if negb (c =? 37) then out ← vsprintf_loop fuel (tail fmt) args; mret (c :: out)
    else
      ' (out, fmt, args) ← directive (tail fmt) args;
      rest ← vsprintf_loop fuel fmt args;
      mret (out ++ rest)
  end.

(** The contents of the buffer with its NUL, and the length returned. *)
Definition ee_vsprintf (fmt : list Z) (args : list va) : outcome (list Z * Z) :=
  out ← vsprintf_loop (S (length fmt)) fmt args;
  mret (out ++ [0], Z.of_nat (length out)).

(** ** Output ([uart_send_char], [ee_printf])

    The console is the sequence of the bytes sent.  In machine mode the wait
    for the transmitter reads the line status register: [lsr] gives the values
    the device returns, [Fuel] that it never reports ready. *)

Fixpoint uart_wait (lsr : list Z) : outcome (list Z) :=
  match lsr with
  | [] => Fuel
  | v :: lsr => if Z.land v 0x20 =? 0 then uart_wait lsr else Ok lsr
  end.

Definition uart_send_char (c : Z) : ST (list Z * list Z) unit := fun '(lsr, console) =>
  lsr ← uart_wait lsr; Ok (tt, (lsr, console ++ [c])).

(** [while ( *p) { uart_send_char( *p); n++; p++; }] *)
Fixpoint send_loop (p : list Z) (n : Z) : ST (list Z * list Z) Z :=
  match p with
  | [] => st_ub
  | c :: p' => if c =? 0 then mret n else uart_send_char c ;; send_loop p' (n + 1)
  end.

Definition ee_printf (fmt : list Z) (args : list va) : ST (list Z * list Z) Z :=
  ' (buf, _) ← lift (ee_vsprintf fmt args);
  if (Z.of_nat (length buf) <=? 1024) then send_loop buf 0 else st_ub.

Example vsprintf_demo :
  ee_vsprintf (cstr "[%d]crc %04x|%-6u|%+d|%s|%5c|%#X|%.3s|%p|%%") 
    [VInt 3; VInt 0xe714; VInt 42; VInt 7; VStr (Some (cstr "ok")); VInt 65; VInt 255;
     VStr (Some (cstr "abcdef")); VPtr 0x80000000]
  = Ok (cstr "[3]crc e714|42    |+7|ok|    A|0xFF|abc|0000000080000000|%", 58).
Proof. vm_compute. reflexivity. Qed.

(** ** What [number] writes *)

(** The value of a digit character and of a string of them. *)
Definition dval (c : Z) : Z := if c <=? 57 then c - 48 else if c <=? 90 then c - 55 else c - 87.
Definition numval (base : Z) (ds : list Z) : Z := foldl (fun a c => a * base + dval c) 0 ds.

Lemma numval_snoc (base : Z) (ds : list Z) (c : Z) : numval base (ds ++ [c]) = numval base ds * base + dval c.
Proof. unfold numval. by rewrite foldl_app. Qed.

Definition dig_table (type : Z) : list Z := if has type UPPERCASE then upper_digits else digits.

Lemma dig_table_get (type v : Z) : 0 <= v < 36 ->
  exists c, aget (dig_table type) v = Ok c /\ dval c = v /\ c <> 0 /\ (v < 10 -> is_digit c = true).
Proof.
  intros Hv. assert (forall t, t = digits \/ t = upper_digits ->
    match aget t v with Ok c => (dval c =? v) && negb (c =? 0) && ((10 <=? v) || is_digit c) | _ => false end = true) as H.
  { intros t Ht. destruct Ht as [-> | ->];
      [apply (allb_spec 36 (fun v => match aget digits v with
         | Ok c => (dval c =? v) && negb (c =? 0) && ((10 <=? v) || is_digit c) | _ => false end))
      |apply (allb_spec 36 (fun v => match aget upper_digits v with
         | Ok c => (dval c =? v) && negb (c =? 0) && ((10 <=? v) || is_digit c) | _ => false end))];
      try lia; by vm_compute. }
  specialize (H (dig_table type)). unfold dig_table in *.
  destruct (aget _ v) as [c| |]; [|destruct (has type UPPERCASE); discriminate H; auto..].
  exists c. split; [done|]. assert ((dval c =? v) && negb (c =? 0) && ((10 <=? v) || is_digit c) = true) as H'
    by (apply H; destruct (has type UPPERCASE); auto).
  apply andb_prop in H' as [[?%Z.eqb_eq Hc]%andb_prop Hd].
  apply negb_true_iff, Z.eqb_neq in Hc. split; [done|]. split; [done|]. intros Hlt.
  apply orb_prop in Hd as [?%Z.leb_le|?]; [lia|done].
Qed.

(** Characters that are digits of a numeral in [base]. *)
Definition is_numeral (base : Z) (ds : list Z) : Prop :=
  Forall (fun c => 0 <= dval c < base /\ c <> 0 /\ (base <= 10 -> is_digit c = true)) ds.

Lemma number_digits_spec (room : nat) (type num base : Z) (tmp : list Z) :
  2 <= base <= 36 -> 0 <= num < base ^ Z.of_nat room ->
  exists ds, number_digits room (dig_table type) num base tmp = Ok (tmp ++ ds)
    /\ numval base (reverse ds) = num /\ is_numeral base ds /\ (num <> 0 -> ds <> []).
Proof.
  intros Hb. revert num tmp. induction room as [|room IH]; intros num tmp Hn.
  - assert (num = 0) as -> by (simpl in Hn; lia). exists []. rewrite app_nil_r. by repeat split; try constructor.
  - simpl. destruct (Z.eqb_spec num 0) as [->|Hnz].
    { exists []. rewrite app_nil_r. by repeat split; try constructor. }
    pose proof (Z.mod_pos_bound num base ltac:(lia)) as Hmod.
    destruct (dig_table_get type (num mod base)) as (c & -> & Hc & Hc0 & Hcd); [lia|]. simpl.
    destruct (IH (num / base) (tmp ++ [c])) as (ds & -> & Hval & Hnum & _).
    { split; [apply Z.div_pos; lia|]. apply Z.div_lt_upper_bound; [lia|].
      rewrite <- Z.pow_succ_r by lia. rewrite Nat2Z.inj_succ in Hn. lia. }
    exists (c :: ds). rewrite <- app_assoc. split; [done|]. split; [|split; [|done]].
    + rewrite reverse_cons, numval_snoc, Hval, Hc. pose proof (Z.div_mod num base). lia.
    + constructor; [|done]. split; [lia|]. split; [done|]. intros. apply Hcd. lia.
Qed.

(** What a conversion prints apart from the digits: the sign and the prefix. *)
Definition sign_of (num type : Z) : list Z :=
  if has type SIGN then
    if num <? 0 then [45] else if has type PLUS then [43] else if has type SPACE then [32] else []
  else [].
Definition prefix_of (base type : Z) : list Z :=
  if has type HEX_PREP then
    if base =? 8 then [48] else if base =? 16 then [48; 120] else []
  else [].
Definition magnitude (num type : Z) : Z := if has type SIGN then Z.abs num else u64 num.

Lemma number_sign_spec (num size type : Z) :
  in_s 64 num -> (has type SIGN = true -> num <> - 2 ^ 63) ->
  exists sg n, number_sign num size type = Ok (sg, n, size - Z.of_nat (length (sign_of num type)))
    /\ sign_of num type = (if sg =? 0 then [] else [sg]) /\ u64 n = magnitude num type
    /\ (n = 0 <-> magnitude num type = 0) /\ 0 <= magnitude num type < 2 ^ 64.
Proof.
  intros Hr Hmin. unfold number_sign, sign_of, magnitude.
  assert (u64 num = 0 <-> num = 0) as Hz.
  { unfold uwrap. unfold in_s in Hr. split; [|by intros ->]. intros E. apply Z.mod_divide in E as [q E]; lia. }
  pose proof (uwrap_range 64 num ltac:(lia)) as Hu. unfold in_u in Hu. unfold in_s in Hr.
  destruct (has type SIGN) eqn:Hs.
  - specialize (Hmin eq_refl). destruct (Z.ltb_spec num 0).
    + destruct (Z.eqb_spec num (- 2 ^ 63)); [lia|]. exists 45, (- num).
      rewrite uwrap_small by (unfold in_u; lia). split_and!; try done; lia.
    + assert (u64 num = num) as Hun by (rewrite uwrap_small; unfold in_u; lia).
      destruct (has type PLUS); [|destruct (has type SPACE)];
        [exists 43, num|exists 32, num|exists 0, num]; simpl; rewrite ?Z.sub_0_r; split_and!; try done; lia.
  - exists 0, num. simpl. rewrite Z.sub_0_r. split_and!; try done; try tauto; lia.
Qed.

Lemma has_lor (t a b : Z) : has t (Z.lor a b) = has t a || has t b.
Proof.
  unfold has. rewrite Z.land_lor_distr_r.
  destruct (Z.eqb_spec (Z.land t a) 0) as [Ea|Ea], (Z.eqb_spec (Z.land t b) 0) as [Eb|Eb];
    destruct (Z.eqb_spec (Z.lor (Z.land t a) (Z.land t b)) 0) as [E|E]; try done;
    rewrite Z.lor_eq_0_iff in E; tauto.
Qed.

(** Clearing [ZEROPAD] leaves the other flags. *)
Lemma has_unpad (t f : Z) : Z.land (Z.lnot ZEROPAD) f = f -> has (Z.land t (Z.lnot ZEROPAD)) f = has t f.
Proof. intros E. unfold has. by rewrite <- Z.land_assoc, E. Qed.

Lemma has_unpad_pad (t : Z) : has (Z.land t (Z.lnot ZEROPAD)) ZEROPAD = false.
Proof. unfold has. rewrite <- Z.land_assoc. change (Z.land (Z.lnot ZEROPAD) ZEROPAD) with 0. by rewrite Z.land_0_r. Qed.

Definition spaces (n : Z) : list Z := replicate (Z.to_nat n) 32.
Definition zeros (n : Z) : list Z := replicate (Z.to_nat n) 48.

(** The three layouts: left-justified, padded with zeros, padded with spaces. *)
Definition layout (num base size precision type : Z) (ds : list Z) : list Z :=
  let sg := sign_of num type in
  let pf := prefix_of base type in
  let n := Z.of_nat (length ds) in
  let fill := size - (Z.of_nat (length sg) + Z.of_nat (length pf) + Z.max precision n) in
  let body := zeros (precision - n) ++ ds in
  if has type LEFT then sg ++ pf ++ body ++ spaces fill
  else if has type ZEROPAD then sg ++ pf ++ zeros fill ++ body
  else spaces fill ++ sg ++ pf ++ body.

Lemma pad_negative (size c : Z) : size <= 0 -> (pad size c).1 = [].
Proof. intros. unfold pad. simpl. by replace (Z.to_nat size) with 0%nat by lia. Qed.

Lemma pad_done (size c : Z) : (pad size c).2 <= 0.
Proof. unfold pad. simpl. zcases; lia. Qed.

(** The last part of [number], once the digits are known. *)
Lemma number_emit (size0 num base precision type type' sg c : Z) (ds : list Z) :
  (forall f, Z.land (Z.lnot ZEROPAD) f = f -> has type' f = has type f) ->
  has type' ZEROPAD = has type ZEROPAD && negb (has type LEFT) ->
  c = (if has type' ZEROPAD then 48 else 32) ->
  sign_of num type = (if sg =? 0 then [] else [sg]) ->
  let i := Z.of_nat (length ds) in
  let size := size0 - Z.of_nat (length (sign_of num type)) in
  let size := if has type' HEX_PREP then
                if base =? 16 then size - 2 else if base =? 8 then size - 1 else size
              else size in
  let precision' := if precision <? i then i else precision in
  let size := size - precision' in
  let '(out1, size) := if has type' (Z.lor ZEROPAD LEFT) then ([], size) else pad size 32 in
  let out2 := if sg =? 0 then [] else [sg] in
  let out3 := if has type' HEX_PREP then
                if base =? 8 then [48] else if base =? 16 then [48; nth 33 digits 0] else []
              else [] in
  let '(out4, size) := if has type' LEFT then ([], size) else pad size c in
  let out5 := replicate (Z.to_nat (precision' - i)) 48 in
  let '(out6, _) := pad size 32 in
  out1 ++ out2 ++ out3 ++ out4 ++ out5 ++ ds ++ out6 = layout num base size0 precision type ds.
Proof.
  intros Hmask Hzp -> Hsg. unfold layout. rewrite <- Hsg. clear Hsg. cbv zeta.
  rewrite has_lor, Hzp, (Hmask LEFT), (Hmask HEX_PREP) by reflexivity.
  replace (if precision <? Z.of_nat (length ds) then Z.of_nat (length ds) else precision)
    with (Z.max precision (Z.of_nat (length ds))) by (zcases; lia).
  set (m := Z.max precision (Z.of_nat (length ds))).
  assert (replicate (Z.to_nat (m - Z.of_nat (length ds))) 48 = zeros (precision - Z.of_nat (length ds))) as ->.
  { unfold zeros. f_equal. lia. }
  set (sz := (if has type HEX_PREP then _ else _) - m).
  assert (sz = size0 - (Z.of_nat (length (sign_of num type)) + Z.of_nat (length (prefix_of base type)) + m)) as ->.
  { unfold sz, prefix_of. destruct (has type HEX_PREP); [|simpl; lia].
    destruct (Z.eqb_spec base 16) as [->|]; [simpl; lia|]. destruct (base =? 8); simpl; lia. }
  set (fill := size0 - _). change (if has type HEX_PREP then _ else []) with (prefix_of base type).
  destruct (has type LEFT), (has type ZEROPAD); cbn [andb orb negb].
  - unfold pad. rewrite <- !app_assoc. reflexivity.
  - unfold pad. rewrite <- !app_assoc. reflexivity.
  - pose proof (pad_done fill 48). destruct (pad fill 48) as [o4 s4] eqn:E4. injection E4 as <- _.
    pose proof (pad_negative s4 32 H) as E6. destruct (pad s4 32) as [o6 ?]. simpl in E6. subst o6.
    rewrite !app_nil_r. reflexivity.
  - pose proof (pad_done fill 32) as H1. destruct (pad fill 32) as [o1 s1] eqn:E1. injection E1 as <- _.
    pose proof (pad_negative s1 32 H1) as E4. pose proof (pad_done s1 32) as H4.
    destruct (pad s1 32) as [o4 s4]. simpl in E4, H4. subst o4.
    pose proof (pad_negative s4 32 H4) as E6. destruct (pad s4 32) as [o6 ?]. simpl in E6. subst o6.
    rewrite !app_nil_r. reflexivity.
Qed.

Lemma pow_66 (base : Z) : 2 <= base -> 2 ^ 64 <= base ^ Z.of_nat 66.
Proof. intros. transitivity (2 ^ 66); [vm_compute; discriminate|]. apply Z.pow_le_mono_l. lia. Qed.

Lemma number_spec (num base size precision type : Z) :
  2 <= base <= 36 -> in_s 64 num -> (has type SIGN = true -> num <> - 2 ^ 63) ->
  exists ds, number num base size precision type = Ok (Some (layout num base size precision type ds))
    /\ ds <> [] /\ is_numeral base ds /\ numval base ds = magnitude num type.
Proof.
  intros Hb Hr Hmin. set (type' := if has type LEFT then Z.land type (Z.lnot ZEROPAD) else type).
  assert (forall f, Z.land (Z.lnot ZEROPAD) f = f -> has type' f = has type f) as Hmask.
  { intros f Hf. unfold type'. destruct (has type LEFT); [by apply has_unpad|done]. }
  assert (has type' ZEROPAD = has type ZEROPAD && negb (has type LEFT)) as Hzp.
  { unfold type'. destruct (has type LEFT); [rewrite has_unpad_pad|]; destruct (has type ZEROPAD); done. }
  destruct (number_sign_spec num size type Hr Hmin) as (sg & n & Hns & Hsg & Hn & Hn0 & Hm).
  assert (number_sign num size type' = number_sign num size type) as Hns'.
  { unfold number_sign. by rewrite (Hmask SIGN), (Hmask PLUS), (Hmask SPACE). }
  assert (exists tmp, (if n =? 0 then Ok [48] else number_digits 66 (dig_table type) (u64 n) base []) = Ok tmp
    /\ reverse tmp <> [] /\ is_numeral base (reverse tmp) /\ numval base (reverse tmp) = magnitude num type)
    as (tmp & Htmp & Hne & Hnum & Hval).
  { destruct (Z.eqb_spec n 0) as [E|E].
    - exists [48]. rewrite (proj1 Hn0 E). split_and!; try done.
      repeat constructor; try done. change (dval 48) with 0. lia.
    - pose proof (pow_66 base ltac:(lia)).
      destruct (number_digits_spec 66 type (u64 n) base []) as (ds & Hds & Hval & Hnum & Hne); [done|rewrite Hn; lia|].
      exists ds. split; [exact Hds|]. split; [|split; [|by rewrite <- Hn]].
      + rewrite <- reverse_nil. intros ?%(inj reverse). apply Hne; [|done]. rewrite Hn. tauto.
      + unfold is_numeral in *. by rewrite reverse_Permutation. }
  exists (reverse tmp). split; [|done]. unfold number. fold type' (dig_table type).
  rewrite (proj2 (Z.ltb_ge base 2)), (proj2 (Z.ltb_ge 36 base)) by lia. cbn [orb].
  rewrite Hns', Hns. cbn [mbind outcome_bind]. rewrite Htmp. cbn [mbind outcome_bind].
  pose proof (number_emit size num base precision type type' sg _ (reverse tmp) Hmask Hzp eq_refl Hsg) as HE.
  rewrite length_reverse in HE. cbv zeta in HE. cbv zeta.
  destruct (if has type' (Z.lor ZEROPAD LEFT) then _ else _) as [o1 s1].
  destruct (if has type' LEFT then _ else _) as [o4 s4]. destruct (pad s4 32) as [o6 s6].
  by rewrite HE.
Qed.

(** ** Termination of the format interpreter *)

Lemma strnlen_uwp (s : list Z) (count n : Z) : uwp (strnlen_loop s count n) (fun _ => True).
Proof. revert count n. induction s as [|c s IH]; intros count n; simpl; [done|]. destruct (_ && _); [apply IH|done]. Qed.

Lemma sint_uwp (x : Z) : uwp (sint x) (fun _ => True).
Proof. unfold sint. by destruct (_ && _). Qed.

Lemma skip_atoi_uwp (s : list Z) (i : Z) :
  uwp (skip_atoi_loop s i) (fun r => (length r.2 <= length s)%nat).
Proof.
  revert i. induction s as [|c s IH]; intros i; simpl; [done|]. destruct (is_digit c); [|cbn; lia].
  do 3 (apply uwp_True; [apply sint_uwp|intros ?]). eapply uwp_mono; [apply IH|]. simpl. lia.
Qed.

Lemma number_digits_uwp (room : nat) (dig tmp : list Z) (num base : Z) :
  uwp (number_digits room dig num base tmp) (fun _ => True).
Proof.
  revert num tmp. induction room as [|room IH]; intros num tmp; simpl; destruct (num =? 0); try done.
  apply uwp_True; [apply aget_uwp|done].
Qed.

Lemma number_uwp (num base size precision type : Z) : uwp (number num base size precision type) (fun _ => True).
Proof.
  unfold number. destruct (_ || _); [done|]. apply uwp_True.
  { unfold number_sign. repeat case_match; done. }
  intros [[sg n] sz]. apply uwp_True; [destruct (n =? 0); [done|apply number_digits_uwp]|].
  intros tmp. repeat case_match; done.
Qed.

Lemma eaddr_uwp (addr : list Z) (size precision type : Z) : uwp (eaddr addr size precision type) (fun _ => True).
Proof.
  unfold eaddr. apply uwp_True; [|done]. apply oloop_uwp. intros j tmp.
  repeat (apply uwp_True; [apply aget_uwp|intros ?]). done.
Qed.

Lemma iaddr_byte_uwp (n : Z) : uwp (iaddr_byte n) (fun _ => True).
Proof.
  unfold iaddr_byte. destruct (n =? 0); [apply uwp_True; [apply aget_uwp|done]|]. apply uwp_True.
  - destruct (100 <=? n); [|destruct (10 <=? n); [|done]];
      repeat (apply uwp_True; [apply aget_uwp|intros ?]); done.
  - intros [out m]. apply uwp_True; [apply aget_uwp|done].
Qed.

Lemma iaddr_uwp (addr : list Z) (size precision type : Z) : uwp (iaddr addr size precision type) (fun _ => True).
Proof.
  unfold iaddr. apply uwp_True; [|done]. apply oloop_uwp. intros j tmp.
  apply uwp_True; [apply aget_uwp|]. intros n. apply uwp_True; [apply iaddr_byte_uwp|done].
Qed.

(** A result of a conversion leaves a format that is not longer. *)
Definition shrinks (n : nat) (r : list Z * list Z * list va) : Prop := (length r.1.2 <= n)%nat.

Lemma length_tail_le {A} (l : list A) : (length (tail l) <= length l)%nat.
Proof. destruct l; simpl; lia. Qed.

Lemma conv_number_uwp fmt args num base flags fw precision :
  uwp (conv_number fmt args num base flags fw precision) (shrinks (length fmt)).
Proof.
  unfold conv_number. apply uwp_True; [apply number_uwp|]. intros [out|]; [|done]. apply length_tail_le.
Qed.

Lemma conv_int_uwp fmt args base flags fw precision qualifier :
  uwp (conv_int fmt args base flags fw precision qualifier) (shrinks (length fmt)).
Proof.
  unfold conv_int. apply uwp_True; [|intros [num args']; apply conv_number_uwp].
  unfold va_ulong, va_int, va_uint. destruct (qualifier =? 108); [by repeat case_match|].
  destruct (has flags SIGN); destruct args as [|[] args]; done.
Qed.

Lemma convert_uwp fmt args flags fw precision qualifier :
  uwp (convert fmt args flags fw precision qualifier) (shrinks (length fmt)).
Proof.
  unfold convert. destruct fmt as [|c fmt]; [done|]. simpl rd. cbn [mbind outcome_bind].
  pose proof (length_tail_le (c :: fmt)) as Ht.
  destruct (c =? 99).
  { unfold conv_char. destruct (if has flags LEFT then _ else _) as [o f].
    unfold va_int. by destruct args as [|[] args]. }
  destruct (c =? 115).
  { unfold conv_string, va_str. destruct args as [|[] args]; try done. cbn [mbind outcome_bind].
    apply uwp_True; [apply strnlen_uwp|]. intros n. by repeat case_match. }
  destruct (c =? 112).
  { destruct (if fw =? -1 then _ else _) as [f fl]. unfold va_ptr. destruct args as [|[] args]; try done.
    apply conv_number_uwp. }
  assert (forall fl, uwp (conv_address (c :: fmt) args fl fw precision qualifier)
            (shrinks (length (c :: fmt)))) as Hadr.
  { intros fl. unfold conv_address, va_bytes. destruct args as [|[] args]; try done. cbn [mbind outcome_bind].
    apply uwp_True; [|done]. destruct (qualifier =? 108); [apply eaddr_uwp|apply iaddr_uwp]. }
  repeat (match goal with |- uwp (if ?b then _ else _) _ => destruct b end); try apply Hadr; try apply conv_int_uwp.
  - done.
  - unfold shrinks. simpl. lia.
Qed.

Lemma parse_flags_uwp (fmt : list Z) (flags : Z) :
  uwp (parse_flags fmt flags) (fun r => (length r.2 <= length fmt)%nat).
Proof.
  revert flags. induction fmt as [|c fmt IH]; intros flags; simpl; [done|].
  repeat case_match; try (eapply uwp_mono; [apply IH|]; simpl; lia). simpl. lia.
Qed.

Lemma directive_uwp (fmt : list Z) (args : list va) : uwp (directive fmt args) (shrinks (length fmt)).
Proof.
  unfold directive. apply uwp_bind. eapply uwp_mono; [apply parse_flags_uwp|]. intros [flags f1] H1. simpl in H1.
  apply uwp_bind. apply (uwp_mono _ (fun r => (length r.1.2 <= length f1)%nat)).
  { unfold parse_width. destruct f1 as [|c f1]; [done|]. simpl rd. cbn [mbind outcome_bind].
    destruct (is_digit c).
    - apply uwp_bind. eapply uwp_mono; [apply skip_atoi_uwp|]. by intros [w f].
    - destruct (c =? 42); [|simpl; lia]. unfold va_int. destruct args as [|[] args]; try done.
      cbn [mbind outcome_bind]. repeat case_match; simpl; try done; lia. }
  intros [[[fw fl] f2] a2] H2. simpl in H2. apply uwp_bind.
  apply (uwp_mono _ (fun r => (length r.1.2 <= length f2)%nat)).
  { unfold parse_precision. destruct f2 as [|c f2]; [done|]. simpl rd. cbn [mbind outcome_bind].
    destruct (c =? 46); [|simpl; lia]. simpl tail. destruct f2 as [|c2 f2]; [done|]. simpl rd.
    cbn [mbind outcome_bind]. apply uwp_bind.
    apply (uwp_mono _ (fun r => (length r.1.2 <= length (c2 :: f2))%nat)).
    - destruct (is_digit c2).
      + apply uwp_bind. eapply uwp_mono; [apply skip_atoi_uwp|]. by intros [w f].
      + destruct (c2 =? 42); [|simpl; lia]. unfold va_int. destruct a2 as [|[] a2]; try done. simpl. lia.
    - intros [[p f] a] Hf. simpl in *. lia. }
  intros [[p f3] a3] H3. simpl in H3. apply uwp_bind.
  apply (uwp_mono _ (fun r => (length r.2 <= length f3)%nat)).
  { unfold parse_qualifier. destruct f3 as [|c f3]; [done|]. simpl. destruct (_ || _); simpl; lia. }
  intros [q f4] H4. simpl in H4. eapply uwp_mono; [apply convert_uwp|]. unfold shrinks. lia.
Qed.

Lemma vsprintf_loop_uwp (fuel : nat) (fmt : list Z) (args : list va) :
  (length fmt < fuel)%nat -> uwp (vsprintf_loop fuel fmt args) (fun _ => True).
Proof.
  revert fmt args. induction fuel as [|fuel IH]; intros fmt args Hf; [lia|]. simpl.
  destruct fmt as [|c fmt]; [done|]. simpl in *. destruct (c =? 0); [done|]. destruct (c =? 37); simpl.
  - apply uwp_bind. eapply uwp_mono; [apply directive_uwp|]. intros [[out f] a] Hs. unfold shrinks in Hs. simpl in Hs.
    apply uwp_True; [apply IH; lia|done].
  - apply uwp_True; [apply IH; lia|done].
Qed.

(** ** Reading back what was printed *)

Lemma numval_from (ds : list Z) (i : Z) :
  0 <= i -> is_numeral 10 ds -> i <= foldl (fun a c => a * 10 + dval c) i ds.
Proof.
  intros Hi Hd. revert i Hi. induction Hd as [|c ds [Hc _] _ IH]; intros i Hi; simpl; [lia|].
  specialize (IH (i * 10 + dval c) ltac:(lia)). lia.
Qed.

Lemma skip_atoi_numeral (ds : list Z) (c i : Z) (rest : list Z) :
  is_numeral 10 ds -> is_digit c = false -> 0 <= i ->
  foldl (fun a c => a * 10 + dval c) i ds + 48 < 2 ^ 31 ->
  skip_atoi_loop (ds ++ c :: rest) i = Ok (foldl (fun a c => a * 10 + dval c) i ds, c :: rest).
Proof.
  intros Hd Hc. revert i. induction Hd as [|d ds (Hd & _ & Hdig) Hds IH]; intros i Hi Hlt; simpl in *.
  { by rewrite Hc. }
  rewrite Hdig by lia. assert (dval d = d - 48) as Ed.
  { specialize (Hdig ltac:(lia)). unfold is_digit in Hdig. apply andb_prop in Hdig as [_ ?%Z.leb_le].
    unfold dval. by rewrite (proj2 (Z.leb_le d 57)). }
  pose proof (numval_from ds (i * 10 + dval d) ltac:(lia) Hds).
  rewrite sint_ok by (unfold in_s; lia). cbn [mbind outcome_bind].
  rewrite sint_ok by (unfold in_s; lia). cbn [mbind outcome_bind].
  rewrite sint_ok by (unfold in_s; lia). cbn [mbind outcome_bind].
  replace (i * 10 + d - 48) with (i * 10 + dval d) by lia. apply IH; lia.
Qed.

(** ** Output *)

(** The readings of the line status register while [n] bytes are sent: for each
    byte any number of readings without the ready bit, then one with it. *)
Inductive grants : nat -> list Z -> list Z -> Prop :=
| grants_none (lsr : list Z) : grants 0 lsr lsr
| grants_byte (n : nat) (busy lsr rest : list Z) (v : Z) :
    Forall (fun v => Z.land v 0x20 = 0) busy -> Z.land v 0x20 <> 0 -> grants n lsr rest ->
    grants (S n) (busy ++ v :: lsr) rest.

Lemma uart_wait_busy (busy lsr : list Z) (v : Z) :
  Forall (fun v => Z.land v 0x20 = 0) busy -> Z.land v 0x20 <> 0 -> uart_wait (busy ++ v :: lsr) = Ok lsr.
Proof.
  intros Hb Hv. induction Hb as [|b busy E _ IH]; cbn [app uart_wait].
  - by rewrite (proj2 (Z.eqb_neq _ 0)).
  - by rewrite E.
Qed.

(** [bs] up to the first NUL, which the loop that sends looks for. *)
Fixpoint until_nul (bs : list Z) : list Z :=
  match bs with [] => [] | c :: bs => if c =? 0 then [] else c :: until_nul bs end.

Lemma send_loop_spec (bs lsr rest console : list Z) (n : Z) :
  grants (length (until_nul bs)) lsr rest ->
  send_loop (bs ++ [0]) n (lsr, console)
    = Ok (n + Z.of_nat (length (until_nul bs)), (rest, console ++ until_nul bs)).
Proof.
  revert lsr console n. induction bs as [|c bs IH]; intros lsr console n; cbn [until_nul app send_loop].
  { intros Hg. inversion Hg; subst. cbn. by rewrite Z.add_0_r, app_nil_r. }
  destruct (c =? 0).
  { intros Hg. inversion Hg; subst. cbn. by rewrite Z.add_0_r, app_nil_r. }
  intros Hg. cbn [length] in Hg. inversion Hg as [|n' busy lsr' rest' v Hb Hv Hg' E1 E2]; subst.
  unfold mbind, ST_bind. cbn [uart_send_char]. rewrite uart_wait_busy by done. cbn [mbind outcome_bind].
  rewrite IH by done. rewrite <- app_assoc. cbn [length app]. do 2 f_equal. lia.
Qed.

(** ** Properties *)



(** The layout on that input. *)
Example number_demo : number (-1234) 10 8 6 SIGN = Ok (Some (bytes_of " -001234")).
Proof. vm_compute. reflexivity. Qed.

(** The format interpreter terminates on every format and every list of
    arguments: the loop over the format makes progress in each directive, also
    for a format that ends inside one. *)
Theorem vsprintf_terminates (fmt : list Z) (args : list va) : ee_vsprintf fmt args <> Fuel.
Proof.
  unfold ee_vsprintf. pose proof (vsprintf_loop_uwp (S (length fmt)) fmt args ltac:(lia)) as H.
  by destruct (vsprintf_loop _ _ _).
Qed.

(** Round trip: an unsigned number printed with the directive u is read back by
    [skip_atoi] as the same number, up to the terminator, unless it is so large
    that [i * 10 + c], before the subtraction of the code of 0, overflows. *)
Theorem print_parse_roundtrip (n : Z) :
  0 <= n < 2 ^ 31 - 48 ->
  exists out, ee_vsprintf (cstr "%u") [VInt n] = Ok (out ++ [0], Z.of_nat (length out))
    /\ skip_atoi (out ++ [0]) = Ok (n, [0]).
Proof.
  intros Hn. assert (s64 (u32 n) = n) as En.
  { rewrite uwrap_small by (unfold in_u; lia). apply swrap_small; [lia|unfold in_s; lia]. }
  destruct (number_spec n 10 (-1) (-1) 0) as (ds & Hds & Hne & Hnum & Hval); [lia|unfold in_s; lia|done|].
  assert (layout n 10 (-1) (-1) 0 ds = ds) as El.
  { unfold layout, sign_of, prefix_of, spaces, zeros. cbn.
    replace (Z.to_nat _) with 0%nat by lia. by replace (Z.to_nat _) with 0%nat by lia. }
  assert (magnitude n 0 = n) as Em by (apply uwrap_small; unfold in_u; lia).
  exists ds. split.
  - unfold ee_vsprintf. change (cstr "%u") with [37; 117; 0]. cbn -[number uwrap swrap].
    unfold conv_int. cbn -[number uwrap swrap]. unfold conv_number.
    change (has 0 SIGN) with false. cbn [mbind outcome_bind]. rewrite En, Hds, El. cbn. by rewrite !app_nil_r.
  - unfold skip_atoi. rewrite (skip_atoi_numeral ds 0 0 []); [|done|done|lia|fold (numval 10 ds); lia].
    fold (numval 10 ds). by rewrite Hval, Em.
Qed.

Lemma print_parse_roundtrip_witness :
  exists out, ee_vsprintf (cstr "%u") [VInt 40213] = Ok (out ++ [0], Z.of_nat (length out))
    /\ skip_atoi (out ++ [0]) = Ok (40213, [0]).
Proof. apply (print_parse_roundtrip 40213). lia. Defined.

(** [strnlen] reads the byte after the bound: on an array of [count]
    bytes none of which is NUL it reads past the array, where the function of
    that name reads at most [count] bytes (and [%.*s] relies on it). *)
Theorem strnlen_overreads (s : list Z) :
  Forall (fun c => c <> 0) s -> Z.of_nat (length s) < 2 ^ 64 -> strnlen s (Z.of_nat (length s)) = UB.
Proof.
  intros Hs. unfold strnlen. generalize 0. induction Hs as [|c s Hc Hs IH]; intros n Hl; [done|].
  cbn [strnlen_loop length] in *. rewrite (proj2 (Z.eqb_neq c 0)), (proj2 (Z.eqb_neq _ 0)) by lia || done.
  cbn [negb andb]. rewrite uwrap_small by (unfold in_u; lia).
  replace (Z.of_nat (S (length s)) - 1) with (Z.of_nat (length s)) by lia. apply IH. lia.
Qed.

Lemma strnlen_overreads_witness : strnlen (bytes_of "abc") 3 = UB.
Proof. apply (strnlen_overreads (bytes_of "abc")); [repeat constructor; discriminate|vm_compute; reflexivity]. Defined.

End Printf.
