(* ===== verification/PrintfSpec.v ===== *)
(** * What the format interpreter prints

    A format as a list of parts, literal characters and directives with their
    arguments, and the text each part stands for.  [ee_vsprintf] prints the
    texts of the parts one after the other, and [ee_printf] sends them to the
    transmitter when that is ready. *)

From S2P Require Import Prelude EePrintf.

Module PrintfSpec.
Import Printf.

(** ** Formats *)

Inductive width := WNone | WDigits (ds : list Z) | WStar (n : Z).
Inductive prec := PNone | PDigits (ds : list Z) | PStar (n : Z).

(** Everything between the percent sign and the conversion character;
    [h_qual] is the letter l ([true]) or L. *)
Record head := Head { h_flags : list Z; h_width : width; h_prec : prec; h_qual : option bool }.

Inductive kind := Kd | Ki | Ku | Ko | Kx | KX.

Inductive conv :=
| CChar (c : Z)
| CStr (s : option (list Z))
| CPtr (p : Z)
| CAddr (upper : bool) (b : list Z)
| CInt (k : kind) (n : Z)
| COther (c : Z).

Inductive part := Lit (c : Z) | Conv (h : head) (v : conv).

(** The characters of a format. *)
Definition width_fmt (w : width) : list Z := match w with WNone => [] | WDigits ds => ds | WStar _ => [42] end.
Definition prec_fmt (p : prec) : list Z := match p with PNone => [] | PDigits ds => 46 :: ds | PStar _ => [46; 42] end.
Definition qual_fmt (q : option bool) : list Z := match q with None => [] | Some l => [if l : bool then 108 else 76] end.
Definition head_fmt (h : head) : list Z := h_flags h ++ width_fmt (h_width h) ++ prec_fmt (h_prec h) ++ qual_fmt (h_qual h).
Definition kind_char (k : kind) : Z := match k with Kd => 100 | Ki => 105 | Ku => 117 | Ko => 111 | Kx => 120 | KX => 88 end.
Definition conv_letter (v : conv) : Z :=
  match v with
  | CChar _ => 99 | CStr _ => 115 | CPtr _ => 112
  | CAddr upper _ => if upper : bool then 65 else 97
  | CInt k _ => kind_char k | COther c => c
  end.
Definition part_fmt (p : part) : list Z :=
  match p with Lit c => [c] | Conv h v => 37 :: head_fmt h ++ [conv_letter v] end.

(** Its arguments. *)
Definition width_args (w : width) : list va := match w with WStar n => [VInt n] | _ => [] end.
Definition prec_args (p : prec) : list va := match p with PStar n => [VInt n] | _ => [] end.
Definition head_args (h : head) : list va := width_args (h_width h) ++ prec_args (h_prec h).
Definition is_long (h : head) : bool := bool_decide (h_qual h = Some true).
Definition conv_args (h : head) (v : conv) : list va :=
  match v with
  | CChar c => [VInt c]
  | CStr s => [VStr ((fun t => t ++ [0]) <$> s)]
  | CPtr p => [VPtr p]
  | CAddr _ b => [VBytes b]
  | CInt _ n => [if is_long h then VLong n else VInt n]
  | COther _ => []
  end.
Definition part_args (p : part) : list va := match p with Lit _ => [] | Conv h v => head_args h ++ conv_args h v end.

(** ** The texts *)

Definition flag_bit (c : Z) : Z :=
  if c =? 45 then LEFT else if c =? 43 then PLUS else if c =? 32 then SPACE else if c =? 35 then HEX_PREP else ZEROPAD.
Definition width_val (w : width) : Z := match w with WNone => -1 | WDigits ds => numval 10 ds | WStar n => Z.abs n end.
Definition prec_val (p : prec) : Z := match p with PNone => -1 | PDigits ds => numval 10 ds | PStar n => Z.max 0 n end.
Definition head_flags (h : head) : Z :=
  let fl := foldl (fun fl c => Z.lor fl (flag_bit c)) 0 (h_flags h) in
  match h_width h with WStar n => if n <? 0 then Z.lor fl LEFT else fl | _ => fl end.

(** [t] in a field of [w] characters. *)
Definition field (fl w : Z) (t : list Z) : list Z :=
  let fill := spaces (w - Z.of_nat (length t)) in if has fl LEFT then t ++ fill else fill ++ t.

(** The text of a number: its digits in the layout that the flags ask for. *)
Definition number_text (num base w p fl : Z) (out : list Z) : Prop :=
  exists ds, out = layout num base w p fl ds /\ ds <> [] /\ is_numeral base ds /\ numval base ds = magnitude num fl.

Definition hex2 (fl a : Z) : list Z := [nth (Z.to_nat (a / 16)) (dig_table fl) 0; nth (Z.to_nat (a mod 16)) (dig_table fl) 0].
(** A byte in decimal. *)
Definition dec3 (a : Z) : list Z :=
  (if 100 <=? a then [48 + a / 100] else []) ++ (if 10 <=? a then [48 + a / 10 mod 10] else []) ++ [48 + a mod 10].
Fixpoint separated (sep : Z) (ts : list (list Z)) : list Z :=
  match ts with [] => [] | [t] => t | t :: ts => t ++ sep :: separated sep ts end.

Definition kind_base (k : kind) : Z := match k with Ko => 8 | Kx | KX => 16 | _ => 10 end.
Definition kind_flags (k : kind) : Z := match k with Kd | Ki => SIGN | KX => UPPERCASE | _ => 0 end.
Definition kind_signed (k : kind) : bool := match k with Kd | Ki => true | _ => false end.
(** The value that is printed, as the [long] that [number] takes. *)
Definition int_val (h : head) (k : kind) (n : Z) : Z :=
  if is_long h then s64 n else if kind_signed k then s32 n else u32 n.

Definition conv_text (h : head) (v : conv) (out : list Z) : Prop :=
  let fl := head_flags h in let w := width_val (h_width h) in let p := prec_val (h_prec h) in
  match v with
  | CChar c => out = field fl w [u8 c]
  | CStr s =>
      let t := match s with Some t => t | None => bytes_of "<NULL>" end in
      out = field fl w (if p <? 0 then t else take (Z.to_nat p) t)
  | CPtr a =>
      if w =? -1 then number_text (s64 a) 16 16 p (Z.lor fl ZEROPAD) out else number_text (s64 a) 16 w p fl out
  | CAddr upper b =>
      let fl := if upper : bool then Z.lor fl UPPERCASE else fl in
      out = field fl w (if is_long h then separated 58 (hex2 fl <$> take 6 b) else separated 46 (dec3 <$> take 4 b))
  | CInt k n => number_text (int_val h k n) (kind_base k) w p (Z.lor fl (kind_flags k)) out
  | COther c => out = if c =? 37 then [37] else [37; c]
  end.
Definition part_text (p : part) (out : list Z) : Prop := match p with Lit c => out = [c] | Conv h v => conv_text h v out end.

(** ** The formats with a meaning *)

Definition flag_char (c : Z) : bool := (c =? 45) || (c =? 43) || (c =? 32) || (c =? 35) || (c =? 48).
(** Widths and precisions below 2^30: [skip_atoi] reads them, and the [int]s
    that [number] computes from them do not overflow. *)
Definition readable (ds : list Z) : Prop := is_numeral 10 ds /\ numval 10 ds < 2 ^ 30.
Definition wf_width (w : width) : Prop :=
  match w with
  | WNone => True
  | WDigits ds => readable ds /\ exists d ds', ds = d :: ds' /\ d <> 48
  | WStar n => - 2 ^ 30 < n < 2 ^ 30
  end.
Definition wf_prec (p : prec) : Prop := match p with PNone => True | PDigits ds => readable ds | PStar n => - 2 ^ 31 <= n < 2 ^ 30 end.
Definition wf_head (h : head) : Prop :=
  Forall (fun c => flag_char c = true) (h_flags h) /\ wf_width (h_width h) /\ wf_prec (h_prec h).
(** A character that cannot be part of the head of a directive. *)
Definition stops (c : Z) : bool :=
  negb (flag_char c) && negb (is_digit c) && negb (c =? 42) && negb (c =? 46) && negb (c =? 108) && negb (c =? 76).
Definition wf_conv (h : head) (v : conv) : Prop :=
  match v with
  | CStr (Some t) => Forall (fun c => c <> 0) t /\ Z.of_nat (length t) < 2 ^ 31
  | CAddr _ b => Forall (in_u 8) b /\ (length b >= if is_long h then 6 else 4)%nat
  | CInt k n => kind_signed k = true -> is_long h = true -> s64 n <> - 2 ^ 63
  | COther c => c <> 0 /\ stops c = true /\ c ∉ [99; 115; 112; 65; 97; 111; 88; 120; 100; 105; 117]
  | _ => True
  end.
Definition wf_part (p : part) : Prop :=
  match p with Lit c => c <> 0 /\ c <> 37 | Conv h v => wf_head h /\ wf_conv h v end.

(** The format may end inside a directive. *)
Definition end_fmt (e : option head) : list Z := match e with None => [] | Some h => 37 :: head_fmt h end.
Definition end_args (e : option head) : list va := match e with None => [] | Some h => head_args h end.
Definition end_text (e : option head) : list Z := match e with None => [] | Some _ => [37] end.
Definition wf_end (e : option head) : Prop := match e with None => True | Some h => wf_head h end.

(** ** Parsing the head *)

(** The first character of [X] has the property. *)
Definition starts (P : Z -> bool) (X : list Z) : Prop := match X with [] => False | c :: _ => P c = true end.

Lemma starts_impl (P Q : Z -> bool) (X : list Z) : (forall c, P c = true -> Q c = true) -> starts P X -> starts Q X.
Proof. destruct X; simpl; auto. Qed.

Definition no_flag (c : Z) : bool := negb (flag_char c).
Definition no_width (c : Z) : bool := negb (is_digit c) && negb (c =? 42).
Definition no_prec (c : Z) : bool := no_width c && negb (c =? 46).
Definition no_qual (c : Z) : bool := negb (c =? 108) && negb (c =? 76).

Ltac bools := unfold stops, no_qual, no_prec, no_width, no_flag, flag_char, is_digit in *;
  rewrite ?andb_true_iff, ?orb_true_iff, ?negb_true_iff, ?orb_false_iff, ?andb_false_iff, ?Z.eqb_neq, ?Z.eqb_eq, ?Z.leb_gt in *.

Lemma parse_flags_ok (fs X : list Z) (fl : Z) :
  Forall (fun c => flag_char c = true) fs -> starts no_flag X ->
  parse_flags (fs ++ X) fl = Ok (foldl (fun fl c => Z.lor fl (flag_bit c)) fl fs, X).
Proof.
  intros Hf HX. revert fl. induction Hf as [|c fs Hc _ IH]; intros fl; cbn [app foldl].
  - destruct X as [|x X]; [done|]. cbn [starts] in HX. bools. cbn [parse_flags].
    by rewrite !(proj2 (Z.eqb_neq _ _)) by tauto.
  - rewrite <- IH. unfold flag_bit, flag_char in *. cbn [parse_flags].
    repeat (match goal with |- context [c =? ?k] => destruct (c =? k) end; [done|]). done.
Qed.

Lemma digits_stop (ds X : list Z) : readable ds -> starts no_width X -> skip_atoi (ds ++ X) = Ok (numval 10 ds, X).
Proof.
  intros [Hn Hv] HX. destruct X as [|x X]; [done|]. cbn [starts] in HX. unfold no_width in HX.
  apply andb_prop in HX as [Hx _]. apply skip_atoi_numeral; [done|by apply negb_true_iff|lia|fold (numval 10 ds); lia].
Qed.

Lemma numeral_digit (d : Z) (ds : list Z) : is_numeral 10 (d :: ds) -> is_digit d = true.
Proof. intros H. apply Forall_cons in H as [(_ & _ & H) _]. apply H. lia. Qed.

Lemma parse_width_ok (w : width) (X : list Z) (args : list va) (fl : Z) :
  wf_width w -> starts no_width X ->
  parse_width (width_fmt w ++ X) (width_args w ++ args) fl =
    Ok (width_val w, match w with WStar n => if n <? 0 then Z.lor fl LEFT else fl | _ => fl end, X, args).
Proof.
  intros Hw HX. unfold parse_width. destruct w as [|ds|n]; cbn [width_fmt width_args app].
  - destruct X as [|x X]; [done|]. cbn [starts] in HX. cbn [rd mbind outcome_bind]. unfold no_width in HX.
    apply andb_prop in HX as [H1 H2]. rewrite (proj1 (negb_true_iff _) H1), (proj1 (negb_true_iff _) H2). done.
  - destruct Hw as [Hr (d & ds' & -> & _)]. rewrite digits_stop by done. cbn [app rd mbind outcome_bind].
    rewrite (numeral_digit d ds' (proj1 Hr)). done.
  - cbn [rd mbind outcome_bind Z.eqb Pos.eqb va_int tail wf_width width_val] in *. change (is_digit 42) with false. cbn iota.
    rewrite (swrap_small 32) by (lia || (unfold in_s; lia)).
    zcase (n <? 0); [|by rewrite Z.abs_eq by lia]. rewrite (proj2 (Z.eqb_neq _ _)) by lia. by rewrite Z.abs_neq by lia.
Qed.

Lemma parse_precision_ok (p : prec) (X : list Z) (args : list va) :
  wf_prec p -> starts no_prec X ->
  parse_precision (prec_fmt p ++ X) (prec_args p ++ args) = Ok (prec_val p, X, args).
Proof.
  intros Hp HX. assert (starts no_width X) as HX' by (eapply starts_impl; [|exact HX]; intros c; unfold no_prec; by intros [? _]%andb_prop).
  destruct X as [|x X]; [done|]. cbn [starts] in HX, HX'.
  unfold parse_precision. destruct p as [|ds|n]; cbn [prec_fmt prec_args app rd mbind outcome_bind Z.eqb Pos.eqb tail prec_val wf_prec] in *.
  - unfold no_prec in HX. apply andb_prop in HX as [_ H]. by rewrite (proj1 (negb_true_iff _) H).
  - rewrite digits_stop by done. destruct ds as [|d ds]; cbn [app rd mbind outcome_bind].
    + unfold no_width in HX'. apply andb_prop in HX' as [H1 H2].
      by rewrite (proj1 (negb_true_iff _) H1), (proj1 (negb_true_iff _) H2).
    + rewrite (numeral_digit d ds (proj1 Hp)). cbn [mbind outcome_bind mret outcome_ret].
      pose proof (numval_from (d :: ds) 0 ltac:(lia) (proj1 Hp)) as H. fold (numval 10 (d :: ds)) in H.
      by rewrite (proj2 (Z.ltb_ge _ _)).
  - change (is_digit 42) with false. cbn [va_int mbind outcome_bind tail]. cbn iota. cbn [mbind outcome_bind mret outcome_ret]. rewrite (swrap_small 32) by (lia || (unfold in_s; lia)).
    zcase (n <? 0); [by rewrite Z.max_l by lia|by rewrite Z.max_r by lia].
Qed.

Definition qual_val (q : option bool) : Z := match q with None => -1 | Some l => if l : bool then 108 else 76 end.

Lemma parse_qualifier_ok (q : option bool) (X : list Z) :
  starts no_qual X -> parse_qualifier (qual_fmt q ++ X) = Ok (qual_val q, X).
Proof.
  intros HX. destruct q as [[|]|]; [done|done|]. destruct X as [|x X]; [done|]. cbn [starts] in HX. unfold no_qual in HX.
  apply andb_prop in HX as [H1 H2]. unfold parse_qualifier. cbn [qual_fmt app rd mbind outcome_bind].
  by rewrite (proj1 (negb_true_iff _) H1), (proj1 (negb_true_iff _) H2).
Qed.

Lemma qual_starts (q : option bool) (c : Z) (X : list Z) (P : Z -> bool) :
  P 108 = true -> P 76 = true -> P c = true -> starts P (qual_fmt q ++ c :: X).
Proof. by destruct q as [[|]|]. Qed.

Lemma prec_starts (p : prec) (X : list Z) (P : Z -> bool) : P 46 = true -> starts P X -> starts P (prec_fmt p ++ X).
Proof. by destruct p. Qed.

Lemma width_starts (w : width) (X : list Z) : wf_width w -> starts no_flag X -> starts no_flag (width_fmt w ++ X).
Proof.
  destruct w as [|ds|n]; [done| |done]. intros [[Hn _] (d & ds' & -> & Hd)] _. apply numeral_digit in Hn. cbn [width_fmt app starts].
  bools. lia.
Qed.

(** A directive up to its conversion character. *)
Lemma head_parsed (h : head) (c : Z) (X : list Z) (args : list va) :
  wf_head h -> stops c = true ->
  directive (head_fmt h ++ c :: X) (head_args h ++ args) =
    convert (c :: X) args (head_flags h) (width_val (h_width h)) (prec_val (h_prec h)) (qual_val (h_qual h)).
Proof.
  intros (Hf & Hw & Hp) Hc. unfold stops in Hc. rewrite !andb_true_iff in Hc. destruct Hc as [[[[[C1 C2] C3] C4] C5] C6].
  assert (starts no_qual (c :: X)) as S1 by (cbn; unfold no_qual; by rewrite C5, C6).
  assert (starts no_prec (qual_fmt (h_qual h) ++ c :: X)) as S2.
  { apply qual_starts; [done|done|]. unfold no_prec, no_width. by rewrite C2, C3, C4. }
  assert (starts no_width (prec_fmt (h_prec h) ++ qual_fmt (h_qual h) ++ c :: X)) as S3.
  { apply prec_starts; [done|]. eapply starts_impl; [|exact S2]. intros x. unfold no_prec. by intros [? _]%andb_prop. }
  assert (starts no_flag (width_fmt (h_width h) ++ prec_fmt (h_prec h) ++ qual_fmt (h_qual h) ++ c :: X)) as S4.
  { apply width_starts; [done|]. apply prec_starts; [done|]. by apply qual_starts. }
  unfold directive, head_fmt, head_args. rewrite <- !app_assoc. rewrite parse_flags_ok by done. cbn [mbind outcome_bind].
  rewrite parse_width_ok by done. cbn [mbind outcome_bind]. rewrite parse_precision_ok by done. cbn [mbind outcome_bind].
  rewrite parse_qualifier_ok by done. cbn [mbind outcome_bind]. reflexivity.
Qed.

(** ** The conversions *)

Lemma has_or (a b f : Z) : has (Z.lor a b) f = has a f || has b f.
Proof. unfold has. rewrite !(Z.land_comm _ f). fold (has f (Z.lor a b)) (has f a) (has f b). apply has_lor. Qed.

Lemma head_unsigned (h : head) : has (head_flags h) SIGN = false.
Proof.
  assert (forall fs fl, has fl SIGN = false -> has (foldl (fun fl c => Z.lor fl (flag_bit c)) fl fs) SIGN = false) as H.
  { induction fs as [|c fs IH]; intros fl Hfl; [done|]. apply IH. rewrite has_or, Hfl. unfold flag_bit. by repeat case_match. }
  unfold head_flags. destruct (h_width h) as [| |n]; [by apply H|by apply H|]. destruct (n <? 0); [rewrite has_or|]; by rewrite H.
Qed.

(** The second of two fills has nothing left to do. *)
Ltac no_fill :=
  match goal with |- context [replicate (Z.to_nat ((if ?b then ?x else ?y) - ?z)) 32] =>
    assert (Z.to_nat ((if b then x else y) - z) = 0%nat) as -> by (zcases; lia) end; cbn [replicate]; by rewrite app_nil_r.

Lemma justify_field (t : list Z) (w fl : Z) : justify t w fl = field fl w t.
Proof.
  unfold justify, field, pad_to, spaces. destruct (has fl LEFT); [done|]. cbn iota.
  no_fill.
Qed.

Lemma strnlen_text (t : list Z) (count n : Z) :
  Forall (fun c => c <> 0) t -> in_u 64 count -> strnlen_loop (t ++ [0]) count n = Ok (n + Z.min count (Z.of_nat (length t))).
Proof.
  intros Ht. revert count n. induction Ht as [|c t Hc _ IH]; intros count n Hcount; unfold in_u in *; cbn [app strnlen_loop length].
  - cbn [Z.eqb negb andb]. f_equal. lia.
  - rewrite (proj2 (Z.eqb_neq c 0)) by done. cbn [negb andb]. destruct (Z.eqb_spec count 0) as [->|Hn]; cbn [negb]; [f_equal; lia|].
    rewrite uwrap_small by (unfold in_u; lia). rewrite IH by lia. f_equal. lia.
Qed.

Lemma string_ok (t X : list Z) (args : list va) (fl w p : Z) (s : option (list Z)) :
  Forall (fun c => c <> 0) t -> Z.of_nat (length t) < 2 ^ 31 -> -1 <= p < 2 ^ 31 ->
  match s with Some s => s | None => cstr "<NULL>" end = t ++ [0] ->
  conv_string (115 :: X) (VStr s :: args) fl w p = Ok (field fl w (if p <? 0 then t else take (Z.to_nat p) t), X, args).
Proof.
  intros Ht Hl Hp Hs. unfold conv_string. cbn [va_str mbind outcome_bind]. rewrite Hs.
  unfold strnlen. rewrite strnlen_text by (done || by apply uwrap_range). cbn [mbind outcome_bind]. rewrite Z.add_0_l.
  set (k := Z.min _ _). assert (k = if p <? 0 then Z.of_nat (length t) else Z.min p (Z.of_nat (length t))) as Ek.
  { unfold k. zcase (p <? 0).
    - assert (p = -1) as -> by lia. change (u64 (-1)) with (2 ^ 64 - 1). lia.
    - rewrite uwrap_small by (unfold in_u; lia). done. }
  assert (0 <= k <= Z.of_nat (length t)) as Hk by (rewrite Ek; zcases; lia).
  rewrite swrap_small by (lia || (unfold in_s; lia)).
  assert (take (Z.to_nat k) (t ++ [0]) = (if p <? 0 then t else take (Z.to_nat p) t)) as Et.
  { rewrite take_app_le by lia. rewrite Ek. zcase (p <? 0); [apply take_ge; lia|].
    destruct (Z.min_spec p (Z.of_nat (length t))) as [[_ ->]|[Hle ->]]; [done|]. rewrite !take_ge by lia. done. }
  rewrite Et. assert (k = Z.of_nat (length (if p <? 0 then t else take (Z.to_nat p) t))) as Hkl by (rewrite <- Et, length_take, length_app; lia).
  rewrite Hkl. cbn [tail]. rewrite <- justify_field. unfold justify. destruct (if has fl LEFT then _ else _) as [o1 w1]. by destruct (pad_to _ w1) as [o2 w2].
Qed.

Lemma char_ok (c : Z) (X : list Z) (args : list va) (fl w : Z) :
  conv_char (99 :: X) (VInt c :: args) fl w = Ok (field fl w [u8 c], X, args).
Proof.
  unfold conv_char, field, spaces. cbn [va_int mbind outcome_bind length tail]. change (Z.of_nat 1) with 1. destruct (has fl LEFT).
  - by rewrite uwrap_swrap by lia.
  - cbn [mbind outcome_bind]. rewrite uwrap_swrap by lia.
    no_fill.
Qed.

Lemma number_ok (num base fl w p : Z) (fmt : list Z) (args : list va) :
  2 <= base <= 36 -> (has fl SIGN = true -> s64 num <> - 2 ^ 63) ->
  exists out, number_text (s64 num) base w p fl out /\ conv_number fmt args num base fl w p = Ok (out, tail fmt, args).
Proof.
  intros Hb Hs. destruct (number_spec (s64 num) base w p fl Hb ltac:(by apply swrap_range) Hs) as (ds & E & Hne & Hnum & Hval).
  exists (layout (s64 num) base w p fl ds). split; [by exists ds|]. unfold conv_number. rewrite E. done.
Qed.

Lemma int_ok (h : head) (k : kind) (n : Z) (fmt : list Z) (args : list va) (w p : Z) :
  (kind_signed k = true -> is_long h = true -> s64 n <> - 2 ^ 63) ->
  let fl := Z.lor (head_flags h) (kind_flags k) in
  exists out, number_text (int_val h k n) (kind_base k) w p fl out /\
    conv_int fmt (conv_args h (CInt k n) ++ args) (kind_base k) fl w p (qual_val (h_qual h)) = Ok (out, tail fmt, args).
Proof.
  intros Hmin fl. assert (has fl SIGN = kind_signed k) as Hsg by (unfold fl; rewrite has_or, head_unsigned; by destruct k).
  assert (2 <= kind_base k <= 36) as Hb by (destruct k; cbn; lia).
  assert ((qual_val (h_qual h) =? 108) = is_long h) as Hq by (unfold is_long; by destruct (h_qual h) as [[|]|]).
  unfold conv_int. rewrite Hq, Hsg. unfold int_val. cbn [conv_args app]. destruct (is_long h).
  - cbn [va_ulong mbind outcome_bind]. rewrite <- (swrap_uwrap 64 n) by lia. apply number_ok; [done|]. rewrite Hsg, swrap_uwrap by lia. auto.
  - destruct (kind_signed k) eqn:Ek; cbn [va_int va_uint mbind outcome_bind mret outcome_ret].
    + pose proof (swrap_range 32 n ltac:(lia)) as Hr. unfold in_s in Hr.
      assert (s64 (u64 (s32 n)) = s32 n) as E by (rewrite swrap_uwrap by lia; apply swrap_small; [lia|unfold in_s; lia]).
      destruct (number_ok (u64 (s32 n)) (kind_base k) fl w p fmt args Hb) as (out & Ht & En); [intros _; lia|]. exists out. by rewrite E in Ht.
    + pose proof (uwrap_range 32 n ltac:(lia)) as Hr. unfold in_u in Hr.
      assert (s64 (u32 n) = u32 n) as E by (apply swrap_small; [lia|unfold in_s; lia]).
      destruct (number_ok (u32 n) (kind_base k) fl w p fmt args Hb) as (out & Ht & En); [by rewrite Hsg|]. exists out. by rewrite E in Ht.
Qed.

Lemma dig_at (fl v : Z) : 0 <= v < 16 -> aget (dig_table fl) v = Ok (nth (Z.to_nat v) (dig_table fl) 0).
Proof.
  intros Hv. destruct (dig_table_get fl v ltac:(lia)) as (c & E & _). rewrite E. f_equal. unfold aget in E.
  destruct (0 <=? v); [|done]. destruct (dig_table fl !! Z.to_nat v) as [c'|] eqn:El; [|done]. injection E as <-.
  symmetry. by apply nth_lookup_Some.
Qed.

Lemma separated_snoc (sep : Z) (ts : list (list Z)) (t : list Z) :
  separated sep (ts ++ [t]) = match ts with [] => t | _ => separated sep ts ++ sep :: t end.
Proof.
  induction ts as [|u ts IH]; [done|]. destruct ts as [|v ts]; [done|].
  change (separated sep ((u :: v :: ts) ++ [t])) with (u ++ sep :: separated sep ((v :: ts) ++ [t])). rewrite IH.
  change (separated sep (u :: v :: ts)) with (u ++ sep :: separated sep (v :: ts)). by rewrite <- app_assoc.
Qed.

(** Both address loops write the text of each byte after a separator. *)
Lemma address_loop (b : list Z) (sep k : Z) (body : Z -> list Z -> outcome (list Z)) (g : Z -> list Z) :
  Forall (in_u 8) b -> 0 <= k <= Z.of_nat (length b) -> (forall a tmp, in_u 8 a -> body a tmp = Ok (tmp ++ g a)) ->
  oloop 0 k (fun i tmp => let tmp := if negb (i =? 0) then tmp ++ [sep] else tmp in a ← aget b i; body a tmp) []
    = Ok (separated sep (g <$> take (Z.to_nat k) b)).
Proof.
  intros Hb Hk Hg. assert (owp (oloop 0 k (fun i tmp => let tmp := if negb (i =? 0) then tmp ++ [sep] else tmp in a ← aget b i; body a tmp) [])
    (fun tmp => tmp = separated sep (g <$> take (Z.to_nat k) b))) as H; [|by apply owp_ok in H as (tmp & -> & ->)].
  apply (oloop_inv 0 k _ (fun i tmp => tmp = separated sep (g <$> take (Z.to_nat i) b))); [lia|done|].
  intros j tmp Hj ->. cbv zeta. destruct (aget_in_range b j ltac:(lia)) as (a & Ha & ->). cbn [mbind outcome_bind].
  rewrite Hg by (by eapply Forall_lookup_1). red. replace (Z.to_nat (j + 1)) with (S (Z.to_nat j)) by lia.
  rewrite (take_S_r _ _ _ Ha), fmap_app. cbn [fmap list_fmap]. rewrite separated_snoc.
  destruct (Z.eqb_spec j 0) as [->|Hj0]; [done|]. cbn [negb].
  destruct (g <$> take (Z.to_nat j) b) eqn:E; [|by rewrite <- app_assoc].
  apply fmap_nil_inv in E. apply (f_equal length) in E. rewrite length_take in E. cbn in E. lia.
Qed.

Lemma eaddr_ok (b : list Z) (w p fl : Z) :
  Forall (in_u 8) b -> (6 <= length b)%nat -> eaddr b w p fl = Ok (field fl w (separated 58 (hex2 fl <$> take 6 b))).
Proof.
  intros Hb Hl. unfold eaddr. fold (dig_table fl).
  rewrite (address_loop b 58 6 (fun a tmp => hi ← aget (dig_table fl) (Z.shiftr a 4); lo ← aget (dig_table fl) (Z.land a 0x0F); mret (tmp ++ [hi; lo])) (hex2 fl));
    [cbn [mbind outcome_bind]; by rewrite justify_field|done|lia|].
  intros a tmp Ha. unfold in_u in Ha. rewrite Z.shiftr_div_pow2 by lia. change 0x0F with (Z.ones 4). rewrite Z.land_ones by lia.
  change (2 ^ 4) with 16. pose proof (Z.mod_pos_bound a 16 ltac:(lia)). assert (a / 16 < 16) by (apply Z.div_lt_upper_bound; lia).
  rewrite (dig_at fl (a / 16)) by (split; [apply Z.div_pos|]; lia). cbn [mbind outcome_bind]. by rewrite dig_at.
Qed.

Lemma iaddr_ok (b : list Z) (w p fl : Z) :
  Forall (in_u 8) b -> (4 <= length b)%nat -> iaddr b w p fl = Ok (field fl w (separated 46 (dec3 <$> take 4 b))).
Proof.
  intros Hb Hl. unfold iaddr.
  rewrite (address_loop b 46 4 (fun a tmp => d ← iaddr_byte a; mret (tmp ++ d)) dec3);
    [cbn [mbind outcome_bind]; by rewrite justify_field|done|lia|].
  intros a tmp Ha. assert (allb 256 (fun a => bool_decide (iaddr_byte a = Ok (dec3 a))) = true) as C by (by vm_compute).
  pose proof (allb_spec _ _ a C Ha) as E. cbv beta in E. apply bool_decide_eq_true in E. by rewrite E.
Qed.

Lemma address_ok (h : head) (upper : bool) (b X : list Z) (args : list va) (c fl w p : Z) :
  wf_conv h (CAddr upper b) ->
  conv_address (c :: X) (VBytes b :: args) fl w p (qual_val (h_qual h)) =
    Ok (field fl w (if is_long h then separated 58 (hex2 fl <$> take 6 b) else separated 46 (dec3 <$> take 4 b)), X, args).
Proof.
  intros [Hb Hl]. unfold conv_address. cbn [va_bytes mbind outcome_bind tail].
  assert ((qual_val (h_qual h) =? 108) = is_long h) as -> by (unfold is_long; by destruct (h_qual h) as [[|]|]).
  destruct (is_long h); [rewrite eaddr_ok by (done || lia)|rewrite iaddr_ok by (done || lia)]; done.
Qed.

Lemma prec_range (p : prec) : wf_prec p -> -1 <= prec_val p < 2 ^ 31.
Proof.
  destruct p as [|ds|n]; cbn [wf_prec prec_val]; [lia| |lia]. intros [Hn Hv].
  pose proof (numval_from ds 0 ltac:(lia) Hn) as H. fold (numval 10 ds) in H. lia.
Qed.

Lemma conv_ok (h : head) (v : conv) (X : list Z) (args : list va) :
  wf_head h -> wf_conv h v ->
  exists out, conv_text h v out /\
    convert (conv_letter v :: X) (conv_args h v ++ args) (head_flags h) (width_val (h_width h)) (prec_val (h_prec h)) (qual_val (h_qual h))
      = Ok (out, X, args).
Proof.
  intros (_ & _ & Hp) Hv. apply prec_range in Hp. unfold convert. cbn [rd mbind outcome_bind].
  destruct v as [c|s|a|upper b|k n|c]; cbn [conv_letter].
  - cbn [Z.eqb Pos.eqb conv_args app conv_text]. eexists. split; [reflexivity|]. apply char_ok.
  - cbn [Z.eqb Pos.eqb conv_args app conv_text]. eexists. split; [reflexivity|].
    destruct s as [t|]; cbn [fmap option_fmap option_map].
    + destruct Hv. by apply string_ok.
    + apply string_ok; [by repeat constructor|by vm_compute|done|reflexivity].
  - cbn [Z.eqb Pos.eqb conv_args app conv_text va_ptr mbind outcome_bind].
    assert (forall w fl, has fl SIGN = false -> exists out, number_text (s64 a) 16 w (prec_val (h_prec h)) fl out /\
      conv_number (112 :: X) args (u64 a) 16 fl w (prec_val (h_prec h)) = Ok (out, X, args)) as Hn.
    { intros w fl Hfl. rewrite <- (swrap_uwrap 64 a) by lia. apply number_ok; [lia|]. by rewrite Hfl. }
    change (2 * 8) with 16. destruct (width_val (h_width h) =? -1); apply Hn; [rewrite has_or|]; by rewrite head_unsigned.
  - cbn [conv_text]. destruct upper; cbn [Z.eqb Pos.eqb conv_args app]; (eexists; split; [reflexivity|by eapply address_ok]).
  - destruct (int_ok h k n (kind_char k :: X) args (width_val (h_width h)) (prec_val (h_prec h)) Hv) as (out & Ht & E).
    exists out. split; [done|]. cbn [tail] in E. rewrite <- E. destruct k; cbn [kind_char kind_base kind_flags Z.eqb Pos.eqb orb]; rewrite ?Z.lor_0_r; reflexivity.
  - destruct Hv as (Hc0 & _ & Hc). assert (forall k, k ∈ [99; 115; 112; 65; 97; 111; 88; 120; 100; 105; 117] -> (c =? k) = false) as Hk.
    { intros k Hk. apply Z.eqb_neq. congruence. }
    rewrite (Hk 99), (Hk 115), (Hk 112), (Hk 65), (Hk 97), (Hk 111), (Hk 88), (Hk 120), (Hk 100), (Hk 105), (Hk 117)
      by (repeat (apply list_elem_of_here || apply list_elem_of_further)). rewrite (proj2 (Z.eqb_neq c 0)) by done. cbn [orb negb conv_args app tail conv_text].
    eexists. split; [reflexivity|]. by destruct (Z.eqb_spec c 37) as [->|].
Qed.

(** ** The interpreter *)

Lemma letter_stops (h : head) (v : conv) : wf_conv h v -> stops (conv_letter v) = true.
Proof. destruct v as [| | |[]|[]|c]; try done. by intros (_ & ? & _). Qed.

Lemma loop_ok (ps : list part) (e : option head) (fuel : nat) :
  Forall wf_part ps -> wf_end e -> (length ps + 2 <= fuel)%nat ->
  exists outs, Forall2 part_text ps outs /\
    vsprintf_loop fuel (concat (part_fmt <$> ps) ++ end_fmt e ++ [0]) (concat (part_args <$> ps) ++ end_args e)
      = Ok (concat outs ++ end_text e).
Proof.
  intros Hps He. revert fuel. induction Hps as [|q ps Hq _ IH]; intros fuel Hf; (destruct fuel as [|fuel]; [lia|]).
  - exists []. split; [constructor|]. destruct e as [h|]; [|done]. cbn [end_fmt end_args end_text fmap list_fmap concat app vsprintf_loop rd mbind outcome_bind Z.eqb Pos.eqb negb tail].
    rewrite <- (app_nil_r (head_args h)), head_parsed by done. destruct fuel as [|fuel]; [cbn in Hf; lia|]. done.
  - destruct (IH fuel ltac:(cbn in Hf; lia)) as (outs & Ht & E). cbn [fmap list_fmap concat].
    rewrite <- !app_assoc. destruct q as [c|h v].
    + destruct Hq as [Hc Hc']. exists ([c] :: outs). split; [by constructor|].
      cbn [part_fmt part_args app vsprintf_loop rd mbind outcome_bind tail concat].
      rewrite (proj2 (Z.eqb_neq c 0)), (proj2 (Z.eqb_neq c 37)) by done. cbn [negb]. by rewrite E.
    + destruct Hq as [Hh Hv]. destruct (conv_ok h v (concat (part_fmt <$> ps) ++ end_fmt e ++ [0]) (concat (part_args <$> ps) ++ end_args e) Hh Hv) as (out & Ho & Ec).
      exists (out :: outs). split; [by constructor|]. cbn [part_fmt part_args app vsprintf_loop rd mbind outcome_bind Z.eqb Pos.eqb negb tail concat].
      rewrite <- !app_assoc. cbn [app]. rewrite head_parsed by (done || by eapply letter_stops). rewrite Ec. cbn [mbind outcome_bind]. rewrite E. cbn [mbind outcome_bind mret outcome_ret]. by rewrite app_assoc.
Qed.

(** The format and the arguments of a list of parts, with an end. *)
Definition format_of (ps : list part) (e : option head) : list Z := concat (part_fmt <$> ps) ++ end_fmt e ++ [0].
Definition args_of (ps : list part) (e : option head) : list va := concat (part_args <$> ps) ++ end_args e.

Lemma format_length (ps : list part) (e : option head) : (length ps + 1 <= length (format_of ps e))%nat.
Proof.
  unfold format_of. induction ps as [|q ps IH]; cbn [fmap list_fmap concat length]; rewrite !length_app in *; cbn [length] in *; [lia|].
  destruct q; cbn [part_fmt length]; lia.
Qed.

Lemma vsprintf_parts (ps : list part) (e : option head) :
  Forall wf_part ps -> wf_end e ->
  exists outs, Forall2 part_text ps outs /\
    let out := concat outs ++ end_text e in ee_vsprintf (format_of ps e) (args_of ps e) = Ok (out ++ [0], Z.of_nat (length out)).
Proof.
  intros Hps He. pose proof (format_length ps e). destruct (loop_ok ps e (S (length (format_of ps e))) Hps He ltac:(lia)) as (outs & Ht & E).
  exists outs. split; [done|]. unfold ee_vsprintf, format_of, args_of in *. by rewrite E.
Qed.

(** ** Properties *)

(** [C20] The format interpreter: for every format made of literal characters
    and directives (any flags, width and precision below 2^30 as digits or as
    arguments, l or L, each of the conversions c, s, p, a, A, d, i, u, o, x, X, a percent sign or
    an unknown letter), with the arguments its directives ask for,
    [ee_vsprintf] returns the texts of the parts one after the other, a NUL and
    their length.  The texts: characters and strings cut to the precision in
    their field, addresses with their separators, numbers in the layout of
    [C19].  A format that ends inside a directive prints a percent sign for it. *)
Theorem vsprintf_renders (ps : list part) (e : option head) :
  Forall wf_part ps -> wf_end e ->
  exists outs, Forall2 part_text ps outs /\
    let out := concat outs ++ end_text e in ee_vsprintf (format_of ps e) (args_of ps e) = Ok (out ++ [0], Z.of_nat (length out)).
Proof. apply vsprintf_parts. Qed.

Lemma vsprintf_renders_witness :
  let ps := [Lit 91; Conv (Head [45] (WDigits [53]) PNone None) (CStr (Some (bytes_of "ok"))); Lit 124;
             Conv (Head [48] (WStar 12) PNone (Some true)) (CInt Kx 0x80001234); Conv (Head [] WNone PNone None) (COther 37)] in
  exists outs, Forall2 part_text ps outs /\
    let out := concat outs ++ [37] in
    ee_vsprintf (cstr "[%-5s|%0*lx%%%+") [VStr (Some (cstr "ok")); VInt 12; VLong 0x80001234] = Ok (out ++ [0], Z.of_nat (length out)).
Proof.
  intros ps. apply (vsprintf_renders ps (Some (Head [43] WNone PNone None))).
  - repeat constructor; try discriminate; cbn; try lia.
    + by exists 53, [].
    + intros H. by repeat (apply elem_of_cons in H as [H|H]; [discriminate H|]); apply elem_of_nil in H.
  - repeat constructor.
Defined.

(** The text of that format. *)
Example vsprintf_text :
  ee_vsprintf (cstr "[%-5s|%0*lx%%%+") [VStr (Some (cstr "ok")); VInt 12; VLong 0x80001234] = Ok (cstr "[ok   |000080001234%%", 21).
Proof. vm_compute. reflexivity. Qed.

(** [C22] Output in machine mode: for such a format, when the text with its NUL
    fits the buffer of 1024 bytes, [ee_printf] sends the text up to its first
    NUL and returns the number of bytes sent.  Before each byte it reads the
    line status until the ready bit is set, however often the device answers
    busy, and no further. *)
Theorem printf_sends (ps : list part) (e : option head) :
  Forall wf_part ps -> wf_end e ->
  exists outs, Forall2 part_text ps outs /\ let out := concat outs ++ end_text e in
    ((length out < 1024)%nat -> forall lsr rest console, grants (length (until_nul out)) lsr rest ->
     ee_printf (format_of ps e) (args_of ps e) (lsr, console)
       = Ok (Z.of_nat (length (until_nul out)), (rest, console ++ until_nul out))).
Proof.
  intros Hps He. destruct (vsprintf_parts ps e Hps He) as (outs & Ht & E).
  exists outs. split; [done|]. intros out Hl lsr rest console Hg. unfold ee_printf, mbind, ST_bind, lift. rewrite E.
  fold out. rewrite length_app. cbn [length]. rewrite (proj2 (Z.leb_le _ _)) by lia. by rewrite (send_loop_spec _ lsr rest).
Qed.

(** Three bytes; the device is busy before the first and the third. *)
Lemma printf_sends_witness :
  ee_printf (cstr "a%s") [VStr (Some (cstr "bc"))] ([0; 0x40; 0x60; 0x60; 0; 0x20; 7], [1; 2]) = Ok (3, ([7], [1; 2] ++ bytes_of "abc")).
Proof.
  destruct (printf_sends [Lit 97; Conv (Head [] WNone PNone None) (CStr (Some (bytes_of "bc")))] None) as (outs & Ht & H).
  - repeat constructor; discriminate.
  - constructor.
  - inversion Ht as [|? o1 ? ? E1 Ht1]; subst. inversion Ht1 as [|? o2 ? ? E2 Ht2]; subst. inversion Ht2; subst.
    cbn [part_text] in E1, E2. vm_compute in E2. subst.
    apply (H ltac:(vm_compute; lia) _ [7] [1; 2]).
    apply (grants_byte 2 [0; 0x40] _ _ 0x60); [repeat constructor|discriminate|].
    apply (grants_byte 1 [] _ _ 0x60); [repeat constructor|discriminate|].
    apply (grants_byte 0 [0] _ _ 0x20); [repeat constructor|discriminate|]. apply grants_none.
Defined.
End PrintfSpec.
