(* ===== verification/CoreMain.v ===== *)
(** * The benchmark driver ([core_main.c]) on the RISC-V port

    [main] of [guests/coremark/core_main.c] as configured for the guest
    ([MEM_STACK], [SEED_VOLATILE], one context, no floating point), with the
    timing and start-up code of [riscv/core_portme.c]: seeds, memory, the timed
    run, validation against the known checksums and the report.  The readings
    of the [rdtime] counter and of the console device are inputs. *)

From S2P Require Import Prelude CoreUtil CoreState CoreMatrix CoreList CoreBench EePrintf.

Module Main.
Import Crc Printf.

(** ** The machine *)

Record machine := Machine {
  dev : list Z * list Z;         (* line status readings to come, bytes sent *)
  clock : list Z;                (* [rdtime] readings to come *)
  start_time_val : Z;
  stop_time_val : Z;
  portable_id : Z;
  world : Bench.world            (* the list's cells and items, and [results[0]] *)
}.

Definition set_dev (m : machine) (d : list Z * list Z) : machine :=
  Machine d (clock m) (start_time_val m) (stop_time_val m) (portable_id m) (world m).
Definition set_world (m : machine) (w : Bench.world) : machine :=
  Machine (dev m) (clock m) (start_time_val m) (stop_time_val m) (portable_id m) w.
Definition set_portable_id (m : machine) (i : Z) : machine :=
  Machine (dev m) (clock m) (start_time_val m) (stop_time_val m) i (world m).

Definition res (m : machine) : Bench.core_results := (world m).2.2.
Definition set_res (m : machine) (r : Bench.core_results) : machine :=
  set_world m ((world m).1, ((world m).2.1, r)).

(** Code of the benchmark and of the console, run on the machine. *)
Definition on_world {A : Type} (c : ST Bench.world A) : ST machine A := fun m =>
  ' (a, w) ← c (world m); Ok (a, set_world m w).
(** The construction of the list touches its cells and items only. *)
Definition on_list {A : Type} (c : ST (LinkedList.heads * (LinkedList.datas * unit)) A) : ST machine A := fun m =>
  let '(h, (d, r)) := world m in
  ' (a, (h', (d', _))) ← c (h, (d, tt)); Ok (a, set_world m (h', (d', r))).
Definition print (fmt : list Z) (args : list va) : ST machine unit := fun m =>
  ' (_, d) ← ee_printf fmt args (dev m); Ok (tt, set_dev m d).

(** ** [core_portme.c] *)

Definition CLOCKS_PER_SEC : Z := 10000000.
Definition TIMER_RES_DIVIDER : Z := 1.
Definition EE_TICKS_PER_SEC : Z := CLOCKS_PER_SEC / TIMER_RES_DIVIDER.

(** The counter is truncated to [CORETIMETYPE], an [ee_u32]. *)
Definition barebones_clock : ST machine Z := fun m =>
  match clock m with
  | t :: ts => Ok (u32 t, Machine (dev m) ts (start_time_val m) (stop_time_val m) (portable_id m) (world m))
  | [] => Fuel
  end.

Definition start_time : ST machine unit :=
  t ← barebones_clock;
  st_modify (fun m => Machine (dev m) (clock m) t (stop_time_val m) (portable_id m) (world m)).
Definition stop_time : ST machine unit :=
  t ← barebones_clock;
  st_modify (fun m => Machine (dev m) (clock m) (start_time_val m) t (portable_id m) (world m)).
Definition get_time : ST machine Z := st_gets (fun m => u32 (stop_time_val m - start_time_val m)).
Definition time_in_secs (ticks : Z) : Z := ticks / EE_TICKS_PER_SEC.

Definition default_num_contexts : Z := 1.

Definition portable_init (sz : DataTypes.sizes) : ST machine unit :=
  (if negb (DataTypes.sizeof_ptr_int sz =? DataTypes.sizeof_int_ptr sz) then
     print (line "ERROR! Please define ee_ptr_int to a type that holds a pointer!" ++ [0]) []
   else mret tt) ;;
  (if negb (DataTypes.sizeof_u32 sz =? 4) then
     print (line "ERROR! Please define ee_u32 to a 32b unsigned type!" ++ [0]) []
   else mret tt) ;;
  st_modify (fun m => set_portable_id m 1).

Definition portable_fini : ST machine unit := st_modify (fun m => set_portable_id m 0).

(** ** Seeds *)

(** Lines 134 to 145: the values read, with the defaults of [execs]. *)
Definition read_seeds (v : Seeds.volatiles) (r : Bench.core_results) : Bench.core_results :=
  let execs := u32 (Seeds.get_seed_32 v 5) in
  Bench.Results (s16 (Seeds.get_seed_32 v 1)) (s16 (Seeds.get_seed_32 v 2)) (s16 (Seeds.get_seed_32 v 3))
    (Bench.memblock3 r) (Bench.size r) (u32 (Seeds.get_seed_32 v 4))
    (if execs =? 0 then 7 else execs)
    (Bench.list r) (Bench.mat r) (Bench.crc r) (Bench.crclist r) (Bench.crcmatrix r) (Bench.crcstate r)
    (Bench.err r).

Definition with_seeds (r : Bench.core_results) (s1 s2 s3 : Z) : Bench.core_results :=
  Bench.Results s1 s2 s3 (Bench.memblock3 r) (Bench.size r) (Bench.iterations r) (Bench.execs r)
    (Bench.list r) (Bench.mat r) (Bench.crc r) (Bench.crclist r) (Bench.crcmatrix r) (Bench.crcstate r)
    (Bench.err r).

(** Lines 146 to 160: the default values of the performance and validation runs. *)
Definition default_seeds (r : Bench.core_results) : Bench.core_results :=
  let r := if (Bench.seed1 r =? 0) && (Bench.seed2 r =? 0) && (Bench.seed3 r =? 0)
           then with_seeds r 0 0 0x66 else r in
  if (Bench.seed1 r =? 1) && (Bench.seed2 r =? 0) && (Bench.seed3 r =? 0)
  then with_seeds r 0x3415 0x3415 0x66 else r.

(** ** Memory *)

Definition ID_LIST : Z := Z.shiftl 1 0.
Definition ID_MATRIX : Z := Z.shiftl 1 1.
Definition ID_STATE : Z := Z.shiftl 1 2.
Definition NUM_ALGORITHMS : nat := 3.

Definition selected (execs i : Z) : bool := negb (Z.land (Z.shiftl 1 i) execs =? 0).

(** [for (i = 0; i < NUM_ALGORITHMS; i++) if ((1 << i) & execs) num_algorithms++;] *)
Definition num_algorithms (execs : Z) : Z :=
  foldl (fun n i => if selected execs (Z.of_nat i) then u16 (n + 1) else n) 0 (seq 0 NUM_ALGORITHMS).

(** The offset of [memblock[i + 1]] from the start of the block, for the
    selected algorithms: the [j]th one gets the [j]th part. *)
Definition memblock_offset (execs size : Z) (i : nat) : option Z :=
  if selected execs (Z.of_nat i) then
    Some (u32 (size * foldl (fun j k => if selected execs (Z.of_nat k) then u16 (j + 1) else j) 0 (seq 0 i)))
  else None.

Definition with_size (r : Bench.core_results) (size : Z) : Bench.core_results :=
  Bench.Results (Bench.seed1 r) (Bench.seed2 r) (Bench.seed3 r) (Bench.memblock3 r) size
    (Bench.iterations r) (Bench.execs r) (Bench.list r) (Bench.mat r) (Bench.crc r) (Bench.crclist r)
    (Bench.crcmatrix r) (Bench.crcstate r) 0.
Definition with_list (r : Bench.core_results) (l : LinkedList.ptr) : Bench.core_results :=
  Bench.Results (Bench.seed1 r) (Bench.seed2 r) (Bench.seed3 r) (Bench.memblock3 r) (Bench.size r)
    (Bench.iterations r) (Bench.execs r) l (Bench.mat r) (Bench.crc r) (Bench.crclist r)
    (Bench.crcmatrix r) (Bench.crcstate r) (Bench.err r).
Definition with_iterations (r : Bench.core_results) (n : Z) : Bench.core_results :=
  Bench.Results (Bench.seed1 r) (Bench.seed2 r) (Bench.seed3 r) (Bench.memblock3 r) (Bench.size r)
    n (Bench.execs r) (Bench.list r) (Bench.mat r) (Bench.crc r) (Bench.crclist r)
    (Bench.crcmatrix r) (Bench.crcstate r) (Bench.err r).
Definition with_err (r : Bench.core_results) (e : Z) : Bench.core_results :=
  Bench.Results (Bench.seed1 r) (Bench.seed2 r) (Bench.seed3 r) (Bench.memblock3 r) (Bench.size r)
    (Bench.iterations r) (Bench.execs r) (Bench.list r) (Bench.mat r) (Bench.crc r) (Bench.crclist r)
    (Bench.crcmatrix r) (Bench.crcstate r) e.

(** What the build and the loader determine: the size, address and contents of
    the stack block, and the words that happen to be where the result matrix
    goes. *)
Record config := Config {
  TOTAL_DATA_SIZE : Z;
  stack_memblock : Z;
  stack_bytes : list Z;
  stack_words : list Z;
  COMPILER_VERSION : list Z;
  COMPILER_FLAGS : list Z;
  MEM_LOCATION : list Z
}.

(** Lines 183 to 205: one context with the whole block, split between the
    selected algorithms; with none selected the division is undefined. *)
Definition split_memory (c : config) (r : Bench.core_results) : outcome Bench.core_results :=
  let n := num_algorithms (Bench.execs r) in
  if n =? 0 then UB else Ok (with_size r (TOTAL_DATA_SIZE c / n)).

(** Lines 221 to 225. *)
Definition init_list : ST machine unit :=
  m ← st_get;
  let r := res m in
  if negb (Z.land (Bench.execs r) ID_LIST =? 0) then
    l ← on_list (LinkedList.core_list_init (Bench.size r) (Bench.seed1 r));
    st_modify (fun m => set_res m (with_list (res m) l))
  else mret tt.

(** Lines 226 to 233: the dimension loop of [core_init_matrix] ends within
    [size + 1] steps. *)
Definition init_matrix (c : config) : ST machine unit :=
  m ← st_get;
  let r := res m in
  if negb (Z.land (Bench.execs r) ID_MATRIX =? 0) then
    off ← lift (of_option (memblock_offset (Bench.execs r) (Bench.size r) 1));
    ' (_, p) ← lift (Matrix.core_init_matrix (S (Z.to_nat (Bench.size r))) (Bench.size r)
                       (stack_memblock c + off)
                       (Z.lor (Bench.seed1 r) (s32 (Z.shiftl (Bench.seed2 r) 16))) (stack_words c));
    st_modify (fun m => set_res m (Bench.set_matrix (res m) p (Bench.crcmatrix (res m))))
  else mret tt.

(** Lines 234 to 238. *)
Definition init_state (c : config) : ST machine unit :=
  m ← st_get;
  let r := res m in
  if negb (Z.land (Bench.execs r) ID_STATE =? 0) then
    off ← lift (of_option (memblock_offset (Bench.execs r) (Bench.size r) 2));
    b ← lift (State.core_init_state (Bench.size r) (Bench.seed1 r)
                (take (Z.to_nat (Bench.size r)) (drop (Z.to_nat off) (stack_bytes c))));
    st_modify (fun m => set_res m (Bench.set_state (res m) b (Bench.crcstate (res m))))
  else mret tt.

(** Lines 218 to 239, for the one context. *)
Definition call_inits (c : config) : ST machine unit :=
  init_list ;; init_matrix c ;; init_state c.

(** ** The timed runs *)

(** [start_time(); iterate(&results[0]); stop_time();] *)
Definition timed_run : ST machine unit :=
  start_time ;; on_world Bench.iterate ;; stop_time.

(** [while (secs_passed < 1) { iterations *= 10; ... }]: each turn takes two
    readings of the clock, so the readings bound the number of turns. *)
Fixpoint calibrate (fuel : nat) (secs_passed : Z) : ST machine Z :=
  match fuel with
  | O => st_fuel
  | S fuel =>
    if secs_passed <? 1 then
      st_modify (fun m => set_res m (with_iterations (res m) (u32 (Bench.iterations (res m) * 10)))) ;;
      timed_run ;;
      t ← get_time;
      calibrate fuel (time_in_secs t)
    else mret secs_passed
  end.

(** Lines 241 to 263. *)
Definition auto_iterations : ST machine unit :=
  m ← st_get;
  if Bench.iterations (res m) =? 0 then
    st_modify (fun m => set_res m (with_iterations (res m) 1)) ;;
    secs_passed ← calibrate (S (length (clock m))) 0;
    let divisor := if secs_passed =? 0 then 1 else secs_passed in
    st_modify (fun m => set_res m (with_iterations (res m)
      (u32 (Bench.iterations (res m) * (1 + 10 / divisor)))))
  else mret tt.

(** ** Validation *)

Definition list_known_crc : list Z := [0xd4b0; 0x3340; 0x6a79; 0xe714; 0xe3c1].
Definition matrix_known_crc : list Z := [0xbe52; 0x1199; 0x5608; 0x1fd7; 0x0747].
Definition state_known_crc : list Z := [0x5e47; 0x39bf; 0xe5a4; 0x8e3a; 0x8d84].

(** Lines 286 to 290. *)
Definition seedcrc (r : Bench.core_results) : Z :=
  let c := crc16 (Bench.seed1 r) 0 in
  let c := crc16 (Bench.seed2 r) c in
  let c := crc16 (Bench.seed3 r) c in
  crc16 (s16 (Bench.size r)) c.

(** Lines 292 to 320: [known_id], the initial [total_errors] and the message. *)
Definition known_run (c : Z) : Z * Z * option (list Z) :=
  if c =? 0x8a02 then (0, 0, Some (line "6k performance run parameters for coremark."))
  else if c =? 0x7b05 then (1, 0, Some (line "6k validation run parameters for coremark."))
  else if c =? 0x4eaf then (2, 0, Some (line "Profile generation run parameters for coremark."))
  else if c =? 0xe9f5 then (3, 0, Some (line "2K performance run parameters for coremark."))
  else if c =? 0x18f2 then (4, 0, Some (line "2K validation run parameters for coremark."))
  else (-1, -1, None).

(** One of the three checks of lines 326 to 352. *)
Definition check_crc (id : Z) (known : list Z) (known_id : Z) (crc : Bench.core_results -> Z)
    (fmt : list Z) : ST machine unit :=
  m ← st_get;
  k ← lift (aget known known_id);
  if negb (Z.land (Bench.execs (res m)) id =? 0) && negb (crc (res m) =? k) then
    print fmt [VInt 0; VInt (crc (res m)); VInt k] ;;
    st_modify (fun m => set_res m (with_err (res m) (s16 (Bench.err (res m) + 1))))
  else mret tt.

(** Lines 321 to 355, for the one context: the new [total_errors]. *)
Definition check_known (known_id total_errors : Z) : ST machine Z :=
  if 0 <=? known_id then
    st_modify (fun m => set_res m (with_err (res m) 0)) ;;
    check_crc ID_LIST list_known_crc known_id Bench.crclist
      (line "[%u]ERROR! list crc 0x%04x - should be 0x%04x" ++ [0]) ;;
    check_crc ID_MATRIX matrix_known_crc known_id Bench.crcmatrix
      (line "[%u]ERROR! matrix crc 0x%04x - should be 0x%04x" ++ [0]) ;;
    check_crc ID_STATE state_known_crc known_id Bench.crcstate
      (line "[%u]ERROR! state crc 0x%04x - should be 0x%04x" ++ [0]) ;;
    m ← st_get;
    mret (s16 (total_errors + Bench.err (res m)))
  else mret total_errors.

(** ** The report *)

Fixpoint print_all (msgs : list (list Z)) : ST machine unit :=
  match msgs with
  | [] => mret tt
  | msg :: msgs => print (msg ++ [0]) [] ;; print_all msgs
  end.

(** Lines 356 to 383 and 387: the new [total_errors]. *)
Definition report_times (c : config) (sz : DataTypes.sizes) (total_time total_errors : Z) : ST machine Z :=
  let '(bad, msgs) := DataTypes.check_data_types sz in
  print_all msgs ;;
  let total_errors := s16 (total_errors + bad) in
  m ← st_get;
  let r := res m in
  let secs := time_in_secs total_time in
  print (line "CoreMark Size    : %lu" ++ [0]) [VLong (Bench.size r)] ;;
  print (line "Total ticks      : %lu" ++ [0]) [VLong total_time] ;;
  print (line "Total time (secs): %d" ++ [0]) [VInt secs] ;;
  (if 0 <? secs then
     print (line "Iterations/Sec   : %d" ++ [0])
       [VInt (u32 (default_num_contexts * Bench.iterations r) / secs)]
   else mret tt) ;;
  total_errors ← (if secs <? 10 then
      print (line "ERROR! Must execute for at least 10 secs for a valid result!" ++ [0]) [] ;;
      mret (s16 (total_errors + 1))
    else mret total_errors);
  print (line "Iterations       : %lu" ++ [0])
    [VLong (u64 (default_num_contexts * Bench.iterations r))] ;;
  print (line "Compiler version : %s" ++ [0]) [VStr (Some (COMPILER_VERSION c))] ;;
  print (line "Compiler flags   : %s" ++ [0]) [VStr (Some (COMPILER_FLAGS c))] ;;
  print (line "Memory location  : %s" ++ [0]) [VStr (Some (MEM_LOCATION c))] ;;
  mret total_errors.

(** Lines 388 to 400. *)
Definition report_crcs (seedcrc : Z) : ST machine unit :=
  m ← st_get;
  let r := res m in
  print (line "seedcrc          : 0x%04x" ++ [0]) [VInt seedcrc] ;;
  (if negb (Z.land (Bench.execs r) ID_LIST =? 0) then
     print (line "[%d]crclist       : 0x%04x" ++ [0]) [VInt 0; VInt (Bench.crclist r)] else mret tt) ;;
  (if negb (Z.land (Bench.execs r) ID_MATRIX =? 0) then
     print (line "[%d]crcmatrix     : 0x%04x" ++ [0]) [VInt 0; VInt (Bench.crcmatrix r)] else mret tt) ;;
  (if negb (Z.land (Bench.execs r) ID_STATE =? 0) then
     print (line "[%d]crcstate      : 0x%04x" ++ [0]) [VInt 0; VInt (Bench.crcstate r)] else mret tt) ;;
  print (line "[%d]crcfinal      : 0x%04x" ++ [0]) [VInt 0; VInt (Bench.crc r)].

Definition msg_valid : list Z :=
  line "Correct operation validated. See README.md for run and reporting rules.".
Definition msg_errors : list Z := line "Errors detected".
Definition msg_unknown : list Z :=
  line "Cannot validate operation for these seed values, please compare with results on a known platform.".

(** Lines 401 to 432. *)
Definition verdict (total_errors : Z) : ST machine unit :=
  (if total_errors =? 0 then print (msg_valid ++ [0]) [] else mret tt) ;;
  (if 0 <? total_errors then print (msg_errors ++ [0]) [] else mret tt) ;;
  (if total_errors <? 0 then print (msg_unknown ++ [0]) [] else mret tt).

(** ** [main]

    The value returned is the final [total_errors], which [main] keeps in a
    local variable. *)

(** [sizeof(struct list_head_s)]: two pointers. *)
Definition sizeof_list_head (sz : DataTypes.sizes) : Z := 2 * DataTypes.sizeof_int_ptr sz.

(** Lines 134 to 239: everything before the first timed run. *)
Definition setup (c : config) (v : Seeds.volatiles) : ST machine unit :=
  st_modify (fun m => set_res m (default_seeds (read_seeds v (res m)))) ;;
  m ← st_get;
  r ← lift (split_memory c (res m));
  st_modify (fun m => set_res m r) ;;
  call_inits c.

(** Lines 286 to 432: everything after the timed run. *)
Definition finish (c : config) (sz : DataTypes.sizes) (total_time : Z) : ST machine Z :=
  m ← st_get;
  let sc := seedcrc (res m) in
  let '(known_id, total_errors, msg) := known_run sc in
  match msg with Some msg => print (msg ++ [0]) [] | None => mret tt end ;;
  total_errors ← check_known known_id total_errors;
  total_errors ← report_times c sz total_time total_errors;
  report_crcs sc ;;
  verdict total_errors ;;
  mret total_errors.

Definition main (c : config) (sz : DataTypes.sizes) (v : Seeds.volatiles) : ST machine Z :=
  portable_init sz ;;
  if 128 <? sizeof_list_head sz then
    print (line "list_head structure too big for comparable data!" ++ [0]) [] ;; mret 0
  else
    setup c v ;;
    auto_iterations ;;
    timed_run ;;
    total_time ← get_time;
    total_errors ← finish c sz total_time;
    portable_fini ;;
    mret total_errors.

(** ** The configurations of the port *)

Definition performance_seeds (iterations : Z) : Seeds.volatiles := Seeds.Volatiles 0 0 0x66 iterations 0.
Definition validation_seeds (iterations : Z) : Seeds.volatiles := Seeds.Volatiles 0x3415 0x3415 0x66 iterations 0.
Definition profile_seeds (iterations : Z) : Seeds.volatiles := Seeds.Volatiles 0x8 0x8 0x8 iterations 0.

End Main.
