(* ===== verification/MainSpec.v ===== *)
(** * Validation of the benchmark's known checksums

    The checksums that [core_main.c] compares with are those of the first
    iteration; the model reproduces them for the run types the port can be
    built for, and no later iteration changes them, so a run of any number of
    iterations passes the validation of [main]. *)

From S2P Require Import Prelude CoreUtil CoreState CoreMatrix CoreList CoreBench.
From S2P Require Import ListChain MergePure ListSort ListIdx ListInit BenchSpec EePrintf CoreMain.

Module MainSpec.
Import LinkedList Chain ListIdx BenchSpec Main.

(** ** Decision procedures for the invariants of a concrete world *)

Fixpoint cells_from (fuel : nat) (h : heads) (p : ptr) : option (list cell) :=
  match fuel, p with
  | _, None => Some []
  | O, Some _ => None
  | S fuel, Some a =>
    c ← h !! a; xs ← cells_from fuel h (next c); Some ((a, info c) :: xs)
  end.

Lemma cells_from_chain (fuel : nat) (h : heads) (p : ptr) (xs : list cell) :
  cells_from fuel h p = Some xs -> chain h p xs None.
Proof.
  revert p xs. induction fuel as [|fuel IH]; intros [a|] xs; simpl; try done; try (by intros [= <-]).
  destruct (h !! a) as [[n i]|] eqn:E; [|done]. simpl.
  destruct (cells_from fuel h n) as [ys|] eqn:Ey; [|done]. intros [= <-]. split; [done|].
  exists n. split; [done|]. by apply IH.
Qed.

Fixpoint strictly_ascending (l : list Z) : bool :=
  match l with
  | [] => true
  | x :: l => forallb (Z.ltb x) l && strictly_ascending l
  end.

Lemma strictly_ascending_sorted {A : Type} (f : A -> Z) (l : list A) :
  strictly_ascending (f <$> l) = true -> StronglySorted (fun x y => f x < f y) l.
Proof.
  induction l as [|x l IH]; intros H; [constructor|]. simpl in H. apply andb_prop in H as [H1 H2].
  constructor; [by apply IH|]. apply Forall_forall. intros y Hy. rewrite forallb_forall in H1.
  apply Z.ltb_lt, H1. apply list_elem_of_In. by apply list_elem_of_fmap_2.
Qed.

Definition list_okb (h : heads) (d : datas) (l : ptr) : bool :=
  match cells_from 1000 h l with
  | Some xs => (3 <=? Z.of_nat (length xs)) && (Z.of_nat (length xs) <? 2 ^ 31)
      && forallb (fun x : cell => bool_decide (is_Some (d !! x.2)) && bool_decide (original (item d x))) xs
      && strictly_ascending ((fun x => idx (item d x)) <$> xs)
  | None => false
  end.

Lemma list_okb_sorted (h : heads) (d : datas) (l : ptr) :
  list_okb h d l = true -> exists xs, sorted_list h d l xs.
Proof.
  unfold list_okb. destruct (cells_from 1000 h l) as [xs|] eqn:E; [|done].
  intros [[[H1%Z.leb_le H2%Z.ltb_lt]%andb_prop H3]%andb_prop H4]%andb_prop. exists xs.
  rewrite forallb_forall in H3. split; [by eapply cells_from_chain|lia|..].
  - apply Forall_forall. intros x Hx%list_elem_of_In. by apply H3, andb_prop in Hx as [?%bool_decide_eq_true _].
  - apply Forall_forall. intros x Hx%list_elem_of_In. by apply H3, andb_prop in Hx as [_ ?%bool_decide_eq_true].
  - by apply (strictly_ascending_sorted (fun x => idx (item d x))).
Qed.

Definition all_s16 (l : list Z) : bool := forallb (fun x => (- 2 ^ 15 <=? x) && (x <? 2 ^ 15)) l.

Lemma all_s16_spec (l : list Z) : all_s16 l = true -> Forall (in_s 16) l.
Proof.
  unfold all_s16. rewrite forallb_forall. intros H. apply Forall_forall. intros x Hx%list_elem_of_In.
  apply H, andb_prop in Hx as [?%Z.leb_le ?%Z.ltb_lt]. unfold in_s. simpl. lia.
Qed.

Definition readyb (r : Bench.core_results) : bool :=
  let p := Bench.mat r in
  (0 <=? Bench.crc r) && (Bench.crc r <? 2 ^ 16)
  && (Z.of_nat (length (Bench.memblock3 r)) =? Bench.size r)
  && bool_decide (Bench.memblock3 r !! Z.to_nat (Bench.size r - 1) = Some 0)
  && negb ((Bench.size r - 1) mod 17 =? 0)
  && (0 <=? Matrix.N p) && (Matrix.N p <? 2 ^ 16)
  && (Z.of_nat (length (Matrix.A p)) =? Matrix.N p * Matrix.N p)
  && (Z.of_nat (length (Matrix.B p)) =? Matrix.N p * Matrix.N p)
  && (Z.of_nat (length (Matrix.C p)) =? Matrix.N p * Matrix.N p)
  && all_s16 (Matrix.A p) && all_s16 (Matrix.B p).

Lemma readyb_ready (r : Bench.core_results) : readyb r = true -> ready r.
Proof.
  unfold readyb. rewrite !andb_true_iff, !Z.leb_le, !Z.ltb_lt, !Z.eqb_eq, bool_decide_eq_true, negb_true_iff, Z.eqb_neq.
  intros H. destruct_and! H. split; try done.
  unfold Matrix.wf. split_and!; try done; by apply all_s16_spec.
Qed.

(** ** The run types of the port *)

Record run_type := RunType {
  run_total : Z;                            (* [TOTAL_DATA_SIZE] *)
  run_seeds : Z -> Seeds.volatiles;
  run_dim : nat;                            (* the dimension of its matrices *)
  run_id : Z                                (* its row in the tables of checksums *)
}.

Definition performance_2k : run_type := RunType 2000 performance_seeds 9 3.
Definition validation_2k : run_type := RunType 2000 validation_seeds 9 4.
Definition profile_run : run_type := RunType 1200 profile_seeds 7 2.

(** The build: the stack block and the words of the result matrix start zeroed. *)
Definition run_config (t : run_type) (base : Z) (ver flags loc : list Z) : config :=
  Config (run_total t) base (replicate (Z.to_nat (run_total t)) 0) (replicate (run_dim t * run_dim t) 0) ver flags loc.

(** The machine at the start of [main]: the results on the stack start zeroed,
    no cell of the list is built. *)
Definition zero_results : Bench.core_results :=
  Bench.Results 0 0 0 [] 0 0 0 None (Matrix.MatParams 0 0 0 0 [] [] []) 0 0 0 0 0.
Definition start (dv : list Z * list Z) (ck : list Z) (a b p : Z) : machine :=
  Machine dv ck a b p (∅, (∅, zero_results)).

Definition base_addr : Z := 0x80000000.

(** The world after [setup] for one iteration. *)
Definition setup_world (t : run_type) : outcome Bench.world :=
  ' (_, m) ← setup (run_config t base_addr [] [] []) (run_seeds t 1) (start ([], []) [] 0 0 0);
  mret (world m).

(** What has to be computed for a run type, for any number [k] of iterations:
    the invariants after [setup] and the checksums after one iteration. *)
Definition run_checks (t : run_type) (k : Z) : bool :=
  match setup_world t with
  | Ok (h, (d, r)) =>
    let r := with_iterations r k in
    list_okb h d (Bench.list r) && readyb (Bench.clear_crcs r) && (Bench.execs r =? 7)
    && bool_decide ((known_run (seedcrc r)).1 = (run_id t, 0)) && (0 <=? run_id t)
    && match Bench.iterate_loop 1 0 (h, (d, Bench.clear_crcs r)) with
       | Ok (_, (_, (_, r'))) =>
         bool_decide (list_known_crc !! Z.to_nat (run_id t) = Some (Bench.crclist r'))
         && bool_decide (matrix_known_crc !! Z.to_nat (run_id t) = Some (Bench.crcmatrix r'))
         && bool_decide (state_known_crc !! Z.to_nat (run_id t) = Some (Bench.crcstate r'))
         && negb (Bench.crcmatrix r' =? 0) && negb (Bench.crcstate r' =? 0)
       | _ => false
       end
  | _ => false
  end.

Lemma performance_2k_checks (k : Z) : run_checks performance_2k k = true.
Proof. vm_compute. reflexivity. Qed.
Lemma validation_2k_checks (k : Z) : run_checks validation_2k k = true.
Proof. vm_compute. reflexivity. Qed.
Lemma profile_checks (k : Z) : run_checks profile_run k = true.
Proof. vm_compute. reflexivity. Qed.

(** ** [setup] only stores the number of iterations *)

(** The same world on another machine, with another number of iterations. *)
Definition reskin (n : machine) (k : Z) (m : machine) : machine :=
  set_world n ((world m).1, ((world m).2.1, with_iterations (res m) k)).

(** A step that neither looks at them nor at the machine around the world. *)
Definition oblivious {A : Type} (f : ST machine A) : Prop :=
  forall n k m, f (reskin n k m)
    = match f m with Ok (a, m') => Ok (a, reskin n k m') | UB => UB | Fuel => Fuel end.

Lemma oblivious_bind {A B : Type} (f : ST machine A) (g : A -> ST machine B) :
  oblivious f -> (forall a, oblivious (g a)) -> oblivious (f ≫= g).
Proof.
  intros Hf Hg n k m. unfold mbind, ST_bind. rewrite Hf. destruct (f m) as [[a m']| |]; [apply Hg|done..].
Qed.

Lemma init_list_oblivious : oblivious init_list.
Proof.
  intros n k [dv ck a b p [h [d r]]]. unfold init_list, mbind, ST_bind, st_get. cbn.
  destruct (negb _); [|done]. unfold on_list. cbn.
  by destruct (core_list_init _ _ _) as [[l [h' [d' []]]]| |].
Qed.

Lemma init_matrix_oblivious c : oblivious (init_matrix c).
Proof.
  intros n k [dv ck a b p [h [d r]]]. unfold init_matrix, mbind, ST_bind, st_get, lift. cbn -[Matrix.core_init_matrix].
  destruct (negb _); [|done]. destruct (of_option _) as [off| |]; [|done..].
  match goal with |- context [Matrix.core_init_matrix ?f ?sz ?m ?s ?w] =>
    by destruct (Matrix.core_init_matrix f sz m s w) as [[? ?]| |] end.
Qed.

Lemma init_state_oblivious c : oblivious (init_state c).
Proof.
  intros n k [dv ck a b p [h [d r]]]. unfold init_state, mbind, ST_bind, st_get, lift. cbn -[State.core_init_state].
  destruct (negb _); [|done]. destruct (of_option _) as [off| |]; [|done..].
  by destruct (State.core_init_state _ _ _) as [bs| |].
Qed.

Lemma inits_oblivious c : oblivious (call_inits c).
Proof.
  apply oblivious_bind; [apply init_list_oblivious|]. intros _.
  apply oblivious_bind; [apply init_matrix_oblivious|]. intros _. apply init_state_oblivious.
Qed.

(** The seeds of a run type are read as they are. *)
Definition plain_seeds (t : run_type) : Prop := forall n r,
  default_seeds (read_seeds (run_seeds t n) r)
  = with_iterations (default_seeds (read_seeds (run_seeds t 1) r)) (u32 n).

Lemma setup_any (t : run_type) ver flags loc dv ck a b p n :
  plain_seeds t ->
  setup (run_config t base_addr ver flags loc) (run_seeds t n) (start dv ck a b p) =
  match setup_world t with
  | Ok (h, (d, r)) => Ok (tt, Machine dv ck a b p (h, (d, with_iterations r (u32 n))))
  | UB => UB
  | Fuel => Fuel
  end.
Proof.
  intros Hs. set (c := run_config t base_addr ver flags loc).
  unfold setup_world, setup, mbind, ST_bind, outcome_bind, st_modify, st_get, lift.
  rewrite Hs. set (r1 := default_seeds (read_seeds (run_seeds t 1) zero_results)).
  change (split_memory c _) with (if num_algorithms (Bench.execs r1) =? 0 then UB
    else Ok (with_iterations (with_size r1 (run_total t / num_algorithms (Bench.execs r1))) (u32 n))).
  change (split_memory (run_config t base_addr [] [] []) _) with (if num_algorithms (Bench.execs r1) =? 0 then UB
    else Ok (with_size r1 (run_total t / num_algorithms (Bench.execs r1)))).
  destruct (num_algorithms (Bench.execs r1) =? 0); [done|].
  set (r2 := with_size r1 _).
  change (call_inits (run_config t base_addr [] [] [])) with (call_inits c).
  set (m0 := Machine ([], []) [] 0 0 0 (∅, (∅, r2))).
  change (set_res _ (with_iterations r2 (u32 n))) with (reskin (start dv ck a b p) (u32 n) m0).
  change (set_res _ r2) with m0.
  rewrite inits_oblivious. by destruct (call_inits c m0) as [[[] [? ? ? ? ? [? [? ?]]]]| |].
Qed.

Lemma plain_seeds_ok : plain_seeds performance_2k /\ plain_seeds validation_2k /\ plain_seeds profile_run.
Proof. split_and!; intros n r; reflexivity. Qed.

(** ** The timed run *)

Lemma iterate_loop_S (n : nat) (i : Z) (w : Bench.world) :
  Bench.iterate_loop (S n) i w
  = match Bench.iterate_loop 1 i w with
    | Ok (_, w') => Bench.iterate_loop n (i + 1) w' | UB => UB | Fuel => Fuel
    end.
Proof.
  simpl. unfold mbind, ST_bind. repeat (case_match; simplify_eq; try done).
Qed.

Lemma params_seeds r r' : params r' = params r -> Bench.execs r' = Bench.execs r /\ seedcrc r' = seedcrc r.
Proof. intros [=]. split; [done|]. unfold seedcrc. congruence. Qed.

(** The checksums of a run are those of its first iteration. *)
Lemma iterate_checks (t : run_type) (n : Z) h d r :
  setup_world t = Ok (h, (d, r)) -> run_checks t n = true -> 1 <= n ->
  exists r', Bench.iterate (h, (d, with_iterations r n)) = Ok (tt, (h, (d, r')))
    /\ params r' = params (with_iterations r n) /\ Bench.execs r' = 7
    /\ (known_run (seedcrc r')).1 = (run_id t, 0) /\ 0 <= run_id t
    /\ list_known_crc !! Z.to_nat (run_id t) = Some (Bench.crclist r')
    /\ matrix_known_crc !! Z.to_nat (run_id t) = Some (Bench.crcmatrix r')
    /\ state_known_crc !! Z.to_nat (run_id t) = Some (Bench.crcstate r').
Proof.
  intros Hw Hck Hn. unfold run_checks in Hck. rewrite Hw in Hck. set (rn := with_iterations r n) in *.
  apply andb_prop in Hck as [[[[[[xs Hsl]%list_okb_sorted Hr%readyb_ready]%andb_prop Hex%Z.eqb_eq]%andb_prop
    Hkn%bool_decide_eq_true]%andb_prop Hid%Z.leb_le]%andb_prop Hit].
  set (r0 := Bench.clear_crcs rn) in *.
  pose proof (iterate_loop_spec 1 0 h d r0 xs ltac:(lia) Hsl Hr) as ([] & ? & E1 & r1 & -> & Hr1 & Hl1 & _)%wp_ok.
  rewrite E1 in Hit. apply andb_prop in Hit as [[[[H1%bool_decide_eq_true H2%bool_decide_eq_true]%andb_prop
    H3%bool_decide_eq_true]%andb_prop H4]%andb_prop H5].
  apply negb_true_iff, Z.eqb_neq in H4, H5.
  pose proof (iterate_loop_spec (Z.to_nat n - 1) 1 h d r1 xs ltac:(lia) (sorted_list_latched _ _ _ _ _ Hl1 Hsl) Hr1)
    as ([] & ? & E2 & r2 & -> & Hr2 & [Hp2 Hm2 Hs2] & Hc2)%wp_ok.
  exists r2. split.
  - change (Bench.iterate (h, (d, rn))) with (Bench.iterate_loop (Z.to_nat n) 0 (h, (d, r0))).
    replace (Z.to_nat n) with (S (Z.to_nat n - 1)) by lia. by rewrite iterate_loop_S, E1.
  - assert (params r2 = params rn) as Hp by (rewrite Hp2; apply Hl1). split; [done|].
    rewrite Hm2, Hs2, Hc2 by (done || lia). destruct (params_seeds _ _ Hp) as [-> ->]. done.
Qed.

(** The run types of the port. *)
Definition known_type (t : run_type) : Prop := t ∈ [performance_2k; validation_2k; profile_run].

Lemma known_type_checks (t : run_type) (k : Z) : known_type t -> run_checks t k = true /\ plain_seeds t.
Proof.
  unfold known_type. rewrite !elem_of_cons. destruct plain_seeds_ok as (? & ? & ?).
  intros [-> | [-> | [-> | []%elem_of_nil]]].
  - split; [apply performance_2k_checks|done].
  - split; [apply validation_2k_checks|done].
  - split; [apply profile_checks|done].
Qed.

Lemma check_crc_ok (id : Z) (known : list Z) (known_id : Z) crc fmt (m : machine) :
  0 <= known_id -> known !! Z.to_nat known_id = Some (crc (res m)) ->
  check_crc id known known_id crc fmt m = Ok (tt, m).
Proof.
  intros Hid Hk. unfold check_crc, mbind, ST_bind, st_get, lift. rewrite (aget_Some _ _ _ Hid Hk).
  by rewrite Z.eqb_refl, andb_false_r.
Qed.

(** [C25] Known checksums: for the 2K performance, the 2K validation and the
    profile run, for every number of iterations and whatever the clock reads,
    [setup] and the timed run return, the seeds are recognised as those of the
    run type, and the comparison of all three checksums with the tables of
    [core_main.c] finds no error and prints nothing. *)
Theorem known_runs_validate (t : run_type) (ver flags loc : list Z) (dv : list Z * list Z) (t0 t1 : Z)
    (ck : list Z) (a b p n : Z) :
  known_type t -> 1 <= n < 2 ^ 31 ->
  exists m, (setup (run_config t base_addr ver flags loc) (run_seeds t n) ;; timed_run)
        (start dv (t0 :: t1 :: ck) a b p) = Ok (tt, m)
    /\ (known_run (seedcrc (res m))).1 = (run_id t, 0)
    /\ check_known (run_id t) 0 m = Ok (0, set_res m (with_err (res m) 0))
    /\ dev m = dv /\ get_time m = Ok (u32 (u32 t1 - u32 t0), m).
Proof.
  intros Ht Hn. destruct (known_type_checks t n Ht) as [Hck Hpl].
  destruct (setup_world t) as [[h [d r]]| |] eqn:Hw; [|by unfold run_checks in Hck; rewrite Hw in Hck..].
  destruct (iterate_checks t n h d r Hw Hck ltac:(lia)) as (r' & Hit & Hp & Hex & Hkn & Hid & H1 & H2 & H3).
  exists (Machine dv ck (u32 t0) (u32 t1) p (h, (d, r'))). split; [|split; [done|split; [|done]]].
  - unfold mbind at 1. unfold ST_bind at 1. rewrite (setup_any t ver flags loc dv (t0 :: t1 :: ck) a b p n Hpl), Hw.
    rewrite uwrap_small by (unfold in_u; lia).
    unfold timed_run, start_time, stop_time, on_world, barebones_clock, mbind, ST_bind, outcome_bind, st_modify.
    cbn [clock dev world start_time_val stop_time_val portable_id]. by rewrite Hit.
  - unfold check_known. rewrite (proj2 (Z.leb_le _ _)) by done. unfold mbind, ST_bind at 1. cbn [st_modify].
    set (m := set_res _ _). unfold ST_bind.
    rewrite (check_crc_ok _ _ _ Bench.crclist _ m), (check_crc_ok _ _ _ Bench.crcmatrix _ m),
      (check_crc_ok _ _ _ Bench.crcstate _ m); done.
Qed.

Lemma known_runs_validate_witness :
  exists m, (setup (run_config performance_2k base_addr [0] [0] [0]) (run_seeds performance_2k 3000) ;; timed_run)
        (start ([], []) [5; 250000005] 0 0 0) = Ok (tt, m)
    /\ (known_run (seedcrc (res m))).1 = (3, 0)
    /\ check_known 3 0 m = Ok (0, set_res m (with_err (res m) 0))
    /\ dev m = ([], []) /\ get_time m = Ok (250000000, m).
Proof.
  apply (known_runs_validate performance_2k [0] [0] [0] ([], []) 5 250000005 [] 0 0 0 3000); [|lia].
  apply elem_of_cons. left. reflexivity.
Defined.

(** ** The list is not always restored *)

Fixpoint infos_from (fuel : nat) (h : heads) (p : ptr) : list nat :=
  match fuel, p with
  | S fuel, Some a => match h !! a with Some c => info c :: infos_from fuel h (next c) | None => [] end
  | _, _ => []
  end.

(** The order of the items after [setup] of a 2K run with the given seeds, and
    after one run of the list benchmark. *)
Definition order_after (seed1 seed2 seed3 : Z) : option (list nat * list nat) :=
  match setup (run_config performance_2k base_addr [] [] []) (Seeds.Volatiles seed1 seed2 seed3 1 0)
          (start ([], []) [] 0 0 0) with
  | Ok (_, m) =>
    let '(h, (_, r)) := world m in
    match Bench.core_bench_list 1 (world m) with
    | Ok (_, (h', _)) => Some (infos_from 1000 h (Bench.list r), infos_from 1000 h' (Bench.list r))
    | _ => None
    end
  | _ => None
  end.

(** The list is not back in its original state for every seed: in a 2K run
    with seeds 4, 4 and 0x66 two items get the same index, and after one run of
    [core_bench_list] the list from [res->list] has them in the other order. *)
Theorem bench_list_reorders :
  exists before after, order_after 4 4 0x66 = Some (before, after) /\ before <> after.
Proof.
  assert (match order_after 4 4 0x66 with Some (x, y) => negb (bool_decide (x = y)) | None => false end = true) as H
    by (vm_compute; reflexivity).
  destruct (order_after 4 4 0x66) as [[x y]|]; [|discriminate H]. exists x, y. split; [done|].
  by apply negb_true_iff, bool_decide_eq_false in H.
Qed.
End MainSpec.
