(* ===== verification/Sbi.v ===== *)
(** * The supervisor binary interface

    The guests reach the firmware through [ecall]: arguments in [a0..a5], the
    function in [a6], the extension in [a7], an error and a value back in
    [a0] and [a1].  What answers the call is the firmware below the guest, so
    it is a parameter: the class [Firmware] is the instruction, the class
    [DebugConsole] the documented behaviour of the write-byte function that
    the guests rely on.  Module [Guests] holds the wrappers of
    guests/attestation.c, guests/hellotvm.c, guests/covg.c and
    guests/coremark/riscv/sbi.c and the two small guests as wholes; Module
    [Reference] is a concrete firmware for the witnesses. *)

From S2P Require Import Prelude.

(** ** The call and the firmware that answers it *)

(** The eight argument registers at the [ecall]. *)
Record sbi_args := SbiArgs { a0 : Z; a1 : Z; a2 : Z; a3 : Z; a4 : Z; a5 : Z; a6 : Z; a7 : Z }.

Record sbiret := Sbiret { error : Z; value : Z }.

(** [W] is the state of the firmware, [M] the memory of the guest, which a
    call may change (the asm has a memory clobber); the result is what the
    call leaves in [a0] and [a1]. *)
Class Firmware (W M : Type) := {
  ecall : sbi_args -> W * M -> (Z * Z) * (W * M);
  console : W -> list Z;
}.

Definition SBI_EXT_DBCN : Z := 0x4442434E.
Definition SBI_EXT_DBCN_CONSOLE_WRITE : Z := 0.
Definition SBI_EXT_DBCN_CONSOLE_WRITE_BYTE : Z := 2.
Definition SBI_EXT_BASE : Z := 0x10.
Definition SBI_EXT_COVG : Z := 0x434F5647.
Definition SBI_EXT_COVG_GET_EVIDENCE_FID : Z := 8.

(** The debug console extension: writing a byte appends it to the console
    and leaves the memory of the guest alone. *)
Class DebugConsole (W M : Type) `{Firmware W M} : Prop :=
  write_byte (c : Z) (w : W) (m : M) : in_u 8 c ->
    exists r w', ecall (SbiArgs c 0 0 0 0 0 SBI_EXT_DBCN_CONSOLE_WRITE_BYTE SBI_EXT_DBCN) (w, m) = (r, (w', m)) /\
      console w' = console w ++ [c].

Module Guests.
Section Wrappers.
Context {W M : Type} `{!Firmware W M}.

Abbreviation guest := (ST (W * M)).

(** The wrapper of attestation.c; the registers are read back as [long]. *)
Definition sbi_call (eid fid arg0 arg1 arg2 arg3 arg4 arg5 : Z) : guest sbiret := fun s =>
  let '((r0, r1), s') := ecall (SbiArgs arg0 arg1 arg2 arg3 arg4 arg5 fid eid) s in
  Ok (Sbiret (s64 r0) (s64 r1), s').

(** The wrapper of coremark/riscv/sbi.h takes [int] identifiers, which are
    sign-extended into the registers. *)
Definition sbi_ecall (arg0 arg1 arg2 arg3 arg4 arg5 ext fid : Z) : guest sbiret := fun s =>
  let '((r0, r1), s') := ecall (SbiArgs arg0 arg1 arg2 arg3 arg4 arg5 (u64 (s32 fid)) (u64 (s32 ext))) s in
  Ok (Sbiret (s64 r0) (s64 r1), s').

Definition sbi_base_ecall (fid : Z) : guest Z :=
  ret ← sbi_ecall 0 0 0 0 0 0 SBI_EXT_BASE fid;
  if error ret =? 0 then mret (value ret) else mret (error ret).

Definition sbi_get_spec_version : guest Z := sbi_base_ecall 0.
Definition sbi_get_firmware_id : guest Z := sbi_base_ecall 1.
Definition sbi_get_firmware_version : guest Z := sbi_base_ecall 2.
Definition sbi_get_mvendorid : guest Z := sbi_base_ecall 4.
Definition sbi_get_marchid : guest Z := sbi_base_ecall 5.
Definition sbi_get_mimpid : guest Z := sbi_base_ecall 6.

(** The results are [int]: the error is truncated. *)
Definition sbi_console_write_byte (ch : Z) : guest Z :=
  ret ← sbi_ecall ch 0 0 0 0 0 SBI_EXT_DBCN SBI_EXT_DBCN_CONSOLE_WRITE_BYTE;
  mret (s32 (error ret)).

Definition sbi_console_write (str num_bytes : Z) : guest Z :=
  ret ← sbi_ecall num_bytes str 0 0 0 0 SBI_EXT_DBCN SBI_EXT_DBCN_CONSOLE_WRITE;
  mret (s32 (error ret)).

(** The supervisor-mode branch of coremark's [uart_send_char]. *)
Definition uart_send_char_smode (c : Z) : guest unit :=
  _ ← sbi_console_write_byte c; mret tt.

(** ** guests/hellotvm.c *)

Definition hello_ecall (arg0 arg1 arg2 arg3 arg4 arg5 fid eid : Z) : guest sbiret := fun s =>
  let '((r0, r1), s') := ecall (SbiArgs arg0 arg1 arg2 arg3 arg4 arg5 fid eid) s in
  Ok (Sbiret (s64 r0) (s64 r1), s').

Definition putc (c : Z) : guest unit :=
  _ ← hello_ecall c 0 0 0 0 0 SBI_EXT_DBCN_CONSOLE_WRITE_BYTE SBI_EXT_DBCN; mret tt.

(** [while ( *msg) putc( *msg++)]: the pointer is the suffix it points at. *)
Fixpoint putc_loop (msg : list Z) : guest unit :=
  match msg with
  | [] => st_ub
  | c :: msg' => if c =? 0 then mret tt else putc c;; putc_loop msg'
  end.

Definition hello_main : guest Z :=
  putc_loop (bytes_of "Hello from TVM (VS-mode)" ++ [10; 0]);; mret 0.

(** ** guests/covg.c *)

Definition sbi_covg_get_evidence (pub_key_addr pub_key_size challenge_data_addr cert_format cert_addr_out cert_size : Z)
    : guest sbiret := fun s =>
  let '((r0, r1), s') :=
    ecall (SbiArgs pub_key_addr pub_key_size challenge_data_addr cert_format cert_addr_out cert_size
                   SBI_EXT_COVG_GET_EVIDENCE_FID SBI_EXT_COVG) s in
  Ok (Sbiret (s64 r0) (s64 r1), s').

(** The sizes of the three arrays of the file. *)
Definition PUBLIC_KEY : list Z :=
  [0x30; 0x2a; 0x30; 0x05; 0x06; 0x03; 0x2b; 0x65; 0x70; 0x03; 0x21; 0x00; 0x95; 0xa2; 0x23; 0xef;
   0x23; 0x51; 0x89; 0xc0; 0x27; 0x60; 0x86; 0x2b; 0xb5; 0xfb; 0x62; 0x73; 0x2e; 0x33; 0xba; 0x15;
   0x44; 0x27; 0xf7; 0x6e; 0x35; 0xe4; 0xcd; 0xd3; 0x5a; 0x68; 0x86; 0x27].
Definition NONCE : list Z := replicate 64 0.
Definition CERTIFICATE_OUTPUT : list Z := replicate 256 0.

(** [main] up to its final spin; the addresses of the arrays are the linker's. *)
Definition covg_main (pub_key nonce certificate_output : Z) : guest unit :=
  _ ← sbi_covg_get_evidence pub_key (Z.of_nat (length PUBLIC_KEY)) nonce 0
        certificate_output (Z.of_nat (length CERTIFICATE_OUTPUT));
  mret tt.
End Wrappers.

(** ** What the console guests print *)

Section Console.
Context {W M : Type} `{DebugConsole W M}.

(** [s'] is [s] with [out] appended to the console, the memory unchanged. *)
Definition printed (out : list Z) (s s' : W * M) : Prop :=
  s'.2 = s.2 /\ console s'.1 = console s.1 ++ out.

Lemma printed_refl (s : W * M) : printed [] s s.
Proof. split; [done|]. by rewrite app_nil_r. Qed.

Lemma printed_trans (o o' : list Z) (s s' s'' : W * M) :
  printed o s s' -> printed o' s' s'' -> printed (o ++ o') s s''.
Proof. intros [E C] [E' C']. split; [congruence|]. by rewrite C', C, (assoc_L (++)). Qed.

(** Code that returns having printed [out], the memory unchanged. *)
Definition prints (m : ST (W * M) unit) (out : list Z) : Prop :=
  forall s, wp m (fun _ s' => printed out s s') s.

Lemma prints_nil : prints (mret tt) [].
Proof. intros s. apply wp_ret, printed_refl. Qed.

(** Printing composes: [prints_wp] runs a printing prefix inside a [wp] goal. *)
Lemma prints_wp {A} (m : ST (W * M) unit) (k : ST (W * M) A) (out : list Z) (Q : A -> W * M -> Prop) s :
  prints m out -> (forall s', printed out s s' -> wp k Q s') -> wp (m;; k) Q s.
Proof. intros Hm Hk. apply wp_bind. eapply wp_mono; [apply Hm|]. intros [] s' Hs. by apply Hk. Qed.

Lemma prints_bind (m k : ST (W * M) unit) (o o' : list Z) :
  prints m o -> prints k o' -> prints (m;; k) (o ++ o').
Proof.
  intros Hm Hk s. eapply prints_wp; [done|]. intros s' Hs. eapply wp_mono; [apply Hk|].
  intros ? s'' Hs'. by eapply printed_trans.
Qed.

Lemma prints_eq (m : ST (W * M) unit) (o o' : list Z) : prints m o -> o = o' -> prints m o'.
Proof. by intros ? <-. Qed.

(** Every wrapper that issues a write-byte call prints its byte. *)
Lemma write_byte_prints (c : Z) (f : (Z * Z) -> sbiret) : in_u 8 c ->
  prints (_ ← (fun s => let '(r, s') := ecall (SbiArgs c 0 0 0 0 0 SBI_EXT_DBCN_CONSOLE_WRITE_BYTE SBI_EXT_DBCN) s in
                        Ok (f r, s')); mret tt) [c].
Proof.
  intros Hc [w m]. destruct (write_byte c w m Hc) as (r & w' & E & HC).
  unfold wp, mbind, ST_bind. rewrite E. simpl. split; simpl; done.
Qed.

Lemma putc_prints (c : Z) : in_u 8 c -> prints (putc c) [c].
Proof.
  intros Hc [w m]. pose proof (write_byte_prints c (fun r => Sbiret (s64 r.1) (s64 r.2)) Hc (w, m)) as P.
  revert P. unfold wp, putc, hello_ecall, mbind, ST_bind. by destruct (ecall _ _) as [[? ?] ?].
Qed.

Lemma putc_loop_prints (bs rest : list Z) :
  Forall (fun c => 1 <= c < 256) bs -> prints (putc_loop (bs ++ 0 :: rest)) bs.
Proof.
  induction 1 as [|c bs Hc Hbs IH]; [apply prints_nil|].
  simpl. destruct (Z.eqb_spec c 0); [lia|].
  eapply prints_eq; [apply prints_bind; [apply putc_prints; unfold in_u; lia|exact IH]|done].
Qed.

(** The supervisor-mode console of CoreMark sends its byte too. *)
Lemma uart_smode_prints (c : Z) : in_u 8 c -> prints (uart_send_char_smode c) [c].
Proof.
  intros Hc [w m]. destruct (write_byte c w m Hc) as ([r0 r1] & w' & E & HC).
  unfold wp, uart_send_char_smode, sbi_console_write_byte, sbi_ecall, mbind, ST_bind.
  change (u64 (s32 SBI_EXT_DBCN)) with SBI_EXT_DBCN.
  change (u64 (s32 SBI_EXT_DBCN_CONSOLE_WRITE_BYTE)) with SBI_EXT_DBCN_CONSOLE_WRITE_BYTE.
  rewrite E. simpl. split; simpl; done.
Qed.

Lemma hello_main_spec (s : W * M) :
  wp hello_main (fun r s' => r = 0 /\ printed (line "Hello from TVM (VS-mode)") s s') s.
Proof.
  unfold hello_main. change (bytes_of _ ++ [10; 0]) with (line "Hello from TVM (VS-mode)" ++ [0]).
  eapply prints_wp; [apply putc_loop_prints|].
  - apply (bool_decide_unpack _). by vm_compute.
  - intros s' Hs. by apply wp_ret.
Qed.
End Console.
End Guests.

(** ** A concrete firmware

    Its console is a list; a request for evidence prints the line of the
    service (tsm/src/sbi.rs), copies a fixed certificate into the guest and
    answers its length, any other call fails. *)
Module Reference.
Section Fw.
Context {M : Type} (store : list Z -> M -> M) (cert : list Z).

Definition service_log : list Z := line "[OLORIN] Requested attestation certificate".

Definition firmware : Firmware (list Z) M := {|
  ecall r s :=
    if (a7 r =? SBI_EXT_DBCN) && (a6 r =? SBI_EXT_DBCN_CONSOLE_WRITE_BYTE) then ((0, 0), (s.1 ++ [a0 r], s.2))
    else if (a7 r =? SBI_EXT_COVG) && (a6 r =? SBI_EXT_COVG_GET_EVIDENCE_FID) then
      ((0, Z.of_nat (length cert)), (s.1 ++ service_log, store cert s.2))
    else ((2 ^ 64 - 2, 0), s);
  console w := w;
|}.

Lemma debug_console : @DebugConsole (list Z) M firmware.
Proof. intros c w m _. by do 2 eexists. Qed.
End Fw.
End Reference.
