(* ===== verification/Cbor.v ===== *)
(** * The CBOR reader of the attestation guest (guests/attestation.c)

    [cbor_read_head] and [cbor_skip] over a byte array [buf] at address
    [base].  A pointer is its 64-bit address: pointer arithmetic wraps as the
    machine's does and a load outside the array is undefined.  The
    specification is the grammar of RFC 8949 restricted to what the reader
    knows: [head_of] for the initial bytes, [item] for data items.

    [cbor_skip] is recursive; the fuel bounds the depth of the recursion
    together with the length of the loops it is in.  [2 * (end - cursor) + 1]
    is enough whenever no length in the array can wrap a pointer
    ([skip_spec]), and no amount is enough for the array of [skip_diverges]. *)

From S2P Require Import Prelude.

Module Cbor.

(** Major types and simple values. *)
Definition CBOR_MT_UINT : Z := 0.
Definition CBOR_MT_NINT : Z := 1.
Definition CBOR_MT_BSTR : Z := 2.
Definition CBOR_MT_TSTR : Z := 3.
Definition CBOR_MT_ARRAY : Z := 4.
Definition CBOR_MT_MAP : Z := 5.
Definition CBOR_MT_TAG : Z := 6.
Definition CBOR_MT_SIMPLE : Z := 7.
Definition CBOR_SV_NULL : Z := 22.
Definition CBOR_TAG_COSE_SIGN1 : Z := 18.

Section Reader.
Context (base : Z) (buf : list Z).

(** [*p] for a pointer to bytes. *)
Definition ld (p : Z) : outcome Z := aget buf (p - base).

(** [for (i = 0; i < n; i++) *val = ( *val << 8) | ( *cursor)[i]] from [*val = 0]. *)
Definition read_be (cursor n : Z) : outcome Z :=
  oloop 0 n (fun i val => b ← ld (u64 (cursor + i)); Ok (Z.lor (u64 (Z.shiftl val 8)) b)) 0.

(** The result is the return value, the cursor, [*major_type] and [*val]; an
    error can leave the cursor and the major type changed and [*val] not. *)
Definition cbor_read_head (cursor end_ major_type val : Z) : outcome (Z * Z * Z * Z) :=
  if end_ <=? cursor then Ok (-1, cursor, major_type, val) else
  byte ← ld cursor;
  let cursor := u64 (cursor + 1) in
  let major_type := Z.land (Z.shiftr byte 5) 0x07 in
  let info := Z.land byte 0x1F in
  if info <? 24 then Ok (0, cursor, major_type, info)
  else if info =? 24 then
    if end_ <? u64 (cursor + 1) then Ok (-1, cursor, major_type, val) else
    b ← ld cursor; Ok (0, u64 (cursor + 1), major_type, b)
  else if info =? 25 then
    if end_ <? u64 (cursor + 2) then Ok (-1, cursor, major_type, val) else
    b0 ← ld cursor; b1 ← ld (u64 (cursor + 1));
    Ok (0, u64 (cursor + 2), major_type, Z.lor (Z.shiftl b0 8) b1)
  else if info =? 26 then
    if end_ <? u64 (cursor + 4) then Ok (-1, cursor, major_type, val) else
    v ← read_be cursor 4; Ok (0, u64 (cursor + 4), major_type, v)
  else if info =? 27 then
    if end_ <? u64 (cursor + 8) then Ok (-1, cursor, major_type, val) else
    v ← read_be cursor 8; Ok (0, u64 (cursor + 8), major_type, v)
  else Ok (-1, cursor, major_type, val).

(** The result is the return value and the cursor.  [skip_items] is the loop
    [for (i = 0; i < n; i++) if (cbor_skip(cursor, end) != 0) return -1]. *)
Fixpoint cbor_skip (fuel : nat) (cursor end_ : Z) {struct fuel} : outcome (Z * Z) :=
  match fuel with
  | O => Fuel
  | S fuel =>
      '(r, cursor, mt, val) ← cbor_read_head cursor end_ 0 0;
      if negb (r =? 0) then Ok (-1, cursor)
      else if (mt =? CBOR_MT_UINT) || (mt =? CBOR_MT_NINT) then Ok (0, cursor)
      else if (mt =? CBOR_MT_BSTR) || (mt =? CBOR_MT_TSTR) then
        if end_ <? u64 (cursor + val) then Ok (-1, cursor) else Ok (0, u64 (cursor + val))
      else if mt =? CBOR_MT_ARRAY then skip_items fuel 0 val cursor end_
      else if mt =? CBOR_MT_MAP then skip_items fuel 0 (u64 (val * 2)) cursor end_
      else if mt =? CBOR_MT_TAG then
        '(r, cursor) ← cbor_skip fuel cursor end_;
        if negb (r =? 0) then Ok (-1, cursor) else Ok (0, cursor)
      else Ok (-1, cursor)
  end
with skip_items (fuel : nat) (i n cursor end_ : Z) {struct fuel} : outcome (Z * Z) :=
  match fuel with
  | O => Fuel
  | S fuel =>
      if i <? n then
        '(r, cursor) ← cbor_skip fuel cursor end_;
        if negb (r =? 0) then Ok (-1, cursor) else skip_items fuel (i + 1) n cursor end_
      else Ok (0, cursor)
  end.
End Reader.

(** ** The grammar *)

Definition bytes (l : list Z) : Prop := Forall (in_u 8) l.

(** The value of big-endian bytes. *)
Definition be_val (l : list Z) : Z := foldl (fun a b => a * 256 + b) 0 l.

(** The initial byte and the argument that follows it. *)
Inductive head_of : Z -> Z -> list Z -> Prop :=
| head_imm (mt v : Z) : 0 <= mt < 8 -> 0 <= v < 24 -> head_of mt v [mt * 32 + v]
| head_arg (mt k : Z) (arg : list Z) :
    0 <= mt < 8 -> 0 <= k < 4 -> Z.of_nat (length arg) = 2 ^ k -> bytes arg ->
    head_of mt (be_val arg) ((mt * 32 + 24 + k) :: arg).

(** Data items; a map of [v] pairs holds [2 * v] items. *)
Inductive item : list Z -> Prop :=
| item_int (mt v : Z) (h : list Z) : mt = CBOR_MT_UINT \/ mt = CBOR_MT_NINT -> head_of mt v h -> item h
| item_str (mt v : Z) (h s : list Z) :
    mt = CBOR_MT_BSTR \/ mt = CBOR_MT_TSTR -> head_of mt v h -> Z.of_nat (length s) = v -> item (h ++ s)
| item_array (v : Z) (h b : list Z) : head_of CBOR_MT_ARRAY v h -> items v b -> item (h ++ b)
| item_map (v : Z) (h b : list Z) : head_of CBOR_MT_MAP v h -> items (2 * v) b -> item (h ++ b)
| item_tag (v : Z) (h b : list Z) : head_of CBOR_MT_TAG v h -> item b -> item (h ++ b)
with items : Z -> list Z -> Prop :=
| items_nil : items 0 []
| items_cons (n : Z) (a b : list Z) : 0 <= n -> item a -> items n b -> items (n + 1) (a ++ b).

Scheme item_items_ind := Induction for item Sort Prop
  with items_item_ind := Induction for items Sort Prop.
Combined Scheme item_mutind from item_items_ind, items_item_ind.

(** ** Numbers *)

Lemma lor_byte (a b : Z) : 0 <= a -> in_u 8 b -> Z.lor (Z.shiftl a 8) b = a * 256 + b.
Proof.
  intros Ha Hb. assert (Z.land (Z.shiftl a 8) b = 0) as D.
  { apply Z.bits_inj'. intros n Hn. rewrite Z.land_spec, Z.bits_0. destruct (decide (n < 8)).
    - by rewrite Z.shiftl_spec_low.
    - rewrite (in_u_bits 8 b n Hb), andb_false_r; [done|lia]. }
  rewrite <- Z.lxor_lor, <- Z.add_nocarry_lxor, Z.shiftl_mul_pow2; by try lia.
Qed.

Lemma be_val_snoc (l : list Z) (b : Z) : be_val (l ++ [b]) = be_val l * 256 + b.
Proof. unfold be_val. by rewrite foldl_app. Qed.

Lemma be_val_range (l : list Z) : bytes l -> 0 <= be_val l < 256 ^ Z.of_nat (length l).
Proof.
  induction l as [|b l IH] using rev_ind; intros Hl; [done|].
  apply Forall_app in Hl as [Hl Hb%Forall_inv]. specialize (IH Hl).
  rewrite be_val_snoc, length_app, Nat2Z.inj_add, Z.pow_add_r by lia. change (256 ^ Z.of_nat (length [b])) with 256.
  unfold in_u in Hb. change (2 ^ 8) with 256 in Hb. lia.
Qed.

(** The two fields of an initial byte. *)
Lemma initial_byte (b : Z) : in_u 8 b ->
  Z.land (Z.shiftr b 5) 7 = b / 32 /\ Z.land b 31 = b mod 32 /\ 0 <= b / 32 < 8 /\ b = b / 32 * 32 + b mod 32.
Proof.
  intros Hb. rewrite Z.shiftr_div_pow2 by lia. change (2 ^ 5) with 32.
  change 7 with (Z.ones 3) at 1. change 31 with (Z.ones 5). rewrite !Z.land_ones by lia.
  unfold in_u in Hb. change (2 ^ 8) with 256 in Hb. change (2 ^ 5) with 32. change (2 ^ 3) with 8.
  assert (0 <= b / 32 < 8) by (split; [apply Z.div_pos|apply Z.div_lt_upper_bound]; lia).
  rewrite (Z.mod_small (b / 32)) by done. pose proof (Z.div_mod b 32). lia.
Qed.

(** ** Facts about the grammar *)

Lemma head_of_cons (mt v : Z) (h : list Z) : head_of mt v h -> exists x t, h = x :: t /\ 0 <= x < 256.
Proof. destruct 1; do 2 eexists; (split; [done|lia]). Qed.

Lemma head_of_range (mt v : Z) (h : list Z) : head_of mt v h -> 0 <= mt < 8 /\ in_u 64 v.
Proof.
  destruct 1 as [mt v|mt k arg ? ? Hl Hb]; (split; [done|]); [unfold in_u; lia|].
  pose proof (be_val_range arg Hb) as V. rewrite Hl in V.
  assert (256 ^ 2 ^ k <= 2 ^ 64); [|unfold in_u; lia].
  change 256 with (2 ^ 8). rewrite <- Z.pow_mul_r by (try apply Z.pow_nonneg; lia).
  apply Z.pow_le_mono_r; [lia|]. change 64 with (8 * 2 ^ 3).
  apply Z.mul_le_mono_nonneg_l; [lia|]. apply Z.pow_le_mono_r; lia.
Qed.

Lemma head_length (mt v : Z) (h : list Z) : head_of mt v h -> (1 <= length h)%nat.
Proof. intros Hh. destruct (head_of_cons _ _ _ Hh) as (x & t & -> & _). simpl. lia. Qed.

Lemma item_items_length :
  (forall it, item it -> (1 <= length it)%nat) /\
  (forall n b, items n b -> 0 <= n <= Z.of_nat (length b)).
Proof.
  apply item_mutind; intros; rewrite ?length_app; simpl length in *;
    try match goal with Hh : head_of _ _ _ |- _ => pose proof (head_length _ _ _ Hh) end; lia.
Qed.

Lemma item_length (it : list Z) : item it -> (1 <= length it)%nat.
Proof. apply item_items_length. Qed.

Lemma items_length (n : Z) (b : list Z) : items n b -> 0 <= n <= Z.of_nat (length b).
Proof. apply item_items_length. Qed.

(** The initial byte fixes the length of the head. *)
Lemma head_length_unique (x mt mt' v v' : Z) (t t' : list Z) :
  head_of mt v (x :: t) -> head_of mt' v' (x :: t') -> length t = length t'.
Proof.
  intros Hh Hh'. inversion Hh as [? ? ? ? E1|? k arg ? ? L ? E1]; inversion Hh' as [? ? ? ? E2|? k' arg' ? ? L' ? E2];
    subst; try done; try lia. assert (k = k') as -> by lia. lia.
Qed.

(** ** Reading heads *)

Section Spec.
Context (base : Z) (buf : list Z).
Context (Hbase : 0 <= base) (Htop : base + Z.of_nat (length buf) <= 2 ^ 63) (Hbuf : bytes buf).

(** The bytes [l] stand at address [p]. *)
Definition at_ (p : Z) (l : list Z) : Prop :=
  exists pre post, buf = pre ++ l ++ post /\ p = base + Z.of_nat (length pre).

Lemma at_range (p : Z) (l : list Z) :
  at_ p l -> base <= p /\ p + Z.of_nat (length l) <= base + Z.of_nat (length buf).
Proof. intros (pre & post & E & ->). rewrite E, !length_app. lia. Qed.

Lemma at_bytes (p : Z) (l : list Z) : at_ p l -> bytes l.
Proof. intros (pre & post & E & _). unfold bytes in Hbuf. rewrite E, !Forall_app in Hbuf. by destruct Hbuf as (_ & ? & _). Qed.

Lemma at_app (p : Z) (a b : list Z) : at_ p (a ++ b) -> at_ p a /\ at_ (p + Z.of_nat (length a)) b.
Proof.
  intros (pre & post & E & ->). split.
  - exists pre, (b ++ post). by rewrite E, !(assoc_L (++)).
  - exists (pre ++ a), post. rewrite E, length_app, !(assoc_L (++)). split; [done|lia].
Qed.

Lemma at_join (p : Z) (a b : list Z) : at_ p a -> at_ (p + Z.of_nat (length a)) b -> at_ p (a ++ b).
Proof.
  intros (pre & post & E & ->) (pre' & post' & E' & L).
  exists pre, post'. split; [|done]. rewrite E' in E. rewrite E'. rewrite (app_assoc pre a) in E.
  apply app_inj_1 in E as [-> _]; [by rewrite <- !(assoc_L (++))|]. rewrite length_app. lia.
Qed.

Lemma at_take (p n : Z) :
  base <= p -> 0 <= n -> p + n <= base + Z.of_nat (length buf) ->
  exists l, at_ p l /\ Z.of_nat (length l) = n.
Proof.
  intros Hp Hn Hpn. exists (take (Z.to_nat n) (drop (Z.to_nat (p - base)) buf)). split.
  - exists (take (Z.to_nat (p - base)) buf), (drop (Z.to_nat n) (drop (Z.to_nat (p - base)) buf)).
    rewrite !take_drop, length_take. split; [done|lia].
  - rewrite length_take, length_drop. lia.
Qed.

Lemma ld_at (p x : Z) (l : list Z) : at_ p (x :: l) -> ld base buf p = Ok x.
Proof.
  intros (pre & post & E & ->). unfold ld. apply aget_Some; [lia|]. rewrite E.
  replace (Z.to_nat _) with (length pre) by lia. by apply list_lookup_middle.
Qed.

Lemma read_be_n (l done_ : list Z) (p i : Z) :
  at_ (p + i) l -> bytes done_ -> 0 <= i -> base <= p -> (length done_ + length l <= 8)%nat ->
  oloop_n (length l) i (fun i val => b ← ld base buf (u64 (p + i)); Ok (Z.lor (u64 (Z.shiftl val 8)) b)) (be_val done_)
    = Ok (be_val (done_ ++ l)).
Proof.
  revert done_ i. induction l as [|b l IH]; intros d i Hat Hd Hi Hp Hlen; simpl; [by rewrite app_nil_r|].
  pose proof (at_range _ _ Hat) as R. pose proof (at_bytes _ _ Hat) as B. inversion_clear B as [|? ? Hb _].
  simpl in R, Hlen. rewrite (uwrap_small 64 (p + i)) by (unfold in_u; lia).
  rewrite (ld_at _ b l Hat). simpl. pose proof (be_val_range d Hd) as V.
  assert (256 ^ Z.of_nat (length d) <= 256 ^ 7) by (apply Z.pow_le_mono_r; lia).
  rewrite (uwrap_small 64) by (rewrite Z.shiftl_mul_pow2 by lia; unfold in_u; lia).
  rewrite lor_byte by (lia || done). rewrite <- be_val_snoc.
  rewrite IH; [by rewrite <- (assoc_L (++))| |by apply Forall_app; split; [|constructor]|lia|lia|rewrite length_app; simpl; lia].
  destruct (at_app (p + i) [b] l Hat) as [_ Hn]. by rewrite Z.add_assoc.
Qed.

Lemma read_be_at (p n : Z) (l : list Z) :
  at_ p l -> Z.of_nat (length l) = n -> n <= 8 -> read_be base buf p n = Ok (be_val l).
Proof.
  intros Hat Hn H8. unfold read_be, oloop. rewrite Z.sub_0_r, <- Hn, Nat2Z.id.
  apply (read_be_n l [] p 0); [by rewrite Z.add_0_r|apply Forall_nil_2|lia|apply (at_range _ _ Hat)|simpl; lia].
Qed.

(** A head that ends before [end_] is decoded, whatever its width. *)
Lemma read_head_complete (p end_ mt v m0 v0 : Z) (h : list Z) :
  head_of mt v h -> at_ p h -> p + Z.of_nat (length h) <= end_ ->
  cbor_read_head base buf p end_ m0 v0 = Ok (0, p + Z.of_nat (length h), mt, v).
Proof.
  intros Hh Hat Hend. pose proof (at_range _ _ Hat) as R.
  destruct (head_of_cons _ _ _ Hh) as (x & t & -> & Hx). simpl length in *.
  destruct (initial_byte x) as (Em & Ei & _ & _); [by unfold in_u|].
  unfold cbor_read_head. destruct (Z.leb_spec end_ p); [lia|]. rewrite (ld_at p x t Hat). simpl.
  rewrite Em, Ei, (uwrap_small 64 (p + 1)) by (unfold in_u; lia).
  destruct (at_app p [x] t Hat) as [_ Ht]. change (Z.of_nat (length [x])) with 1 in Ht.
  inversion Hh as [? ? Hmt Hv|? k arg Hmt Hk Hl Hb]; subst.
  - rewrite Z.div_add_l, Z.div_small, Z.add_0_r by lia. rewrite Z.add_comm, Z.mod_add, Z.mod_small by lia.
    destruct (Z.ltb_spec v 24); [done|lia].
  - rewrite <- Z.add_assoc, Z.div_add_l, (Z.div_small (24 + k)), Z.add_0_r by lia.
    rewrite (Z.add_comm (mt * 32)), Z.mod_add, (Z.mod_small (24 + k)) by lia.
    replace (p + Z.of_nat (S (length t))) with (p + 1 + 2 ^ k) by lia.
    assert (k = 0 \/ k = 1 \/ k = 2 \/ k = 3) as [-> |[-> |[-> | ->]]] by lia; simpl;
      match goal with |- context [end_ <? u64 ?q] =>
        rewrite (uwrap_small 64 q) by (unfold in_u; lia); destruct (Z.ltb_spec end_ q) as [L|_]; [lia|]
      end.
    + destruct t as [|b0 [|]]; [simpl in Hl; lia| |simpl in Hl; lia]. rewrite (ld_at _ b0 [] Ht). reflexivity.
    + destruct t as [|b0 [|b1 [|]]]; [simpl in Hl; lia..| |simpl in Hl; lia].
      destruct (at_app _ [b0] [b1] Ht) as [_ Ht']. change (Z.of_nat (length [b0])) with 1 in Ht'. inversion_clear Hb as [|? ? Hb0 Hb']. inversion_clear Hb' as [|? ? Hb1 _].
      rewrite (ld_at _ b0 _ Ht), (uwrap_small 64) by (unfold in_u; lia). simpl. rewrite (ld_at _ b1 _ Ht'). simpl.
      rewrite lor_byte by (unfold in_u in *; lia || done). reflexivity.
    + rewrite (read_be_at _ 4 t Ht) by lia. reflexivity.
    + rewrite (read_be_at _ 8 t Ht) by lia. reflexivity.
Qed.

(** The argument of the initial byte [x] at [p]: the bytes that follow it, or
    there is no room for them, or [x] is reserved. *)
Lemma read_head_spec (p end_ m0 v0 : Z) :
  base <= p <= end_ -> end_ <= base + Z.of_nat (length buf) ->
  owp (cbor_read_head base buf p end_ m0 v0) (fun '(r, p', mt, v) =>
    (r = 0 /\ exists h, head_of mt v h /\ at_ p h /\ p' = p + Z.of_nat (length h) /\ p' <= end_) \/
    (r = -1 /\ p <= p' <= end_)).
Proof.
  intros Hp Hend. destruct (decide (end_ <= p)) as [|Hlt].
  { unfold cbor_read_head. destruct (Z.leb_spec end_ p); [|lia]. right. split; [done|lia]. }
  destruct (at_take p 1) as (l & Hat & Hl); [lia..|]. destruct l as [|x [|]]; [done| |simpl in Hl; lia].
  pose proof (at_bytes _ _ Hat) as Hx. apply Forall_inv in Hx.
  destruct (initial_byte x Hx) as (Em & Ei & Hmt & Ex). pose proof (Z.mod_pos_bound x 32 ltac:(lia)) as Hi.
  set (i := x mod 32) in *. set (mt := x / 32) in *.
  destruct (decide (i < 24)) as [|Hi24].
  { rewrite (read_head_complete p end_ mt i m0 v0 [x]); [|rewrite Ex; constructor; lia|done|simpl; lia].
    left. split; [done|]. exists [x]. rewrite Ex at 1. split_and!; [constructor; lia|done|done|simpl; lia]. }
  destruct (decide (i < 28 /\ p + 1 + 2 ^ (i - 24) <= end_)) as [[Hi28 Hroom]|Hno].
  - assert (0 <= 2 ^ (i - 24)) by (apply Z.pow_nonneg; lia).
    destruct (at_take (p + 1) (2 ^ (i - 24))) as (arg & Harg & Hlen); [lia..|].
    assert (head_of mt (be_val arg) (x :: arg)) as Hh.
    { rewrite Ex. replace (mt * 32 + i) with (mt * 32 + 24 + (i - 24)) by lia.
      constructor; [done|lia|done|by eapply at_bytes]. }
    assert (at_ p (x :: arg)) as Hxa by (by apply (at_join p [x] arg)).
    rewrite (read_head_complete _ _ _ _ m0 v0 _ Hh Hxa) by (simpl length; lia).
    left. split; [done|]. exists (x :: arg). split_and!; [done..|simpl length; lia].
  - unfold cbor_read_head. destruct (Z.leb_spec end_ p); [lia|]. rewrite (ld_at p x [] Hat). simpl.
    rewrite Em, Ei, (uwrap_small 64 (p + 1)) by (unfold in_u; lia).
    fold i mt. destruct (Z.ltb_spec i 24); [lia|].
    destruct (decide (i < 28)) as [Hi28|].
    + assert (i = 24 \/ i = 25 \/ i = 26 \/ i = 27) as [Hi' |[Hi' |[Hi' | Hi']]] by lia;
        rewrite Hi' in *; simpl; rewrite (uwrap_small 64) by (unfold in_u; lia);
        (match goal with |- context [end_ <? ?q] => destruct (Z.ltb_spec end_ q) as [|Hge] end;
         [right; split; [done|lia]|exfalso; apply Hno; simpl; lia]).
    + repeat match goal with |- context [i =? ?j] => destruct (Z.eqb_spec i j); [lia|] end. right. split; [done|lia].
Qed.

Lemma at_unique (p : Z) (a b : list Z) : at_ p a -> at_ p b -> length a = length b -> a = b.
Proof.
  intros (pre & post & E & ->) (pre' & post' & E' & L) Hl. rewrite E' in E.
  apply app_inj_1 in E as [_ E]; [|lia]. by apply app_inj_1 in E as [-> _].
Qed.

Lemma head_at_length (p mt mt' v v' : Z) (h h' : list Z) :
  head_of mt v h -> head_of mt' v' h' -> at_ p h -> at_ p h' -> length h = length h'.
Proof.
  intros Hh Hh' Hat Hat'. destruct (head_of_cons _ _ _ Hh) as (x & t & -> & _).
  destruct (head_of_cons _ _ _ Hh') as (x' & t' & -> & _).
  pose proof (ld_at _ _ _ Hat) as E. rewrite (ld_at _ _ _ Hat') in E. injection E as ->.
  simpl. f_equal. by eapply head_length_unique.
Qed.

(** A head cut off by [end_] is an error. *)
Lemma read_head_truncated (p end_ mt v m0 v0 : Z) (h : list Z) :
  head_of mt v h -> at_ p h -> p <= end_ < p + Z.of_nat (length h) ->
  owp (cbor_read_head base buf p end_ m0 v0) (fun '(r, p', _, _) => r = -1 /\ p <= p' <= end_).
Proof.
  intros Hh Hat Hend. pose proof (at_range _ _ Hat).
  eapply owp_mono; [apply read_head_spec; lia|]. intros [[[r p'] mt'] v'] [(-> & h' & Hh' & Hat' & -> & Hle)|]; [|done].
  pose proof (head_at_length _ _ _ _ _ _ _ Hh Hh' Hat Hat'). lia.
Qed.

(** ** Skipping items *)

(** One unfolding of [cbor_skip] on a head that stands at the cursor. *)
Ltac skip_head fuel Hh Hat :=
  let Hath := fresh "Hath" in let Hatb := fresh "Hatb" in
  pose proof (head_length _ _ _ Hh); pose proof (at_range _ _ Hat);
  destruct (at_app _ _ _ Hat) as [Hath Hatb]; rewrite length_app in *;
  destruct fuel as [|fuel]; [lia|]; simpl;
  rewrite (read_head_complete _ _ _ _ 0 0 _ Hh Hath) by lia; simpl.

(** Completeness: every item that ends before [end_] is skipped exactly. *)
Lemma skip_complete :
  (forall it, item it -> forall fuel p end_, at_ p it -> p + Z.of_nat (length it) <= end_ ->
     (2 * length it <= fuel)%nat -> cbor_skip base buf fuel p end_ = Ok (0, p + Z.of_nat (length it))) /\
  (forall m b, items m b -> forall fuel i n p end_, at_ p b -> p + Z.of_nat (length b) <= end_ ->
     i + m = n -> (2 * length b + 1 <= fuel)%nat ->
     skip_items base buf fuel i n p end_ = Ok (0, p + Z.of_nat (length b))).
Proof.
  apply item_mutind.
  - intros mt v h Hmt Hh fuel p end_ Hat Hend Hf. pose proof (head_length _ _ _ Hh).
    destruct fuel as [|fuel]; [lia|]. simpl. rewrite (read_head_complete _ _ _ _ 0 0 _ Hh Hat) by lia.
    by destruct Hmt as [-> | ->].
  - intros mt v h s Hmt Hh Hs fuel p end_ Hat Hend Hf. skip_head fuel Hh Hat.
    destruct Hmt as [-> | ->]; simpl; rewrite (uwrap_small 64) by (unfold in_u; lia);
      (match goal with |- context [end_ <? ?q] => destruct (Z.ltb_spec end_ q); [lia|] end); do 2 f_equal; lia.
  - intros v h b Hh Hb IH fuel p end_ Hat Hend Hf. skip_head fuel Hh Hat.
    rewrite IH by (done || lia). do 2 f_equal. lia.
  - intros v h b Hh Hb IH fuel p end_ Hat Hend Hf. pose proof (items_length _ _ Hb). skip_head fuel Hh Hat.
    rewrite (uwrap_small 64), IH by (unfold in_u; done || lia). do 2 f_equal. lia.
  - intros v h b Hh Hb IH fuel p end_ Hat Hend Hf. skip_head fuel Hh Hat.
    rewrite IH by (done || lia). simpl. do 2 f_equal. lia.
  - intros fuel i n p end_ Hat _ Hi Hf. destruct fuel as [|fuel]; [lia|]. simpl.
    destruct (Z.ltb_spec i n); [lia|]. by rewrite Z.add_0_r.
  - intros m a b Hm Ha IHa Hb IHb fuel i n p end_ Hat Hend Hi Hf. pose proof (item_length _ Ha).
    destruct (at_app _ _ _ Hat) as [Hata Hatb]. rewrite length_app in *. destruct fuel as [|fuel]; [lia|]. simpl.
    destruct (Z.ltb_spec i n); [|lia]. rewrite IHa by (done || lia). simpl.
    rewrite IHb by (done || lia). do 2 f_equal. lia.
Qed.

(** A length or a number of pairs of [2 ^ 63] or more wraps a pointer or the
    count; only a head with eight argument bytes can carry one. *)
Definition no_wrap : bool :=
  allb (length buf) (fun i =>
    match drop (Z.to_nat i) buf with
    | x :: l => negb (bool_decide (x ∈ [0x5B; 0x7B; 0xBB])) || (be_val (take 8 l) <? 2 ^ 63)
    | [] => true
    end).

Lemma no_wrap_small (p mt v : Z) (h : list Z) :
  no_wrap = true -> at_ p h -> head_of mt v h -> mt ∈ [CBOR_MT_BSTR; CBOR_MT_TSTR; CBOR_MT_MAP] -> v < 2 ^ 63.
Proof.
  intros Hnw (pre & post & E & ->) Hh Hmt. destruct Hh as [mt v|mt k arg Hm Hk Hl Hb]; [lia|].
  pose proof (be_val_range arg Hb) as V. destruct (decide (k < 3)).
  { assert (256 ^ Z.of_nat (length arg) <= 256 ^ 4); [|lia]. apply Z.pow_le_mono_r; [lia|]. rewrite Hl.
    change 4 with (2 ^ 2). apply Z.pow_le_mono_r; lia. }
  assert (k = 3) as -> by lia. apply (allb_spec _ _ (Z.of_nat (length pre))) in Hnw; [|rewrite E, !length_app; simpl; lia].
  rewrite E, Nat2Z.id, drop_app_length in Hnw. simpl in Hnw. apply orb_true_iff in Hnw as [Hn|Hn].
  - apply negb_true_iff, bool_decide_eq_false in Hn. destruct Hn. clear -Hmt. set_unfold.
    destruct Hmt as [-> |[-> | [-> |[]]]]; compute; tauto.
  - rewrite take_app_length' in Hn by lia. by apply Z.ltb_lt.
Qed.

(** What a call establishes: the cursor [p] moved to [p'] inside the bounds,
    and a success means that it moved over bytes in [P]. *)
Definition moved (P : list Z -> Prop) (p end_ : Z) (res : Z * Z) : Prop :=
  let '(r, p') := res in
  p <= p' <= end_ /\ (r = -1 \/ r = 0 /\ exists b, P b /\ at_ p b /\ p' = p + Z.of_nat (length b)).

(** A head followed by its content is an item. *)
Lemma moved_head (P : list Z -> Prop) (p end_ : Z) (h : list Z) (res : Z * Z) :
  at_ p h -> (forall b, P b -> item (h ++ b)) ->
  moved P (p + Z.of_nat (length h)) end_ res -> moved item p end_ res.
Proof.
  destruct res as [r p']. intros Hat HP (Hp' & [-> |(-> & b & Hb & Hatb & ->)]); (split; [lia|]); [by left|].
  right. split; [done|]. exists (h ++ b). split_and!; [by apply HP|by apply at_join|rewrite length_app; lia].
Qed.

Lemma moved_str (p end_ mt v : Z) (h : list Z) :
  mt = CBOR_MT_BSTR \/ mt = CBOR_MT_TSTR -> head_of mt v h -> at_ p h -> p + Z.of_nat (length h) <= end_ ->
  end_ <= base + Z.of_nat (length buf) -> v < 2 ^ 63 ->
  owp (if end_ <? u64 (p + Z.of_nat (length h) + v) then Ok (-1, p + Z.of_nat (length h))
       else Ok (0, u64 (p + Z.of_nat (length h) + v))) (moved item p end_).
Proof.
  intros Hmt Hh Hat Hle Hend Hv63. pose proof (head_of_range _ _ _ Hh) as [_ Hv]. pose proof (at_range _ _ Hat) as R.
  rewrite (uwrap_small 64) by (unfold in_u in *; lia). destruct (Z.ltb_spec end_ (p + Z.of_nat (length h) + v)).
  { split; [lia|by left]. }
  destruct (at_take (p + Z.of_nat (length h)) v) as (s & Hs & Hsl); [unfold in_u in *; lia..|].
  split; [unfold in_u in *; lia|]. right. split; [done|]. exists (h ++ s).
  split_and!; [by eapply item_str|by apply at_join|rewrite length_app; lia].
Qed.

(** Soundness and termination: with that many steps [cbor_skip] returns, the
    cursor stays between its start and [end_], and success means an item. *)
Lemma skip_sound (Hnw : no_wrap = true) (fuel : nat) : forall p end_,
  base <= p <= end_ -> end_ <= base + Z.of_nat (length buf) ->
  (2 * (end_ - p) + 1 <= Z.of_nat fuel -> owp (cbor_skip base buf fuel p end_) (moved item p end_)) /\
  (forall i n, 2 * (end_ - p) + 2 <= Z.of_nat fuel -> i <= n -> owp (skip_items base buf fuel i n p end_) (moved (items (n - i)) p end_)).
Proof.
  induction fuel as [|fuel IH]; intros p end_ Hp Hend; [split; intros; lia|]. split.
  - intros Hf. simpl. apply owp_bind. eapply owp_mono; [by apply read_head_spec|].
    intros [[[r p'] mt] v] [(-> & h & Hh & Hat & -> & Hle)|(-> & Hle)]; [|simpl; auto].
    pose proof (head_length _ _ _ Hh). pose proof (head_of_range _ _ _ Hh) as [Hmt Hv].
    assert (v < 2 ^ 63 \/ ~ (mt = 2 \/ mt = 3 \/ mt = 5)) as Hsmall.
    { destruct (decide (mt = 2 \/ mt = 3 \/ mt = 5)) as [Hm|]; [left|by right].
      eapply (no_wrap_small p mt); [done..|]. set_unfold. unfold CBOR_MT_BSTR, CBOR_MT_TSTR, CBOR_MT_MAP. tauto. }
    assert (mt = 0 \/ mt = 1 \/ mt = 2 \/ mt = 3 \/ mt = 4 \/ mt = 5 \/ mt = 6 \/ mt = 7) as Hcase by lia.
    assert (at_ (p + Z.of_nat (length h)) []) as Hnil by (destruct (at_take (p + Z.of_nat (length h)) 0) as ([|] & ? & ?); [lia..|done|done]).
    destruct Hcase as [-> |[-> |[-> |[-> |[-> |[-> |[-> | ->]]]]]]]; simpl.
    1,2: split; [lia|]; right; split; [done|]; exists h; split_and!; [by eapply item_int; [|done]; auto|done..].
    1,2: eapply moved_str; [|exact Hh|done|lia|done|lia]; [by left + right].
    + eapply owp_mono; [apply (IH _ end_); unfold in_u in *; lia|]. intros res. rewrite Z.sub_0_r.
      apply (moved_head (items v)); [done|]. intros b Hb. by eapply item_array.
    + rewrite uwrap_small by (unfold in_u in *; lia).
      eapply owp_mono; [apply (IH _ end_); unfold in_u in *; lia|]. intros res. rewrite Z.sub_0_r.
      apply (moved_head (items (v * 2))); [done|]. intros b Hb. eapply item_map; [done|]. by rewrite Z.mul_comm.
    + apply owp_bind. eapply owp_mono; [apply (IH _ end_); lia|]. intros [r p'] Hm. pose proof Hm as [_ [-> |[-> _]]];
        (eapply (moved_head item); [done| |done]); intros b Hb; by eapply item_tag.
    + split; [lia|]. by left.
  - intros i n Hf Hin. simpl. destruct (Z.ltb_spec i n).
    + apply owp_bind. eapply owp_mono; [apply IH; [done..|lia]|]. intros [r p'] (Hp' & [-> |(-> & it & Hit & Hat & ->)]).
      { simpl. auto. }
      pose proof (item_length _ Hit). simpl. eapply owp_mono; [apply IH; lia|].
      intros [r p''] (Hp'' & [-> |(-> & b & Hb & Hatb & ->)]); (split; [lia|]); [auto|]. right. split; [done|].
      exists (it ++ b). split_and!.
      * replace (n - i) with (n - (i + 1) + 1) by lia. constructor; [lia|done..].
      * by apply at_join.
      * rewrite length_app. lia.
    + simpl. split; [lia|]. right. split; [done|]. exists []. replace (n - i) with 0 by lia.
      split_and!; [constructor| |simpl; lia]. destruct (at_take p 0) as ([|] & ? & ?); [lia..|done|done].
Qed.

Definition skip_fuel (p end_ : Z) : nat := Z.to_nat (2 * (end_ - p) + 1).

(** An item that starts at the cursor and ends before [end_] is found. *)
Lemma skip_finds (p end_ : Z) (it : list Z) :
  item it -> at_ p it -> p + Z.of_nat (length it) <= end_ ->
  cbor_skip base buf (skip_fuel p end_) p end_ = Ok (0, p + Z.of_nat (length it)).
Proof. intros Hit Hat Hend. apply skip_complete; [done..|]. unfold skip_fuel. lia. Qed.
End Spec.

(** ** Encoding heads *)

Fixpoint be (n : nat) (v : Z) : list Z :=
  match n with O => [] | S n => be n (v / 256) ++ [v mod 256] end.

(** The shortest encoding, the one deterministic encoders emit. *)
Definition enc_head (mt v : Z) : list Z :=
  if v <? 24 then [mt * 32 + v]
  else if v <? 2 ^ 8 then (mt * 32 + 24 + 0) :: be 1 v
  else if v <? 2 ^ 16 then (mt * 32 + 24 + 1) :: be 2 v
  else if v <? 2 ^ 32 then (mt * 32 + 24 + 2) :: be 4 v
  else (mt * 32 + 24 + 3) :: be 8 v.

Lemma be_spec (n : nat) (v : Z) : 0 <= v < 256 ^ Z.of_nat n -> length (be n v) = n /\ bytes (be n v) /\ be_val (be n v) = v.
Proof.
  revert v. induction n as [|n IH]; intros v Hv; simpl.
  { change (256 ^ Z.of_nat 0) with 1 in Hv. split_and!; [done|apply Forall_nil_2|unfold be_val; simpl; lia]. }
  pose proof (Z.div_mod v 256). pose proof (Z.mod_pos_bound v 256).
  rewrite Nat2Z.inj_succ, Z.pow_succ_r in Hv by lia.
  destruct (IH (v / 256)) as (L & B & V); [split; [apply Z.div_pos|apply Z.div_lt_upper_bound]; lia|].
  rewrite length_app, L, be_val_snoc, V. split_and!; [simpl; lia| |lia].
  apply Forall_app. split; [done|]. repeat constructor; lia.
Qed.

Lemma enc_head_of (mt v : Z) : 0 <= mt < 8 -> in_u 64 v -> head_of mt v (enc_head mt v).
Proof.
  intros Hmt Hv. unfold enc_head. destruct (Z.ltb_spec v 24); [constructor; unfold in_u in *; lia|].
  assert (forall n k, 0 <= v < 256 ^ Z.of_nat n -> Z.of_nat n = 2 ^ k -> 0 <= k < 4 ->
    head_of mt v ((mt * 32 + 24 + k) :: be n v)) as Harg.
  { intros n k Hn E Hk. destruct (be_spec n v Hn) as (L & B & V).
    rewrite <- V at 1. constructor; [done..|by rewrite L|done]. }
  unfold in_u in Hv. zcases; apply Harg; simpl; lia.
Qed.

(** ** The reader meets its grammar *)

(** [C27] On bytes in which no length wraps, [cbor_skip] with fuel
    [2 * (end - cursor) + 1] returns from every cursor inside the array,
    never reads outside it and leaves the cursor between its start and
    [end]; it returns 0 exactly when a data item of the grammar starts at the
    cursor and ends before [end], and then it stops right behind the item. *)
Theorem skip_decides (base : Z) (buf : list Z) (p end_ : Z) :
  0 <= base -> base + Z.of_nat (length buf) <= 2 ^ 63 -> bytes buf -> no_wrap buf = true ->
  base <= p <= end_ -> end_ <= base + Z.of_nat (length buf) ->
  exists r p', cbor_skip base buf (skip_fuel p end_) p end_ = Ok (r, p') /\
    p <= p' <= end_ /\ (r = 0 \/ r = -1) /\
    (r = 0 <-> exists it, item it /\ at_ base buf p it /\ p + Z.of_nat (length it) <= end_) /\
    (r = 0 -> forall it, item it -> at_ base buf p it -> p + Z.of_nat (length it) <= end_ ->
       p' = p + Z.of_nat (length it)).
Proof.
  intros Hb Ht Hbuf Hnw Hp Hend. pose proof (skip_finds base buf Hb Ht Hbuf p end_) as Hfind.
  destruct (skip_sound base buf Hb Ht Hbuf Hnw (skip_fuel p end_) p end_) as [Hs _]; [done..|].
  specialize (Hs ltac:(unfold skip_fuel; lia)). apply owp_ok in Hs as ([r p'] & E & Hr & Hcase).
  exists r, p'. split_and!; [done|lia|lia|destruct Hcase as [|[]]; auto| |].
  - split; [intros ->|intros (it & Hit & Hat & Hle)].
    + destruct Hcase as [|(_ & it & Hit & Hat & ->)]; [lia|]. exists it. split_and!; [done..|lia].
    + specialize (Hfind it Hit Hat Hle). congruence.
  - intros _ it Hit Hat Hle. specialize (Hfind it Hit Hat Hle). congruence.
Qed.

(** An array of a map (one pair) and a tagged negative integer. *)
Definition sample : list Z := [0x82; 0xA1; 0x01; 0x42; 0xAB; 0xCD; 0xC1; 0x38; 0x63].

Lemma skip_decides_witness :
  no_wrap sample = true /\ cbor_skip 0x80001000 sample (skip_fuel 0x80001000 0x80001009) 0x80001000 0x80001009 = Ok (0, 0x80001009) /\
  exists r p', cbor_skip 0x80001000 sample (skip_fuel 0x80001000 0x80001009) 0x80001000 0x80001009 = Ok (r, p') /\
    0x80001000 <= p' <= 0x80001009.
Proof.
  split; [reflexivity|]. split; [vm_compute; reflexivity|].
  destruct (skip_decides 0x80001000 sample 0x80001000 0x80001009) as (r & p' & E & R & _).
  - lia.
  - vm_compute; discriminate.
  - repeat constructor; unfold in_u; lia.
  - reflexivity.
  - lia.
  - vm_compute; discriminate.
  - exists r, p'. auto.
Defined.

(** [C28] Encoding a head and reading it back gives the major type and the
    argument, with the cursor behind the head; if [end] falls inside the
    head the reader reports the error and stays inside the bounds. *)
Theorem read_head_roundtrip (base : Z) (pre post : list Z) (end_ mt v m0 v0 : Z) :
  let buf := pre ++ enc_head mt v ++ post in
  let p := base + Z.of_nat (length pre) in
  0 <= base -> base + Z.of_nat (length buf) <= 2 ^ 63 -> bytes buf -> 0 <= mt < 8 -> in_u 64 v -> p <= end_ ->
  if end_ <? p + Z.of_nat (length (enc_head mt v)) then
    exists p' mt' v', cbor_read_head base buf p end_ m0 v0 = Ok (-1, p', mt', v') /\ p <= p' <= end_
  else cbor_read_head base buf p end_ m0 v0 = Ok (0, p + Z.of_nat (length (enc_head mt v)), mt, v).
Proof.
  intros buf p Hb Ht Hbuf Hmt Hv Hp. pose proof (enc_head_of mt v Hmt Hv) as Hh.
  assert (at_ base buf p (enc_head mt v)) as Hat by (by exists pre, post).
  destruct (Z.ltb_spec end_ (p + Z.of_nat (length (enc_head mt v)))).
  - pose proof (read_head_truncated base buf Hb Ht Hbuf p end_ mt v m0 v0 _ Hh Hat ltac:(lia)) as Hr.
    apply owp_ok in Hr as ([[[r p'] mt'] v'] & E & -> & ?). by exists p', mt', v'.
  - by apply read_head_complete.
Qed.

Lemma read_head_roundtrip_witness :
  cbor_read_head 4096 [0x1A; 0x00; 0x01; 0x00; 0x00] 4096 4101 0 0 = Ok (0, 4101, 0, 65536).
Proof.
  apply (read_head_roundtrip 4096 [] [] 4101 0 65536 0 0); try (vm_compute; intuition congruence).
  change (bytes [0x1A; 0x00; 0x01; 0x00; 0x00]). repeat constructor; unfold in_u; lia.
Defined.

(** ** A length that wraps *)

(** An array of two items whose first item is a byte string of [2 ^ 64 - 10]
    bytes: its end, computed modulo [2 ^ 64], is the start of the array. *)
Definition looping : list Z := [0x82; 0x5B; 0xFF; 0xFF; 0xFF; 0xFF; 0xFF; 0xFF; 0xFF; 0xF6].

Lemma looping_steps (base : Z) (Hb : 0 <= base) (Ht : base + 10 <= 2 ^ 63) (fuel : nat) :
  cbor_skip base looping (S fuel) base (base + 10) = skip_items base looping fuel 0 2 (base + 1) (base + 10) /\
  cbor_skip base looping (S fuel) (base + 1) (base + 10) = Ok (0, base).
Proof.
  assert (bytes looping) as Hbuf by (repeat constructor; unfold in_u; lia).
  assert (at_ base looping base [0x82]) as H0 by (by exists [], (tail looping); split; [|simpl; lia]).
  assert (at_ base looping (base + 1) (tail looping)) as H1 by (by exists [0x82], []).
  split; simpl.
  - rewrite (read_head_complete base looping Hb Ht Hbuf _ _ 4 2 0 0 [0x82]); [done|by apply (head_imm 4 2)|done|simpl; lia].
  - rewrite (read_head_complete base looping Hb Ht Hbuf _ _ 2 (2 ^ 64 - 10) 0 0 (tail looping)).
    + assert (u64 (base + 1 + Z.of_nat 9 + (2 ^ 64 - 10)) = base) as Hw.
      { unfold uwrap. replace (base + 1 + Z.of_nat 9 + (2 ^ 64 - 10)) with (base + 1 * 2 ^ 64) by lia.
        rewrite Z.mod_add, Z.mod_small by lia. done. }
      simpl. rewrite Hw. by destruct (Z.ltb_spec (base + 10) base); [lia|].
    + apply (head_arg 2 3 (tail (tail looping))); [lia|lia|done|by inversion_clear Hbuf as [|? ? _ Hb1]; inversion_clear Hb1].
    + done.
    + simpl. lia.
Qed.

Lemma skip_items_S (base : Z) (buf : list Z) (fuel : nat) (i n p end_ : Z) :
  skip_items base buf (S fuel) i n p end_ =
    if i <? n then
      '(r, p') ← cbor_skip base buf fuel p end_;
      if negb (r =? 0) then Ok (-1, p') else skip_items base buf fuel (i + 1) n p' end_
    else Ok (0, p).
Proof. done. Qed.

(** [C29] The check of a string length against [end] is done on the wrapped
    sum: on these ten bytes, at every address, the bounds check passes, the
    cursor moves back to the start and [cbor_skip] calls itself without end:
    no amount of fuel lets it return. *)
Theorem skip_diverges (base : Z) (fuel : nat) :
  0 <= base -> base + 10 <= 2 ^ 63 -> cbor_skip base looping fuel base (base + 10) = Fuel.
Proof.
  intros Hb Ht. pose proof (looping_steps base Hb Ht) as Hstep.
  induction fuel as [fuel IH] using lt_wf_ind. destruct fuel as [|[|[|fuel]]]; [done|..].
  1,2: by rewrite (proj1 (Hstep _)).
  rewrite (proj1 (Hstep _)), skip_items_S, (proj2 (Hstep _)).
  change (skip_items base looping (S fuel) 1 2 base (base + 10) = Fuel). rewrite skip_items_S. by rewrite IH by lia.
Qed.

Lemma skip_diverges_witness : cbor_skip 0x80001000 looping 1000 0x80001000 0x8000100A = Fuel.
Proof. apply (skip_diverges 0x80001000 1000); vm_compute; discriminate. Defined.
End Cbor.
