(* ===== verification/Attest.v ===== *)
(** * The attestation guest (guests/attestation.c)

    The guest asks the security manager for its evidence, parses the CBOR it
    got and prints what it found.  Its state is the firmware's state and its
    own two static buffers; everything it prints goes through the SBI debug
    console of [Sbi], the bytes are read with [Cbor].

    [skip_bound] is the fuel of [cbor_skip]: enough for the 4096 bytes of the
    buffer ([Cbor.skip_sound]).  The tag loop has the same bound; every turn
    of it reads at least one byte. *)

From S2P Require Import Prelude Sbi Cbor.

Module Attest.
Import Guests Cbor.

(** The static buffers. *)
Record statics := Statics { CHALLENGE : list Z; CERT_BUFFER : list Z }.

(** A literal that ends in a newline. *)
Definition cline (s : String.string) : list Z := line s ++ [0].
Arguments cline s%_string_scope.

Definition CERT_SIZE : Z := 4096.
Definition CHALLENGE_SIZE : Z := 64.
Definition skip_bound : nat := Z.to_nat (2 * CERT_SIZE + 2).

Section Guest.
Context {W : Type} `{!Firmware W statics}.
(** The addresses the linker gave to [CHALLENGE] and [CERT_BUFFER]. *)
Context (challenge cert : Z).

Abbreviation guest := (ST (W * statics)).

(** ** Console output *)

Definition sbi_putc (c : Z) : guest unit :=
  _ ← sbi_call SBI_EXT_DBCN 2 c 0 0 0 0 0; mret tt.

(** [while ( *s) sbi_putc( *s++)]. *)
Fixpoint print_str (s : list Z) : guest unit :=
  match s with
  | [] => st_ub
  | c :: s' => if c =? 0 then mret tt else sbi_putc c;; print_str s'
  end.

(** A load from the certificate buffer. *)
Definition load (p : Z) : guest Z := s ← st_get; lift (ld cert (CERT_BUFFER s.2) p).

Definition hex : list Z := cstr "0123456789ABCDEF".

(** The body of the loop of [print_hex]. *)
Definition print_hex_byte (buf len i : Z) : guest unit :=
  b ← load (u64 (buf + i));
  hi ← lift (aget hex (Z.land (Z.shiftr b 4) 0xF)); sbi_putc hi;;
  b ← load (u64 (buf + i));
  lo ← lift (aget hex (Z.land b 0xF)); sbi_putc lo;;
  if (i <? u64 (len - 1)) && (u64 (i + 1) mod 16 =? 0) then print_str (10 :: cstr "        ")
  else if i <? u64 (len - 1) then sbi_putc 32 else mret tt.

Fixpoint print_hex_loop (n : nat) (buf len i : Z) : guest unit :=
  match n with
  | O => mret tt
  | S n => print_hex_byte buf len i;; print_hex_loop n buf len (i + 1)
  end.

Definition print_hex (buf len : Z) : guest unit :=
  print_hex_loop (Z.to_nat len) buf len 0;; print_str [10; 0].

(** The digits written to [buf[0..i-1]], the last one first; [room] is what
    is left of the 21 bytes. *)
Fixpoint uint_digits (room : nat) (val : Z) (buf : list Z) : outcome (list Z) :=
  if val <=? 0 then Ok buf else
  match room with
  | O => UB
  | S room => uint_digits room (val / 10) (u8 (val mod 10 + 48) :: buf)
  end.

(** [while (i > 0) sbi_putc(buf[--i])]. *)
Fixpoint put_digits (buf : list Z) : guest unit :=
  match buf with [] => mret tt | c :: buf => sbi_putc c;; put_digits buf end.

Definition print_uint (val : Z) : guest unit :=
  if val =? 0 then print_str (cstr "0") else
  buf ← lift (uint_digits 21 val []); put_digits buf.

Definition debug_cursor (label : list Z) (curr lookahead : Z) : guest unit :=
  print_str (cstr "    DEBUG [");; print_str label;; print_str (cstr "]: ");;
  print_hex curr lookahead.

(** ** The parser

    [curr], [mt] and [val] are the locals of [parse_and_print_evidence];
    [None] is a [return] from it. *)

Definition read_head (curr end_ mt val : Z) : guest (Z * Z * Z * Z) :=
  s ← st_get; lift (cbor_read_head cert (CERT_BUFFER s.2) curr end_ mt val).

Abbreviation locals := (option (Z * Z * Z)).

(** The loop over the tags around the COSE structure. *)
Fixpoint tag_loop (fuel : nat) (end_ curr mt val : Z) : guest locals :=
  if mt =? CBOR_MT_TAG then
    match fuel with
    | O => st_fuel
    | S fuel =>
        print_str (cstr "    [Info] Tag: ");; print_uint val;;
        (if val =? CBOR_TAG_COSE_SIGN1 then print_str (cstr " (COSE_Sign1)") else mret tt);;
        print_str [10; 0];;
        '(r, curr, mt, val) ← read_head curr end_ mt val;
        if negb (r =? 0) then mret None else tag_loop fuel end_ curr mt val
    end
  else mret (Some (curr, mt, val)).

Definition cose_array (item_start curr mt val : Z) : guest locals :=
  if negb (mt =? CBOR_MT_ARRAY) || negb (val =? 4) then
    print_str (cstr "    ERROR: Expected COSE Array(4). Got MT=");;
    print_uint mt;; print_str (cstr " Val=");; print_uint val;; print_str [10; 0];;
    debug_cursor (cstr "BAD BYTES") item_start 16;; mret None
  else mret (Some (curr, mt, val)).

(** Field 1: the result of [cbor_read_head] is not looked at. *)
Definition field_protected (end_ curr mt val : Z) : guest locals :=
  '(_, curr, mt, val) ← read_head curr end_ mt val;
  if mt =? CBOR_MT_BSTR then mret (Some (u64 (curr + val), mt, val))
  else print_str (cstr "    Err: Protected Header must be BSTR. Got MT=");; print_uint mt;; print_str [10; 0];; mret None.

(** [for (int k = 0; k < val * 2; k++) cbor_skip(&curr, end)]: the index is
    an [int], the result of [cbor_skip] is dropped. *)
Definition skip_pair (buf : list Z) (end_ k curr : Z) : outcome Z :=
  '(_, curr) ← cbor_skip cert buf skip_bound curr end_;
  if k =? 2 ^ 31 - 1 then UB else Ok curr.

Definition skip_pairs (buf : list Z) (end_ curr val : Z) : outcome Z :=
  oloop 0 (u64 (val * 2)) (skip_pair buf end_) curr.

(** Field 2. *)
Definition field_unprotected (end_ curr mt val : Z) : guest locals :=
  '(_, curr, mt, val) ← read_head curr end_ mt val;
  if mt =? CBOR_MT_MAP then
    s ← st_get; curr ← lift (skip_pairs (CERT_BUFFER s.2) end_ curr val); mret (Some (curr, mt, val))
  else print_str (cstr "    Err: Unprotected Header must be MAP. Got MT=");; print_uint mt;; print_str [10; 0];; mret None.

(** Field 3, of layer [i]. *)
Definition field_payload (i end_ curr mt val : Z) : guest locals :=
  '(_, curr, mt, val) ← read_head curr end_ mt val;
  if (mt =? CBOR_MT_SIMPLE) && (val =? CBOR_SV_NULL) then
    print_str (cline "    Payload: [NULL] (Detached content)");; mret (Some (curr, mt, val))
  else if mt =? CBOR_MT_BSTR then
    print_str (cstr "    Payload: ");; print_uint val;; print_str (cline " bytes");;
    if end_ <? u64 (curr + val) then print_str (cline "    Err: Buffer Overflow");; mret None else
    (if (i =? 2) && (0 <? val) then
       print_str (cstr "    Preview: ");; print_hex curr (if 16 <? val then 16 else val)
     else mret tt);;
    mret (Some (u64 (curr + val), mt, val))
  else print_str (cstr "    Err: Payload must be BSTR or NULL. Got MT=");; print_uint mt;; print_str [10; 0];; mret None.

(** Field 4. *)
Definition field_signature (end_ curr mt val : Z) : guest locals :=
  '(_, curr, mt, val) ← read_head curr end_ mt val;
  if mt =? CBOR_MT_BSTR then
    print_str (cstr "    Signature: ");; print_uint val;; print_str (cline " bytes");;
    mret (Some (u64 (curr + val), mt, val))
  else print_str (cstr "    Err: Signature must be BSTR. Got MT=");; print_uint mt;; print_str [10; 0];; mret None.

(** The rest of the body after a step that may have returned. *)
Definition and_then (m : guest locals) (k : Z -> Z -> Z -> guest locals) : guest locals :=
  r ← m; match r with Some (curr, mt, val) => k curr mt val | None => mret None end.

Definition names : list (list Z) := [cstr "Platform"; cstr "TSM     "; cstr "TVM     "].

Definition rule : list Z := cline "  --------------------------------------------------".

(** The four fields of a COSE_Sign1 array. *)
Definition parse_fields (i end_ curr mt val : Z) : guest locals :=
  and_then (field_protected end_ curr mt val) (fun curr mt val =>
  and_then (field_unprotected end_ curr mt val) (fun curr mt val =>
  and_then (field_payload i end_ curr mt val) (fun curr mt val =>
  field_signature end_ curr mt val))).

(** The body of the loop over the three layers. *)
Definition parse_layer (i end_ curr mt val : Z) : guest locals :=
  print_str rule;; print_str (cstr "  Layer: ");; name ← lift (aget names i); print_str name;; print_str [10; 0];;
  let item_start := curr in
  '(r, curr, mt, val) ← read_head curr end_ mt val;
  if negb (r =? 0) then print_str (cline "    Err: Unexpected End");; mret None else
  and_then (tag_loop skip_bound end_ curr mt val) (fun curr mt val =>
  and_then (cose_array item_start curr mt val) (fun curr mt val =>
  parse_fields i end_ curr mt val)).

(** [mt] and [val] start uninitialised: the values [mt0] and [val0] are
    whatever the stack holds. *)
Definition parse_and_print_evidence (data len mt0 val0 : Z) : guest unit :=
  let end_ := u64 (data + len) in
  print_str (cline "[GUEST] Parsing Evidence CBOR...");;
  '(r, curr, mt, val) ← read_head data end_ mt0 val0;
  if negb (r =? 0) then print_str (cline "Err: Stream Empty") else
  if negb (mt =? CBOR_MT_ARRAY) || negb (val =? 3) then
    print_str (cstr "Error: Expected Evidence Array(3), got MT=");; print_uint mt;;
    print_str (cstr " Len=");; print_uint val;; print_str [10; 0]
  else
  r ← and_then (parse_layer 0 end_ curr mt val) (fun curr mt val =>
      and_then (parse_layer 1 end_ curr mt val) (fun curr mt val =>
      parse_layer 2 end_ curr mt val));
  match r with Some _ => print_str rule | None => mret tt end.

(** ** The guest *)

Definition fill_challenge : guest unit :=
  s ← st_get; c ← lift (oloop 0 CHALLENGE_SIZE (fun i c => aset c i 0xAA) (CHALLENGE s.2));
  st_put (s.1, Statics c (CERT_BUFFER s.2)).

Definition clear_buffer : guest unit :=
  s ← st_get; b ← lift (oloop 0 CERT_SIZE (fun i b => aset b i 0) (CERT_BUFFER s.2));
  st_put (s.1, Statics (CHALLENGE s.2) b).

Definition handle_result (ret : sbiret) (mt0 val0 : Z) : guest unit :=
  if negb (error ret =? 0) then
    print_str (cstr "[GUEST] SBI Call Failed! Error: ");; print_uint (u64 (error ret));; print_str [10; 0]
  else
    let evidence_len := u64 (value ret) in
    print_str (cline "[GUEST] Success! Evidence received.");;
    print_str (cstr "[GUEST] Total Size: ");; print_uint evidence_len;; print_str (cline " bytes.");;
    parse_and_print_evidence cert evidence_len mt0 val0;;
    print_str (cline "[GUEST] Raw Dump:");;
    print_hex cert evidence_len.

(** [main] up to the final loop of [wfi]. *)
Definition main (mt0 val0 : Z) : guest unit :=
  print_str (10 :: cline "==========================================");;
  print_str (cline "[GUEST] TVM Started. Initializing Test...");;
  fill_challenge;;
  print_str (cline "[GUEST] Challenge Data prepared (0xAA...)");;
  clear_buffer;;
  print_str (cline "[GUEST] Invoking SBI_COVG_GET_EVIDENCE...");;
  ret ← sbi_call SBI_EXT_COVG SBI_EXT_COVG_GET_EVIDENCE_FID 0 0 challenge 0 cert CERT_SIZE;
  handle_result ret mt0 val0;;
  print_str (cline "[GUEST] Test Complete. Halting.").
End Guest.

Lemma skip_bound_eq : Z.of_nat skip_bound = 2 * CERT_SIZE + 2.
Proof. apply Z2Nat.id. discriminate. Qed.

#[global] Opaque skip_bound.
Arguments cline : simpl never.
Arguments rule : simpl never.
Arguments print_str : simpl never.
Arguments print_uint : simpl never.
End Attest.
