(* ===== verification/AttestSpec.v ===== *)
(** * What the attestation guest prints

    The judgement [steps buf m out a]: run on a guest whose certificate
    buffer holds [buf], [m] returns [a], has printed [out] and has changed no
    memory.  It composes along [bind], so the transcript of the parser on
    encoded evidence follows field by field.  [evidence] is the encoding of
    the three COSE_Sign1 layers and [evidence_report] its transcript. *)

From S2P Require Import Prelude Sbi Cbor Attest.

Module AttestSpec.
Import Guests Cbor Attest.

#[local] Arguments line : simpl never.
#[local] Arguments bytes_of : simpl never.
#[local] Arguments cstr : simpl never.

(** ** Reference renderings *)

Fixpoint dec_n (n : nat) (v : Z) : list Z :=
  match n with
  | O => []
  | S n => if v <? 10 then [48 + v] else dec_n n (v / 10) ++ [48 + v mod 10]
  end.

(** The decimal numeral of a 64-bit number: at most 20 digits. *)
Definition dec (v : Z) : list Z := dec_n 20 v.

Definition hex_digit (d : Z) : Z := if d <? 10 then 48 + d else 55 + d.

(** A byte of a dump of [n] bytes: two digits and what separates it from the
    next one, sixteen bytes to a line. *)
Definition hex_cell (n i b : Z) : list Z :=
  [hex_digit (b / 16); hex_digit (b mod 16)] ++
  (if i <? n - 1 then if (i + 1) mod 16 =? 0 then 10 :: bytes_of "        " else [32] else []).

Fixpoint hex_cells (n i : Z) (l : list Z) : list Z :=
  match l with [] => [] | b :: l => hex_cell n i b ++ hex_cells n (i + 1) l end.

Definition hexdump (l : list Z) : list Z := hex_cells (Z.of_nat (length l)) 0 l ++ [10].

(** ** Evidence: three layers in an array, each a tagged COSE_Sign1 *)

Record layer := Layer {
  l_tags : list Z;             (* the tags around the array *)
  l_protected : list Z;        (* the protected header, a byte string *)
  l_pairs : Z;                 (* the unprotected header: a map of that many pairs *)
  l_unprotected : list Z;      (* and the encoding of its keys and values *)
  l_payload : option (list Z); (* a byte string, or detached *)
  l_signature : list Z;        (* a byte string *)
}.

Definition wf_layer (l : layer) : Prop :=
  Forall (in_u 64) (l_tags l) /\ items (2 * l_pairs l) (l_unprotected l).

Definition len (s : list Z) : Z := Z.of_nat (length s).
Definition enc_bstr (s : list Z) : list Z := enc_head CBOR_MT_BSTR (len s) ++ s.

Definition enc_heads (hs : list (Z * Z)) : list Z := concat ((fun h => enc_head h.1 h.2) <$> hs).
Definition heads (tags : list Z) : list (Z * Z) := ((fun v => (CBOR_MT_TAG, v)) <$> tags) ++ [(CBOR_MT_ARRAY, 4)].

Definition enc_payload (p : option (list Z)) : list Z :=
  match p with Some s => enc_bstr s | None => enc_head CBOR_MT_SIMPLE CBOR_SV_NULL end.

Definition enc_open (l : layer) : list Z :=
  enc_heads (heads (l_tags l)) ++ enc_bstr (l_protected l) ++
  (enc_head CBOR_MT_MAP (l_pairs l) ++ l_unprotected l) ++ enc_payload (l_payload l).

Definition enc_layer (l : layer) : list Z := enc_open l ++ enc_bstr (l_signature l).

Definition evidence (a b c : layer) : list Z :=
  enc_head CBOR_MT_ARRAY 3 ++ enc_layer a ++ enc_layer b ++ enc_layer c.

(** ** The transcript *)

Definition tag_report (v : Z) : list Z :=
  bytes_of "    [Info] Tag: " ++ dec v ++ (if v =? CBOR_TAG_COSE_SIGN1 then bytes_of " (COSE_Sign1)" else []) ++ [10].

Definition payload_report (i : Z) (p : option (list Z)) : list Z :=
  match p with
  | None => line "    Payload: [NULL] (Detached content)"
  | Some s =>
      bytes_of "    Payload: " ++ dec (len s) ++ line " bytes" ++
      (if (i =? 2) && (0 <? len s) then bytes_of "    Preview: " ++ hexdump (take 16 s) else [])
  end.

Definition signature_report (n : Z) : list Z := bytes_of "    Signature: " ++ dec n ++ line " bytes".

Definition rule_line : list Z := line "  --------------------------------------------------".

Definition layer_name (i : Z) : list Z :=
  if i =? 0 then bytes_of "Platform" else if i =? 1 then bytes_of "TSM     " else bytes_of "TVM     ".

(** What a layer prints, up to its signature. *)
Definition open_report (i : Z) (l : layer) : list Z :=
  rule_line ++ bytes_of "  Layer: " ++ layer_name i ++ [10] ++
  concat (tag_report <$> l_tags l) ++ payload_report i (l_payload l).

Definition layer_report (i : Z) (l : layer) : list Z :=
  open_report i l ++ signature_report (len (l_signature l)).

Definition evidence_report (a b c : layer) : list Z :=
  line "[GUEST] Parsing Evidence CBOR..." ++
  layer_report 0 a ++ layer_report 1 b ++ layer_report 2 c ++ rule_line.

Lemma len_app (a b : list Z) : len (a ++ b) = len a + len b.
Proof. unfold len. rewrite length_app. lia. Qed.

Lemma len_nonneg (a : list Z) : 0 <= len a.
Proof. unfold len. lia. Qed.

(** ** Running the guest on a buffer *)

Section Run.
Context {W : Type} `{DebugConsole W statics}.
Context (buf : list Z).

Definition steps {A : Type} (m : ST (W * statics) A) (out : list Z) (a : A) : Prop :=
  forall s, CERT_BUFFER s.2 = buf -> wp m (fun a' s' => a' = a /\ printed out s s') s.

Lemma steps_ret {A} (a : A) : steps (mret a) [] a.
Proof. intros s _. apply wp_ret. split; [done|apply printed_refl]. Qed.

Lemma steps_bind {A B} (m : ST (W * statics) A) (k : A -> ST (W * statics) B) (o o' : list Z) (a : A) (b : B) :
  steps m o a -> steps (k a) o' b -> steps (m ≫= k) (o ++ o') b.
Proof.
  intros Hm Hk s Hs. apply wp_bind. eapply wp_mono; [by apply Hm|]. intros a' s' (-> & Hp).
  eapply wp_mono; [apply Hk|].
  - destruct Hp as [-> _]. done.
  - intros b' s'' (-> & Hp'). split; [done|]. by eapply printed_trans.
Qed.

Lemma steps_eq {A} (m : ST (W * statics) A) (o o' : list Z) (a a' : A) :
  steps m o a -> o = o' -> a = a' -> steps m o' a'.
Proof. by intros Hs <- <-. Qed.

Lemma steps_lift {A} (o : outcome A) (a : A) : o = Ok a -> steps (lift o) [] a.
Proof. intros -> s _. apply wp_lift. split; [done|apply printed_refl]. Qed.

(** Code that first looks at the buffer. *)
Lemma steps_buffer {A} (f : list Z -> ST (W * statics) A) (o : list Z) (a : A) :
  steps (f buf) o a -> steps (s ← st_get; f (CERT_BUFFER s.2)) o a.
Proof.
  intros Hf s Hs. apply wp_bind, wp_get. rewrite Hs. by apply Hf.
Qed.

Lemma steps_putc (c : Z) : in_u 8 c -> steps (sbi_putc c) [c] tt.
Proof.
  intros Hc [w m] _. destruct (write_byte c w m Hc) as ([r0 r1] & w' & E & HC).
  unfold SBI_EXT_DBCN_CONSOLE_WRITE_BYTE in E.
  unfold wp, sbi_putc, sbi_call, mbind, ST_bind. rewrite E. simpl. split; [done|]. by split.
Qed.

(** ** Printing *)

Lemma steps_str (bs rest : list Z) :
  Forall (fun c => 1 <= c < 256) bs -> steps (print_str (bs ++ 0 :: rest)) bs tt.
Proof.
  induction 1 as [|c bs Hc Hbs IH]; [apply steps_ret|].
  change (print_str _) with (if c =? 0 then mret tt else sbi_putc (W := W) c;; print_str (bs ++ 0 :: rest)).
  destruct (Z.eqb_spec c 0); [lia|].
  eapply (steps_bind _ _ [c]); [apply steps_putc; unfold in_u; lia|exact IH].
Qed.

Lemma steps_digits (l : list Z) : bytes l -> steps (put_digits l) l tt.
Proof.
  induction 1 as [|c l Hc Hl IH]; [apply steps_ret|].
  simpl. eapply (steps_bind _ _ [c]); [by apply steps_putc|exact IH].
Qed.

Lemma uint_digits_spec (room n : nat) (v : Z) (acc : list Z) :
  0 < v < 10 ^ Z.of_nat n -> (n <= room)%nat -> uint_digits room v acc = Ok (dec_n n v ++ acc).
Proof.
  revert room v acc. induction n as [|n IH]; intros room v acc Hv Hr; [simpl in Hv; lia|].
  destruct room as [|room]; [lia|]. simpl. destruct (Z.leb_spec v 0); [lia|].
  pose proof (Z.mod_pos_bound v 10 ltac:(lia)). rewrite (uwrap_small 8) by (unfold in_u; lia).
  rewrite Nat2Z.inj_succ, Z.pow_succ_r in Hv by lia. destruct (Z.ltb_spec v 10).
  - rewrite Z.mod_small, Z.div_small by lia. rewrite Z.add_comm. by destruct room.
  - rewrite IH, <- (assoc_L (++)), Z.add_comm; [done| |lia].
    split; [apply Z.div_str_pos; lia|apply Z.div_lt_upper_bound; lia].
Qed.

Lemma dec_n_bytes (n : nat) (v : Z) : 0 <= v -> Forall (fun c => 1 <= c < 256) (dec_n n v).
Proof.
  revert v. induction n as [|n IH]; intros v Hv; simpl; [constructor|].
  pose proof (Z.mod_pos_bound v 10 ltac:(lia)). destruct (Z.ltb_spec v 10).
  - repeat constructor; lia.
  - apply Forall_app. split; [apply IH, Z.div_pos; lia|repeat constructor; lia].
Qed.

Lemma steps_uint (v : Z) : in_u 64 v -> steps (print_uint v) (dec v) tt.
Proof.
  intros Hv. unfold print_uint. destruct (Z.eqb_spec v 0) as [-> |].
  { apply (steps_str [48] []). repeat constructor; lia. }
  assert (bytes (dec v)) as Hb.
  { eapply Forall_impl; [exact (dec_n_bytes 20 v (proj1 Hv))|]. intros c Hc. simpl in Hc. unfold in_u. lia. }
  apply (steps_bind _ _ [] (dec v) (dec v) tt); [|by apply steps_digits].
  apply steps_lift. rewrite (uint_digits_spec 21 20), app_nil_r; [done| |lia].
  unfold in_u in Hv. change (10 ^ Z.of_nat 20) with (10 ^ 20). lia.
Qed.

Definition printable (l : list Z) : bool := forallb (fun c => (1 <=? c) && (c <? 256)) l.

Lemma steps_cstr (l : list Z) : printable l = true -> steps (print_str (l ++ [0])) l tt.
Proof.
  intros Hl. apply steps_str. rewrite Forall_forall. intros c Hc%list_elem_of_In.
  unfold printable in Hl. rewrite forallb_forall in Hl. apply Hl, andb_true_iff in Hc as [? ?]. lia.
Qed.

Lemma steps_if (b : bool) (m : ST (W * statics) unit) (o : list Z) :
  steps m o tt -> steps (if b then m else mret tt) (if b then o else []) tt.
Proof. destruct b; [done|]. intros _. apply steps_ret. Qed.
End Run.

(** Runs one printing step of a [steps] goal, given the proof of the step. *)
Ltac lit := first
  [ apply (steps_cstr _ (bytes_of _)); vm_compute; reflexivity
  | apply (steps_cstr _ (line _)); vm_compute; reflexivity
  | apply (steps_cstr _ [10]); reflexivity
  | apply (steps_cstr _ (10 :: bytes_of _)); vm_compute; reflexivity
  | apply (steps_cstr _ (10 :: line _)); vm_compute; reflexivity ].
Ltac outs := rewrite <- ?app_assoc, ?app_nil_r; reflexivity.

Section Parse.
Context {W : Type} `{DebugConsole W statics}.
Context (cert : Z) (buf : list Z).
Context (Hcert : 0 <= cert) (Hlen : Z.of_nat (length buf) = CERT_SIZE)
        (Htop : cert + CERT_SIZE <= 2 ^ 63) (Hbuf : bytes buf).

Abbreviation steps := (steps buf).
Abbreviation at_ := (at_ cert buf).

Lemma Htop' : cert + Z.of_nat (length buf) <= 2 ^ 63.
Proof. rewrite Hlen. exact Htop. Qed.

Lemma at_small (p : Z) (l : list Z) : at_ p l -> cert <= p /\ p + len l <= cert + CERT_SIZE.
Proof. intros Hat. rewrite <- Hlen. exact (at_range _ _ _ _ Hat). Qed.

Lemma steps_load (p x : Z) (l : list Z) : at_ p (x :: l) -> steps (load cert p) [] x.
Proof. intros Hat. apply (steps_buffer buf (fun b => lift (ld cert b p))), steps_lift. by eapply ld_at. Qed.

Lemma hex_get (d : Z) : 0 <= d < 16 -> aget hex d = Ok (hex_digit d) /\ in_u 8 (hex_digit d).
Proof.
  intros Hd. split.
  - pose proof (allb_spec 16 (fun d => bool_decide (aget hex d = Ok (hex_digit d))) d ltac:(by vm_compute) Hd) as E.
    by apply bool_decide_eq_true in E.
  - unfold hex_digit, in_u. zcases; lia.
Qed.

Lemma steps_hex_byte (p i x : Z) (l : list Z) (n : Z) :
  at_ (p + i) (x :: l) -> cert <= p -> 0 <= i < n -> n <= CERT_SIZE ->
  steps (print_hex_byte cert p n i) (hex_cell n i x) tt.
Proof.
  intros Hat Hp Hi Hn. pose proof (at_small _ _ Hat) as R. pose proof (at_bytes _ _ Hbuf _ _ Hat) as Hx.
  apply Forall_inv in Hx. unfold in_u in Hx. change (2 ^ 8) with 256 in Hx. unfold len in R. simpl length in R.
  unfold CERT_SIZE in *.
  assert (Z.land (Z.shiftr x 4) 0xF = x / 16) as Ehi.
  { rewrite Z.shiftr_div_pow2 by lia. change 0xF with (Z.ones 4). rewrite Z.land_ones by lia.
    apply Z.mod_small. split; [apply Z.div_pos; lia|apply Z.div_lt_upper_bound; simpl; lia]. }
  assert (Z.land x 0xF = x mod 16) as Elo by (change 0xF with (Z.ones 4); by apply Z.land_ones).
  destruct (hex_get (x / 16)) as [Ghi Bhi]; [split; [apply Z.div_pos|apply Z.div_lt_upper_bound]; lia|].
  destruct (hex_get (x mod 16)) as [Glo Blo]; [by apply Z.mod_pos_bound|].
  unfold print_hex_byte. rewrite !uwrap_small by (unfold in_u; lia).
  eapply (steps_bind buf _ _ []); [by eapply steps_load|]. rewrite Ehi.
  eapply (steps_bind buf _ _ []); [by apply steps_lift|].
  eapply (steps_bind buf _ _ [_]); [by apply steps_putc|].
  eapply (steps_bind buf _ _ []); [by eapply steps_load|]. rewrite Elo.
  eapply (steps_bind buf _ _ []); [by apply steps_lift|].
  eapply (steps_bind buf _ _ [_]); [by apply steps_putc|].
  destruct (Z.ltb_spec i (n - 1)), (Z.eqb_spec ((i + 1) mod 16) 0); simpl andb; cbv iota.
  - lit.
  - apply steps_putc. unfold in_u. lia.
  - apply steps_ret.
  - apply steps_ret.
Qed.

Lemma steps_hex_loop (p n i : Z) (l : list Z) :
  at_ (p + i) l -> cert <= p -> 0 <= i -> i + len l = n -> n <= CERT_SIZE ->
  steps (print_hex_loop cert (length l) p n i) (hex_cells n i l) tt.
Proof.
  unfold len. revert i. induction l as [|x l IH]; intros i Hat Hp Hi Hn Hc; [apply steps_ret|].
  simpl length in *. simpl print_hex_loop.
  change (hex_cells n i (x :: l)) with (hex_cell n i x ++ hex_cells n (i + 1) l).
  eapply (steps_bind buf); [eapply steps_hex_byte; [done..|lia|done]|].
  apply IH; [|done|lia|lia|done]. destruct (at_app _ _ (p + i) [x] l Hat) as [_ Ht]. by rewrite Z.add_assoc.
Qed.

Lemma steps_hex (p : Z) (l : list Z) : at_ p l -> steps (print_hex cert p (len l)) (hexdump l) tt.
Proof.
  intros Hat. pose proof (at_small _ _ Hat) as R. unfold print_hex.
  eapply (steps_bind buf); [|lit]. unfold len at 1. rewrite Nat2Z.id.
  apply steps_hex_loop; [by rewrite Z.add_0_r|lia|lia|done|unfold len in *; lia].
Qed.

(** ** Fields *)

Lemma steps_head (p end_ mt v m0 v0 : Z) :
  0 <= mt < 8 -> in_u 64 v -> at_ p (enc_head mt v) -> p + len (enc_head mt v) <= end_ ->
  steps (read_head cert p end_ m0 v0) [] (0, p + len (enc_head mt v), mt, v).
Proof.
  intros Hmt Hv Hat Hend. apply (steps_buffer buf (fun b => lift (cbor_read_head cert b p end_ m0 v0))), steps_lift.
  apply read_head_complete; [done|apply Htop'|done|by apply enc_head_of|done|done].
Qed.

Lemma at_cut (p : Z) (a b : list Z) : at_ p (a ++ b) -> at_ p a /\ at_ (p + len a) b.
Proof. apply at_app. Qed.

(** The length of bytes in the buffer is a 64-bit number, and so is the end. *)
Lemma at_len64 (p : Z) (l : list Z) : at_ p l -> in_u 64 (len l) /\ u64 (p + len l) = p + len l.
Proof.
  intros Hat. pose proof (at_small _ _ Hat). pose proof (len_nonneg l). unfold CERT_SIZE in *.
  split; [|apply uwrap_small]; unfold in_u; lia.
Qed.

Lemma steps_tags (ts : list Z) : forall fuel p end_ mt v rest,
  (mt, v) :: rest = heads ts -> Forall (in_u 64) ts -> (length ts <= fuel)%nat ->
  at_ p (enc_heads rest) -> p + len (enc_heads rest) <= end_ ->
  steps (tag_loop cert fuel end_ p mt v) (concat (tag_report <$> ts)) (Some (p + len (enc_heads rest), CBOR_MT_ARRAY, 4)).
Proof.
  induction ts as [|t ts IH]; intros fuel p end_ mt v rest Hrest Hts Hf Hat Hend.
  { injection Hrest as -> -> ->. destruct fuel; simpl tag_loop;
      (eapply steps_eq; [apply steps_ret|done|]; unfold enc_heads, len; simpl; by rewrite Z.add_0_r). }
  injection Hrest as -> -> Er. inversion_clear Hts as [|? ? Ht Hts']. destruct fuel as [|fuel]; [simpl in Hf; lia|].
  assert (rest = heads ts) as -> by exact Er. clear Er.
  destruct (heads ts) as [|[mt v] rest'] eqn:Eh; [by destruct ts|].
  change (enc_heads ((mt, v) :: rest')) with (enc_head mt v ++ enc_heads rest') in *.
  destruct (at_cut _ _ _ Hat) as [Hat1 Hat2]. rewrite len_app in *. pose proof (len_nonneg (enc_heads rest')).
  assert (0 <= mt < 8 /\ in_u 64 v) as [Hmt Hv].
  { destruct ts as [|t' ts']; injection Eh as <- <- _; [by unfold in_u|]. by inversion_clear Hts'. }
  simpl tag_loop. eapply steps_eq.
  - eapply steps_bind; [lit|]. eapply steps_bind; [by apply steps_uint|].
    eapply steps_bind; [apply steps_if; lit|]. eapply steps_bind; [lit|].
    eapply steps_bind; [apply (steps_head p end_ mt v); [done..|lia]|]. simpl.
    apply (IH fuel _ end_ mt v rest'); [done|done|simpl in Hf; lia|done|lia].
  - simpl fmap. simpl concat. unfold tag_report. outs.
  - do 3 f_equal. lia.
Qed.

Lemma skip_pairs_n (m : Z) (b : list Z) : items m b -> forall i p end_,
  at_ p b -> p + len b <= end_ -> 0 <= i -> i + m < 2 ^ 31 ->
  oloop_n (Z.to_nat m) i (skip_pair cert buf end_) p = Ok (p + len b).
Proof.
  induction 1 as [|m a b Hm Ha Hb IH]; intros i p end_ Hat Hend Hi Hk.
  { simpl. by rewrite Z.add_0_r. }
  replace (Z.to_nat (m + 1)) with (S (Z.to_nat m)) by lia. cbn [oloop_n].
  pose proof (at_small _ _ Hat) as R. destruct (at_cut _ _ _ Hat) as [Hata Hatb]. rewrite len_app in *.
  pose proof (len_nonneg a). pose proof (len_nonneg b).
  assert (skip_pair cert buf end_ i p = Ok (p + len a)) as ->.
  { unfold skip_pair. rewrite (proj1 (skip_complete cert buf Hcert Htop' Hbuf) a Ha) by
      (pose proof skip_bound_eq; unfold len, CERT_SIZE in *; done || lia).
    unfold mbind, outcome_bind. destruct (Z.eqb_spec i (2 ^ 31 - 1)); [lia|done]. }
  simpl. rewrite IH; [f_equal; unfold len; lia|done|unfold len in *; lia|lia|lia].
Qed.

Lemma skip_pairs_spec (n p end_ : Z) (b : list Z) :
  items (2 * n) b -> at_ p b -> p + len b <= end_ -> skip_pairs cert buf end_ p n = Ok (p + len b).
Proof.
  intros Hb Hat Hend. pose proof (items_length _ _ Hb). pose proof (at_small _ _ Hat). unfold len, CERT_SIZE in *.
  unfold skip_pairs, oloop. rewrite Z.mul_comm, (uwrap_small 64), Z.sub_0_r by (unfold in_u; lia).
  apply skip_pairs_n; [done|done|done|lia|lia].
Qed.

(** A byte string in the buffer, read by its head. *)
Lemma at_bstr (p end_ : Z) (s : list Z) :
  at_ p (enc_bstr s) -> p + len (enc_bstr s) <= end_ ->
  (forall m0 v0, steps (read_head cert p end_ m0 v0) [] (0, p + len (enc_head CBOR_MT_BSTR (len s)), CBOR_MT_BSTR, len s)) /\
  at_ (p + len (enc_head CBOR_MT_BSTR (len s))) s /\
  u64 (p + len (enc_head CBOR_MT_BSTR (len s)) + len s) = p + len (enc_bstr s) /\ in_u 64 (len s).
Proof.
  unfold enc_bstr. intros Hat Hend. destruct (at_cut _ _ _ Hat) as [Hh Hs]. rewrite len_app in *.
  destruct (at_len64 _ _ Hs) as [H64 E]. pose proof (len_nonneg s). split_and!; [|done|lia|done].
  intros m0 v0. apply steps_head; [done|done|done|lia].
Qed.

Lemma steps_protected (p end_ m0 v0 : Z) (s : list Z) :
  at_ p (enc_bstr s) -> p + len (enc_bstr s) <= end_ ->
  steps (field_protected cert end_ p m0 v0) [] (Some (p + len (enc_bstr s), CBOR_MT_BSTR, len s)).
Proof.
  intros Hat Hend. destruct (at_bstr _ _ _ Hat Hend) as (Hr & _ & E & _).
  eapply (steps_bind _ _ _ [] []); [apply Hr|]. simpl. rewrite E. apply steps_ret.
Qed.

Lemma steps_unprotected (p end_ m0 v0 n : Z) (b : list Z) :
  items (2 * n) b -> at_ p (enc_head CBOR_MT_MAP n ++ b) -> p + len (enc_head CBOR_MT_MAP n ++ b) <= end_ ->
  steps (field_unprotected cert end_ p m0 v0) [] (Some (p + len (enc_head CBOR_MT_MAP n ++ b), CBOR_MT_MAP, n)).
Proof.
  intros Hb Hat Hend. destruct (at_cut _ _ _ Hat) as [Hh Hs]. rewrite len_app in *. pose proof (len_nonneg b).
  pose proof (items_length _ _ Hb). pose proof (at_small _ _ Hs). unfold CERT_SIZE in *.
  eapply (steps_bind _ _ _ [] []); [apply (steps_head p end_ CBOR_MT_MAP n); [done|unfold in_u, len in *; lia|done|lia]|].
  simpl. apply (steps_buffer buf (fun b => curr ← lift (skip_pairs cert b end_ _ n); mret (Some (curr, CBOR_MT_MAP, n)))).
  eapply (steps_bind _ _ _ [] []); [apply steps_lift, skip_pairs_spec; [done|done|lia]|].
  eapply steps_eq; [apply steps_ret|done|]. do 3 f_equal. lia.
Qed.

Lemma steps_signature (p end_ m0 v0 : Z) (s : list Z) :
  at_ p (enc_bstr s) -> p + len (enc_bstr s) <= end_ ->
  steps (field_signature cert end_ p m0 v0) (signature_report (len s)) (Some (p + len (enc_bstr s), CBOR_MT_BSTR, len s)).
Proof.
  intros Hat Hend. destruct (at_bstr _ _ _ Hat Hend) as (Hr & _ & E & H64).
  eapply (steps_bind _ _ _ []); [apply Hr|]. simpl. rewrite E. eapply steps_eq.
  - eapply steps_bind; [lit|]. eapply steps_bind; [by apply steps_uint|]. eapply steps_bind; [lit|]. apply steps_ret.
  - unfold signature_report. outs.
  - done.
Qed.

Lemma steps_payload (i p end_ m0 v0 : Z) (pl : option (list Z)) :
  end_ <= cert + CERT_SIZE -> at_ p (enc_payload pl) -> p + len (enc_payload pl) <= end_ ->
  exists mt v, steps (field_payload cert i end_ p m0 v0) (payload_report i pl) (Some (p + len (enc_payload pl), mt, v)) /\
    (forall s, pl = Some s -> mt = CBOR_MT_BSTR /\ v = len s).
Proof.
  intros Htop' Hat Hend. destruct pl as [s|]; simpl enc_payload in *.
  - destruct (at_bstr _ _ _ Hat Hend) as (Hr & Hs & E & H64). exists CBOR_MT_BSTR, (len s). split; [|naive_solver].
    eapply (steps_bind _ _ _ []); [apply Hr|]. simpl. rewrite E. eapply steps_eq.
    + eapply steps_bind; [lit|]. eapply steps_bind; [by apply steps_uint|]. eapply steps_bind; [lit|].
      destruct (Z.ltb_spec end_ (p + len (enc_bstr s))); [lia|].
      eapply steps_bind; [|apply steps_ret]. apply steps_if. eapply steps_bind; [lit|].
      destruct (at_cut (p + len (enc_head CBOR_MT_BSTR (len s))) (take 16 s) (drop 16 s)) as [Hpre _]; [by rewrite take_drop|].
      replace (if 16 <? len s then 16 else len s) with (len (take 16 s)); [by apply steps_hex|].
      unfold len. rewrite length_take. destruct (Z.ltb_spec 16 (Z.of_nat (length s))); lia.
    + unfold payload_report. outs.
    + done.
  - exists CBOR_MT_SIMPLE, CBOR_SV_NULL. split; [|done].
    eapply (steps_bind _ _ _ []); [apply (steps_head p end_ CBOR_MT_SIMPLE CBOR_SV_NULL); done|]. simpl. eapply steps_eq.
    + eapply steps_bind; [lit|apply steps_ret].
    + unfold payload_report. outs.
    + done.
Qed.

Lemma steps_and_then (m : ST (W * statics) (option (Z * Z * Z))) k (o o' : list Z) (c mt v : Z) r :
  steps m o (Some (c, mt, v)) -> steps (k c mt v) o' r -> steps (and_then m k) (o ++ o') r.
Proof. intros Hm Hk. eapply steps_bind; [exact Hm|exact Hk]. Qed.

Lemma enc_head_len (mt v : Z) : 1 <= len (enc_head mt v).
Proof. unfold enc_head, len. zcases; simpl length; lia. Qed.

Lemma heads_len (ts : list Z) : Z.of_nat (length ts) < len (enc_heads (heads ts)).
Proof.
  induction ts as [|t ts IH]; [done|]. change (enc_heads (heads (t :: ts))) with (enc_head CBOR_MT_TAG t ++ enc_heads (heads ts)).
  rewrite len_app. pose proof (enc_head_len CBOR_MT_TAG t). simpl length. lia.
Qed.

Lemma steps_name (i : Z) : 0 <= i < 3 -> exists name, aget names i = Ok (name ++ [0]) /\
  name = layer_name i /\ printable name = true.
Proof. intros Hi. assert (i = 0 \/ i = 1 \/ i = 2) as [-> |[-> | ->]] by lia; by eexists. Qed.

(** The opening of a layer: the rule, the name, the tags and the array. *)
Lemma steps_open (i p end_ m0 v0 : Z) (ts : list Z) (k : Z -> Z -> Z -> ST (W * statics) (option (Z * Z * Z)))
    (o : list Z) r :
  0 <= i < 3 -> Forall (in_u 64) ts -> at_ p (enc_heads (heads ts)) -> p + len (enc_heads (heads ts)) <= end_ ->
  end_ <= cert + CERT_SIZE ->
  (forall item_start, steps (and_then (cose_array cert item_start (p + len (enc_heads (heads ts))) CBOR_MT_ARRAY 4) k) o r) ->
  steps (print_str rule;; print_str (cstr "  Layer: ");; name ← lift (aget names i); print_str name;; print_str [10; 0];;
         '(r, curr, mt, val) ← read_head cert p end_ m0 v0;
         if negb (r =? 0) then print_str (cline "    Err: Unexpected End");; mret None else
         and_then (tag_loop cert skip_bound end_ curr mt val) (fun curr mt val => and_then (cose_array cert p curr mt val) k))
    (rule_line ++ bytes_of "  Layer: " ++ layer_name i ++ [10] ++ concat (tag_report <$> ts) ++ o) r.
Proof.
  intros Hi Hts Hat Hend Htop0 Hk. destruct (steps_name i Hi) as (name & Ename & En & Pn). subst name.
  pose proof (heads_len ts) as Hh. pose proof (at_small _ _ Hat) as R. pose proof skip_bound_eq as Hsb.
  destruct (heads ts) as [|[mt v] hs] eqn:Eh; [by destruct ts|].
  change (enc_heads ((mt, v) :: hs)) with (enc_head mt v ++ enc_heads hs) in *.
  destruct (at_cut _ _ _ Hat) as [Hat1 Hat2]. rewrite len_app in *. pose proof (len_nonneg (enc_heads hs)).
  assert (0 <= mt < 8 /\ in_u 64 v) as [Hmt Hv].
  { destruct ts as [|t' ts']; injection Eh as <- <- _; [by unfold in_u|]. by inversion_clear Hts. }
  eapply steps_bind; [apply (steps_cstr _ rule_line); reflexivity|]. eapply steps_bind; [lit|].
  eapply (steps_bind _ _ _ []); [by apply steps_lift|]. eapply steps_bind; [by apply steps_cstr|].
  eapply steps_bind; [lit|].
  eapply (steps_bind _ _ _ []); [apply (steps_head p end_ mt v); [done..|lia]|]. simpl.
  eapply steps_and_then; [apply (steps_tags ts skip_bound _ end_ mt v hs); [done|done|unfold CERT_SIZE in *; lia|done|lia]|].
  rewrite <- Z.add_assoc. apply Hk.
Qed.

Lemma steps_layer (i p end_ m0 v0 : Z) (l : layer) (o : list Z) r :
  0 <= i < 3 -> wf_layer l -> end_ <= cert + CERT_SIZE -> at_ p (enc_open l) -> p + len (enc_open l) <= end_ ->
  (forall mt v, (forall s, l_payload l = Some s -> mt = CBOR_MT_BSTR /\ v = len s) ->
     steps (field_signature cert end_ (p + len (enc_open l)) mt v) o r) ->
  steps (parse_layer cert i end_ p m0 v0) (open_report i l ++ o) r.
Proof.
  intros Hi [Hts Hit] Htop0 Hat Hend Hsig. unfold enc_open in *.
  destruct (at_cut _ _ _ Hat) as [Hat1 Hat2]. destruct (at_cut _ _ _ Hat2) as [Hat3 Hat4].
  destruct (at_cut _ _ _ Hat4) as [Hat5 Hat6].
  set (A := enc_heads (heads (l_tags l))) in *. set (B := enc_bstr (l_protected l)) in *.
  set (C := enc_head CBOR_MT_MAP (l_pairs l) ++ l_unprotected l) in *. set (D := enc_payload (l_payload l)) in *.
  rewrite (len_app A), (len_app B), (len_app C) in Hend, Hsig.
  pose proof (len_nonneg B). pose proof (len_nonneg C). pose proof (len_nonneg D).
  eapply steps_eq; [|unfold open_report; outs|done]. unfold parse_layer.
  eapply (steps_open i p end_ m0 v0 (l_tags l)); [done|done|done|fold A; lia|done|]. intros item_start. fold A.
  eapply (steps_and_then _ _ []); [apply steps_ret|]. cbv beta.
  eapply (steps_and_then _ _ []); [apply (steps_protected _ _ _ _ (l_protected l)); [done|fold B; lia]|]. fold B.
  eapply (steps_and_then _ _ []); [apply (steps_unprotected _ _ _ _ (l_pairs l) (l_unprotected l)); [done|done|fold C; lia]|]. fold C.
  destruct (steps_payload i (p + len A + len B + len C) end_ CBOR_MT_MAP (l_pairs l) (l_payload l)) as (mt & v & Hp & Hmv);
    [done|done|fold D; lia|]. fold D in Hp.
  eapply steps_and_then; [exact Hp|]. replace (p + len A + len B + len C + len D) with (p + (len A + (len B + (len C + len D)))) by lia.
  by apply Hsig.
Qed.

Lemma steps_layer_full (i p end_ m0 v0 : Z) (l : layer) :
  0 <= i < 3 -> wf_layer l -> end_ <= cert + CERT_SIZE -> at_ p (enc_layer l) -> p + len (enc_layer l) <= end_ ->
  steps (parse_layer cert i end_ p m0 v0) (layer_report i l)
    (Some (p + len (enc_layer l), CBOR_MT_BSTR, len (l_signature l))).
Proof.
  intros Hi Hl Htop0 Hat Hend. unfold enc_layer in *. destruct (at_cut _ _ _ Hat) as [Hat1 Hat2].
  rewrite len_app in *. pose proof (len_nonneg (enc_bstr (l_signature l))).
  apply steps_layer; [done|done|done|done|lia|]. intros mt v _.
  eapply steps_eq; [apply steps_signature; [exact Hat2|lia]|done|]. by rewrite Z.add_assoc.
Qed.

(** The two layers before the last one, and the frame around them. *)
Lemma steps_evidence (a b : layer) (n mt0 v0 : Z) (o : list Z) r :
  wf_layer a -> wf_layer b -> 0 <= n <= CERT_SIZE ->
  at_ cert (enc_head CBOR_MT_ARRAY 3 ++ enc_layer a ++ enc_layer b) ->
  len (enc_head CBOR_MT_ARRAY 3 ++ enc_layer a ++ enc_layer b) <= n ->
  (forall mt v, steps (parse_layer cert 2 (cert + n) (cert + len (enc_head CBOR_MT_ARRAY 3 ++ enc_layer a ++ enc_layer b)) mt v) o (Some r)) ->
  steps (parse_and_print_evidence cert cert n mt0 v0)
    (line "[GUEST] Parsing Evidence CBOR..." ++ layer_report 0 a ++ layer_report 1 b ++ o ++ rule_line) tt.
Proof.
  intros Ha Hb Hn Hat Hend Hlast. destruct (at_cut _ _ _ Hat) as [Hat1 Hat2]. destruct (at_cut _ _ _ Hat2) as [Hat3 Hat4].
  rewrite !len_app in *. pose proof (len_nonneg (enc_layer a)). pose proof (len_nonneg (enc_layer b)).
  unfold parse_and_print_evidence. rewrite uwrap_small by (unfold in_u, CERT_SIZE in *; lia).
  eapply steps_bind; [lit|].
  eapply (steps_bind _ _ _ []); [apply (steps_head cert (cert + n) CBOR_MT_ARRAY 3); [done|done|done|lia]|].
  change (negb (0 =? 0)) with false. change (negb (CBOR_MT_ARRAY =? CBOR_MT_ARRAY) || negb (3 =? 3)) with false. cbv beta iota.
  eapply (steps_eq _ _ _ _ tt).
  - eapply (steps_bind _ _ _ _ rule_line (Some r)); [|apply (steps_cstr _ rule_line); reflexivity].
    eapply steps_and_then; [apply steps_layer_full; [lia|exact Ha|lia|exact Hat3|lia]|].
    eapply steps_and_then; [apply steps_layer_full; [lia|exact Hb|lia|exact Hat4|lia]|].
    rewrite <- !Z.add_assoc. apply Hlast.
  - outs.
  - done.
Qed.

Lemma payload_len (l : layer) (s : list Z) : l_payload l = Some s -> len s <= len (enc_open l).
Proof.
  intros E. unfold enc_open, enc_payload, enc_bstr. rewrite E, !len_app.
  repeat match goal with |- context [len ?x] => lazymatch goal with _ : 0 <= len x |- _ => fail | _ => pose proof (len_nonneg x) end end.
  lia.
Qed.

Lemma steps_full (a b c : layer) (mt0 v0 : Z) :
  wf_layer a -> wf_layer b -> wf_layer c -> at_ cert (evidence a b c) ->
  steps (parse_and_print_evidence cert cert (len (evidence a b c)) mt0 v0) (evidence_report a b c) tt.
Proof.
  intros Ha Hb Hc. unfold evidence, evidence_report.
  replace (enc_head CBOR_MT_ARRAY 3 ++ enc_layer a ++ enc_layer b ++ enc_layer c) with
    ((enc_head CBOR_MT_ARRAY 3 ++ enc_layer a ++ enc_layer b) ++ enc_layer c) by (by rewrite <- !app_assoc).
  intros Hat. pose proof (at_small _ _ Hat) as R. destruct (at_cut _ _ _ Hat) as [Hat1 Hat2].
  rewrite (len_app (_ ++ _)) in *. pose proof (len_nonneg (enc_layer c)).
  pose proof (len_nonneg (enc_head CBOR_MT_ARRAY 3 ++ enc_layer a ++ enc_layer b)).
  eapply steps_evidence; [done|done|lia|done|lia|]. intros mt v.
  apply steps_layer_full; [lia|exact Hc|lia|exact Hat2|lia].
Qed.

(** Evidence without the last signature: the bytes end behind the payload. *)
Definition cut_evidence (a b c : layer) : list Z :=
  (enc_head CBOR_MT_ARRAY 3 ++ enc_layer a ++ enc_layer b) ++ enc_open c.

Lemma steps_cut_signature (p mt v : Z) :
  mt = CBOR_MT_BSTR -> in_u 64 v ->
  steps (field_signature cert p p mt v) (signature_report v) (Some (u64 (p + v), mt, v)).
Proof.
  intros -> Hv. eapply (steps_bind _ _ _ []).
  - apply (steps_buffer buf (fun b => lift (cbor_read_head cert b p p CBOR_MT_BSTR v))), steps_lift.
    unfold cbor_read_head. by rewrite Z.leb_refl.
  - simpl. eapply steps_eq.
    + eapply steps_bind; [lit|]. eapply steps_bind; [by apply steps_uint|]. eapply steps_bind; [lit|]. apply steps_ret.
    + unfold signature_report. outs.
    + done.
Qed.

Lemma steps_cut (a b c : layer) (mt0 v0 : Z) (s : list Z) :
  wf_layer a -> wf_layer b -> wf_layer c -> l_payload c = Some s -> at_ cert (cut_evidence a b c) ->
  steps (parse_and_print_evidence cert cert (len (cut_evidence a b c)) mt0 v0)
    (line "[GUEST] Parsing Evidence CBOR..." ++ layer_report 0 a ++ layer_report 1 b ++
     (open_report 2 c ++ signature_report (len s)) ++ rule_line) tt.
Proof.
  intros Ha Hb Hc Hs Hat. unfold cut_evidence in *. pose proof (at_small _ _ Hat) as R.
  destruct (at_cut _ _ _ Hat) as [Hat1 Hat2]. destruct (at_len64 _ _ Hat) as [[L _] _].
  rewrite (len_app (_ ++ _)) in *. pose proof (len_nonneg (enc_open c)).
  eapply steps_evidence; [done|done|lia|done|lia|]. intros mt v.
  apply steps_layer; [lia|done|lia|exact Hat2|lia|]. intros mt' v' Hmv. destruct (Hmv s Hs) as [-> ->].
  rewrite Z.add_assoc. apply steps_cut_signature; [done|].
  pose proof (payload_len c s Hs). pose proof (len_nonneg s). unfold in_u, CERT_SIZE in *.
  pose proof (len_nonneg (enc_head CBOR_MT_ARRAY 3 ++ enc_layer a ++ enc_layer b)). lia.
Qed.
End Parse.

(** ** The whole guest *)

Lemma fill_spec (n x : Z) (l : list Z) :
  0 <= n -> len l = n -> oloop 0 n (fun i c => aset c i x) l = Ok (replicate (Z.to_nat n) x).
Proof.
  intros Hn Hl.
  pose proof (oloop_inv 0 n (fun i c => aset c i x)
    (fun i c => len c = n /\ take (Z.to_nat i) c = replicate (Z.to_nat i) x) l Hn) as Hinv.
  apply owp_ok in Hinv as (c & -> & Hc & Ht); [|done|].
  - f_equal. rewrite <- Ht. symmetry. apply take_ge. unfold len in Hc. lia.
  - intros j c Hj [Hc Ht]. unfold len in Hc. rewrite aset_in_range by lia. split; [unfold len; by rewrite length_insert|].
    replace (Z.to_nat (j + 1)) with (S (Z.to_nat j)) by lia.
    rewrite (take_S_r _ _ x) by (rewrite list_lookup_insert_eq; [done|lia]).
    rewrite take_insert_ge, Ht by lia. by rewrite replicate_S_end.
Qed.

Definition intro : list Z :=
  (10 :: line "==========================================") ++ line "[GUEST] TVM Started. Initializing Test...".
Definition prepared : list Z := line "[GUEST] Challenge Data prepared (0xAA...)".
Definition invoking : list Z := line "[GUEST] Invoking SBI_COVG_GET_EVIDENCE...".
Definition received (n : Z) : list Z :=
  line "[GUEST] Success! Evidence received." ++ bytes_of "[GUEST] Total Size: " ++ dec n ++ line " bytes.".
Definition halting : list Z := line "[GUEST] Test Complete. Halting.".

(** Everything that is printed when [main] gets its evidence, [log] by the
    service during the call. *)
Definition main_report (log : list Z) (a b c : layer) : list Z :=
  intro ++ prepared ++ invoking ++ log ++ received (len (evidence a b c)) ++ evidence_report a b c ++
  line "[GUEST] Raw Dump:" ++ hexdump (evidence a b c) ++ halting.
#[local] Arguments main_report : simpl never.

(** The statics when the evidence is asked for. *)
Definition asked : statics := Statics (replicate 64 0xAA) (replicate 4096 0).

Section Main.
Context {W : Type} `{DebugConsole W statics}.
Context (challenge cert : Z).

(** The evidence service: the call succeeds, its value is the length of the
    evidence, which it has written to the start of the buffer; on the way it
    prints [log]. *)
Definition serves (ev log : list Z) : Prop :=
  forall w, exists w' rest,
    ecall (SbiArgs 0 0 challenge 0 cert CERT_SIZE SBI_EXT_COVG_GET_EVIDENCE_FID SBI_EXT_COVG) (w, asked) =
      ((0, len ev), (w', Statics (replicate 64 0xAA) (ev ++ rest))) /\
    console w' = console w ++ log /\ len (ev ++ rest) = CERT_SIZE /\ bytes (ev ++ rest).

Lemma steps_wp {A B} (m : ST (W * statics) A) (k : A -> ST (W * statics) B) (o : list Z) (a : A) (Q : B -> W * statics -> Prop) s :
  (forall buf, steps buf m o a) -> (forall s', printed o s s' -> wp (k a) Q s') -> wp (m ≫= k) Q s.
Proof.
  intros Hm Hk. apply wp_bind. eapply wp_mono; [by eapply Hm|]. intros a' s' (-> & Hp). by apply Hk.
Qed.

Lemma steps_result (a b c : layer) (rest : list Z) (mt0 v0 : Z) :
  0 <= cert -> cert + CERT_SIZE <= 2 ^ 63 -> wf_layer a -> wf_layer b -> wf_layer c ->
  len (evidence a b c ++ rest) = CERT_SIZE -> bytes (evidence a b c ++ rest) ->
  steps (evidence a b c ++ rest) (handle_result cert (Sbiret 0 (len (evidence a b c))) mt0 v0)
    (received (len (evidence a b c)) ++ evidence_report a b c ++ line "[GUEST] Raw Dump:" ++ hexdump (evidence a b c)) tt.
Proof.
  intros Hc Ht Ha Hb Hc' Hlen Hbuf. set (ev := evidence a b c) in *. set (buf := ev ++ rest) in *.
  assert (Cbor.at_ cert buf cert ev) as Hat by (by exists [], rest; split; [|simpl; lia]).
  destruct (at_len64 cert buf Hc Hlen Ht cert ev Hat) as [H64 _].
  unfold handle_result. simpl error. simpl value. change (negb (0 =? 0)) with false. cbv beta iota zeta.
  rewrite (uwrap_small 64 (len ev)) by done. eapply steps_eq.
  - eapply steps_bind; [lit|]. eapply steps_bind; [lit|]. eapply steps_bind; [by apply steps_uint|].
    eapply steps_bind; [lit|]. eapply steps_bind; [by apply (steps_full cert buf)|].
    eapply steps_bind; [lit|]. by apply steps_hex.
  - unfold received. outs.
  - done.
Qed.
End Main.

(** ** Claims *)

(** [C30] On a buffer that holds evidence of three COSE_Sign1 layers, each
    with any tags, protected header, unprotected map, payload (attached or
    detached) and signature, the parser returns, changes no memory and prints
    exactly the transcript: names, tags, sizes and the preview of the last
    payload, whatever its two uninitialised locals held. *)
Theorem evidence_parsed {W : Type} `{DebugConsole W statics} (cert mt0 v0 : Z) (a b c : layer) (rest : list Z) (s : W * statics) :
  0 <= cert -> cert + CERT_SIZE <= 2 ^ 63 -> wf_layer a -> wf_layer b -> wf_layer c ->
  CERT_BUFFER s.2 = evidence a b c ++ rest -> len (evidence a b c ++ rest) = CERT_SIZE -> bytes (evidence a b c ++ rest) ->
  exists s', parse_and_print_evidence cert cert (len (evidence a b c)) mt0 v0 s = Ok (tt, s') /\
    s'.2 = s.2 /\ console s'.1 = console s.1 ++ evidence_report a b c.
Proof.
  intros Hc Ht Ha Hb Hc' Hs Hlen Hbuf.
  assert (Cbor.at_ cert (evidence a b c ++ rest) cert (evidence a b c)) as Hat by (by exists [], rest; split; [|simpl; lia]).
  pose proof (steps_full cert _ Hc Hlen Ht Hbuf a b c mt0 v0 Ha Hb Hc' Hat s Hs) as Hw.
  apply wp_ok in Hw as ([] & s' & E & _ & Hm & Hp). by exists s'.
Qed.

(** A layer with a tag, a one-pair header and an attached payload. *)
Definition sample_layer : layer :=
  Layer [18] [1; 2; 3] 1 [0x04; 0x41; 0x05] (Some [7; 8]) [9; 9; 9; 9].

Lemma sample_layer_wf : wf_layer sample_layer.
Proof.
  split; [repeat constructor; unfold in_u; lia|]. change (2 * l_pairs sample_layer) with (0 + 1 + 1).
  apply (items_cons (0 + 1) [0x04] [0x41; 0x05]); [lia| |].
  - eapply item_int; [by left|]. by apply (head_imm 0 4).
  - apply (items_cons 0 [0x41; 0x05] []); [lia| |constructor].
    apply (item_str 2 1 [0x41] [0x05]); [by left|by apply (head_imm 2 1)|done].
Qed.

Definition sample_evidence : list Z := evidence sample_layer sample_layer sample_layer.
Definition sample_rest : list Z := replicate (Z.to_nat (CERT_SIZE - len sample_evidence)) 0.

Lemma sample_bytes : bytes (sample_evidence ++ sample_rest).
Proof.
  apply Forall_app. split.
  - apply Forall_forall. intros x Hx. revert x Hx. rewrite <- Forall_forall. change (bytes (evidence sample_layer sample_layer sample_layer)).
    vm_compute. repeat constructor; discriminate.
  - apply Forall_replicate. by unfold in_u.
Qed.

Lemma sample_len : len (sample_evidence ++ sample_rest) = CERT_SIZE.
Proof. unfold len, sample_rest. rewrite length_app, length_replicate. vm_compute. reflexivity. Qed.

(** The firmware of the witnesses serves the sample. *)
Definition put_cert (c : list Z) (m : statics) : statics := Statics (CHALLENGE m) (c ++ drop (length c) (CERT_BUFFER m)).
#[local] Instance sample_firmware : Firmware (list Z) statics := Reference.firmware put_cert sample_evidence.
#[local] Instance sample_console : DebugConsole (list Z) statics := Reference.debug_console put_cert sample_evidence.

Lemma evidence_parsed_witness :
  exists s', parse_and_print_evidence 0x80001000 0x80001000 (len sample_evidence) 0 0
      ([], Statics [] (sample_evidence ++ sample_rest)) = Ok (tt, s') /\
    s'.2 = Statics [] (sample_evidence ++ sample_rest) /\
    console s'.1 = evidence_report sample_layer sample_layer sample_layer.
Proof.
  destruct (evidence_parsed (W := list Z) 0x80001000 0 0 sample_layer sample_layer sample_layer sample_rest
    ([], Statics [] (sample_evidence ++ sample_rest))) as (s' & E & Hm & Hp);
    [lia|vm_compute; discriminate|apply sample_layer_wf..|reflexivity|apply sample_len|apply sample_bytes|].
  exists s'. split; [exact E|]. split; [exact Hm|exact Hp].
Defined.

(** [C31] The whole guest: if the evidence service answers with well-formed
    evidence, [main] reaches its final halt loop with the challenge filled,
    and has printed the introduction, then, after whatever the service has
    printed during the call, the size, the transcript of the evidence, its
    hexadecimal dump and the closing line. *)
Theorem main_reports {W : Type} `{DebugConsole W statics} (challenge cert mt0 v0 : Z) (a b c : layer) (log : list Z) (s : W * statics) :
  0 <= cert -> cert + CERT_SIZE <= 2 ^ 63 -> wf_layer a -> wf_layer b -> wf_layer c ->
  len (CHALLENGE s.2) = CHALLENGE_SIZE -> len (CERT_BUFFER s.2) = CERT_SIZE -> serves challenge cert (evidence a b c) log ->
  exists s', main challenge cert mt0 v0 s = Ok (tt, s') /\ CHALLENGE s'.2 = replicate 64 0xAA /\
    console s'.1 = console s.1 ++ main_report log a b c.
Proof.
  intros Hc Ht Ha Hb Hc' Hch Hce Hserve. destruct s as [w [ch ce]]. simpl in Hch, Hce.
  enough (wp (main challenge cert mt0 v0) (fun _ s' => CHALLENGE s'.2 = replicate 64 0xAA /\
    console s'.1 = console w ++ main_report log a b c) (w, Statics ch ce)) as Hw.
  { apply wp_ok in Hw as ([] & s' & E & Hw). by exists s'. }
  unfold main. eapply steps_wp; [intros; lit|]. intros [w1 m1] [E1 P1].
  eapply steps_wp; [intros; lit|]. intros [w2 m2] [E2 P2]. simpl in E1, E2, P1, P2. subst m2 m1.
  apply wp_bind. unfold fill_challenge. apply wp_bind, wp_get, wp_bind, wp_lift. simpl.
  rewrite (fill_spec CHALLENGE_SIZE 0xAA ch) by done. apply wp_put.
  eapply steps_wp; [intros; lit|]. intros [w3 m3] [E3 P3]. simpl in E3, P3. subst m3.
  apply wp_bind. unfold clear_buffer. apply wp_bind, wp_get, wp_bind, wp_lift. simpl.
  rewrite (fill_spec CERT_SIZE 0 ce) by done. apply wp_put.
  eapply steps_wp; [intros; lit|]. intros [w4 m4] [E4 P4]. simpl in E4, P4. subst m4.
  destruct (Hserve w4) as (w5 & rest & Ecall & P5 & Hlen & Hbuf).
  assert (in_s 64 (len (evidence a b c))) as H63.
  { rewrite len_app in Hlen. pose proof (len_nonneg rest). pose proof (len_nonneg (evidence a b c)).
    unfold in_s, CERT_SIZE in *. lia. }
  apply wp_bind. unfold wp at 1, sbi_call.
  match goal with |- context [ecall _ (w4, ?m)] => change m with asked end. rewrite Ecall, (swrap_small 64 (len _)) by (done || lia).
  change (s64 0) with 0. apply wp_bind.
  eapply wp_mono; [by apply (steps_result cert a b c rest mt0 v0)|]. intros [] [w6 m6] (_ & E6 & P6). cbn [fst snd] in E6, P6. subst m6.
  assert (forall buf : list Z, steps (W := W) buf (print_str (cline "[GUEST] Test Complete. Halting.")) halting tt) as Hh by (intros; lit).
  eapply wp_mono; [by eapply Hh|]. intros _ [w7 m7] (_ & E7 & P7). cbn [fst snd] in *. subst m7. split; [done|].
  rewrite P7, P6, P5, P4, P3, P2, P1. unfold main_report, intro, prepared, invoking. rewrite <- ?app_assoc. reflexivity.
Qed.

Lemma sample_served : serves 0x80002000 0x80001000 sample_evidence Reference.service_log.
Proof.
  intros w. exists (w ++ Reference.service_log), (drop (length sample_evidence) (replicate 4096 0)). split; [reflexivity|]. split; [done|].
  replace (drop (length sample_evidence) (replicate 4096 0)) with sample_rest by (vm_compute; reflexivity).
  split; [apply sample_len|apply sample_bytes].
Qed.

Lemma main_reports_witness :
  exists s', main 0x80002000 0x80001000 0 0 ([], Statics (replicate 64 0) (replicate 4096 0)) = Ok (tt, s') /\
    console s'.1 = main_report (line "[OLORIN] Requested attestation certificate") sample_layer sample_layer sample_layer.
Proof.
  destruct (main_reports (W := list Z) 0x80002000 0x80001000 0 0 sample_layer sample_layer sample_layer Reference.service_log
    ([], Statics (replicate 64 0) (replicate 4096 0))) as (s' & E & _ & Hp);
    [lia|vm_compute; discriminate|apply sample_layer_wf..|reflexivity|vm_compute; reflexivity|apply sample_served|].
  exists s'. split; [exact E|exact Hp].
Defined.

(** [C32] The results of [cbor_read_head] are dropped for the four fields of a
    layer.  Evidence that ends right behind the last payload, so that its
    signature is missing altogether, goes through without a complaint: the
    stale head of the payload is taken for the signature, and its length is
    reported as the length of the signature. *)
Theorem missing_signature_accepted {W : Type} `{DebugConsole W statics} (cert mt0 v0 : Z) (a b c : layer)
    (pl rest : list Z) (s : W * statics) :
  0 <= cert -> cert + CERT_SIZE <= 2 ^ 63 -> wf_layer a -> wf_layer b -> wf_layer c -> l_payload c = Some pl ->
  CERT_BUFFER s.2 = cut_evidence a b c ++ rest -> len (cut_evidence a b c ++ rest) = CERT_SIZE ->
  bytes (cut_evidence a b c ++ rest) ->
  exists s', parse_and_print_evidence cert cert (len (cut_evidence a b c)) mt0 v0 s = Ok (tt, s') /\
    console s'.1 = console s.1 ++ evidence_report a b (Layer (l_tags c) (l_protected c) (l_pairs c) (l_unprotected c) (Some pl) pl).
Proof.
  intros Hc Ht Ha Hb Hc' Hpl Hs Hlen Hbuf.
  assert (Cbor.at_ cert (cut_evidence a b c ++ rest) cert (cut_evidence a b c)) as Hat by (by exists [], rest; split; [|simpl; lia]).
  pose proof (steps_cut cert _ Hc Hlen Ht Hbuf a b c mt0 v0 pl Ha Hb Hc' Hpl Hat s Hs) as Hw.
  apply wp_ok in Hw as ([] & s' & E & _ & _ & Hp). exists s'. split; [done|]. rewrite Hp.
  unfold evidence_report, layer_report, open_report. cbn [l_tags l_payload l_signature]. rewrite Hpl. done.
Qed.

Lemma missing_signature_accepted_witness :
  let cut := cut_evidence sample_layer sample_layer sample_layer in
  exists s', parse_and_print_evidence 0x80001000 0x80001000 (len cut) 0 0
      ([], Statics [] (cut ++ replicate 4046 0)) = Ok (tt, s') /\
    console s'.1 = evidence_report sample_layer sample_layer (Layer [18] [1; 2; 3] 1 [0x04; 0x41; 0x05] (Some [7; 8]) [7; 8]).
Proof.
  intros cut.
  destruct (missing_signature_accepted (W := list Z) 0x80001000 0 0 sample_layer sample_layer sample_layer [7; 8]
    (replicate 4046 0) ([], Statics [] (cut ++ replicate 4046 0))) as (s' & E & Hp);
    [lia|vm_compute; discriminate|apply sample_layer_wf..|reflexivity|reflexivity|vm_compute; reflexivity| |].
  - apply Forall_app. split; [|apply Forall_replicate; by unfold in_u].
    vm_compute. repeat constructor; discriminate.
  - exists s'. split; [exact E|exact Hp].
Defined.
End AttestSpec.
