(* ===== verification/LibC.v ===== *)
(** * String and memory routines of the bare-metal C libraries

    The routines of riscv-tests/env/v/string.c (Module [Str]) and of
    riscv-tests/benchmarks/common/syscalls.c (Module [Sys]): [memcpy],
    [memset] and [memcmp] with their word-at-a-time fast paths, and the
    string functions.

    Memory is a finite map from addresses to bytes; an access outside it, or
    a misaligned word access, is undefined.  Words are little-endian.  Loops
    that count take their bound from the argument; the fuel of a loop over a
    string is the size of the memory, more than any string in it. *)

From S2P Require Import Prelude.

(** ** Memory *)

Abbreviation mem := (gmap Z Z).

Definition ldb (m : mem) (p : Z) : outcome Z := of_option (m !! p).
Definition stb (m : mem) (p b : Z) : outcome mem :=
  match m !! p with Some _ => Ok (<[p := u8 b]> m) | None => UB end.

(** [n] consecutive bytes. *)
Fixpoint ldbs (m : mem) (p : Z) (n : nat) : outcome (list Z) :=
  match n with
  | O => Ok []
  | S n => b ← ldb m p; l ← ldbs m (u64 (p + 1)) n; Ok (b :: l)
  end.

Fixpoint stbs (m : mem) (p : Z) (l : list Z) : outcome mem :=
  match l with
  | [] => Ok m
  | b :: l => m ← stb m p b; stbs m (u64 (p + 1)) l
  end.

(** The value of little-endian bytes, and the bytes of a value. *)
Fixpoint le_val (l : list Z) : Z := match l with [] => 0 | b :: l => b + 256 * le_val l end.
Fixpoint le_split (n : nat) (v : Z) : list Z := match n with O => [] | S n => v mod 256 :: le_split n (v / 256) end.

(** A [uintptr_t] in memory: eight bytes at a multiple of eight. *)
Definition WORD : Z := 8.
Definition ldw (m : mem) (p : Z) : outcome Z :=
  if p mod WORD =? 0 then l ← ldbs m p 8; Ok (le_val l) else UB.
Definition stw (m : mem) (p w : Z) : outcome mem :=
  if p mod WORD =? 0 then stbs m p (le_split 8 w) else UB.

(** ** riscv-tests/env/v/string.c *)
Module Str.

(** [while (d < end) *d++ = *s++] over bytes. *)
Fixpoint copy_bytes (fuel : nat) (m : mem) (d s end_ : Z) : outcome mem :=
  if d <? end_ then
    match fuel with
    | O => Fuel
    | S fuel => b ← ldb m s; m ← stb m d b; copy_bytes fuel m (u64 (d + 1)) (u64 (s + 1)) end_
    end
  else Ok m.

(** The same over words. *)
Fixpoint copy_words (fuel : nat) (m : mem) (d s end_ : Z) : outcome mem :=
  if d <? end_ then
    match fuel with
    | O => Fuel
    | S fuel => w ← ldw m s; m ← stw m d w; copy_words fuel m (u64 (d + WORD)) (u64 (s + WORD)) end_
    end
  else Ok m.

Definition memcpy (m : mem) (dest src len : Z) : outcome (Z * mem) :=
  m ← if Z.land (Z.lor (Z.lor dest src) len) (WORD - 1) =? 0
      then copy_words (Z.to_nat len) m dest src (u64 (dest + len))
      else copy_bytes (Z.to_nat len) m dest src (u64 (dest + len));
  Ok (dest, m).

Fixpoint set_bytes (fuel : nat) (m : mem) (d byte end_ : Z) : outcome mem :=
  if d <? end_ then
    match fuel with
    | O => Fuel
    | S fuel => m ← stb m d byte; set_bytes fuel m (u64 (d + 1)) byte end_
    end
  else Ok m.

Fixpoint set_words (fuel : nat) (m : mem) (d word end_ : Z) : outcome mem :=
  if d <? end_ then
    match fuel with
    | O => Fuel
    | S fuel => m ← stw m d word; set_words fuel m (u64 (d + WORD)) word end_
    end
  else Ok m.

(** The byte repeated eight times. *)
Definition spread (byte : Z) : Z :=
  let word := Z.land byte 0xFF in
  let word := Z.lor word (u64 (Z.shiftl word 8)) in
  let word := Z.lor word (u64 (Z.shiftl word 16)) in
  Z.lor word (u64 (Z.shiftl (u64 (Z.shiftl word 16)) 16)).

Definition memset (m : mem) (dest byte len : Z) : outcome (Z * mem) :=
  m ← if Z.land (Z.lor dest len) (WORD - 1) =? 0
      then set_words (Z.to_nat len) m dest (spread byte) (u64 (dest + len))
      else set_bytes (Z.to_nat len) m dest byte (u64 (dest + len));
  Ok (dest, m).

(** [p - s] when [*p] is the first NUL. *)
Fixpoint strlen_loop (fuel : nat) (m : mem) (s p : Z) : outcome Z :=
  match fuel with
  | O => Fuel
  | S fuel => b ← ldb m p; if b =? 0 then Ok (u64 (p - s)) else strlen_loop fuel m s (u64 (p + 1))
  end.

Definition strlen (m : mem) (s : Z) : outcome Z := strlen_loop (S (size m)) m s s.

Fixpoint strcmp_loop (fuel : nat) (m : mem) (s1 s2 : Z) : outcome Z :=
  match fuel with
  | O => Fuel
  | S fuel =>
      c1 ← ldb m s1; c2 ← ldb m s2;
      if negb (c1 =? 0) && (c1 =? c2) then strcmp_loop fuel m (u64 (s1 + 1)) (u64 (s2 + 1)) else Ok (c1 - c2)
  end.

Definition strcmp (m : mem) (s1 s2 : Z) : outcome Z := strcmp_loop (S (size m)) m s1 s2.

(** The word loop of [memcmp]: the addresses at which it stops. *)
Fixpoint cmp_words (fuel : nat) (m : mem) (u1 u2 end_ : Z) : outcome (Z * Z) :=
  if u1 <? end_ then
    match fuel with
    | O => Fuel
    | S fuel =>
        w1 ← ldw m u1; w2 ← ldw m u2;
        if negb (w1 =? w2) then Ok (u1, u2) else cmp_words fuel m (u64 (u1 + WORD)) (u64 (u2 + WORD)) end_
    end
  else Ok (u1, u2).

(** [while (n--)] over bytes. *)
Fixpoint cmp_bytes (n : nat) (m : mem) (s1 s2 : Z) : outcome Z :=
  match n with
  | O => Ok 0
  | S n =>
      c1 ← ldb m s1; c2 ← ldb m s2;
      if negb (c1 =? c2) then Ok (c1 - c2) else cmp_bytes n m (u64 (s1 + 1)) (u64 (s2 + 1))
  end.

Definition memcmp (m : mem) (s1 s2 n : Z) : outcome Z :=
  '(n, s1, s2) ←
    if Z.land (Z.lor s1 s2) (WORD - 1) =? 0 then
      '(u1, u2) ← cmp_words (Z.to_nat n) m s1 s2 (u64 (s1 + n / WORD * WORD));
      Ok (u64 (n - u64 (u1 - s1)), u1, u2)
    else Ok (n, s1, s2);
  cmp_bytes (Z.to_nat n) m s1 s2.

Fixpoint strcpy_loop (fuel : nat) (m : mem) (d src : Z) : outcome mem :=
  match fuel with
  | O => Fuel
  | S fuel =>
      c ← ldb m src; m ← stb m d c;
      if c =? 0 then Ok m else strcpy_loop fuel m (u64 (d + 1)) (u64 (src + 1))
  end.

Definition strcpy (m : mem) (dest src : Z) : outcome (Z * mem) :=
  m ← strcpy_loop (S (size m)) m dest src; Ok (dest, m).

(** [atol]: spaces, a sign, then every byte up to the NUL; the result is a
    [long], whose overflow is undefined. *)
Definition slong (x : Z) : outcome Z := if (- 2 ^ 63 <=? x) && (x <? 2 ^ 63) then Ok x else UB.

Fixpoint skip_spaces (fuel : nat) (m : mem) (str : Z) : outcome Z :=
  match fuel with
  | O => Fuel
  | S fuel => c ← ldb m str; if c =? 32 then skip_spaces fuel m (u64 (str + 1)) else Ok str
  end.

Fixpoint atol_loop (fuel : nat) (m : mem) (str res : Z) : outcome Z :=
  match fuel with
  | O => Fuel
  | S fuel =>
      c ← ldb m str;
      if c =? 0 then Ok res else
      res ← slong (res * 10); res ← slong (res + (c - 48)); atol_loop fuel m (u64 (str + 1)) res
  end.

Definition atol (m : mem) (str : Z) : outcome Z :=
  str ← skip_spaces (S (size m)) m str;
  c ← ldb m str;
  let sign := c =? 45 in
  let str := if (c =? 45) || (c =? 43) then u64 (str + 1) else str in
  res ← atol_loop (S (size m)) m str 0;
  if sign then slong (- res) else Ok res.
End Str.

(** ** riscv-tests/benchmarks/common/syscalls.c *)
Module Sys.

(** Eight words are read before eight words are written. *)
Fixpoint ldws (m : mem) (p : Z) (n : nat) : outcome (list Z) :=
  match n with
  | O => Ok []
  | S n => w ← ldw m p; l ← ldws m (u64 (p + WORD)) n; Ok (w :: l)
  end.

Fixpoint stws (m : mem) (p : Z) (l : list Z) : outcome mem :=
  match l with
  | [] => Ok m
  | w :: l => m ← stw m p w; stws m (u64 (p + WORD)) l
  end.

(** [while (d + 8 < end)], eight words a turn, then [while (d < end)]. *)
Fixpoint copy_unrolled (fuel : nat) (m : mem) (d s end_ : Z) : outcome mem :=
  if u64 (d + 8 * WORD) <? end_ then
    match fuel with
    | O => Fuel
    | S fuel =>
        reg ← ldws m s 8; m ← stws m d reg;
        copy_unrolled fuel m (u64 (d + 8 * WORD)) (u64 (s + 8 * WORD)) end_
    end
  else Str.copy_words (Z.to_nat (end_ - d)) m d s end_.

Definition memcpy (m : mem) (dest src len : Z) : outcome (Z * mem) :=
  m ← if Z.land (Z.lor (Z.lor dest src) len) (WORD - 1) =? 0
      then copy_unrolled (Z.to_nat len) m dest src (u64 (dest + len))
      else Str.copy_bytes (Z.to_nat len) m dest src (u64 (dest + len));
  Ok (dest, m).

(** [memset], [strlen], [strcmp] and [strcpy] are the code of string.c. *)
Definition memset := Str.memset.
Definition strlen := Str.strlen.
Definition strcmp := Str.strcmp.
Definition strcpy := Str.strcpy.

(** [while (n-- && *p) p++]. *)
Fixpoint strnlen_loop (n : nat) (m : mem) (s p : Z) : outcome Z :=
  match n with
  | O => Ok (u64 (p - s))
  | S n => b ← ldb m p; if b =? 0 then Ok (u64 (p - s)) else strnlen_loop n m s (u64 (p + 1))
  end.

Definition strnlen (m : mem) (s n : Z) : outcome Z := strnlen_loop (Z.to_nat n) m s s.

(** This [atol] stops at the first byte that is not a digit. *)
Fixpoint atol_loop (fuel : nat) (m : mem) (str res : Z) : outcome Z :=
  match fuel with
  | O => Fuel
  | S fuel =>
      c ← ldb m str;
      if (48 <=? c) && (c <=? 57) then
        res ← Str.slong (res * 10); res ← Str.slong (res + (c - 48)); atol_loop fuel m (u64 (str + 1)) res
      else Ok res
  end.

Definition atol (m : mem) (str : Z) : outcome Z :=
  str ← Str.skip_spaces (S (size m)) m str;
  c ← ldb m str;
  let sign := c =? 45 in
  let str := if (c =? 45) || (c =? 43) then u64 (str + 1) else str in
  res ← atol_loop (S (size m)) m str 0;
  if sign then Str.slong (- res) else Ok res.
End Sys.
