(* ===== verification/LibCSpec.v ===== *)
(** * The word-at-a-time routines agree with their byte-wise meaning

    [holds m p l]: the bytes [l] stand at [p] in [m].  [copied] describes the
    memory after the first [k] bytes of a copy, the common invariant of the
    byte loop, the word loop and the unrolled loop; [lexdiff] is the value
    [memcmp] has to return. *)

From S2P Require Import Prelude LibC.

Module LibCSpec.

(** ** Little-endian words *)

Lemma le_val_range (l : list Z) : Forall (in_u 8) l -> 0 <= le_val l < 256 ^ Z.of_nat (length l).
Proof.
  induction 1 as [|b l Hb Hl IH]; [done|]. simpl length. rewrite Nat2Z.inj_succ, Z.pow_succ_r by lia.
  simpl. unfold in_u in Hb. change (2 ^ 8) with 256 in Hb. lia.
Qed.

Lemma le_split_val (l : list Z) : Forall (in_u 8) l -> le_split (length l) (le_val l) = l.
Proof.
  induction 1 as [|b l Hb Hl IH]; [done|]. simpl. unfold in_u in Hb. change (2 ^ 8) with 256 in Hb.
  rewrite (Z.mul_comm 256), Z.mod_add, Z.mod_small, Z.div_add, Z.div_small, Z.add_0_l, IH by lia. done.
Qed.

Lemma le_val_inj (l l' : list Z) :
  Forall (in_u 8) l -> Forall (in_u 8) l' -> length l = length l' -> le_val l = le_val l' -> l = l'.
Proof. intros Hl Hl' Hlen E. rewrite <- (le_split_val l Hl), <- (le_split_val l' Hl'), Hlen, E. done. Qed.

(** ** Alignment *)

Lemma land7 (x : Z) : Z.land x (WORD - 1) = x mod 8.
Proof. change (WORD - 1) with (Z.ones 3). by rewrite Z.land_ones. Qed.

Lemma aligned_lor (a b : Z) : Z.land (Z.lor a b) (WORD - 1) = 0 <-> a mod 8 = 0 /\ b mod 8 = 0.
Proof. by rewrite Z.land_lor_distr_l, Z.lor_eq_0_iff, !land7. Qed.

Lemma aligned_add (p k : Z) : p mod 8 = 0 -> k mod 8 = 0 -> (p + k) mod 8 = 0.
Proof. intros Hp Hk. by rewrite Z.add_mod, Hp, Hk by lia. Qed.

(** ** Bytes in memory *)

Definition holds (m : mem) (p : Z) (l : list Z) : Prop :=
  forall i b, l !! i = Some b -> m !! (p + Z.of_nat i) = Some b.

Definition mapped (m : mem) (p n : Z) : Prop := forall i, 0 <= i < n -> is_Some (m !! (p + i)).

Lemma holds_cons (m : mem) (p b : Z) (l : list Z) :
  holds m p (b :: l) <-> m !! p = Some b /\ holds m (p + 1) l.
Proof.
  split.
  - intros H. split; [by specialize (H 0%nat b eq_refl); rewrite Z.add_0_r in H|].
    intros i c Hc. specialize (H (S i) c Hc). rewrite <- H. f_equal. lia.
  - intros [H0 H1] [|i] c Hc; simpl in Hc; [rewrite Z.add_0_r; congruence|].
    rewrite <- (H1 i c Hc). f_equal. lia.
Qed.

Lemma holds_app (m : mem) (p : Z) (l l' : list Z) :
  holds m p (l ++ l') <-> holds m p l /\ holds m (p + Z.of_nat (length l)) l'.
Proof.
  revert p. induction l as [|b l IH]; intros p; simpl.
  - rewrite Z.add_0_r. split; [intros H; split; [|done]; by intros ? ? ?|by intros [_ ?]].
  - rewrite !holds_cons, IH. replace (p + 1 + Z.of_nat (length l)) with (p + Z.of_nat (S (length l))) by lia. tauto.
Qed.

Lemma ldbs_holds (m : mem) (p : Z) (l : list Z) :
  0 <= p -> p + Z.of_nat (length l) < 2 ^ 64 -> holds m p l -> ldbs m p (length l) = Ok l.
Proof.
  revert p. induction l as [|b l IH]; intros p Hp Htop H; [done|]. apply holds_cons in H as [Hb Hl]. simpl length in *.
  simpl. unfold ldb. rewrite Hb. simpl. rewrite (uwrap_small 64) by (unfold in_u; lia). rewrite IH by (done || lia). done.
Qed.

Lemma ldw_holds (m : mem) (p : Z) (l : list Z) :
  0 <= p -> p + 8 < 2 ^ 64 -> p mod 8 = 0 -> length l = 8%nat -> holds m p l -> ldw m p = Ok (le_val l).
Proof.
  intros Hp Ht Ha Hl H. unfold ldw, WORD. rewrite Ha. simpl Z.eqb. cbv iota.
  rewrite <- Hl, ldbs_holds by (done || lia). done.
Qed.

(** ** Copying *)

Section Copy.
Context (m : mem) (dest src : Z) (l : list Z).
Context (Hd : 0 <= dest) (Hdt : dest + Z.of_nat (length l) < 2 ^ 63).
Context (Hs : 0 <= src) (Hst : src + Z.of_nat (length l) < 2 ^ 63).
Context (Hdisj : src + Z.of_nat (length l) <= dest \/ dest + Z.of_nat (length l) <= src).
Context (Hsrc : holds m src l) (Hdest : mapped m dest (Z.of_nat (length l))) (Hl : Forall (in_u 8) l).

(** The first [k] bytes are copied, everything else is as it was. *)
Definition copied (k : Z) (m' : mem) : Prop :=
  forall a, m' !! a = if bool_decide (dest <= a < dest + k) then m !! (src + (a - dest)) else m !! a.

Lemma copied_0 : copied 0 m.
Proof. intros a. by rewrite bool_decide_eq_false_2 by lia. Qed.

(** The source is still what it was. *)
Lemma copied_src (k : Z) (m' : mem) (p : Z) (l' : list Z) :
  k <= Z.of_nat (length l) -> copied k m' -> src <= p -> p + Z.of_nat (length l') <= src + Z.of_nat (length l) ->
  holds m p l' -> holds m' p l'.
Proof.
  intros Hk Hc Hp Hpl H i b Hi. rewrite Hc, bool_decide_eq_false_2; [by apply H|].
  apply lookup_lt_Some in Hi. lia.
Qed.

(** The bytes of the source from [k] on. *)
Lemma src_slice (k : Z) (l1 l2 : list Z) : l = l1 ++ l2 -> k = Z.of_nat (length l1) -> holds m (src + k) l2.
Proof. intros -> ->. by apply holds_app in Hsrc as [_ ?]. Qed.

Lemma copied_stbs (l2 : list Z) : forall k m' l1 l3,
  l = l1 ++ l2 ++ l3 -> k = Z.of_nat (length l1) -> copied k m' ->
  exists m'', stbs m' (dest + k) l2 = Ok m'' /\ copied (k + Z.of_nat (length l2)) m''.
Proof.
  induction l2 as [|b l2 IH]; intros k m' l1 l3 El Hk Hc.
  { exists m'. simpl. by rewrite Z.add_0_r. }
  assert (Z.of_nat (length l) = k + 1 + Z.of_nat (length l2) + Z.of_nat (length l3)) as Elen
    by (rewrite El, !length_app, length_cons; lia).
  assert (in_u 8 b) as Hb by (unfold in_u in *; rewrite El, !Forall_app in Hl; destruct Hl as (_ & Hbl & _); by apply Forall_inv in Hbl).
  destruct (Hdest k) as [x Hx]; [lia|].
  simpl. unfold stb. rewrite Hc, bool_decide_eq_false_2, Hx by lia. simpl.
  rewrite (uwrap_small 8 b) by done. rewrite (uwrap_small 64) by (unfold in_u; lia). rewrite <- Z.add_assoc.
  destruct (IH (k + 1) (<[dest + k := b]> m') (l1 ++ [b]) l3) as (m'' & E & Hc'').
  - rewrite El. by rewrite <- app_assoc.
  - rewrite length_app. simpl. lia.
  - intros a. destruct (decide (a = dest + k)) as [-> |Hne].
    + rewrite lookup_insert_eq, bool_decide_eq_true_2 by lia.
      pose proof (src_slice k l1 ((b :: l2) ++ l3) El Hk) as Hh. apply holds_cons in Hh as [Hh _]. rewrite <- Hh. f_equal. lia.
    + rewrite lookup_insert_ne, Hc by done. repeat case_bool_decide; try done; lia.
  - exists m''. split; [done|]. replace (k + Z.of_nat (S (length l2))) with (k + 1 + Z.of_nat (length l2)) by lia. done.
Qed.

(** One word, or byte, is read from the untouched source. *)
Lemma copied_ld (k : Z) (m' : mem) (l1 l2 l3 : list Z) :
  l = l1 ++ l2 ++ l3 -> k = Z.of_nat (length l1) -> copied k m' -> holds m' (src + k) l2.
Proof.
  intros El Hk Hc. assert (Z.of_nat (length l) = k + Z.of_nat (length l2) + Z.of_nat (length l3)) as Elen
    by (rewrite El, !length_app; lia).
  apply (copied_src k m'); [lia|done|lia|lia|]. pose proof (src_slice k l1 (l2 ++ l3) El Hk) as Hh.
  by apply holds_app in Hh as [? _].
Qed.

Lemma copy_bytes_spec (l2 : list Z) : forall fuel k m' l1,
  l = l1 ++ l2 -> k = Z.of_nat (length l1) -> copied k m' -> (length l2 <= fuel)%nat ->
  exists m'', Str.copy_bytes fuel m' (dest + k) (src + k) (dest + Z.of_nat (length l)) = Ok m'' /\
    copied (Z.of_nat (length l)) m''.
Proof.
  induction l2 as [|b l2 IH]; intros fuel k m' l1 El Hk Hc Hf.
  - rewrite app_nil_r in El. subst l1. subst k. exists m'.
    destruct fuel; simpl; by rewrite Z.ltb_irrefl.
  - assert (Z.of_nat (length l) = k + 1 + Z.of_nat (length l2)) as Elen by (rewrite El, length_app; simpl; lia).
    destruct fuel as [|fuel]; [simpl in Hf; lia|]. simpl.
    destruct (Z.ltb_spec (dest + k) (dest + Z.of_nat (length l))); [|lia].
    pose proof (copied_ld k m' l1 [b] l2 El Hk Hc) as Hb. apply holds_cons in Hb as [Hb _].
    unfold ldb. rewrite Hb. simpl. destruct (copied_stbs [b] k m' l1 l2 El Hk Hc) as (m1 & E1 & Hc1). simpl in E1.
    destruct (stb m' (dest + k) b) as [m1'| |]; simpl in E1; [|done..]. injection E1 as ->. simpl.
    rewrite !(uwrap_small 64) by (unfold in_u; lia). rewrite <- !Z.add_assoc.
    apply (IH fuel (k + 1) m1 (l1 ++ [b])); [by rewrite <- app_assoc|rewrite length_app; simpl; lia|done|simpl in Hf; lia].
Qed.

(** A word read from the source and stored at the destination copies eight
    bytes. *)
Lemma copied_stw (k : Z) (m' : mem) (l1 l2 l3 : list Z) :
  l = l1 ++ l2 ++ l3 -> k = Z.of_nat (length l1) -> length l2 = 8%nat -> (dest + k) mod 8 = 0 -> copied k m' ->
  exists m'', stw m' (dest + k) (le_val l2) = Ok m'' /\ copied (k + 8) m''.
Proof.
  intros El Hk H8 Ha Hc. destruct (copied_stbs l2 k m' l1 l3 El Hk Hc) as (m'' & E & Hc'').
  exists m''. rewrite H8 in Hc''. split; [|done]. unfold stw, WORD. rewrite Ha. simpl Z.eqb. cbv iota.
  rewrite <- H8, le_split_val; [done|]. rewrite El, !Forall_app in Hl. by destruct Hl as (_ & ? & _).
Qed.

Lemma copied_ldw (k : Z) (m' : mem) (l1 l2 l3 : list Z) :
  l = l1 ++ l2 ++ l3 -> k = Z.of_nat (length l1) -> length l2 = 8%nat -> (src + k) mod 8 = 0 -> copied k m' ->
  ldw m' (src + k) = Ok (le_val l2).
Proof.
  intros El Hk H8 Ha Hc. assert (k + 8 <= Z.of_nat (length l)) by (rewrite El, !length_app; lia).
  apply ldw_holds; [lia|lia|done|done|]. by eapply copied_ld.
Qed.

Lemma split8 (l2 : list Z) : Z.of_nat (length l2) mod 8 = 0 -> l2 = [] \/ exists w r, l2 = w ++ r /\ length w = 8%nat.
Proof.
  intros Hm. destruct (decide (8 <= length l2)%nat).
  - right. exists (take 8 l2), (drop 8 l2). by rewrite take_drop, length_take_le.
  - left. apply length_zero_iff_nil. rewrite Z.mod_small in Hm by lia. lia.
Qed.

Lemma mod8_add (k : Z) : k mod 8 = 0 -> (k + 8) mod 8 = 0.
Proof. intros. by apply aligned_add. Qed.

Lemma copy_words_spec (fuel : nat) : forall k m' l1 l2,
  l = l1 ++ l2 -> k = Z.of_nat (length l1) -> copied k m' -> (length l2 <= fuel)%nat ->
  dest mod 8 = 0 -> src mod 8 = 0 -> k mod 8 = 0 -> Z.of_nat (length l2) mod 8 = 0 ->
  exists m'', Str.copy_words fuel m' (dest + k) (src + k) (dest + Z.of_nat (length l)) = Ok m'' /\
    copied (Z.of_nat (length l)) m''.
Proof.
  induction fuel as [|fuel IH]; intros k m' l1 l2 El Hk Hc Hf Hda Hsa Hka Hla;
    (destruct (split8 l2 Hla) as [-> |(w & r & -> & H8)];
     [rewrite app_nil_r in El; subst l1; subst k; exists m'; simpl; by rewrite Z.ltb_irrefl|rewrite length_app in Hf; try lia]).
  assert (Z.of_nat (length l) = k + 8 + Z.of_nat (length r)) as Elen by (rewrite El, !length_app; lia).
  simpl. destruct (Z.ltb_spec (dest + k) (dest + Z.of_nat (length l))); [|lia].
  rewrite (copied_ldw k m' l1 w r) by (done || by apply aligned_add). simpl.
  destruct (copied_stw k m' l1 w r) as (m1 & -> & Hc1); [done..|by apply aligned_add|done|]. simpl. unfold WORD.
  rewrite !(uwrap_small 64) by (unfold in_u; lia). rewrite <- !Z.add_assoc.
  apply (IH (k + 8) m1 (l1 ++ w) r); [by rewrite <- app_assoc|rewrite length_app; lia|done|lia|done|done|by apply mod8_add|].
  rewrite length_app, Nat2Z.inj_add, H8 in Hla. replace (Z.of_nat (length r)) with (Z.of_nat 8 + Z.of_nat (length r) + -1 * 8) by lia.
  by rewrite Z.mod_add.
Qed.

(** The words of a byte list. *)
Fixpoint words (n : nat) (l : list Z) : list Z :=
  match n with O => [] | S n => le_val (take 8 l) :: words n (drop 8 l) end.

Lemma ldws_spec (n : nat) : forall k j m' l1 l2 l3,
  l = l1 ++ l2 ++ l3 -> j = Z.of_nat (length l1) -> length l2 = (8 * n)%nat -> src mod 8 = 0 -> j mod 8 = 0 ->
  k <= Z.of_nat (length l) -> copied k m' -> Sys.ldws m' (src + j) n = Ok (words n l2).
Proof.
  induction n as [|n IH]; intros k j m' l1 l2 l3 El Hj H8 Hsa Hja Hk Hc; [done|].
  assert (Z.of_nat (length l) = j + Z.of_nat (length l2) + Z.of_nat (length l3)) as Elen by (rewrite El, !length_app; lia).
  rewrite <- (take_drop 8 l2) in El. rewrite <- app_assoc in El.
  assert (length (take 8 l2) = 8%nat) as Ht by (rewrite length_take; lia).
  simpl. rewrite (ldw_holds m' (src + j) (take 8 l2)).
  - simpl. unfold WORD. rewrite (uwrap_small 64) by (unfold in_u; lia). rewrite <- Z.add_assoc.
    rewrite (IH k (j + 8) m' (l1 ++ take 8 l2) (drop 8 l2) l3); [done|by rewrite <- app_assoc|rewrite length_app; lia|
      rewrite length_drop; lia|done|by apply mod8_add|done|done].
  - lia.
  - lia.
  - by apply aligned_add.
  - done.
  - apply (copied_src k m'); [done|done|lia|lia|]. pose proof (src_slice j l1 _ El Hj) as Hh. by apply holds_app in Hh as [? _].
Qed.

Lemma stws_spec (n : nat) : forall k m' l1 l2 l3,
  l = l1 ++ l2 ++ l3 -> k = Z.of_nat (length l1) -> length l2 = (8 * n)%nat -> dest mod 8 = 0 -> k mod 8 = 0 -> copied k m' ->
  exists m'', Sys.stws m' (dest + k) (words n l2) = Ok m'' /\ copied (k + 8 * Z.of_nat n) m''.
Proof.
  induction n as [|n IH]; intros k m' l1 l2 l3 El Hk H8 Hda Hka Hc; [exists m'; simpl; by rewrite Z.add_0_r|].
  assert (Z.of_nat (length l) = k + Z.of_nat (length l2) + Z.of_nat (length l3)) as Elen by (rewrite El, !length_app; lia).
  rewrite <- (take_drop 8 l2) in El. rewrite <- app_assoc in El.
  assert (length (take 8 l2) = 8%nat) as Ht by (rewrite length_take; lia).
  destruct (copied_stw k m' l1 (take 8 l2) (drop 8 l2 ++ l3)) as (m1 & E & Hc1); [done..|by apply aligned_add|done|].
  simpl. rewrite E. simpl. unfold WORD. rewrite (uwrap_small 64) by (unfold in_u; lia). rewrite <- Z.add_assoc.
  destruct (IH (k + 8) m1 (l1 ++ take 8 l2) (drop 8 l2) l3) as (m2 & E2 & Hc2); [by rewrite <- app_assoc|rewrite length_app; lia|
    rewrite length_drop; lia|done|by apply mod8_add|done|].
  exists m2. split; [done|]. by replace (k + 8 * Z.of_nat (S n)) with (k + 8 + 8 * Z.of_nat n) by lia.
Qed.

Lemma copy_unrolled_spec (fuel : nat) : forall k m' l1 l2,
  l = l1 ++ l2 -> k = Z.of_nat (length l1) -> copied k m' -> (length l2 <= fuel)%nat ->
  dest mod 8 = 0 -> src mod 8 = 0 -> k mod 8 = 0 -> Z.of_nat (length l2) mod 8 = 0 ->
  exists m'', Sys.copy_unrolled fuel m' (dest + k) (src + k) (dest + Z.of_nat (length l)) = Ok m'' /\
    copied (Z.of_nat (length l)) m''.
Proof.
  induction fuel as [|fuel IH]; intros k m' l1 l2 El Hk Hc Hf Hda Hsa Hka Hla;
    assert (Z.of_nat (length l) = k + Z.of_nat (length l2)) as Elen by (rewrite El, length_app; lia);
    cbn [Sys.copy_unrolled]; unfold WORD; rewrite !(uwrap_small 64) by (unfold in_u; lia);
    destruct (Z.ltb_spec (dest + k + 8 * 8) (dest + Z.of_nat (length l))); try lia;
    try (by apply (copy_words_spec _ k m' l1 l2); [..|lia| | | | ]).
  rewrite <- (take_drop 64 l2) in El.
  assert (length (take 64 l2) = 64%nat) as Ht by (rewrite length_take; lia).
  rewrite (ldws_spec 8 k k m' l1 (take 64 l2) (drop 64 l2)) by (done || lia). unfold mbind at 1, outcome_bind at 1.
  destruct (stws_spec 8 k m' l1 (take 64 l2) (drop 64 l2)) as (m1 & -> & Hc1); [done..|]. unfold mbind, outcome_bind. rewrite <- !Z.add_assoc.
  apply (IH (k + 64) m1 (l1 ++ take 64 l2) (drop 64 l2)); [by rewrite <- app_assoc|rewrite length_app; lia|done|
    rewrite length_drop; lia|done|done|by apply aligned_add|].
  rewrite length_drop. replace (Z.of_nat (length l2 - 64)) with (Z.of_nat (length l2) + -8 * 8) by lia. by rewrite Z.mod_add.
Qed.

Lemma copied_unique (k : Z) (m1 m2 : mem) : copied k m1 -> copied k m2 -> m1 = m2.
Proof. intros H1 H2. apply map_eq. intros a. by rewrite H1, H2. Qed.

Lemma copied_holds (m' : mem) : copied (Z.of_nat (length l)) m' -> holds m' dest l.
Proof.
  intros Hc i b Hi. pose proof (lookup_lt_Some _ _ _ Hi). rewrite Hc, bool_decide_eq_true_2 by lia.
  rewrite <- (Hsrc i b Hi). f_equal. lia.
Qed.

Lemma memcpy_spec :
  exists m', Sys.memcpy m dest src (Z.of_nat (length l)) = Ok (dest, m') /\
    Str.memcpy m dest src (Z.of_nat (length l)) = Ok (dest, m') /\ copied (Z.of_nat (length l)) m'.
Proof.
  unfold Sys.memcpy, Str.memcpy. rewrite (uwrap_small 64 (dest + _)) by (unfold in_u; lia). rewrite Nat2Z.id.
  destruct (Z.eqb_spec (Z.land (Z.lor (Z.lor dest src) (Z.of_nat (length l))) (WORD - 1)) 0) as [Ha|_].
  - rewrite Z.land_lor_distr_l, Z.lor_eq_0_iff, aligned_lor, land7 in Ha. destruct Ha as [[Hda Hsa] Hla].
    destruct (copy_unrolled_spec (length l) 0 m [] l) as (m1 & E1 & H1); [done|done|apply copied_0|done..|].
    destruct (copy_words_spec (length l) 0 m [] l) as (m2 & E2 & H2); [done|done|apply copied_0|done..|].
    rewrite !Z.add_0_r in E1, E2. rewrite E1, E2, (copied_unique _ _ _ H2 H1). by exists m1.
  - destruct (copy_bytes_spec l (length l) 0 m []) as (m1 & E1 & H1); [done|done|apply copied_0|done|].
    rewrite !Z.add_0_r in E1. rewrite E1. by exists m1.
Qed.
End Copy.

(** [C33] Both [memcpy]s, the word loop of string.c and the eight-fold
    unrolled one of syscalls.c, copy the source to a disjoint destination
    whatever the alignment and the length, return the destination and change
    no other byte: the fast paths agree with the byte loop and with each
    other. *)
Theorem memcpy_copies (m : mem) (dest src : Z) (l : list Z) :
  0 <= dest -> dest + Z.of_nat (length l) < 2 ^ 63 -> 0 <= src -> src + Z.of_nat (length l) < 2 ^ 63 ->
  src + Z.of_nat (length l) <= dest \/ dest + Z.of_nat (length l) <= src ->
  holds m src l -> mapped m dest (Z.of_nat (length l)) -> Forall (in_u 8) l ->
  exists m', Sys.memcpy m dest src (Z.of_nat (length l)) = Ok (dest, m') /\
    Str.memcpy m dest src (Z.of_nat (length l)) = Ok (dest, m') /\ holds m' dest l /\
    forall a, ~ (dest <= a < dest + Z.of_nat (length l)) -> m' !! a = m !! a.
Proof.
  intros Hd Hdt Hs Hst Hdisj Hsrc Hdest Hl.
  destruct (memcpy_spec m dest src l Hd Hdt Hs Hst Hdisj Hsrc Hdest Hl) as (m' & E1 & E2 & Hc).
  exists m'. split_and!; [done|done|by eapply copied_holds|]. intros a Ha. by rewrite Hc, bool_decide_eq_false_2.
Qed.

(** Memory for the witnesses: [n] bytes from [p] on. *)
Definition region (p : Z) (l : list Z) : mem := list_to_map (imap (fun i b => (p + Z.of_nat i, b)) l).

Lemma memcpy_copies_witness :
  let m := region 64 (replicate 80 7) ∪ region 256 (replicate 80 0) in
  exists m', Sys.memcpy m 256 64 80 = Ok (256, m') /\ Str.memcpy m 256 64 80 = Ok (256, m') /\ holds m' 256 (replicate 80 7).
Proof.
  intros m. destruct (memcpy_copies m 256 64 (replicate 80 7)) as (m' & E1 & E2 & H & _).
  - lia.
  - vm_compute. reflexivity.
  - lia.
  - vm_compute. reflexivity.
  - left. vm_compute. discriminate.
  - intros i b Hi. apply lookup_replicate in Hi as [-> Hi].
    do 80 (destruct i as [|i]; [vm_compute; reflexivity|]). lia.
  - intros i Hi. change (Z.of_nat (length (replicate 80 7))) with 80 in Hi. 
    apply (allb_spec 80 (fun i => match m !! (256 + i) with Some _ => true | None => false end)) in Hi; [|vm_compute; reflexivity].
    destruct (m !! (256 + i)); [by eexists|done].
  - repeat constructor; unfold in_u; lia.
  - exists m'. split; [exact E1|]. split; [exact E2|exact H].
Defined.

(** ** Comparing *)

(** The difference of the first bytes that differ. *)
Fixpoint lexdiff (l1 l2 : list Z) : Z :=
  match l1, l2 with
  | a :: l1, b :: l2 => if a =? b then lexdiff l1 l2 else a - b
  | _, _ => 0
  end.

Lemma lexdiff_app (l l1 l2 : list Z) : lexdiff (l ++ l1) (l ++ l2) = lexdiff l1 l2.
Proof. induction l as [|a l IH]; [done|]. simpl. by rewrite Z.eqb_refl. Qed.

Lemma lexdiff_zero (l1 l2 : list Z) : length l1 = length l2 -> lexdiff l1 l2 = 0 <-> l1 = l2.
Proof.
  revert l2. induction l1 as [|a l1 IH]; intros [|b l2] Hl; try done. simpl. injection Hl as Hl.
  destruct (Z.eqb_spec a b) as [-> |]; [|split; [lia|congruence]]. rewrite (IH l2 Hl). split; congruence.
Qed.

Section Compare.
Context (m : mem) (s1 s2 : Z) (l1 l2 : list Z).
Context (H1 : 0 <= s1) (H1t : s1 + Z.of_nat (length l1) < 2 ^ 63).
Context (H2 : 0 <= s2) (H2t : s2 + Z.of_nat (length l2) < 2 ^ 63).
Context (Hlen : length l1 = length l2) (Hm1 : holds m s1 l1) (Hm2 : holds m s2 l2).
Context (Hb1 : Forall (in_u 8) l1) (Hb2 : Forall (in_u 8) l2).

Lemma cmp_bytes_spec (r1 : list Z) : forall r2 p1 p2,
  length r1 = length r2 -> holds m p1 r1 -> holds m p2 r2 -> 0 <= p1 -> 0 <= p2 ->
  p1 + Z.of_nat (length r1) < 2 ^ 64 -> p2 + Z.of_nat (length r1) < 2 ^ 64 ->
  Str.cmp_bytes (length r1) m p1 p2 = Ok (lexdiff r1 r2).
Proof.
  clear H1 H2. induction r1 as [|a r1 IH]; intros [|b r2] p1 p2 Hl Ha Hb Hp1 Hp2 Ht1 Ht2; try done.
  apply holds_cons in Ha as [Ha Ha']. apply holds_cons in Hb as [Hb Hb']. simpl length in *.
  simpl. unfold ldb. rewrite Ha, Hb. simpl. destruct (Z.eqb_spec a b) as [-> |]; [|done]. simpl.
  rewrite !(uwrap_small 64) by (unfold in_u; lia). apply IH; (done || lia).
Qed.

(** The word loop stops behind an equal prefix of whole words. *)
Lemma cmp_words_spec (fuel : nat) : forall k e p r1 r2,
  l1 = p ++ r1 -> l2 = p ++ r2 -> k = Z.of_nat (length p) -> s1 mod 8 = 0 -> s2 mod 8 = 0 -> k mod 8 = 0 ->
  k <= e -> e mod 8 = 0 -> e <= Z.of_nat (length l1) -> e - k <= Z.of_nat fuel ->
  exists p' r1' r2', l1 = p' ++ r1' /\ l2 = p' ++ r2' /\
    Str.cmp_words fuel m (s1 + k) (s2 + k) (s1 + e) = Ok (s1 + Z.of_nat (length p'), s2 + Z.of_nat (length p')).
Proof.
  induction fuel as [|fuel IH]; intros k e p r1 r2 E1 E2 Hk Ha1 Ha2 Hka Hke Hea He Hf; simpl;
    (destruct (Z.ltb_spec (s1 + k) (s1 + e)); [|by exists p, r1, r2; subst k]); [lia|].
  assert (k + 8 <= e).
  { apply Z.mod_divide in Hka as [x Hx]; [|lia]. apply Z.mod_divide in Hea as [y Hy]; [|lia]. lia. }
  assert (length l1 = length p + length r1)%nat as L1 by (by rewrite E1, length_app).
  assert (length l2 = length p + length r2)%nat as L2 by (by rewrite E2, length_app).
  assert (length (take 8 r1) = 8%nat /\ length (take 8 r2) = 8%nat) as [T1 T2] by (rewrite !length_take; lia).
  assert (holds m (s1 + k) (take 8 r1) /\ holds m (s2 + k) (take 8 r2)) as [W1 W2].
  { rewrite E1, <- (take_drop 8 r1), !holds_app in Hm1. rewrite E2, <- (take_drop 8 r2), !holds_app in Hm2. subst k. tauto. }
  rewrite (ldw_holds m (s1 + k) (take 8 r1)) by (done || lia || by apply aligned_add).
  rewrite (ldw_holds m (s2 + k) (take 8 r2)) by (done || lia || by apply aligned_add). simpl mbind.
  unfold mbind, outcome_bind. destruct (Z.eqb_spec (le_val (take 8 r1)) (le_val (take 8 r2))) as [Ew|]; simpl negb; cbv iota;
    [|by exists p, r1, r2; subst k].
  assert (take 8 r1 = take 8 r2) as Et.
  { apply le_val_inj; [| |lia|done].
    - rewrite E1, Forall_app in Hb1. destruct Hb1. by apply Forall_take.
    - rewrite E2, Forall_app in Hb2. destruct Hb2. by apply Forall_take. }
  unfold WORD. rewrite !(uwrap_small 64) by (unfold in_u; lia). rewrite <- !Z.add_assoc.
  apply (IH (k + 8) e (p ++ take 8 r1) (drop 8 r1) (drop 8 r2));
    [by rewrite <- app_assoc, take_drop|by rewrite Et, <- app_assoc, take_drop|rewrite length_app; lia|done|done|by apply mod8_add|lia|done|done|lia].
Qed.

Lemma memcmp_spec : Str.memcmp m s1 s2 (Z.of_nat (length l1)) = Ok (lexdiff l1 l2).
Proof.
  unfold Str.memcmp. destruct (Z.eqb_spec (Z.land (Z.lor s1 s2) (WORD - 1)) 0) as [Ha|_].
  - apply aligned_lor in Ha as [Ha1 Ha2]. unfold WORD. pose proof (Z.div_mod (Z.of_nat (length l1)) 8) as Hdm.
    pose proof (Z.mod_pos_bound (Z.of_nat (length l1)) 8). set (e := Z.of_nat (length l1) / 8 * 8) in *.
    rewrite (uwrap_small 64 (s1 + e)) by (unfold in_u; lia).
    destruct (cmp_words_spec (Z.to_nat (Z.of_nat (length l1))) 0 e [] l1 l2) as (p & r1 & r2 & E1 & E2 & E);
      [done|done|done|done|done|done|lia|by apply Z.mod_mul|lia|lia|].
    assert (length l1 = length p + length r1)%nat as L1 by (by rewrite E1, length_app).
    assert (length l2 = length p + length r2)%nat as L2 by (by rewrite E2, length_app).
    rewrite !Z.add_0_r in E. rewrite E. unfold mbind, outcome_bind.
    replace (s1 + Z.of_nat (length p) - s1) with (Z.of_nat (length p)) by lia.
    rewrite (uwrap_small 64 (Z.of_nat (length p))) by (unfold in_u; lia).
    replace (Z.of_nat (length l1) - Z.of_nat (length p)) with (Z.of_nat (length r1)) by lia.
    rewrite (uwrap_small 64) by (unfold in_u; lia). rewrite Nat2Z.id, E1, E2, lexdiff_app.
    rewrite E1, holds_app in Hm1. rewrite E2, holds_app in Hm2. apply cmp_bytes_spec; (tauto || lia).
  - unfold mbind, outcome_bind. rewrite Nat2Z.id. apply cmp_bytes_spec; (done || lia).
Qed.
End Compare.

(** [memcmp] returns the difference of the first bytes that differ, or 0
    exactly when the two areas are equal, for every alignment and length: a
    word that differs is looked at byte by byte. *)
Theorem memcmp_lexicographic (m : mem) (s1 s2 : Z) (l1 l2 : list Z) :
  0 <= s1 -> s1 + Z.of_nat (length l1) < 2 ^ 63 -> 0 <= s2 -> s2 + Z.of_nat (length l2) < 2 ^ 63 ->
  length l1 = length l2 -> holds m s1 l1 -> holds m s2 l2 -> Forall (in_u 8) l1 -> Forall (in_u 8) l2 ->
  exists r, Str.memcmp m s1 s2 (Z.of_nat (length l1)) = Ok r /\ r = lexdiff l1 l2 /\ (r = 0 <-> l1 = l2).
Proof.
  intros. exists (lexdiff l1 l2). split; [by apply memcmp_spec|]. split; [done|]. by apply lexdiff_zero.
Qed.

Lemma memcmp_differing :
  let a := [1; 2; 3; 4; 5; 6; 7; 8; 1; 2; 3; 4; 9; 6; 7; 8; 0] in
  let b := [1; 2; 3; 4; 5; 6; 7; 8; 1; 2; 3; 4; 5; 7; 7; 8; 0] in
  Str.memcmp (region 64 a ∪ region 128 b) 64 128 17 = Ok 4.
Proof.
  intros a b. destruct (memcmp_lexicographic (region 64 a ∪ region 128 b) 64 128 a b) as (r & E & -> & _);
    [lia|vm_compute; reflexivity|lia|vm_compute; reflexivity|reflexivity| | | | |].
  - intros i c Hi. do 17 (destruct i as [|i]; [injection Hi as <-; vm_compute; reflexivity|]). done.
  - intros i c Hi. do 17 (destruct i as [|i]; [injection Hi as <-; vm_compute; reflexivity|]). done.
  - repeat constructor; unfold in_u; lia.
  - repeat constructor; unfold in_u; lia.
  - exact E.
Qed.
End LibCSpec.
