(* ===== verification/Syscalls.v ===== *)
(** * The run-time support of the benchmarks (riscv-tests/benchmarks/common/syscalls.c)

    The supervisor-mode build ([SMODE]): console output through the SBI debug
    console, the performance counters and the formatted output.  The memory
    routines of the file are Module [Sys] of [LibC].

    [vprintfmt] is parametrised, as in the source, by the function that takes
    the characters, here an effect on any state.  A format and a string
    argument are read through the suffix the pointer points at.  The fuel of
    [vprintfmt] and of [reswitch] is the length of the format: every turn of
    either loop consumes a byte of it. *)

From S2P Require Import Prelude Sbi LibC EePrintf.

Module Syscalls.
Import Printf.

Definition SYS_write : Z := 64.
Definition HTIF_DEV_CONSOLE : Z := 1.
Definition HTIF_CONSOLE_CMD_PUTC : Z := 1.

(** ** Console and counters *)

Section Console.
Context {W : Type} `{!Firmware W mem}.

Abbreviation sys := (ST (W * mem)).

(** [*addr] for a [uintptr_t *] that need not be aligned: misaligned loads
    work on the target. *)
Definition ldptr (p : Z) : sys Z := s ← st_get; l ← lift (ldbs s.2 p 8); mret (le_val l).

Definition syscall (which arg0 arg1 arg2 : Z) : sys Z :=
  if (which =? SYS_write) && (arg0 =? HTIF_DEV_CONSOLE) then
    w ← ldptr arg1; _ ← Guests.sbi_ecall w 0 0 0 0 0 0x4442434E 2; mret 0
  else mret (2 ^ 64 - 1).

(** [while ( *s) syscall(SYS_write, HTIF_DEV_CONSOLE, (uintptr_t)s++, ...)]. *)
Fixpoint printstr (fuel : nat) (s : Z) : sys unit :=
  match fuel with
  | O => st_fuel
  | S fuel =>
      st ← st_get; c ← lift (ldb st.2 s);
      if c =? 0 then mret tt else
      _ ← syscall SYS_write HTIF_DEV_CONSOLE s HTIF_CONSOLE_CMD_PUTC; printstr fuel (u64 (s + 1))
  end.

(** The character itself is passed where [syscall] expects an address. *)
Definition putchar (ch : Z) : sys Z :=
  let c := u8 ch in
  _ ← syscall SYS_write HTIF_DEV_CONSOLE c HTIF_CONSOLE_CMD_PUTC; mret 0.
End Console.

(** The counters and the names recorded for them; the readings of the
    [cycle] and [instret] registers are inputs. *)
Definition NUM_COUNTERS : Z := 2.
Record stats := Stats { counters : list Z; counter_names : list (list Z) }.

Definition READ_CTR (enable csr : Z) (name : list Z) (i : Z) (s : stats) : outcome stats :=
  if NUM_COUNTERS <=? i then Fuel else
  '(csr, names) ←
    if enable =? 0 then
      c ← aget (counters s) i; names ← aset (counter_names s) i name; Ok (u64 (csr - c), names)
    else Ok (csr, counter_names s);
  cs ← aset (counters s) i csr; Ok (Stats cs names).

Definition setStats (enable cycle instret : Z) (s : stats) : outcome stats :=
  s ← READ_CTR enable cycle (cstr "cycle") 0 s;
  READ_CTR enable instret (cstr "instret") 1 s.

(** ** Formatted output *)

Section Format.
Context {S : Type} (putch : Z -> ST S unit).

(** [for (; n > 0; n--) putch(c)]. *)
Fixpoint put_n (n : nat) (c : Z) : ST S unit :=
  match n with O => mret tt | Datatypes.S n => putch c;; put_n n c end.

(** The digits in the order they are printed; [room] is what is left of the
    64 elements of [digs]. *)
Fixpoint num_digs (room : nat) (num base : Z) (digs : list Z) : outcome (list Z) :=
  match room with
  | O => UB
  | Datatypes.S room =>
      if base =? 0 then UB else
      let digs := num mod base :: digs in
      if num <? base then Ok digs else num_digs room (num / base) base digs
  end.

Definition digit_char (d : Z) : Z := d + (if 10 <=? d then 97 - 10 else 48).

Fixpoint put_digs (digs : list Z) : ST S unit :=
  match digs with [] => mret tt | d :: digs => putch (digit_char d);; put_digs digs end.

Definition printnum (num base width padc : Z) : ST S unit :=
  digs ← lift (num_digs 64 num base []);
  put_n (Z.to_nat (width - Z.of_nat (length digs))) padc;;
  put_digs digs.

(** [long long] and [long] are the same 64 bits here. *)
Definition getuint (ap : list va) (lflag : Z) : outcome (Z * list va) :=
  if 2 <=? lflag then va_ulong ap else if negb (lflag =? 0) then va_ulong ap else va_uint ap.

Definition getint (ap : list va) (lflag : Z) : outcome (Z * list va) :=
  if negb (lflag =? 0) then '(z, ap) ← va_ulong ap; Ok (s64 z, ap) else va_int ap.

(** [strnlen] on a string argument; [n] is the [size_t] it is given. *)
Fixpoint strnlen_arg (p : list Z) (n : Z) : outcome Z :=
  if n =? 0 then Ok 0 else
  match p with
  | [] => UB
  | c :: p => if c =? 0 then Ok 0 else k ← strnlen_arg p (n - 1); Ok (1 + k)
  end.

(** The copying loop of [%s]: the width that is left. *)
Fixpoint put_string (p : list Z) (width precision : Z) : ST S Z :=
  match p with
  | [] => st_ub
  | ch :: p =>
      if ch =? 0 then mret width
      else if precision <? 0 then putch ch;; put_string p (width - 1) precision
      else if 0 <=? precision - 1 then putch ch;; put_string p (width - 1) (precision - 1)
      else mret width
  end.

Definition conv_s (ap : list va) (width precision padc : Z) : ST S (list va) :=
  '(p, ap) ← lift (va_str ap);
  let p := match p with Some p => p | None => cstr "(null)" end in
  width ←
    if (0 <? width) && negb (padc =? 45) then
      k ← lift (strnlen_arg p (u64 precision)); put_n (Z.to_nat (s32 (width - k))) padc;; mret (Z.min 0 (s32 (width - k)))
    else mret width;
  width ← put_string p width precision;
  put_n (Z.to_nat width) 32;; mret ap.

Definition conv_d (ap : list va) (lflag width padc : Z) : ST S (list va) :=
  '(num, ap) ← lift (getint ap lflag);
  (if num <? 0 then putch 45 else mret tt);;
  printnum (if num <? 0 then u64 (- num) else u64 num) 10 width padc;; mret ap.

Definition conv_u (ap : list va) (lflag base width padc : Z) : ST S (list va) :=
  '(num, ap) ← lift (getuint ap lflag); printnum num base width padc;; mret ap.

(** The loop over the digits of a width: the number and the rest. *)
Fixpoint digits_loop (fmt : list Z) (precision ch : Z) : outcome (Z * list Z) :=
  let precision := precision * 10 + ch - 48 in
  if 2 ^ 31 <=? precision then UB else
  match fmt with
  | [] => UB
  | ch :: fmt' => if (ch <? 48) || (57 <? ch) then Ok (precision, fmt) else digits_loop fmt' precision ch
  end.

(** From the label [reswitch] to the end of the [switch]: the format and the
    arguments that are left. *)
Fixpoint reswitch (fuel : nat) (last_fmt fmt : list Z) (ap : list va) (padc width precision lflag : Z)
    : ST S (list Z * list va) :=
  match fuel with
  | O => st_fuel
  | Datatypes.S fuel =>
    match fmt with
    | [] => st_ub
    | ch :: fmt =>
      if ch =? 45 then reswitch fuel last_fmt fmt ap 45 width precision lflag
      else if ch =? 48 then reswitch fuel last_fmt fmt ap 48 width precision lflag
      else if (49 <=? ch) && (ch <=? 57) then
        '(precision, fmt) ← lift (digits_loop fmt 0 ch);
        if width <? 0 then reswitch fuel last_fmt fmt ap padc precision (-1) lflag
        else reswitch fuel last_fmt fmt ap padc width precision lflag
      else if ch =? 108 then reswitch fuel last_fmt fmt ap padc width precision (lflag + 1)
      else if ch =? 99 then '(c, ap) ← lift (va_int ap); putch c;; mret (fmt, ap)
      else if ch =? 115 then ap ← conv_s ap width precision padc; mret (fmt, ap)
      else if ch =? 100 then ap ← conv_d ap lflag width padc; mret (fmt, ap)
      else if ch =? 117 then ap ← conv_u ap lflag 10 width padc; mret (fmt, ap)
      else if ch =? 120 then ap ← conv_u ap lflag 16 width padc; mret (fmt, ap)
      else if ch =? 37 then putch ch;; mret (fmt, ap)
      else putch 37;; mret (last_fmt, ap)
    end
  end.

Fixpoint vprintfmt_loop (fuel : nat) (fmt : list Z) (ap : list va) : ST S unit :=
  match fuel with
  | O => st_fuel
  | Datatypes.S fuel =>
    match fmt with
    | [] => st_ub
    | ch :: fmt =>
      if ch =? 0 then mret tt
      else if negb (ch =? 37) then putch ch;; vprintfmt_loop fuel fmt ap
      else
        '(fmt, ap) ← reswitch (Datatypes.S (length fmt)) fmt fmt ap 32 (-1) (-1) 0;
        vprintfmt_loop fuel fmt ap
    end
  end.

Definition vprintfmt (fmt : list Z) (ap : list va) : ST S unit :=
  vprintfmt_loop (Datatypes.S (length fmt)) fmt ap.
End Format.

(** [printf] sends every character through [putchar]. *)
Definition printf {W : Type} `{!Firmware W mem} (fmt : list Z) (ap : list va) : ST (W * mem) Z :=
  vprintfmt (fun c => _ ← putchar c; mret tt) fmt ap;; mret 0.

(** [sprintf]: the state is the memory and the pointer that moves. *)
Definition sprintf_putch (ch : Z) : ST (mem * Z) unit := fun '(m, p) =>
  m ← stb m p ch; Ok (tt, (m, u64 (p + 1))).

Definition sprintf (str : Z) (fmt : list Z) (ap : list va) (m : mem) : outcome (Z * mem) :=
  '(_, (m, p)) ← vprintfmt sprintf_putch fmt ap (m, str);
  m ← stb m p 0; Ok (s32 (p - str), m).

(** The text a format produces, character by character. *)
Definition emit (c : Z) : ST (list Z) unit := fun out => Ok (tt, out ++ [u8 c]).
Definition text (fmt : list Z) (ap : list va) : outcome (list Z) :=
  '(_, out) ← vprintfmt emit fmt ap []; Ok out.

Example text_demo :
  text (cstr "%s = %lu|%5d|%-4s|%03x|%c%%%q") [VStr (Some (cstr "cycle")); VLong 123456; VInt (-42); VStr (Some (cstr "ab")); VInt 10; VInt 65]
  = Ok (bytes_of "cycle = 123456|-   42|ab  |00a|A%%q").
Proof. vm_compute. reflexivity. Qed.

(** ** Numbers *)

Definition digits_val (base : Z) (ds : list Z) : Z := foldl (fun a d => a * base + d) 0 ds.

Lemma digit_char_dval (d : Z) : 0 <= d < 36 -> dval (digit_char d) = d /\ 48 <= digit_char d < 123.
Proof. intros Hd. unfold dval, digit_char. zcases; lia. Qed.

Lemma digits_val_snoc (base : Z) (ds : list Z) (d : Z) : digits_val base (ds ++ [d]) = digits_val base ds * base + d.
Proof. unfold digits_val. by rewrite foldl_app. Qed.

Lemma num_digs_spec (room : nat) (num base : Z) (acc : list Z) :
  2 <= base -> 0 <= num < base ^ Z.of_nat (S room) ->
  exists ds, num_digs (S room) num base acc = Ok (ds ++ acc) /\ digits_val base ds = num /\
    Forall (fun d => 0 <= d < base) ds /\ ds <> [] /\ (head ds = Some 0 -> ds = [0]).
Proof.
  intros Hb. revert num acc. induction room as [|room IH]; intros num acc Hn;
    pose proof (Z.mod_pos_bound num base ltac:(lia)) as Hm; cbn [num_digs];
    (destruct (Z.eqb_spec base 0); [lia|]); destruct (Z.ltb_spec num base).
  1,3: exists [num]; rewrite Z.mod_small by lia; unfold digits_val; simpl;
    (split_and!; [done|lia|apply Forall_singleton; lia|done|by intros [= ->]]).
  - change (Z.of_nat 1) with 1 in Hn. lia.
  - destruct (IH (num / base) (num mod base :: acc)) as (ds & E & Hv & Hd & Hne & Hz).
    { rewrite Nat2Z.inj_succ, Z.pow_succ_r in Hn by lia. split; [apply Z.div_pos; lia|apply Z.div_lt_upper_bound; lia]. }
    exists (ds ++ [num mod base]). rewrite <- app_assoc. cbn [num_digs] in E. rewrite (proj2 (Z.eqb_neq base 0)) in E by lia.
    split_and!; [exact E| | | |].
    + rewrite digits_val_snoc, Hv. pose proof (Z.div_mod num base). lia.
    + apply Forall_app. split; [done|apply Forall_singleton; lia].
    + by destruct ds.
    + intros Hh. exfalso. assert (head ds = Some 0) as Hh' by (by destruct ds). specialize (Hz Hh'). subst ds.
      unfold digits_val in Hv. simpl in Hv. assert (0 < num / base) by (apply Z.div_str_pos; lia). lia.
Qed.

Lemma put_n_emit (n : nat) (c : Z) (out : list Z) : put_n emit n c out = Ok (tt, out ++ replicate n (u8 c)).
Proof.
  revert out. induction n as [|n IH]; intros out; simpl; [by rewrite app_nil_r|].
  unfold mbind, ST_bind. simpl. rewrite IH. by rewrite <- app_assoc.
Qed.

Lemma put_digs_emit (ds out : list Z) :
  Forall (fun d => 0 <= d < 36) ds -> put_digs emit ds out = Ok (tt, out ++ (digit_char <$> ds)).
Proof.
  intros Hds. revert out. induction Hds as [|d ds Hd Hds IH]; intros out; simpl; [by rewrite app_nil_r|].
  unfold mbind, ST_bind. simpl. rewrite IH. pose proof (digit_char_dval d Hd).
  rewrite uwrap_small by (unfold in_u; lia). by rewrite <- app_assoc.
Qed.

Lemma numval_chars (base : Z) (ds : list Z) :
  Forall (fun d => 0 <= d < 36) ds -> numval base (digit_char <$> ds) = digits_val base ds.
Proof.
  intros Hds. unfold numval, digits_val. generalize 0 as a. induction Hds as [|d ds Hd Hds IH]; intros a; [done|].
  simpl. rewrite IH. by rewrite (proj1 (digit_char_dval d Hd)).
Qed.

(** [printnum] writes, for every base up to 36, width and padding
    character, a numeral whose value is the number, without leading zeros,
    filled up on the left to the width, and never overruns its 64 digits. *)
Theorem printnum_layout (num base width padc : Z) (out : list Z) :
  2 <= base <= 36 -> in_u 64 num ->
  exists ds, printnum emit num base width padc out =
      Ok (tt, out ++ replicate (Z.to_nat (width - Z.of_nat (length ds))) (u8 padc) ++ ds) /\
    numval base ds = num /\ ds <> [] /\ (head ds = Some 48 -> ds = [48]).
Proof.
  intros Hb Hn. destruct (num_digs_spec 63 num base []) as (ds & E & Hv & Hd & Hne & Hz); [lia| |].
  { unfold in_u in Hn. split; [lia|]. assert (2 ^ 64 <= base ^ 64); [|lia]. apply Z.pow_le_mono_l. lia. }
  assert (Forall (fun d => 0 <= d < 36) ds) as Hd36 by (eapply Forall_impl; [exact Hd|]; simpl; lia).
  exists (digit_char <$> ds). split_and!.
  - unfold printnum, mbind, ST_bind, lift. rewrite E, app_nil_r, put_n_emit, put_digs_emit by done.
    by rewrite length_fmap, <- app_assoc.
  - by rewrite numval_chars.
  - by destruct ds.
  - intros Hh. rewrite Hz; [done|]. destruct ds as [|d ds]; [done|]. simpl in Hh |- *. injection Hh as Hh.
    f_equal. revert Hh. unfold digit_char. zcases; lia.
Qed.

Lemma printnum_layout_witness :
  printnum emit 255 16 5 48 [] = Ok (tt, bytes_of "000ff") /\
  exists ds, printnum emit 255 16 5 48 [] = Ok (tt, replicate (Z.to_nat (5 - Z.of_nat (length ds))) 48 ++ ds) /\ numval 16 ds = 255.
Proof.
  split; [vm_compute; reflexivity|].
  destruct (printnum_layout 255 16 5 48 []) as (ds & E & Hv & _); [lia|vm_compute; split; [discriminate|reflexivity]|].
  exists ds. split; [exact E|exact Hv].
Defined.

(** ** Every format is worked off *)

Section Terminates.
Context {T : Type} (putch : Z -> ST T unit) (Hputch : forall c s, uwp (putch c s) (fun _ => True)).

Definition halts {A : Type} (m : ST T A) : Prop := forall s, uwp (m s) (fun _ => True).

Lemma halts_ret {A} (a : A) : halts (mret a).
Proof. done. Qed.

Lemma halts_bind {A B} (m : ST T A) (k : A -> ST T B) : halts m -> (forall a, halts (k a)) -> halts (m ≫= k).
Proof.
  intros Hm Hk s. unfold mbind, ST_bind. specialize (Hm s). destruct (m s) as [[a s']| |]; [|done..]. apply Hk.
Qed.

Lemma halts_lift {A} (o : outcome A) : uwp o (fun _ => True) -> halts (lift o).
Proof. intros Ho s. unfold lift. by destruct o. Qed.

Lemma halts_put_n (n : nat) (c : Z) : halts (put_n putch n c).
Proof. induction n as [|n IH]; simpl; [apply halts_ret|]. apply halts_bind; [exact (Hputch c)|intros _; exact IH]. Qed.

Lemma halts_put_digs (ds : list Z) : halts (put_digs putch ds).
Proof. induction ds as [|d ds IH]; simpl; [apply halts_ret|]. apply halts_bind; [exact (Hputch _)|intros _; exact IH]. Qed.

Lemma num_digs_uwp (room : nat) (num base : Z) (ds : list Z) : uwp (num_digs room num base ds) (fun _ => True).
Proof. revert num ds. induction room as [|room IH]; intros num ds; simpl; [done|]. repeat case_match; done || apply IH. Qed.

Lemma halts_printnum (num base width padc : Z) : halts (printnum putch num base width padc).
Proof.
  unfold printnum. apply halts_bind; [apply halts_lift, num_digs_uwp|]. intros ds.
  apply halts_bind; [apply halts_put_n|intros; apply halts_put_digs].
Qed.

Lemma halts_put_string (p : list Z) (width precision : Z) : halts (put_string putch p width precision).
Proof.
  revert width precision. induction p as [|c p IH]; intros width precision; simpl; [by intros s|].
  repeat case_match; try apply halts_ret; (apply halts_bind; [exact (Hputch c)|intros _; apply IH]).
Qed.

Lemma strnlen_arg_uwp (p : list Z) (n : Z) : uwp (strnlen_arg p n) (fun _ => True).
Proof.
  revert n. induction p as [|c p IH]; intros n; simpl; repeat case_match; try done. by apply uwp_True.
Qed.

Lemma va_uwp (ap : list va) (lflag : Z) :
  uwp (va_int ap) (fun _ => True) /\ uwp (va_str ap) (fun _ => True) /\
  uwp (getint ap lflag) (fun _ => True) /\ uwp (getuint ap lflag) (fun _ => True).
Proof.
  unfold getint, getuint, va_int, va_str, va_ulong, va_uint.
  destruct ap as [|[] ap]; repeat case_match; done.
Qed.

Lemma halts_conv (ap : list va) (lflag base width precision padc : Z) :
  halts (conv_s putch ap width precision padc) /\ halts (conv_d putch ap lflag width padc) /\
  halts (conv_u putch ap lflag base width padc).
Proof.
  destruct (va_uwp ap lflag) as (_ & Hs & Hi & Hu). split_and!.
  - unfold conv_s. apply halts_bind; [by apply halts_lift|]. intros [p ap']. apply halts_bind.
    { case_match; [|apply halts_ret]. apply halts_bind; [apply halts_lift, strnlen_arg_uwp|].
      intros k. apply halts_bind; [apply halts_put_n|intros; apply halts_ret]. }
    intros w. apply halts_bind; [apply halts_put_string|]. intros w'. apply halts_bind; [apply halts_put_n|intros; apply halts_ret].
  - unfold conv_d. apply halts_bind; [by apply halts_lift|]. intros [num ap']. apply halts_bind.
    { case_match; [exact (Hputch 45)|apply halts_ret]. }
    intros _. apply halts_bind; [apply halts_printnum|intros; apply halts_ret].
  - unfold conv_u. apply halts_bind; [by apply halts_lift|]. intros [num ap']. apply halts_bind; [apply halts_printnum|intros; apply halts_ret].
Qed.

Lemma digits_loop_uwp (fmt : list Z) (precision ch : Z) :
  uwp (digits_loop fmt precision ch) (fun r => (length r.2 <= length fmt)%nat).
Proof.
  revert precision ch. induction fmt as [|c fmt IH]; intros precision ch; simpl; [by case_match|].
  destruct (2 ^ 31 <=? _); [done|]. destruct (_ || _); [simpl; lia|]. eapply uwp_mono; [apply IH|]. simpl. lia.
Qed.

(** The format that is left is no longer than the one [reswitch] started from. *)
Lemma reswitch_uwp (fuel : nat) : forall last_fmt fmt ap padc width precision lflag s,
  (length fmt < fuel)%nat -> (length fmt <= length last_fmt)%nat ->
  uwp (reswitch putch fuel last_fmt fmt ap padc width precision lflag s) (fun r => (length r.1.1 <= length last_fmt)%nat).
Proof.
  induction fuel as [|fuel IH]; intros last_fmt fmt ap padc width precision lflag s Hf Hl; [lia|].
  destruct fmt as [|ch fmt]; [done|]. simpl in Hf, Hl. cbn [reswitch].
  assert (forall (m : ST T (list va)), halts m -> uwp ((ap' ← m; mret (fmt, ap')) s) (fun r => (length r.1.1 <= length last_fmt)%nat)) as Hconv.
  { intros m Hm. specialize (Hm s). unfold mbind, ST_bind. destruct (m s) as [[a s']| |]; simpl; [lia|done..]. }
  assert (forall c f a, (length f <= length last_fmt)%nat -> uwp ((putch c;; mret (f, a)) s) (fun r : list Z * list va * T => (length r.1.1 <= length last_fmt)%nat)) as Hput.
  { intros c f a Hle. specialize (Hputch c s). unfold mbind, ST_bind. destruct (putch c s) as [[[] s']| |]; simpl; done. }
  pose proof (fun b => halts_conv ap lflag b width precision padc) as Hc.
  destruct (ch =? 45); [apply IH; lia|]. destruct (ch =? 48); [apply IH; lia|]. destruct (_ && _).
  { unfold mbind, ST_bind, lift. pose proof (digits_loop_uwp fmt 0 ch) as Hd. destruct (digits_loop fmt 0 ch) as [[pr f]| |]; [|done..].
    simpl in Hd. case_match; apply IH; lia. }
  destruct (ch =? 108); [apply IH; lia|]. destruct (ch =? 99).
  { unfold mbind at 1, ST_bind at 1, lift. destruct (va_int ap) as [[c a]| |] eqn:E; [apply Hput; lia|done|].
    pose proof (proj1 (va_uwp ap 0)) as Hu. by rewrite E in Hu. }
  destruct (ch =? 115); [apply Hconv, (Hc 10)|]. destruct (ch =? 100); [apply Hconv, (Hc 10)|].
  destruct (ch =? 117); [apply Hconv, (Hc 10)|]. destruct (ch =? 120); [apply Hconv, (Hc 16)|].
  destruct (ch =? 37); apply Hput; lia.
Qed.

Lemma vprintfmt_halts (fmt : list Z) (ap : list va) : halts (vprintfmt putch fmt ap).
Proof.
  unfold vprintfmt. enough (forall fuel fmt ap, (length fmt < fuel)%nat -> halts (vprintfmt_loop putch fuel fmt ap)) as H by (apply H; lia).
  clear fmt ap. induction fuel as [|fuel IH]; intros fmt ap Hf s; [lia|].
  destruct fmt as [|ch fmt]; [done|]. simpl in Hf. cbn [vprintfmt_loop].
  destruct (ch =? 0); [done|]. destruct (ch =? 37); [change (negb true) with false|change (negb false) with true]; cbv iota.
  - pose proof (reswitch_uwp (S (length fmt)) fmt fmt ap 32 (-1) (-1) 0 s) as Hr.
    specialize (Hr ltac:(lia) ltac:(lia)).
    unfold mbind, ST_bind. destruct (reswitch _ _ _ _ _ _ _ _ _ s) as [[[f a] s']| |]; [|done..].
    apply IH. simpl in Hr. lia.
  - apply halts_bind; [exact (Hputch ch)|]. intros _. apply IH. lia.
Qed.
End Terminates.

(** In the supervisor-mode build [putchar] passes the character where
    [syscall] expects the address of one.  Unless the guest happens to have
    memory at the addresses of the character codes, [putchar] and with it
    every [printf] that starts with an ordinary character loads from an
    unmapped address. *)
Theorem putchar_dereferences {W : Type} `{!Firmware W mem} (ch : Z) (w : W) (m : mem) (fmt : list Z) (ap : list va) :
  1 <= ch < 256 -> ch <> 37 -> m !! ch = None ->
  putchar ch (w, m) = UB /\ printf (ch :: fmt) ap (w, m) = UB.
Proof.
  intros Hch H37 Hm. assert (putchar ch (w, m) = UB) as Hp.
  { unfold putchar, syscall, ldptr. rewrite (uwrap_small 8 ch) by (unfold in_u; lia).
    unfold mbind, ST_bind, lift. simpl. unfold ldb. by rewrite Hm. }
  split; [done|]. unfold printf, vprintfmt. cbn [vprintfmt_loop length].
  rewrite (proj2 (Z.eqb_neq ch 0)), (proj2 (Z.eqb_neq ch 37)) by lia. change (negb false) with true. cbv iota.
  unfold mbind, ST_bind. by rewrite Hp.
Qed.

Lemma putchar_dereferences_witness :
  @putchar (list Z) (Reference.firmware (fun _ m => m) []) 72 ([], {[ 0x80000000 := 19 ]}) = UB /\
  @printf (list Z) (Reference.firmware (fun _ m => m) []) (72 :: cstr "ello") [] ([], {[ 0x80000000 := 19 ]}) = UB.
Proof. apply (@putchar_dereferences (list Z) (Reference.firmware (fun _ m => m) []) 72 []); [lia|lia|reflexivity]. Defined.
End Syscalls.
