(* ===== verification/Start.v ===== *)
(** * Start-up of the benchmarks (riscv-tests/benchmarks/common/syscalls.c)

    [_init]: the thread-local storage, the benchmark's [main], and the report
    of the counters it measured, as far as the call of [exit], which loops.
    The benchmark is a parameter: a computation that may change the counters
    through [setStats].  So are the addresses the linker chooses and the
    stack buffers; the fuel of [printstr] is the size of the memory. *)

From S2P Require Import Prelude Sbi LibC EePrintf Syscalls.

Module Start.
Import Printf Syscalls.

(** Where the linker put the thread-local data. *)
Record tls := Tls { tdata_begin : Z; tdata_end : Z; tbss_end : Z }.

Definition init_tls (t : tls) (thread_pointer : Z) (m : mem) : outcome mem :=
  let tdata_size := u64 (tdata_end t - tdata_begin t) in
  '(_, m) ← Sys.memcpy m thread_pointer (tdata_begin t) tdata_size;
  let tbss_size := u64 (tbss_end t - tdata_end t) in
  '(_, m) ← Sys.memset m (u64 (thread_pointer + tdata_size)) 0 tbss_size;
  Ok m.

Section Start.
Context {W : Type} `{!Firmware W mem}.

Abbreviation sys := (ST (W * mem)).

(** Code that changes the memory only. *)
Definition on_mem {A : Type} (f : mem -> outcome (A * mem)) : sys A := fun '(w, m) =>
  match f m with Ok (a, m) => Ok (a, (w, m)) | UB => UB | Fuel => Fuel end.

Definition puts (s : Z) : sys unit := st ← st_get; printstr (S (size st.2)) s.

(** [while (cid != 0);]: only the first core goes on. *)
Definition thread_entry (cid nc : Z) : sys unit := if cid =? 0 then mret tt else st_fuel.

(** The weak [main] that is linked when the benchmark has none; the literal
    is at [text_addr]. *)
Definition main (text_addr : Z) : sys Z := puts text_addr;; mret (-1).

Definition hex_digit (x : Z) : Z := u8 (Z.land x 0xF + (if Z.land x 0xF <? 10 then 48 else 97 - 10)).

(** [for (i = 0; i < 16; i++)], from the last digit to the first. *)
Fixpoint hex_digits (n : nat) (m : mem) (str i x : Z) : outcome mem :=
  match n with
  | O => Ok m
  | S n => m ← stb m (u64 (str + (15 - i))) (hex_digit x); hex_digits n m str (i + 1) (Z.shiftr x 4)
  end.

(** [str] is the address of the 17 bytes on the stack. *)
Definition printhex (str x : Z) : sys unit :=
  on_mem (fun m => m ← hex_digits 16 m str 0 x; m ← stb m (u64 (str + 16)) 0; Ok (tt, m));;
  puts str.

(** [for (i = 0; i < NUM_COUNTERS; i++)]: the end of the report in [buf]. *)
Fixpoint report_loop (n : nat) (i pbuf : Z) (s : stats) (m : mem) : outcome (Z * mem) :=
  match n with
  | O => Ok (pbuf, m)
  | S n =>
      c ← aget (counters s) i;
      '(pbuf, m) ←
        if c =? 0 then Ok (pbuf, m) else
        (name ← aget (counter_names s) i;
         '(k, m) ← sprintf pbuf (line "%s = %lu" ++ [0]) [VStr (Some name); VLong c] m;
         Ok (u64 (pbuf + k), m));
      report_loop n (i + 1) pbuf s m
  end.

Definition report (buf : Z) (s : stats) : sys unit :=
  pbuf ← on_mem (report_loop (Z.to_nat NUM_COUNTERS) 0 buf s);
  if pbuf =? buf then mret tt else puts buf.

(** The value [_init] passes to [exit]. *)
Definition init (t : tls) (thread_pointer buf : Z) (benchmark : stats -> sys (Z * stats)) (cid nc : Z) : sys Z :=
  on_mem (fun m => m ← init_tls t thread_pointer m; Ok (tt, m));;
  thread_entry cid nc;;
  '(ret, s) ← benchmark (Stats [0; 0] [[]; []]);
  report buf s;;
  mret ret.
End Start.

(** A benchmark that measures 100 cycles and 7 instructions and returns 0,
    on a machine with 512 bytes: the report is on the console (which takes the
    low byte of each word it is sent). *)
Definition demo_mem : mem := list_to_map ((fun a => (a, a mod 251)) <$> seqZ 4096 512).

Definition demo_bench {W : Type} (s : stats) : ST (W * mem) (Z * stats) :=
  s ← lift (setStats 1 1000 50 s); s ← lift (setStats 0 1100 57 s); mret (0, s).

Example init_demo :
  (match @init (list Z) (Reference.firmware (fun _ m => m) []) (Tls 4096 4112 4120) 4160 4224 demo_bench 0 1 ([], demo_mem) with
   | Ok (r, (out, m)) => Some (r, u8 <$> out, fst <$> (match Sys.ldws m 4160 3 with Ok l => Some (l, tt) | _ => None end))
   | _ => None
   end) = Some (0, line "cycle = 100" ++ line "instret = 7", Some [0x5756555453525150; 0x5F5E5D5C5B5A5958; 0]).
Proof. vm_compute. reflexivity. Qed.
End Start.
