(* ===== verification/Util.v ===== *)
(** * Helpers of the benchmarks (riscv-tests/benchmarks/common/util.h)

    [verify], which compares a result with the expected data two elements at
    a time, and the pseudo-random register [lfsr].  The barrier of the file is
    in [Barrier]; the floating-point comparisons are not modelled. *)

From S2P Require Import Prelude.

Module Util.

(** The loop: [Some k] is [return k]. *)
Fixpoint verify_loop (fuel : nat) (i n : Z) (test expected : list Z) : outcome (option Z) :=
  if i <? Z.quot n 2 * 2 then
    match fuel with
    | O => Fuel
    | S fuel =>
        t0 ← aget test i; t1 ← aget test (i + 1);
        v0 ← aget expected i; v1 ← aget expected (i + 1);
        if negb (t0 =? v0) then Ok (Some (i + 1)) else
        if negb (t1 =? v1) then Ok (Some (i + 2)) else
        verify_loop fuel (i + 2) n test expected
    end
  else Ok None.

Definition verify (n : Z) (test expected : list Z) : outcome Z :=
  r ← verify_loop (Z.to_nat n) 0 n test expected;
  match r with
  | Some k => Ok k
  | None =>
      if negb (Z.rem n 2 =? 0) then
        t ← aget test (n - 1); v ← aget expected (n - 1);
        if negb (t =? v) then Ok n else Ok 0
      else Ok 0
  end.

Definition lfsr (x : Z) : Z :=
  let bit := Z.land (Z.lxor x (Z.shiftr x 1)) 1 in
  Z.lor (Z.shiftr x 1) (u64 (Z.shiftl bit 62)).

(** ** [verify] finds the first difference *)

Section Verify.
Context (test expected : list Z) (Hlen : length test = length expected).

Abbreviation n := (Z.of_nat (length test)).

(** The first [i] elements agree. *)
Definition agree (i : Z) : Prop := take (Z.to_nat i) test = take (Z.to_nat i) expected.

(** The [k]-th element, counted from one, is the first that differs. *)
Definition differs (k : Z) : Prop :=
  1 <= k <= n /\ agree (k - 1) /\ test !! Z.to_nat (k - 1) <> expected !! Z.to_nat (k - 1).

Lemma agree_succ (i x : Z) : 0 <= i -> agree i -> test !! Z.to_nat i = Some x -> expected !! Z.to_nat i = Some x -> agree (i + 1).
Proof.
  unfold agree. intros Hi Ha Ht He. replace (Z.to_nat (i + 1)) with (S (Z.to_nat i)) by lia.
  by rewrite (take_S_r _ _ _ Ht), (take_S_r _ _ _ He), Ha.
Qed.

Lemma both (i : Z) : 0 <= i < n -> exists t v, aget test i = Ok t /\ aget expected i = Ok v /\
  test !! Z.to_nat i = Some t /\ expected !! Z.to_nat i = Some v.
Proof.
  intros Hi. destruct (aget_in_range test i Hi) as (t & Ht & Et). destruct (aget_in_range expected i) as (v & Hv & Ev); [lia|].
  by exists t, v.
Qed.

Lemma verify_loop_spec (fuel : nat) : forall j, 0 <= j <= Z.quot n 2 -> Z.quot n 2 - j <= Z.of_nat fuel -> agree (2 * j) ->
  owp (verify_loop fuel (2 * j) n test expected) (fun r => match r with Some k => differs k | None => agree (Z.quot n 2 * 2) end).
Proof.
  pose proof (Z.quot_rem' n 2) as Hqr. pose proof (Z.rem_bound_pos n 2 ltac:(lia) ltac:(lia)) as Hrb.
  induction fuel as [|fuel IH]; intros j Hj Hf Ha; simpl; (destruct (Z.ltb_spec (2 * j) (Z.quot n 2 * 2)) as [Hlt|Hge]);
    try (simpl; by replace (Z.quot n 2 * 2) with (2 * j) by lia); [lia|].
  destruct (both (2 * j)) as (t0 & v0 & Et0 & Ev0 & Lt0 & Lv0); [lia|].
  destruct (both (2 * j + 1)) as (t1 & v1 & Et1 & Ev1 & Lt1 & Lv1); [lia|].
  rewrite Et0, Et1, Ev0, Ev1. simpl. destruct (Z.eqb_spec t0 v0) as [<- |Hne]; simpl.
  - assert (agree (2 * j + 1)) as Ha1 by (eapply agree_succ; [lia|done|exact Lt0|exact Lv0]).
    destruct (Z.eqb_spec t1 v1) as [<- |Hne]; simpl.
    + replace (2 * j + 2) with (2 * (j + 1)) by lia. apply IH; [lia|lia|].
      replace (2 * (j + 1)) with (2 * j + 1 + 1) by lia. eapply agree_succ; [lia|done|exact Lt1|exact Lv1].
    + split; [lia|]. replace (2 * j + 2 - 1) with (2 * j + 1) by lia. split; [done|]. rewrite Lt1, Lv1. congruence.
  - split; [lia|]. rewrite Z.add_simpl_r. split; [done|]. rewrite Lt0, Lv0. congruence.
Qed.

(** [verify] returns 0 when the data agree, and otherwise the position of the
    first difference. *)
Lemma verify_finds : owp (verify n test expected) (fun k => k = 0 /\ test = expected \/ differs k).
Proof.
  pose proof (Z.quot_rem' n 2) as Hqr. pose proof (Z.rem_bound_pos n 2 ltac:(lia) ltac:(lia)) as Hrb.
  assert (agree n -> test = expected) as Hall by (unfold agree; rewrite Nat2Z.id, !take_ge by lia; done).
  unfold verify. apply owp_bind. eapply owp_mono; [apply (verify_loop_spec (Z.to_nat n) 0); [lia|lia|done]|]. intros [k|]; [by right|].
  intros Ha. destruct (Z.eqb_spec (Z.rem n 2) 0) as [Er|Hr]; simpl.
  - left. split; [done|]. apply Hall. by replace (Z.quot n 2 * 2) with n in Ha by lia.
  - destruct (both (n - 1)) as (t & v & Et & Ev & Lt & Lv); [lia|]. rewrite Et, Ev. simpl.
    replace (Z.quot n 2 * 2) with (n - 1) in Ha by lia. destruct (Z.eqb_spec t v) as [<- |Hne]; simpl.
    + left. split; [done|]. apply Hall. replace n with (n - 1 + 1) by lia. eapply agree_succ; [lia|done|exact Lt|exact Lv].
    + right. split; [lia|]. split; [done|]. rewrite Lt, Lv. congruence.
Qed.
End Verify.
End Util.
