(* ===== verification/Barrier.v ===== *)
(** * The barrier of the multi-core benchmarks (riscv-tests/benchmarks/common/util.h)

    [barrier]: a counter and a shared sense that is reversed by the core that
    arrives last, and a sense of its own in every core.  The cores run
    concurrently; a step of one core is one access to shared memory.  The
    increment is a full fence, as are the first and the last statement, so
    that the accesses of a core are ordered but for the two stores of the core
    that arrives last, [count = 0] and [sense = threadsense]: there is no fence
    between them, and the memory model of the architecture lets the other
    cores see the second one first.  The step relation has that behaviour as
    an option: with [ordered = true] stores become visible in program order (a
    hart that keeps its stores in order), with [false] these two may be
    exchanged.  Each core calls the barrier again and again: where it is in the
    code is its [pc], and [rounds] counts the calls it has returned from. *)

From S2P Require Import Prelude.

Module Barrier.

(** Before the call; before the increment; before [count = 0]; before
    [sense = threadsense]; after it, with [count = 0] still to become visible;
    in the waiting loop. *)
Inductive pc := Out | Entered | Last | Release | Reset | Wait.

Record core := Core { at_ : pc; threadsense : Z; rounds : Z }.

(** [static volatile int sense, count], and every core. *)
Record state := State { sense : Z; count : Z; cores : list core }.

#[global] Instance pc_eq_dec : EqDecision pc.
Proof. solve_decision. Defined.

(** ** One step of a core: the shared variables and the core afterwards *)

Definition not_ (x : Z) : Z := if x =? 0 then 1 else 0.

Definition core_step (ncores sense count : Z) (c : core) : Z * Z * core :=
  match at_ c with
  | Out => (sense, count, Core Entered (not_ (threadsense c)) (rounds c))
  | Entered =>
      (sense, s32 (count + 1), Core (if count =? s32 (ncores - 1) then Last else Wait) (threadsense c) (rounds c))
  | Last => (sense, 0, Core Release (threadsense c) (rounds c))
  | Release => (threadsense c, count, Core Out (threadsense c) (rounds c + 1))
  | Reset => (sense, 0, Core Out (threadsense c) (rounds c + 1))
  | Wait => if sense =? threadsense c then (sense, count, Core Out (threadsense c) (rounds c + 1)) else (sense, count, c)
  end.

(** Any core may go next; without order the store to [sense] may become visible
    before [count = 0]. *)
Inductive step (ordered : bool) (n : Z) : state -> state -> Prop :=
| step_core (s : state) (i : nat) (c c' : core) (se co : Z) :
    cores s !! i = Some c -> core_step n (sense s) (count s) c = (se, co, c') ->
    step ordered n s (State se co (<[i := c']> (cores s)))
| step_early (s : state) (i : nat) (c : core) :
    ordered = false -> cores s !! i = Some c -> at_ c = Last ->
    step ordered n s (State (threadsense c) (count s) (<[i := Core Reset (threadsense c) (rounds c)]> (cores s))).

(** Static variables and thread-local storage start as zero. *)
Definition initial (n : Z) : state := State 0 0 (replicate (Z.to_nat n) (Core Out 0 0)).

Definition reachable (ordered : bool) (n : Z) (s : state) : Prop := rtc (step ordered n) (initial n) s.

(** The calls a core has made, the one it is in among them. *)
Definition calls (c : core) : Z := rounds c + if decide (at_ c = Out) then 0 else 1.

(** ** Counting cores *)

Section Count.
Context (P : core -> Prop) `{!forall c, Decision (P c)}.

Definition ind (c : core) : Z := if decide (P c) then 1 else 0.
Fixpoint number (l : list core) : Z := match l with [] => 0 | c :: l => ind c + number l end.

Lemma ind_range (c : core) : 0 <= ind c <= 1.
Proof. unfold ind. case_decide; lia. Qed.

Lemma number_range (l : list core) : 0 <= number l <= Z.of_nat (length l).
Proof. induction l as [|c l IH]; cbn [number length]; [lia|]. pose proof (ind_range c). lia. Qed.

Lemma number_insert (l : list core) : forall i c c', l !! i = Some c -> number (<[i := c']> l) = number l - ind c + ind c'.
Proof.
  induction l as [|d l IH]; intros [|i] c c' Hc; [done|done| |].
  - injection Hc as ->. cbn [number insert list_insert]. lia.
  - change (<[S i := c']> (d :: l)) with (d :: <[i := c']> l). cbn [number]. rewrite (IH i c c' Hc). lia.
Qed.

Lemma number_all (l : list core) : number l = Z.of_nat (length l) -> Forall P l.
Proof.
  induction l as [|c l IH]; intros Hn; constructor; cbn [number length] in Hn; pose proof (number_range l); pose proof (ind_range c).
  - unfold ind in *. case_decide; [done|lia].
  - apply IH. lia.
Qed.

(** All but one: it is the only one left. *)
Lemma number_others (l : list core) (i : nat) (c : core) : l !! i = Some c -> ~ P c -> number l = Z.of_nat (length l) - 1 ->
  forall j d, l !! j = Some d -> j <> i -> P d.
Proof.
  revert i. induction l as [|e l IH]; intros [|i] Hc HP Hn [|j] d Hd Hj; try done; cbn [number length] in Hn;
    pose proof (number_range l); pose proof (ind_range e); simpl in Hc, Hd; simplify_eq.
  - assert (ind c = 0) as Hi by (unfold ind; by rewrite decide_False). apply (Forall_lookup_1 P l j d); [apply number_all; lia|exact Hd].
  - unfold ind in *. destruct (decide (P d)); [done|]. exfalso. assert (number l = Z.of_nat (length l)) as Hall by lia.
    apply HP. by apply (Forall_lookup_1 P l i c); [apply number_all|].
  - apply (IH i Hc HP) with j; [|done|congruence].
    destruct (decide (number l = Z.of_nat (length l))) as [Hall|]; [|lia].
    exfalso. apply HP. by apply (Forall_lookup_1 P l i c); [apply number_all|].
Qed.
End Count.

(** ** The invariant *)

(** In round [R], which [R] reversals of the sense have ended, a core is
    waiting if it has been counted and not been released. *)
Definition waiting (R : Z) (c : core) : Prop := at_ c = Wait /\ rounds c = R.

#[global] Instance waiting_dec (R : Z) (c : core) : Decision (waiting R c).
Proof. unfold waiting. apply _. Defined.

Definition core_ok (R : Z) (c : core) : Prop :=
  at_ c <> Reset /\ threadsense c = calls c mod 2 /\ (rounds c = R \/ at_ c = Wait /\ rounds c = R - 1).

(** Every core but the [i]-th is waiting. *)
Definition others_wait (R : Z) (i : nat) (l : list core) : Prop := forall j d, l !! j = Some d -> j <> i -> waiting R d.

(** Either cores are still arriving, or the last one is about to release the
    others. *)
Definition phase (n R : Z) (s : state) : Prop :=
  (count s = number (waiting R) (cores s) /\ count s < n /\ Forall (fun c => at_ c <> Last /\ at_ c <> Release) (cores s)) \/
  (exists i c, cores s !! i = Some c /\ rounds c = R /\ others_wait R i (cores s) /\ (at_ c = Last \/ at_ c = Release /\ count s = 0)).

Definition inv (n R : Z) (s : state) : Prop :=
  0 <= R /\ Z.of_nat (length (cores s)) = n /\ sense s = R mod 2 /\ Forall (core_ok R) (cores s) /\ phase n R s.

Lemma number_none (R : Z) (l : list core) : Forall (fun c => ~ waiting R c) l -> number (waiting R) l = 0.
Proof. induction 1 as [|c l Hc Hl IH]; cbn [number]; [done|]. unfold ind. rewrite decide_False by done. lia. Qed.

Lemma inv_initial (n : Z) : 1 <= n -> inv n 0 (initial n).
Proof.
  intros Hn. unfold inv, initial. simpl. rewrite length_replicate. split_and!; [lia|lia|done| |].
  - apply Forall_replicate. split; [done|]. split; [done|]. by left.
  - left. simpl. split_and!; [|lia|by apply Forall_replicate].
    symmetry. apply number_none, Forall_replicate. by intros [? _].
Qed.

Lemma mod2_flip (x : Z) : not_ (x mod 2) = (x + 1) mod 2.
Proof. unfold not_. rewrite <- Zplus_mod_idemp_l. pose proof (Z.mod_pos_bound x 2 ltac:(lia)). destruct (Z.eqb_spec (x mod 2) 0) as [-> |]; [done|]. by replace (x mod 2) with 1 by lia. Qed.

Lemma mod2_ne (x : Z) : x mod 2 <> (x + 1) mod 2.
Proof. rewrite <- mod2_flip. unfold not_. case_match eqn:E; rewrite ?Z.eqb_eq, ?Z.eqb_neq in E; lia. Qed.

(** Replacing a core that is not waiting by another that is not. *)
Lemma others_insert (R : Z) (i : nat) (c' : core) (l : list core) : others_wait R i l -> others_wait R i (<[i := c']> l).
Proof. intros H j d Hd Hj. rewrite list_lookup_insert_ne in Hd by done. by eapply H. Qed.

(** ** Every step keeps the invariant *)

Section Step.
Context (n R : Z) (s : state) (i : nat) (c : core).
Context (Hn : n < 2 ^ 31) (Hinv : inv n R s) (Hc : cores s !! i = Some c).

Lemma at_core : threadsense c = calls c mod 2 /\ (rounds c = R \/ at_ c = Wait /\ rounds c = R - 1).
Proof. destruct Hinv as (_ & _ & _ & Hok & _). exact (proj2 (Forall_lookup_1 _ _ _ _ Hok Hc)). Qed.

Lemma not_reset : at_ c <> Reset.
Proof. destruct Hinv as (_ & _ & _ & Hok & _). exact (proj1 (Forall_lookup_1 _ _ _ _ Hok Hc)). Qed.

(** A core that has not been counted: the cores are still arriving. *)
Lemma arriving : at_ c <> Last -> at_ c <> Release -> ~ waiting R c ->
  count s = number (waiting R) (cores s) /\ count s < n /\ Forall (fun c => at_ c <> Last /\ at_ c <> Release) (cores s).
Proof.
  intros H1 H2 H3. destruct Hinv as (_ & _ & _ & _ & [Hp|(j & d & Hd & _ & Ho & Hat)]); [done|].
  destruct (decide (i = j)) as [<- |Hij]; [|by destruct (H3 (Ho i c Hc Hij))]. assert (d = c) as -> by congruence. tauto.
Qed.

(** The last core: all others are waiting. *)
Lemma releasing : at_ c = Last \/ at_ c = Release -> rounds c = R /\ others_wait R i (cores s) /\ (at_ c = Release -> count s = 0).
Proof.
  intros Hat. destruct Hinv as (_ & _ & _ & _ & [(_ & _ & Hno)|(j & d & Hd & Hr & Ho & Hat')]).
  - pose proof (Forall_lookup_1 _ _ _ _ Hno Hc) as [? ?]. tauto.
  - destruct (decide (i = j)) as [<- |Hij].
    + assert (d = c) as -> by congruence. split_and!; [done|done|]. intros E. rewrite E in Hat'. by destruct Hat' as [?|[_ ?]].
    + destruct (Ho i c Hc Hij) as [Ew _]. rewrite Ew in Hat. by destruct Hat.
Qed.

(** A core goes on inside the round: the rest of the invariant. *)
Lemma inv_insert (co : Z) (c' : core) : core_ok R c' -> phase n R (State (sense s) co (<[i := c']> (cores s))) ->
  inv n R (State (sense s) co (<[i := c']> (cores s))).
Proof.
  intros Hok Hp. destruct Hinv as (HR & Hlen & Hs & Hoks & _). unfold inv. simpl. rewrite length_insert. split_and!; [done|done|done| |done].
  by apply Forall_insert.
Qed.

(** Still arriving: the core moves, counted or not. *)
Lemma phase_insert (co : Z) (c' : core) : at_ c <> Last -> at_ c <> Release -> ~ waiting R c -> at_ c' <> Last -> at_ c' <> Release ->
  co = count s + ind (waiting R) c' -> co < n -> phase n R (State (sense s) co (<[i := c']> (cores s))).
Proof.
  intros H1 H2 H3 H4 H5 -> Hlt. destruct (arriving H1 H2 H3) as (Hcnt & _ & Hno). left. simpl. split_and!; [|done|by apply Forall_insert].
  rewrite (number_insert _ _ _ c) by done. unfold ind at 2. rewrite decide_False by done. lia.
Qed.

Lemma count_range : at_ c = Entered -> 0 <= count s < n.
Proof.
  intros E. destruct (arriving) as (-> & ? & _); [by rewrite E..|by intros [? _]; congruence|].
  pose proof (number_range (waiting R) (cores s)). lia.
Qed.

Lemma core_calls (p : pc) (t r : Z) : p <> Out -> calls (Core p t r) = r + 1.
Proof. intros Hp. unfold calls. simpl. by rewrite decide_False. Qed.

(** The last core reverses the sense: a new round. *)
Lemma release_inv (c' : core) : at_ c = Release -> c' = Core Out (threadsense c) (rounds c + 1) ->
  inv n (R + 1) (State (threadsense c) (count s) (<[i := c']> (cores s))).
Proof.
  intros E Ec'. destruct releasing as (Er & Ho & Hz); [by right|]. specialize (Hz E). pose proof at_core as [Ht _].
  pose proof Hinv as (HR & Hlen & Hs & Hoks & _).
  assert (calls c = R + 1) as Ec by (unfold calls; rewrite decide_False by congruence; lia).
  assert (forall j d, <[i := c']> (cores s) !! j = Some d -> d = c' \/ waiting R d /\ core_ok R d) as Hall.
  { intros j d Hd. apply list_lookup_insert_Some in Hd as [(_ & <- & _)|[Hj Hd]]; [by left|right]. split.
    - eapply Ho; [exact Hd|done].
    - exact (Forall_lookup_1 _ _ _ _ Hoks Hd). }
  unfold inv. simpl. rewrite length_insert. split_and!; [lia|done|by rewrite Ht, Ec| |left; simpl; split_and!].
  - apply Forall_lookup_2. intros j d [-> |[[Hw Hrd] [Hnr [Htd _]]]]%Hall.
    + subst c'. split; [done|]. split; [|left; simpl; lia]. unfold calls. simpl. by rewrite Ht, Ec, Er, Z.add_0_r.
    + split; [done|]. split; [done|]. right. split; [done|lia].
  - rewrite number_none; [done|]. apply Forall_lookup_2. intros j d [-> |[[Hw Hrd] _]]%Hall; [subst c'; by intros [? _]|intros [_ ?]; lia].
  - pose proof (lookup_lt_Some _ _ _ Hc). lia.
  - apply Forall_lookup_2. intros j d [-> |[[Hw Hrd] _]]%Hall; [by subst c'|by rewrite Hw].
Qed.

(** A waiting core sees the new sense and leaves. *)
Lemma leave_inv (c' : core) : at_ c = Wait -> sense s = threadsense c -> c' = Core Out (threadsense c) (rounds c + 1) ->
  inv n R (State (sense s) (count s) (<[i := c']> (cores s))).
Proof.
  intros E Eq Ec'. pose proof at_core as [Ht Hr]. pose proof Hinv as (_ & _ & Hs & _ & _).
  assert (calls c = rounds c + 1) as Ec by (unfold calls; rewrite decide_False by congruence; lia).
  assert (rounds c = R - 1) as Er.
  { destruct Hr as [Hr|[_ Hr]]; [|done]. rewrite Ht, Ec, Hr in Eq. rewrite Hs in Eq. by destruct (mod2_ne R). }
  assert (~ waiting R c) as Hnw by (intros [_ ?]; lia). apply inv_insert.
  - subst c'. split; [done|]. split; [|left; simpl; lia]. unfold calls. simpl. by rewrite Ht, Ec, Z.add_0_r.
  - destruct arriving as (_ & Hlt & _); [congruence..|done|]. apply phase_insert; try congruence; try done.
    + by subst c'.
    + by subst c'.
    + subst c'. unfold ind. rewrite decide_False; [lia|]. by intros [? _].
Qed.

Lemma step_inv (se co : Z) (c' : core) : core_step n (sense s) (count s) c = (se, co, c') ->
  inv n R (State se co (<[i := c']> (cores s))) \/ inv n (R + 1) (State se co (<[i := c']> (cores s))).
Proof.
  pose proof at_core as [Ht Hr]. pose proof Hinv as (HR & Hlen & Hs & Hoks & _). unfold core_step. destruct (at_ c) eqn:E; intros Hst.
  - injection Hst as <- <- <-. assert (rounds c = R) as Er by (destruct Hr as [?|[? _]]; [done|congruence]). left.
    apply inv_insert.
    + split; [done|]. split; [|by left]. rewrite core_calls by done. simpl. rewrite Ht. unfold calls. rewrite decide_True, Z.add_0_r by done. apply mod2_flip.
    + destruct arriving as (_ & Hlt & _); [by rewrite E..|by intros [? _]; congruence|].
      apply phase_insert; try (by rewrite E) || done; [by intros [? _]; congruence|]. unfold ind. rewrite decide_False; [lia|]. by intros [? _].
  - assert (rounds c = R) as Er by (destruct Hr as [?|[? _]]; [done|congruence]). pose proof (count_range E) as Hcr.
    assert (~ waiting R c) as Hnw by (intros [? _]; congruence).
    assert (calls c = R + 1) as Ec by (unfold calls; rewrite decide_False by congruence; lia).
    rewrite (swrap_small 32 (n - 1)), (swrap_small 32 (count s + 1)) in Hst by (unfold in_s; lia). injection Hst as <- <- <-. left.
    apply inv_insert.
    + split; [by cbn; case_match|]. split; [|by left]. simpl. rewrite core_calls, Ht, Ec, Er by (by case_match). done.
    + destruct (Z.eqb_spec (count s) (n - 1)) as [Elast|Hne].
      * right. exists i, (Core Last (threadsense c) (rounds c)). simpl. split_and!; [|done| |by left].
        -- rewrite list_lookup_insert_eq; [done|by eapply lookup_lt_Some].
        -- apply others_insert. destruct arriving as (Hcnt & _); [congruence..|done|].
           intros j d Hd Hj. eapply (number_others (waiting R)); [exact Hc|done|lia|exact Hd|done].
      * apply phase_insert; try (by rewrite E) || done; [|lia]. unfold ind. by rewrite decide_True.
  - injection Hst as <- <- <-. destruct releasing as (Er & Ho & _); [by left|]. left. apply inv_insert.
    + split; [done|]. split; [|by left]. rewrite core_calls by done. simpl. rewrite Ht. unfold calls. by rewrite decide_False by congruence.
    + right. exists i, (Core Release (threadsense c) (rounds c)). simpl. split_and!; [|done|by apply others_insert|by right].
      rewrite list_lookup_insert_eq; [done|by eapply lookup_lt_Some].
  - injection Hst as <- <- <-. right. by apply release_inv.
  - by destruct not_reset.
  - left. destruct (Z.eqb_spec (sense s) (threadsense c)) as [Eq|Hne].
    + injection Hst as <- <- <-. by apply leave_inv.
    + injection Hst as <- <- <-. rewrite list_insert_id by done. by destruct s.
Qed.
End Step.

Lemma steps_inv (n R : Z) (s s' : state) : n < 2 ^ 31 -> inv n R s -> rtc (step true n) s s' -> exists R', inv n R' s'.
Proof.
  intros Hn Hinv Hs. revert R Hinv. induction Hs as [s|s s1 s2 Hst _ IH]; intros R Hinv; [by exists R|].
  destruct Hst as [s i c c' se co Hc Hstep|]; [|done]. destruct (step_inv n R s i c Hn Hinv Hc se co c' Hstep) as [H|H]; by eapply IH.
Qed.

(** ** Progress *)

Definition place (p : pc) : Z := match p with Out => 0 | Entered => 1 | Last => 2 | Release | Reset => 3 | Wait => 2 end.
Definition measure (c : core) : Z := 5 * rounds c + place (at_ c).
Fixpoint total (l : list core) : Z := match l with [] => 0 | c :: l => measure c + total l end.

Lemma total_insert (l : list core) : forall i c c', l !! i = Some c -> total (<[i := c']> l) = total l - measure c + measure c'.
Proof.
  induction l as [|d l IH]; intros [|i] c c' Hc; [done|done| |].
  - injection Hc as ->. cbn [total insert list_insert]. lia.
  - change (<[S i := c']> (d :: l)) with (d :: <[i := c']> l). cbn [total]. rewrite (IH i c c' Hc). lia.
Qed.

Lemma total_bound (R : Z) (l : list core) : Forall (core_ok R) l -> total l <= Z.of_nat (length l) * (5 * R + 3).
Proof.
  induction 1 as [|c l [_ [_ Hc]] Hl IH]; cbn [total length]; [lia|]. assert (measure c <= 5 * R + 3); [|lia].
  unfold measure. destruct Hc as [-> |[_ ->]]; destruct (at_ c); simpl; lia.
Qed.

Lemma not_all (P : core -> Prop) `{!forall c, Decision (P c)} (l : list core) :
  number P l < Z.of_nat (length l) -> exists i c, l !! i = Some c /\ ~ P c.
Proof.
  induction l as [|c l IH]; cbn [number length]; intros Hlt; [lia|]. destruct (decide (P c)) as [HP|HP]; [|by exists 0%nat, c].
  destruct IH as (i & d & Hd & Hn); [unfold ind in Hlt; rewrite decide_True in Hlt by done; lia|]. by exists (S i), d.
Qed.

(** The barrier never blocks all its cores. *)
Lemma inv_progress (n R : Z) (s : state) : n < 2 ^ 31 -> inv n R s -> exists s', step true n s s' /\ total (cores s) < total (cores s').
Proof.
  intros Hn Hinv. assert (exists i c se co c', cores s !! i = Some c /\ core_step n (sense s) (count s) c = (se, co, c') /\ measure c < measure c')
    as (i & c & se & co & c' & Hc & Hst & Hm).
  2:{ exists (State se co (<[i := c']> (cores s))). split; [by econstructor|]. simpl. rewrite (total_insert _ _ _ _ Hc). lia. }
  pose proof Hinv as (_ & Hlen & Hs & Hok & [(Hcnt & Hlt & Hno)|(i & c & Hc & _ & _ & Hat)]).
  - destruct (not_all (waiting R) (cores s)) as (i & c & Hc & Hw); [lia|]. destruct (Forall_lookup_1 _ _ _ _ Hno Hc) as [H1 H2].
    destruct (Forall_lookup_1 _ _ _ _ Hok Hc) as [Hnr [Ht Hr]]. exists i, c. unfold core_step, measure. destruct (at_ c) eqn:E; try done.
    + do 3 eexists. split_and!; [done|done|simpl; lia].
    + do 3 eexists. split_and!; [done|done|]. simpl. case_match; simpl; lia.
    + destruct Hr as [Hr|[_ Hr]]; [by destruct Hw|]. rewrite Hs, Ht. unfold calls. rewrite decide_False by congruence. rewrite Hr.
      replace (R - 1 + 1) with R by lia. rewrite Z.eqb_refl. do 3 eexists. split_and!; [done|done|simpl; lia].
  - exists i, c. unfold core_step, measure. destruct Hat as [-> |[-> _]]; do 3 eexists; (split_and!; [done|done|simpl; lia]).
Qed.

Lemma inv_grows (n : Z) (k : nat) : forall R s, n < 2 ^ 31 -> inv n R s ->
  exists s' R', rtc (step true n) s s' /\ inv n R' s' /\ total (cores s) + Z.of_nat k <= total (cores s').
Proof.
  induction k as [|k IH]; intros R s Hn Hinv; [exists s, R; split_and!; [done|done|lia]|].
  destruct (inv_progress n R s Hn Hinv) as (s1 & Hst & Hlt). destruct (steps_inv n R s s1 Hn Hinv (rtc_once _ _ Hst)) as [R1 Hinv1].
  destruct (IH R1 s1 Hn Hinv1) as (s' & R' & Hs' & Hinv' & Ht). exists s', R'. split_and!; [by eapply rtc_l|done|lia].
Qed.

(** [C35] For every number of cores and every interleaving of their steps, when
    the two stores of the last core become visible in program order: no core
    returns from its k-th call of [barrier] before every core has made its k-th
    call; and however far the cores have come, they can always go on until each
    has returned as often as one likes: the barrier never blocks for good, also
    when fast cores call it again while slow ones have not left it.  Without
    that order, which the code does not ask for, it can block
    ([barrier_deadlocks]). *)
Theorem barrier_correct (n : Z) (s : state) : 1 <= n < 2 ^ 31 -> reachable true n s ->
  (forall c d, c ∈ cores s -> d ∈ cores s -> rounds c <= calls d) /\
  (forall r, exists s', rtc (step true n) s s' /\ Forall (fun c => r <= rounds c) (cores s')).
Proof.
  intros Hn Hr. destruct (steps_inv n 0 (initial n) s) as [R Hinv]; [lia|apply inv_initial; lia|done|]. split.
  - destruct Hinv as (_ & _ & _ & Hok & _). rewrite Forall_forall in Hok. intros c d [_ [_ Hc]]%Hok [_ [_ Hd]]%Hok. unfold calls.
    destruct Hd as [Hd|[Ed Hd]]; [|rewrite Ed, decide_False by done; lia]. case_decide; lia.
  - intros r. destruct (inv_grows n (Z.to_nat (n * (5 * r + 3) + 1 - total (cores s))) R s) as (s' & R' & Hs' & Hinv' & Ht); [lia|done|].
    exists s'. split; [done|]. destruct Hinv' as (_ & Hlen & _ & Hok & _). pose proof (total_bound R' _ Hok) as Hb. rewrite Hlen in Hb.
    assert (r < R') by nia. eapply Forall_impl; [exact Hok|]. intros c [_ [_ Hc]]. simpl. lia.
Qed.

(** Two cores, the first of them waiting for the second. *)
Lemma barrier_correct_witness : exists s', rtc (step true 2) (State 0 1 [Core Wait 1 0; Core Out 0 0]) s' /\ Forall (fun c => 3 <= rounds c) (cores s').
Proof.
  apply (barrier_correct 2 (State 0 1 [Core Wait 1 0; Core Out 0 0])); [lia|].
  eapply rtc_l; [eapply (step_core true 2 (initial 2) 0); reflexivity|]. eapply rtc_l; [|apply rtc_refl].
  apply (step_core true 2 (State 0 0 [Core Entered 1 0; Core Out 0 0]) 0 (Core Entered 1 0) (Core Wait 1 0) 0 1); reflexivity.
Defined.

(** ** Without the order *)

(** An executable scheduler: which core goes next, and whether its store to
    [sense] overtakes. *)
Definition run1 (n : Z) (s : state) (i : nat) (early : bool) : option state :=
  c ← cores s !! i;
  if early then if decide (at_ c = Last) then Some (State (threadsense c) (count s) (<[i := Core Reset (threadsense c) (rounds c)]> (cores s))) else None
  else let '(se, co, c') := core_step n (sense s) (count s) c in Some (State se co (<[i := c']> (cores s))).

Lemma run1_step (n : Z) (s s' : state) (i : nat) (early : bool) : run1 n s i early = Some s' -> step false n s s'.
Proof.
  unfold run1. destruct (cores s !! i) as [c|] eqn:Hc; [|done]. cbn [mbind option_bind]. destruct early.
  - destruct (decide _) as [E|]; [|done]. intros [= <-]. by apply step_early.
  - destruct (core_step n (sense s) (count s) c) as [[se co] c'] eqn:E. intros [= <-]. by eapply step_core.
Qed.

Fixpoint run (n : Z) (s : state) (schedule : list (nat * bool)) : option state :=
  match schedule with [] => Some s | (i, early) :: schedule => s ← run1 n s i early; run n s schedule end.

Lemma run_steps (n : Z) (schedule : list (nat * bool)) (s s' : state) : run n s schedule = Some s' -> rtc (step false n) s s'.
Proof.
  revert s. induction schedule as [|[i early] schedule IH]; intros s; cbn [run]; [by intros [= <-]|].
  destruct (run1 n s i early) as [s1|] eqn:E; [|done]. intros Hr. eapply rtc_l; [by eapply run1_step|by apply IH].
Qed.

(** Both cores wait for a sense that no core will set. *)
Definition stuck : state := State 1 1 [Core Wait 0 1; Core Wait 0 1].

(** Core 0 arrives and waits, core 1 arrives last and its store to [sense]
    overtakes [count = 0]; core 0 leaves, calls [barrier] again and is counted
    before the counter is reset; then core 1 calls it again, finds the counter
    at 0, and both wait for ever. *)
Theorem barrier_deadlocks : reachable false 2 stuck /\ forall s, rtc (step false 2) stuck s -> s = stuck.
Proof.
  split.
  - apply (run_steps 2 [(0, false); (0, false); (1, false); (1, false); (1, true); (0, false); (0, false); (0, false);
      (1, false); (1, false); (1, false)]%nat). vm_compute. reflexivity.
  - assert (forall s, step false 2 stuck s -> s = stuck) as Hst.
    { intros s Hs. inversion Hs as [? i c c' se co Hc Hstep|? i c _ Hc Hat]; subst.
      - destruct i as [|[|i]]; [| |done]; injection Hc as <-; injection Hstep as <- <- <-; reflexivity.
      - destruct i as [|[|i]]; [| |done]; by injection Hc as <-. }
    intros s Hs. revert s Hs. apply (rtc_ind_r (fun s => s = stuck)); [done|]. intros x y _ Hxy ->. by apply Hst.
Qed.
End Barrier.
