(* ===== verification/Towers.v ===== *)
(** * The towers benchmark (riscv-tests/benchmarks/towers/towers_main.c)

    Linked lists over a pool of nodes with a free list, the puzzle on three
    of them, and the check of the result.  A pointer to a node is its address
    in the pool, 0 is NULL; following NULL is undefined, and so is an [int]
    that overflows.  The recursion [towers_solve_h] takes its depth as fuel:
    the number of discs is enough ([solve_spec]). *)

From S2P Require Import Prelude.

Module Towers.

Record Node := mkNode { val : Z; next : Z }.
Record List := mkList { size : Z; head : Z }.

(** [struct Towers], with the pool and the free list, which are global. *)
Record state := State {
  g_nodePool : gmap Z Node; g_nodeFreeList : List;
  numDiscs : Z; numMoves : Z; pegA : List; pegB : List; pegC : List }.

(** The three pegs, as [towers_solve_h] is handed pointers to them. *)
Inductive peg := A | B | C.

#[export] Instance peg_eq_dec : EqDecision peg.
Proof. solve_decision. Defined.

Definition get (p : peg) (s : state) : List :=
  match p with A => pegA s | B => pegB s | C => pegC s end.

Definition set (p : peg) (l : List) (s : state) : state :=
  match p with
  | A => State (g_nodePool s) (g_nodeFreeList s) (numDiscs s) (numMoves s) l (pegB s) (pegC s)
  | B => State (g_nodePool s) (g_nodeFreeList s) (numDiscs s) (numMoves s) (pegA s) l (pegC s)
  | C => State (g_nodePool s) (g_nodeFreeList s) (numDiscs s) (numMoves s) (pegA s) (pegB s) l
  end.

Definition set_pool (m : gmap Z Node) (s : state) : state :=
  State m (g_nodeFreeList s) (numDiscs s) (numMoves s) (pegA s) (pegB s) (pegC s).
Definition set_free (l : List) (s : state) : state :=
  State (g_nodePool s) l (numDiscs s) (numMoves s) (pegA s) (pegB s) (pegC s).
Definition set_counts (d k : Z) (s : state) : state :=
  State (g_nodePool s) (g_nodeFreeList s) d k (pegA s) (pegB s) (pegC s).

Abbreviation run := (ST state).

(** [p->val], [p->next] and the assignments to them. *)
Definition node (p : Z) : run Node := s ← st_get; lift (of_option (g_nodePool s !! p)).
Definition set_next (p nx : Z) : run unit :=
  n ← node p; st_modify (fun s => set_pool (<[p := mkNode (val n) nx]> (g_nodePool s)) s).
Definition set_val (p v : Z) : run unit :=
  n ← node p; st_modify (fun s => set_pool (<[p := mkNode v (next n)]> (g_nodePool s)) s).

(** ** Lists *)

Definition list_getSize (p : peg) : run Z := st_gets (fun s => size (get p s)).
Definition list_init (p : peg) : run unit := st_modify (set p (mkList 0 0)).

Definition list_push (p : peg) (v : Z) : run unit :=
  free ← st_gets g_nodeFreeList;
  let newNode := head free in
  n ← node newNode;
  st_modify (set_free (mkList (size free) (next n)));;
  l ← st_gets (get p);
  set_next newNode (head l);;
  st_modify (set p (mkList (size l) newNode));;
  set_val newNode v;;
  k ← lift (sint (size l + 1));
  st_modify (set p (mkList k newNode)).

Definition list_pop (p : peg) : run Z :=
  l ← st_gets (get p);
  n ← node (head l);
  let freedNode := head l in
  st_modify (set p (mkList (size l) (next n)));;
  free ← st_gets g_nodeFreeList;
  set_next freedNode (head free);;
  st_modify (set_free (mkList (size free) freedNode));;
  k ← lift (sint (size l - 1));
  st_modify (fun s => set p (mkList k (head (get p s))) s);;
  mret (val n).

Fixpoint list_clear (fuel : nat) (p : peg) : run unit :=
  k ← list_getSize p;
  if 0 <? k then match fuel with O => st_fuel | S fuel => _ ← list_pop p; list_clear fuel p end
  else mret tt.

(** ** The puzzle *)

(** [for (i = 0; i < n; i++) list_push(&pegA, n - i)]. *)
Fixpoint push_discs (k : nat) (n i : Z) : run unit :=
  match k with O => mret tt | S k => list_push A (n - i);; push_discs k n (i + 1) end.

Definition towers_init (n : Z) : run unit :=
  st_modify (set_counts n 0);; list_init A;; list_init B;; list_init C;; push_discs (Z.to_nat n) n 0.

(** The loop of [list_clear] runs once for every element. *)
Definition clear_list (p : peg) : run unit := k ← list_getSize p; list_clear (Z.to_nat k) p.

Definition towers_clear : run unit :=
  clear_list A;; clear_list B;; clear_list C;;
  n ← st_gets numDiscs; towers_init n.

Fixpoint towers_solve_h (fuel : nat) (n : Z) (startPeg tempPeg destPeg : peg) : run unit :=
  if n =? 1 then
    v ← list_pop startPeg; list_push destPeg v;;
    k ← st_gets numMoves; k ← lift (sint (k + 1)); st_modify (fun s => set_counts (numDiscs s) k s)
  else
    match fuel with
    | O => st_fuel
    | S fuel =>
        towers_solve_h fuel (n - 1) startPeg destPeg tempPeg;;
        towers_solve_h fuel 1 startPeg tempPeg destPeg;;
        towers_solve_h fuel (n - 1) tempPeg startPeg destPeg
    end.

Definition towers_solve : run unit :=
  n ← st_gets numDiscs; towers_solve_h (Z.to_nat n) n A B C.

(** The walk along peg C: 5, or the number of discs counted. *)
Fixpoint verify_walk (fuel : nat) (ptr k : Z) : run (Z + Z) :=
  if ptr =? 0 then mret (inr k) else
  match fuel with
  | O => st_fuel
  | S fuel =>
      n ← node ptr;
      if negb (val n =? k + 1) then mret (inl 5) else verify_walk fuel (next n) (k + 1)
  end.

Definition towers_verify : run Z :=
  a ← list_getSize A; if negb (a =? 0) then mret 2 else
  b ← list_getSize B; if negb (b =? 0) then mret 3 else
  c ← list_getSize C; n ← st_gets numDiscs;
  if negb (c =? n) then mret 4 else
  l ← st_gets pegC;
  m ← st_gets g_nodePool;
  r ← verify_walk (base.size m) (head l) 0;
  match r with
  | inl e => mret e
  | inr _ =>
      k ← st_gets numMoves;
      if (n <? 0) || (30 <? n) then st_ub else
      if negb (k =? Z.shiftl 1 n - 1) then mret 6 else mret 0
  end.

(** ** The program *)

Definition NUM_DISCS : Z := 7.

(** The pool as [main] links it: node [i] at address [i + 1]. *)
Definition link_pool (n : Z) : gmap Z Node :=
  foldl (fun m i => <[Z.of_nat i + 1 := mkNode (Z.of_nat i) (Z.of_nat i + 2)]> m)
    {[ n := mkNode 99 0 ]} (seq 0 (Z.to_nat (n - 1))).

(** [main] with [n] discs; [PREALLOCATE] runs the solution once before. *)
Definition main_n (n : Z) (preallocate : bool) : run Z :=
  st_modify (set_free (mkList n 1));; st_modify (set_pool (link_pool n));;
  towers_init n;;
  (if preallocate then towers_solve else mret tt);;
  towers_clear;; towers_solve;; towers_verify.

Definition main (preallocate : bool) : run Z := main_n NUM_DISCS preallocate.

(** The state at entry: globals are zero, the local [towers] is arbitrary. *)
Definition entry (d k : Z) (a b c : List) : state := State ∅ (mkList 0 0) d k a b c.

Example main_runs : match main true (entry 0 0 (mkList 0 0) (mkList 0 0) (mkList 0 0)) with Ok (r, s) => (r, numMoves s) | _ => (-1, -1) end = (0, 127).
Proof. vm_compute. reflexivity. Qed.

(** ** Representation *)

(** The nodes from [h] on, with their addresses and values. *)
Fixpoint chain (m : gmap Z Node) (h : Z) (xs : list (Z * Z)) : Prop :=
  match xs with
  | [] => h = 0
  | (a, v) :: xs => h = a /\ a <> 0 /\ exists nx, m !! a = Some (mkNode v nx) /\ chain m nx xs
  end.

Lemma chain_frame (m : gmap Z Node) (a : Z) (n : Node) (h : Z) (xs : list (Z * Z)) :
  a ∉ xs.*1 -> chain m h xs -> chain (<[a := n]> m) h xs.
Proof.
  revert h. induction xs as [|[b v] xs IH]; intros h Ha Hc; [done|].
  destruct Hc as (-> & Hb & nx & Hn & Hc). simpl in Ha. split; [done|]. split; [done|]. exists nx.
  split; [rewrite lookup_insert_ne; [done|set_solver]|]. apply IH; [set_solver|done].
Qed.

(** The free list has [k] nodes and the pegs hold the values [v]; all these
    lists are apart from each other. *)
Definition rep (s : state) (k : nat) (v : peg -> list Z) : Prop :=
  exists (F : list (Z * Z)) (X : peg -> list (Z * Z)),
    length F = k /\ chain (g_nodePool s) (head (g_nodeFreeList s)) F /\
    (forall p, chain (g_nodePool s) (head (get p s)) (X p) /\ (X p).*2 = v p /\ size (get p s) = Z.of_nat (length (v p))) /\
    NoDup (F.*1 ++ (X A).*1 ++ (X B).*1 ++ (X C).*1).

Definition upd (v : peg -> list Z) (p : peg) (l : list Z) : peg -> list Z := fun q => if decide (q = p) then l else v q.

Lemma get_set (p q : peg) (l : List) (s : state) : get q (set p l s) = if decide (q = p) then l else get q s.
Proof. by destruct p, q. Qed.

Lemma get_set_pool (p : peg) (m : gmap Z Node) (s : state) : get p (set_pool m s) = get p s.
Proof. by destruct p. Qed.

Lemma pool_set (p : peg) (l : List) (s : state) : g_nodePool (set p l s) = g_nodePool s.
Proof. by destruct p. Qed.

Lemma free_set (p : peg) (l : List) (s : state) : g_nodeFreeList (set p l s) = g_nodeFreeList s.
Proof. by destruct p. Qed.

(** What the list operations leave alone. *)
Definition same_counts (s s' : state) : Prop := numDiscs s' = numDiscs s /\ numMoves s' = numMoves s.

Lemma push_eq (p : peg) (x a w nx : Z) (s : state) :
  head (g_nodeFreeList s) = a -> g_nodePool s !! a = Some (mkNode w nx) -> - 2 ^ 31 <= size (get p s) + 1 < 2 ^ 31 ->
  list_push p x s = Ok (tt, set p (mkList (size (get p s) + 1) a)
    (set_pool (<[a := mkNode x (head (get p s))]> (g_nodePool s)) (set_free (mkList (size (g_nodeFreeList s)) nx) s))).
Proof.
  intros Ha Hn Hsz. unfold list_push, set_next, set_val, node, mbind, ST_bind, st_gets, st_get, st_modify, lift.
  rewrite Ha, Hn. simpl of_option. cbv iota beta.
  destruct p; simpl; rewrite Hn; simpl; rewrite lookup_insert_eq; simpl; unfold sint;
    (destruct (_ && _) eqn:E; [by rewrite insert_insert_eq|]); simpl in Hsz; apply andb_false_iff in E as [E|E]; lia.
Qed.

Lemma pop_eq (p : peg) (a x nx : Z) (s : state) :
  head (get p s) = a -> g_nodePool s !! a = Some (mkNode x nx) -> - 2 ^ 31 <= size (get p s) - 1 < 2 ^ 31 ->
  list_pop p s = Ok (x, set p (mkList (size (get p s) - 1) nx)
    (set_pool (<[a := mkNode x (head (g_nodeFreeList s))]> (g_nodePool s)) (set_free (mkList (size (g_nodeFreeList s)) a) s))).
Proof.
  intros Ha Hn Hsz. unfold list_pop, set_next, set_val, node, mbind, ST_bind, st_gets, st_get, st_modify, lift.
  rewrite Ha, Hn. simpl of_option. cbv iota beta.
  destruct p; simpl in *; rewrite Hn; simpl; unfold sint;
    (destruct (_ && _) eqn:E; [done|]); apply andb_false_iff in E as [E|E]; lia.
Qed.

Lemma NoDup_perm (l l' : list Z) : l ≡ₚ l' -> NoDup l -> NoDup l'.
Proof. by intros ->. Qed.

(** [X] with the nodes of [p] replaced. *)
Definition updX (X : peg -> list (Z * Z)) (p : peg) (l : list (Z * Z)) : peg -> list (Z * Z) :=
  fun q => if decide (q = p) then l else X q.

Lemma push_spec (p : peg) (x : Z) (s : state) (k : nat) (v : peg -> list Z) :
  rep s (S k) v -> Z.of_nat (length (v p)) < 2 ^ 31 - 1 ->
  wp (list_push p x) (fun _ s' => rep s' k (upd v p (x :: v p)) /\ same_counts s s') s.
Proof.
  intros (F & X & HF & HcF & HX & Hnd) Hsz. destruct F as [|[a w] F]; [done|].
  destruct HcF as (Ha & Ha0 & nx & Hn & HcF). destruct (HX p) as (HcP & HvP & HsP).
  assert (a ∉ F.*1 /\ forall q, a ∉ (X q).*1) as [HaF HaX].
  { simpl in Hnd. apply NoDup_cons in Hnd as [Hnd _]. split; [set_solver|]. intros []; set_solver. }
  unfold wp. rewrite (push_eq p x a w nx) by (done || lia). split; [|by destruct p].
  exists F, (updX X p ((a, x) :: X p)). split; [by injection HF|]. split_and!.
  - rewrite pool_set, free_set. simpl. by apply chain_frame.
  - intros q. rewrite get_set, pool_set. unfold updX, upd. destruct (decide (q = p)) as [-> |Hne]; simpl.
    + split; [|split; [f_equal; exact HvP|rewrite HsP; lia]]. split; [done|]. split; [done|]. exists (head (get p s)).
      rewrite lookup_insert_eq. split; [done|]. by apply chain_frame.
    + destruct (HX q) as (Hc & Hv & Hs). replace (get q _) with (get q s) by (by destruct q). split_and!; [by apply chain_frame|done|done].
  - eapply NoDup_perm; [|exact Hnd]. unfold updX. destruct p; simpl; solve_Permutation.
Qed.

Lemma pop_spec (p : peg) (x : Z) (l : list Z) (s : state) (k : nat) (v : peg -> list Z) :
  rep s k v -> v p = x :: l -> Z.of_nat (length l) < 2 ^ 31 - 1 ->
  wp (list_pop p) (fun y s' => y = x /\ rep s' (S k) (upd v p l) /\ same_counts s s') s.
Proof.
  intros (F & X & HF & HcF & HX & Hnd) Hv Hsz. destruct (HX p) as (HcP & HvP & HsP).
  rewrite Hv in HvP, HsP. destruct (X p) as [|[a x'] XP] eqn:EX; [done|]. injection HvP as -> HvP.
  destruct HcP as (Ha & Ha0 & nx & Hn & HcP).
  assert (NoDup ((F.*1 ++ (X A).*1 ++ (X B).*1 ++ (X C).*1)) /\ a ∉ F.*1 /\ a ∉ XP.*1 /\ forall q, q <> p -> a ∉ (X q).*1) as (_ & HaF & HaP & HaX).
  { split; [done|]. eapply (NoDup_perm _ ((a :: XP.*1) ++ F.*1 ++ concat ((fun q => (X q).*1) <$> filter (fun q => q <> p) [A; B; C]))) in Hnd;
      [|by destruct p; rewrite EX; simpl; solve_Permutation].
    apply NoDup_cons in Hnd as [Hnd _]. split; [set_solver|]. split; [set_solver|]. intros q Hq Hin. apply Hnd.
    apply elem_of_app. right. apply elem_of_app. right. apply list_elem_of_In, in_concat. exists (X q).*1.
    split; [|by apply list_elem_of_In]. apply list_elem_of_In, list_elem_of_fmap. exists q. split; [done|].
    apply list_elem_of_filter. split; [done|]. destruct q; set_solver. }
  simpl length in HsP. unfold wp. rewrite (pop_eq p a x nx) by (done || lia). split; [done|]. split; [|by destruct p].
  exists ((a, x) :: F), (updX X p XP). split; [simpl; lia|]. split_and!.
  - rewrite pool_set, free_set. simpl. split; [done|]. split; [done|]. exists (head (g_nodeFreeList s)). rewrite lookup_insert_eq.
    split; [done|]. by apply chain_frame.
  - intros q. rewrite get_set, pool_set. unfold updX, upd. destruct (decide (q = p)) as [-> |Hne]; simpl.
    + split; [by apply chain_frame|]. split; [done|]. rewrite HsP. lia.
    + destruct (HX q) as (Hc & Hvq & Hs). replace (get q _) with (get q s) by (by destruct q).
      split; [apply chain_frame; auto|]. done.
  - eapply NoDup_perm; [|exact Hnd]. unfold updX. destruct p; rewrite EX; simpl; solve_Permutation.
Qed.

(** ** Solving *)

(** [list_push] of a disc on a peg whose top is smaller is against the rules:
    [push_legal] and [solve_legal] are the code with that check. *)
Definition push_legal (p : peg) (v : Z) : run unit :=
  l ← st_gets (get p);
  (if head l =? 0 then mret tt else n ← node (head l); if val n <? v then st_ub else mret tt);;
  list_push p v.

Fixpoint solve_legal (fuel : nat) (n : Z) (startPeg tempPeg destPeg : peg) : run unit :=
  if n =? 1 then
    v ← list_pop startPeg; push_legal destPeg v;;
    k ← st_gets numMoves; k ← lift (sint (k + 1)); st_modify (fun s => set_counts (numDiscs s) k s)
  else
    match fuel with
    | O => st_fuel
    | S fuel =>
        solve_legal fuel (n - 1) startPeg destPeg tempPeg;;
        solve_legal fuel 1 startPeg tempPeg destPeg;;
        solve_legal fuel (n - 1) tempPeg startPeg destPeg
    end.

Lemma push_legal_sound (p : peg) (v : Z) (s : state) r : push_legal p v s = Ok r -> list_push p v s = Ok r.
Proof.
  unfold push_legal. unfold mbind at 1, ST_bind at 1, st_gets at 1. destruct (head (get p s) =? 0); [done|].
  unfold mbind at 1 2, ST_bind at 1 2. unfold node, mbind, ST_bind, st_get, lift.
  destruct (g_nodePool s !! head (get p s)) as [n|]; [|done]. simpl. by destruct (val n <? v).
Qed.

(** A legal run is a run of the code. *)
Lemma solve_legal_sound (fuel : nat) : forall n a b c s r,
  solve_legal fuel n a b c s = Ok r -> towers_solve_h fuel n a b c s = Ok r.
Proof.
  assert (forall p q s r,
    (v ← list_pop p; push_legal q v;; k ← st_gets numMoves; k ← lift (sint (k + 1)); st_modify (fun s => set_counts (numDiscs s) k s)) s = Ok r ->
    (v ← list_pop p; list_push q v;; k ← st_gets numMoves; k ← lift (sint (k + 1)); st_modify (fun s => set_counts (numDiscs s) k s)) s = Ok r) as H1.
  { intros p q s r. unfold mbind at 1 5, ST_bind at 1 5. destruct (list_pop p s) as [[v s1]| |]; [|done..].
    unfold mbind at 1 4, ST_bind at 1 4. destruct (push_legal q v s1) as [[u s2]| |] eqn:E; [|done..].
    by rewrite (push_legal_sound _ _ _ _ E). }
  induction fuel as [|fuel IH]; intros n a b c s r; simpl; (destruct (n =? 1); [apply H1|]); [done|].
  unfold mbind, ST_bind. destruct (solve_legal fuel (n - 1) a c b s) as [[u1 s1]| |] eqn:E1; [|done..].
  destruct (solve_legal fuel 1 a b c s1) as [[u2 s2]| |] eqn:E2; [|done..]. intros E3.
  by rewrite (IH _ _ _ _ _ _ E1), (IH _ _ _ _ _ _ E2), (IH _ _ _ _ _ _ E3).
Qed.

Lemma rep_ext (s : state) (k : nat) (v v' : peg -> list Z) : (forall q, v q = v' q) -> rep s k v -> rep s k v'.
Proof.
  intros E (F & X & HF & HcF & HX & Hnd). exists F, X. split_and!; [done|done| |done].
  intros p. rewrite <- E. apply HX.
Qed.

Lemma rep_counts (s : state) (k : nat) (v : peg -> list Z) (d m : Z) : rep s k v -> rep (set_counts d m s) k v.
Proof. intros (F & X & HF & HcF & HX & Hnd). exists F, X. split_and!; [done|done| |done]. intros p. specialize (HX p). by destruct p. Qed.

(** The rule holds when the disc is smaller than everything on the peg. *)
Lemma push_legal_spec (p : peg) (x : Z) (s : state) (k : nat) (v : peg -> list Z) :
  rep s (S k) v -> Z.of_nat (length (v p)) < 2 ^ 31 - 1 -> (forall y, y ∈ v p -> x < y) ->
  wp (push_legal p x) (fun _ s' => rep s' k (upd v p (x :: v p)) /\ same_counts s s') s.
Proof.
  intros Hrep Hsz Hlt. unfold push_legal. apply wp_bind, wp_gets, wp_bind.
  pose proof Hrep as (F & X & _ & _ & HX & _). destruct (HX p) as (Hc & Hv & _).
  destruct (Z.eqb_spec (head (get p s)) 0); [by apply wp_ret, push_spec|].
  destruct (X p) as [|[a y] XP]; [done|]. destruct Hc as (Ha & _ & nx & Hn & _). rewrite Ha.
  unfold node. apply wp_bind, wp_bind, wp_get, wp_lift. rewrite Hn. simpl.
  destruct (Z.ltb_spec y x) as [Hbad|_]; [|by apply wp_ret, push_spec].
  assert (x < y); [|lia]. apply Hlt. rewrite <- Hv. simpl. set_solver.
Qed.

(** One move. *)
Lemma move_spec (a c : peg) (x : Z) (l : list Z) (fuel : nat) (b : peg) (s : state) (k : nat) (v : peg -> list Z) :
  a <> c -> rep s k v -> v a = x :: l -> (forall y, y ∈ v c -> x < y) ->
  Z.of_nat (length (v a)) + Z.of_nat (length (v c)) < 2 ^ 31 - 1 -> -1 <= numMoves s < 2 ^ 31 - 1 ->
  wp (solve_legal fuel 1 a b c) (fun _ s' => rep s' k (upd (upd v a l) c (x :: v c)) /\
    numDiscs s' = numDiscs s /\ numMoves s' = numMoves s + 1) s.
Proof.
  intros Hac Hrep Hv Hlt Hsz Hmv. destruct fuel; simpl solve_legal; rewrite Hv in Hsz; simpl length in Hsz;
  (apply wp_bind; eapply wp_mono; [apply (pop_spec a x l s k v); [done|done|lia]|]; intros y s1 (-> & Hr1 & Hd1 & Hm1);
   assert (upd v a l c = v c) as Ec by (unfold upd; by rewrite decide_False by done);
   apply wp_bind; eapply wp_mono; [apply (push_legal_spec c x s1 k (upd v a l)); [done|rewrite Ec; lia|by rewrite Ec]|];
   intros [] s2 (Hr2 & Hd2 & Hm2); apply wp_bind, wp_gets, wp_bind, wp_lift;
   unfold sint; destruct (_ && _) eqn:E; [|apply andb_false_iff in E as [E|E]; lia]; apply wp_modify;
   rewrite Ec in Hr2; split; [by apply rep_counts|]; simpl; split; congruence).
Qed.

Definition ascending (l : list Z) : Prop := StronglySorted Z.lt l.

Lemma ascending_app (l1 l2 : list Z) :
  ascending (l1 ++ l2) <-> ascending l1 /\ ascending l2 /\ (forall x y, x ∈ l1 -> y ∈ l2 -> x < y).
Proof.
  unfold ascending. induction l1 as [|x l1 IH]; simpl.
  - split; [intros H; split_and!; [constructor|done|set_solver]|tauto].
  - split.
    + intros H. inversion_clear H as [|? ? H1 H2]. apply IH in H1 as (S1 & S2 & S3). rewrite Forall_app, !Forall_forall in H2.
      split_and!; [constructor; [done|apply Forall_forall; naive_solver]|done|set_solver].
    + intros (H1 & H2 & H3). inversion_clear H1 as [|? ? S1 S2]. constructor.
      * apply IH. split_and!; [done|done|set_solver].
      * apply Forall_app. split; [done|]. apply Forall_forall. set_solver.
Qed.

Ltac upd_simpl := unfold upd; repeat case_decide; congruence.

(** [towers_solve_h] moves the top [n] discs, in their order and by the rules,
    in [2 ^ n - 1] moves. *)
Lemma solve_spec (fuel : nat) : forall n xs l a b c s k v,
  a <> b -> b <> c -> a <> c -> rep s k v -> n = Z.of_nat (length xs) -> 1 <= n <= Z.of_nat fuel ->
  v a = xs ++ l -> ascending (v a) -> ascending (v b) -> ascending (v c) ->
  (forall x y, x ∈ xs -> y ∈ v c -> x < y) -> (forall ys z x y, xs = ys ++ [z] -> x ∈ ys -> y ∈ v b -> x < y) ->
  Z.of_nat (length (v a)) + Z.of_nat (length (v b)) + Z.of_nat (length (v c)) < 2 ^ 31 - 1 ->
  0 <= numMoves s -> numMoves s + 2 ^ n <= 2 ^ 31 ->
  wp (solve_legal fuel n a b c) (fun _ s' => rep s' k (upd (upd v a l) c (xs ++ v c)) /\
    numDiscs s' = numDiscs s /\ numMoves s' = numMoves s + (2 ^ n - 1)) s.
Proof.
  induction fuel as [|fuel IH]; intros n xs l a b c s k v Hab Hbc Hac Hrep Hn Hf Hva Ha Hb Hc Hxc Hyb Hsz Hm0 Hm; [lia|].
  destruct (decide (n = 1)) as [-> |Hn1].
  { destruct xs as [|x [|]]; [done| |simpl in Hn; lia]. change (2 ^ 1) with 2 in *.
    eapply wp_mono; [apply (move_spec a c x l); [done|done|done|set_solver|lia|lia]|]. intros [] s' (Hr & Hd & Hk).
    split; [done|]. split; [done|]. lia. }
  simpl solve_legal. destruct (Z.eqb_spec n 1); [lia|].
  destruct (exists_last (l := xs)) as (ys & z & ->); [intros ->; simpl in Hn; lia|]. rewrite length_app in Hn. simpl length in Hn.
  rewrite <- app_assoc in Hva. simpl app in Hva. rewrite Hva in Ha, Hsz. rewrite length_app in Hsz. simpl length in Hsz.
  pose proof (proj1 (ascending_app _ _) Ha) as (Say & Sal & Hyl). inversion_clear Sal as [|? ? Sl Hzl].
  specialize (Hyb ys z). assert (2 ^ n = 2 * 2 ^ (n - 1)) as E2 by (rewrite <- Z.pow_succ_r by lia; f_equal; lia).
  assert (0 < 2 ^ (n - 1)) by (apply Z.pow_pos_nonneg; lia). rewrite Forall_forall in Hzl.
  apply wp_bind. eapply wp_mono.
  { apply (IH (n - 1) ys (z :: l) a c b s k v); [done|done|done|done|lia|lia|done|by rewrite Hva|done|done| | |rewrite Hva, length_app; simpl length; lia|lia|lia].
    - intros x y Hx Hy. by apply (Hyb x y).
    - intros ys' z' x y -> Hx Hy. apply Hxc; set_solver. }
  intros [] s1 (Hr1 & Hd1 & Hk1). set (v1 := upd (upd v a (z :: l)) b (ys ++ v b)) in *.
  assert (v1 a = z :: l /\ v1 b = ys ++ v b /\ v1 c = v c) as (E1a & E1b & E1c) by (split_and!; unfold v1; upd_simpl).
  apply wp_bind. eapply wp_mono.
  { apply (move_spec a c z l fuel b s1 k v1); [done|done|done|rewrite E1c; intros; apply Hxc; set_solver|rewrite E1a, E1c; simpl length; lia|lia]. }
  intros [] s2 (Hr2 & Hd2 & Hk2). rewrite E1c in Hr2. set (v2 := upd (upd v1 a l) c (z :: v c)) in *.
  assert (v2 a = l /\ v2 b = ys ++ v b /\ v2 c = z :: v c) as (E2a & E2b & E2c) by (split_and!; unfold v2; upd_simpl).
  eapply wp_mono.
  { apply (IH (n - 1) ys (v b) b a c s2 k v2); [done|done|done|done|lia|lia|done|rewrite E2b|by rewrite E2a|rewrite E2c| | | |lia|lia].
    - apply ascending_app. split_and!; [done|done|]. intros x y Hx Hy. by apply (Hyb x y).
    - constructor; [done|]. apply Forall_forall. intros y Hy. apply Hxc; set_solver.
    - rewrite E2c. intros x y Hx [-> |Hy]%elem_of_cons; [apply Hyl; set_solver|apply Hxc; set_solver].
    - rewrite E2a. intros ys' z' x y -> Hx Hy. apply Hyl; set_solver.
    - rewrite E2a, E2b, E2c, length_app. simpl length. lia. }
  intros [] s3 (Hr3 & Hd3 & Hk3). split; [|split; [congruence|lia]].
  rewrite E2c in Hr3. eapply rep_ext; [|exact Hr3]. intros q. rewrite <- app_assoc. simpl app.
  assert (forall r : peg, r = a \/ r = b \/ r = c) as Hall by (intros []; destruct a, b, c; tauto || congruence).
  destruct (Hall q) as [-> |[-> | ->]]; upd_simpl.
Qed.

(** ** Setting up, clearing and checking *)

Definition only (p : peg) (l : list Z) : peg -> list Z := upd (fun _ => []) p l.

(** The discs of a full tower, the smallest on top. *)
Definition discs (n : Z) : list Z := seqZ 1 n.

Lemma ascending_seqZ (a n : Z) : ascending (seqZ a n).
Proof.
  destruct (decide (0 <= n)); [|by rewrite seqZ_nil by lia; constructor].
  revert a. apply (natlike_ind (fun n => forall a, ascending (seqZ a n))); [intros a; rewrite seqZ_nil by lia; constructor| |done].
  intros m Hm IH a. rewrite seqZ_cons by lia. constructor; [rewrite Z.pred_succ; apply IH|].
  apply Forall_forall. intros y Hy%elem_of_seqZ. lia.
Qed.

(** The free list alone. *)
Definition free_rep (s : state) (k : nat) : Prop :=
  exists F, length F = k /\ chain (g_nodePool s) (head (g_nodeFreeList s)) F /\ NoDup F.*1.

Lemma rep_free (s : state) (k : nat) (v : peg -> list Z) : rep s k v -> free_rep s k.
Proof. intros (F & X & HF & Hc & _ & Hnd). exists F. split_and!; [done|done|]. by apply NoDup_app in Hnd as [? _]. Qed.

Lemma push_discs_spec (j : nat) : forall n i s k,
  rep s (j + k) (only A (seqZ (n - i + 1) i)) -> 0 <= i -> i + Z.of_nat j = n -> n < 2 ^ 31 - 1 ->
  wp (push_discs j n i) (fun _ s' => rep s' k (only A (discs n)) /\ same_counts s s') s.
Proof.
  induction j as [|j IH]; intros n i s k Hrep Hi Hn Hlt; simpl push_discs.
  { apply wp_ret. split; [|done]. unfold discs. by replace (seqZ 1 n) with (seqZ (n - i + 1) i) by (f_equal; lia). }
  assert (only A (seqZ (n - i + 1) i) A = seqZ (n - i + 1) i) as E by done.
  apply wp_bind. eapply wp_mono; [apply (push_spec A (n - i) s (j + k) _ Hrep); rewrite E, length_seqZ; lia|].
  intros [] s1 (Hr1 & Hd1 & Hm1). eapply wp_mono; [apply (IH n (i + 1) s1 k); [|lia|lia|lia]|].
  - eapply rep_ext; [|exact Hr1]. intros q. unfold only, upd. destruct (decide (q = A)); [|done].
    rewrite decide_True by done. replace (n - (i + 1) + 1) with (n - i) by lia. rewrite (seqZ_cons (n - i) (i + 1)) by lia.
    f_equal. f_equal; lia.
  - intros [] s2 (Hr2 & Hd2 & Hm2). split; [done|]. split; congruence.
Qed.

Lemma init_spec (n : Z) (s : state) (k : nat) :
  free_rep s (Z.to_nat n + k) -> 0 <= n < 2 ^ 31 - 1 ->
  wp (towers_init n) (fun _ s' => rep s' k (only A (discs n)) /\ numDiscs s' = n /\ numMoves s' = 0) s.
Proof.
  intros (F & HF & Hc & Hnd) Hn. unfold towers_init, list_init. do 4 (apply wp_bind, wp_modify).
  eapply wp_mono; [apply (push_discs_spec (Z.to_nat n) n 0 _ k); [|lia|lia|lia]|].
  - exists F, (fun _ => []). split; [done|]. split; [done|]. split; [|by rewrite !app_nil_r].
    intros p. rewrite seqZ_nil by lia. by destruct p.
  - intros [] s1 (Hr & Hd & Hm). split; [done|]. by rewrite Hd, Hm.
Qed.

Lemma clear_spec (p : peg) (fuel : nat) : forall s k v,
  rep s k v -> length (v p) = fuel -> Z.of_nat fuel < 2 ^ 31 - 1 ->
  wp (list_clear fuel p) (fun _ s' => rep s' (k + fuel) (upd v p []) /\ same_counts s s') s.
Proof.
  induction fuel as [|fuel IH]; intros s k v Hrep Hl Hlt;
    pose proof Hrep as (_ & X & _ & _ & HX & _); destruct (HX p) as (_ & _ & Hs);
    (cbn [list_clear]; unfold list_getSize; apply wp_bind, wp_gets; rewrite Hs, Hl).
  - apply wp_ret. split; [|done]. rewrite Nat.add_0_r. eapply rep_ext; [|exact Hrep]. intros q. unfold upd. case_decide as E; [|done].
    subst q. by apply length_zero_iff_nil.
  - destruct (Z.ltb_spec 0 (Z.of_nat (S fuel))); [|lia]. destruct (v p) as [|x l] eqn:Ev; [done|]. injection Hl as Hl.
    apply wp_bind. eapply wp_mono; [apply (pop_spec p x l s k v); [done|done|lia]|]. intros y s1 (-> & Hr1 & Hd1 & Hm1).
    eapply wp_mono; [apply (IH s1 (S k) (upd v p l)); [done|unfold upd; by rewrite decide_True|lia]|].
    intros [] s2 (Hr2 & Hd2 & Hm2). split; [|split; congruence]. replace (k + S fuel)%nat with (S k + fuel)%nat by lia.
    eapply rep_ext; [|exact Hr2]. intros q. unfold upd. by repeat case_decide.
Qed.

Lemma clear_list_spec (p : peg) (s : state) (k : nat) (v : peg -> list Z) :
  rep s k v -> Z.of_nat (length (v p)) < 2 ^ 31 - 1 ->
  wp (clear_list p) (fun _ s' => rep s' (k + length (v p)) (upd v p []) /\ same_counts s s') s.
Proof.
  intros Hrep Hlt. pose proof Hrep as (_ & X & _ & _ & HX & _). destruct (HX p) as (_ & _ & Hs).
  unfold clear_list, list_getSize. apply wp_bind, wp_gets. rewrite Hs, Nat2Z.id. by apply clear_spec.
Qed.

Lemma towers_clear_spec (n : Z) (s : state) (v : peg -> list Z) :
  rep s 0 v -> numDiscs s = n -> Z.of_nat (length (v A) + length (v B) + length (v C)) = n -> 0 <= n < 2 ^ 31 - 1 ->
  wp towers_clear (fun _ s' => rep s' 0 (only A (discs n)) /\ numDiscs s' = n /\ numMoves s' = 0) s.
Proof.
  intros Hrep Hd Hlen Hn. unfold towers_clear.
  apply wp_bind. eapply wp_mono; [apply (clear_list_spec A s 0 v Hrep); lia|]. intros [] s1 (Hr1 & Hd1 & _).
  apply wp_bind. eapply wp_mono; [apply (clear_list_spec B s1 _ _ Hr1); unfold upd; simpl; lia|]. intros [] s2 (Hr2 & Hd2 & _).
  apply wp_bind. eapply wp_mono; [apply (clear_list_spec C s2 _ _ Hr2); unfold upd; simpl; lia|]. intros [] s3 (Hr3 & Hd3 & _).
  apply wp_bind, wp_gets. replace (numDiscs s3) with n by congruence. apply init_spec; [|done].
  apply rep_free in Hr3. unfold upd in Hr3. simpl in Hr3. by replace (Z.to_nat n + 0)%nat with (length (v A) + length (v B) + length (v C))%nat by lia.
Qed.

Lemma peg_chain_size (m : gmap Z Node) (h : Z) (xs : list (Z * Z)) : chain m h xs -> NoDup xs.*1 -> (length xs <= base.size m)%nat.
Proof.
  intros Hc Hnd. rewrite <- (size_dom (D := gset Z)). rewrite <- (length_fmap fst xs), <- (size_list_to_set (C := gset Z)) by done.
  apply subseteq_size. intros a [[b v] [-> Hin]]%elem_of_list_to_set%list_elem_of_fmap. clear Hnd. revert h Hc Hin.
  induction xs as [|[c w] xs IH]; intros h Hc Hin; [by apply elem_of_nil in Hin|].
  destruct Hc as (-> & _ & nx & Hn & Hc). apply elem_of_cons in Hin as [[= -> ->]|Hin]; [by eapply elem_of_dom_2|by eapply IH].
Qed.

Lemma verify_walk_spec (xs : list (Z * Z)) : forall fuel h k s,
  chain (g_nodePool s) h xs -> xs.*2 = seqZ (k + 1) (Z.of_nat (length xs)) -> (length xs <= fuel)%nat ->
  verify_walk fuel h k s = Ok (inr (k + Z.of_nat (length xs)), s).
Proof.
  induction xs as [|[a w] xs IH]; intros fuel h k s Hc Hv Hf.
  { rewrite Hc. destruct fuel; simpl; by rewrite Z.add_0_r. }
  destruct Hc as (-> & Ha & nx & Hn & Hc). destruct fuel as [|fuel]; [simpl in Hf; lia|]. simpl length in *.
  rewrite seqZ_cons in Hv by lia. injection Hv as -> Hv. cbn [verify_walk].
  rewrite (proj2 (Z.eqb_neq a 0) Ha). unfold node, mbind, ST_bind, st_get, lift. rewrite Hn. simpl. rewrite Z.eqb_refl. simpl.
  rewrite (IH fuel nx (k + 1) s Hc); [do 3 f_equal; lia| |lia]. etrans; [exact Hv|]. f_equal; lia.
Qed.

Lemma verify_spec (n : Z) (s : state) (k : nat) :
  rep s k (only C (discs n)) -> numDiscs s = n -> numMoves s = 2 ^ n - 1 -> 0 <= n <= 30 ->
  towers_verify s = Ok (0, s).
Proof.
  intros (F & X & _ & _ & HX & Hnd) Hd Hm Hn. destruct (HX A) as (_ & _ & HA), (HX B) as (_ & _ & HB), (HX C) as (Hc & Hv & HC).
  unfold only, upd in *. simpl in HA, HB, HC, Hv, Hc. unfold discs in HC, Hv. rewrite length_seqZ in HC.
  assert (length (X C) = Z.to_nat n) as HlC by (rewrite <- (length_fmap snd), Hv; apply length_seqZ).
  assert (NoDup (X C).*1) as HndC by (by rewrite !NoDup_app in Hnd; tauto).
  unfold towers_verify, list_getSize, mbind, ST_bind, st_gets, get. rewrite HA. simpl. rewrite HB. simpl. rewrite HC, Hd.
  rewrite Z2Nat.id, Z.eqb_refl by lia. simpl. 
  rewrite (verify_walk_spec (X C) _ _ 0 s Hc); [|by rewrite HlC, Z2Nat.id, Hv by lia|by eapply peg_chain_size].
  destruct (Z.ltb_spec n 0), (Z.ltb_spec 30 n); try lia. simpl. rewrite Hm, Z.shiftl_1_l, Z.eqb_refl. done.
Qed.

(** ** The program *)

Lemma link_lookup (n : Z) (k : nat) (a : Z) : Z.of_nat k < n ->
  foldl (fun m i => <[Z.of_nat i + 1 := mkNode (Z.of_nat i) (Z.of_nat i + 2)]> m) ({[ n := mkNode 99 0 ]} : gmap Z Node) (seq 0 k) !! a =
    if bool_decide (1 <= a <= Z.of_nat k) then Some (mkNode (a - 1) (a + 1)) else if bool_decide (a = n) then Some (mkNode 99 0) else None.
Proof.
  induction k as [|k IH]; intros Hk.
  - simpl. rewrite bool_decide_eq_false_2 by lia. case_bool_decide as E; [by subst; apply lookup_singleton_eq|by apply lookup_singleton_ne].
  - rewrite seq_S, foldl_app. simpl. destruct (decide (a = Z.of_nat k + 1)) as [-> |Hne].
    + rewrite lookup_insert_eq, bool_decide_eq_true_2 by lia. do 2 f_equal; lia.
    + rewrite lookup_insert_ne, IH by lia. repeat case_bool_decide; try done; lia.
Qed.

Lemma link_chain (n : Z) (j : nat) : forall i, 1 <= i -> i + Z.of_nat j = n ->
  exists F, length F = S j /\ chain (link_pool n) i F /\ NoDup F.*1 /\ Forall (fun a => i <= a) F.*1.
Proof.
  assert (forall a, 1 <= n -> link_pool n !! a = if bool_decide (1 <= a <= n - 1) then Some (mkNode (a - 1) (a + 1))
    else if bool_decide (a = n) then Some (mkNode 99 0) else None) as L.
  { intros a Hn. unfold link_pool. rewrite link_lookup, Z2Nat.id by lia. done. }
  induction j as [|j IH]; intros i Hi Hn.
  - exists [(i, 99)]. split; [done|]. split; [|split; [by apply NoDup_singleton|by repeat constructor]].
    split; [done|]. split; [lia|]. exists 0. rewrite L, bool_decide_eq_false_2, bool_decide_eq_true_2 by lia. done.
  - destruct (IH (i + 1)) as (F & HF & Hc & Hnd & Hle); [lia|lia|]. exists ((i, i - 1) :: F). split; [simpl; lia|]. split.
    { split; [done|]. split; [lia|]. exists (i + 1). rewrite L, bool_decide_eq_true_2 by lia. done. }
    rewrite Forall_forall in Hle. split.
    + simpl. constructor; [intros Hin; apply Hle in Hin; lia|done].
    + simpl. constructor; [lia|]. apply Forall_forall. intros a Ha%Hle. lia.
Qed.

Lemma solve_discs (n : Z) (s : state) (k : nat) :
  rep s k (only A (discs n)) -> numDiscs s = n -> numMoves s = 0 -> 1 <= n <= 30 ->
  wp towers_solve (fun _ s' => rep s' k (only C (discs n)) /\ numDiscs s' = n /\ numMoves s' = 2 ^ n - 1) s /\
  solve_legal (Z.to_nat n) n A B C s = towers_solve_h (Z.to_nat n) n A B C s.
Proof.
  intros Hrep Hd Hm Hn. assert (2 ^ n <= 2 ^ 30) by (apply Z.pow_le_mono_r; lia).
  assert (wp (solve_legal (Z.to_nat n) n A B C) (fun _ s' => rep s' k (only C (discs n)) /\ numDiscs s' = n /\ numMoves s' = 2 ^ n - 1) s) as Hl.
  { eapply wp_mono.
    - apply (solve_spec (Z.to_nat n) n (discs n) [] A B C s k (only A (discs n)));
        [done|done|done|done|unfold discs; rewrite length_seqZ; lia|lia|by rewrite app_nil_r|apply ascending_seqZ|constructor|constructor|
         set_solver|set_solver| |lia|lia].
      change (Z.of_nat (length (discs n)) + 0 + 0 < 2 ^ 31 - 1). unfold discs. rewrite length_seqZ. lia.
    - intros [] s' (Hr & Hd' & Hm'). split; [|split; [congruence|lia]]. eapply rep_ext; [|exact Hr].
      intros []; [done|done|]. change (discs n ++ [] = discs n). apply app_nil_r. }
  pose proof Hl as ([] & s' & E & Hs')%wp_ok. pose proof (solve_legal_sound _ _ _ _ _ _ _ E) as E'.
  split; [|by rewrite E, E']. unfold towers_solve. apply wp_bind, wp_gets. rewrite Hd. unfold wp. by rewrite E'.
Qed.

Lemma main_spec (n : Z) (pre : bool) (s : state) : 1 <= n <= 30 ->
  exists s', main_n n pre s = Ok (0, s') /\ rep s' 0 (only C (discs n)) /\ numMoves s' = 2 ^ n - 1.
Proof.
  intros Hn. enough (wp (main_n n pre) (fun r s' => r = 0 /\ rep s' 0 (only C (discs n)) /\ numMoves s' = 2 ^ n - 1) s) as Hw.
  { apply wp_ok in Hw as (r & s' & E & -> & Hw). by exists s'. }
  unfold main_n. do 2 (apply wp_bind, wp_modify). apply wp_bind. eapply wp_mono.
  { apply (init_spec n _ 0); [|lia]. destruct (link_chain n (Z.to_nat (n - 1)) 1) as (F & HF & Hc & Hnd & _); [lia|lia|].
    exists F. split; [lia|]. by split. }
  intros [] s1 (Hr1 & Hd1 & Hm1). apply wp_bind.
  assert (forall s' p, rep s' 0 (only p (discs n)) -> numDiscs s' = n ->
    wp (towers_clear;; towers_solve;; towers_verify) (fun r s' => r = 0 /\ rep s' 0 (only C (discs n)) /\ numMoves s' = 2 ^ n - 1) s') as Hrest.
  { intros s2 p Hr2 Hd2. apply wp_bind. eapply wp_mono; [apply (towers_clear_spec n s2 (only p (discs n)) Hr2 Hd2)|].
    - unfold only, upd, discs. destruct p; simpl; rewrite length_seqZ; lia.
    - lia.
    - intros [] s3 (Hr3 & Hd3 & Hm3). apply wp_bind. eapply wp_mono; [by apply (solve_discs n s3 0)|].
      intros [] s4 (Hr4 & Hd4 & Hm4). unfold wp. rewrite (verify_spec n s4 0) by (done || lia). done. }
  destruct pre; [|by apply wp_ret, (Hrest s1 A)].
  eapply wp_mono; [by apply (solve_discs n s1 0)|]. intros [] s2 (Hr2 & Hd2 & _). by apply (Hrest s2 C).
Qed.

(** [C37] For 1 to 30 discs (with 31 the check computes [1 << numDiscs] out of
    range, with none the recursion does not end) the program solves the puzzle and accepts its own
    solution: [main] returns 0 with all discs on the last peg, in order, after
    exactly [2 ^ n - 1] moves.  On a full first peg [towers_solve_h] does what
    its variant with the rule built in does, so no disc is ever put on a
    smaller one. *)
Theorem towers_solved (n : Z) (pre : bool) (s t : state) (k : nat) :
  1 <= n <= 30 -> rep t k (only A (discs n)) -> numDiscs t = n -> numMoves t = 0 ->
  (exists s', main_n n pre s = Ok (0, s') /\ rep s' 0 (only C (discs n)) /\ numMoves s' = 2 ^ n - 1) /\
  (exists t', towers_solve_h (Z.to_nat n) n A B C t = Ok (tt, t') /\ solve_legal (Z.to_nat n) n A B C t = Ok (tt, t') /\
     rep t' k (only C (discs n)) /\ numMoves t' = 2 ^ n - 1).
Proof.
  intros Hn Hrep Hd Hm. split; [by apply main_spec|]. destruct (solve_discs n t k Hrep Hd Hm Hn) as [Hw El].
  unfold towers_solve in Hw. apply wp_ok in Hw as ([] & t' & E & Hr & _ & Hm').
  unfold mbind, ST_bind, st_gets in E. rewrite Hd in E. exists t'. by rewrite El.
Qed.

(** One disc on the first peg, at address 1. *)
Definition one_disc : state := State {[ 1 := mkNode 1 0 ]} (mkList 0 0) 1 0 (mkList 1 1) (mkList 0 0) (mkList 0 0).

Lemma towers_solved_witness :
  (exists s', main_n 1 true (entry 5 6 (mkList 3 4) (mkList 0 0) (mkList 0 9)) = Ok (0, s') /\ rep s' 0 (only C [1]) /\ numMoves s' = 1) /\
  (exists t', towers_solve_h 1 1 A B C one_disc = Ok (tt, t') /\ solve_legal 1 1 A B C one_disc = Ok (tt, t') /\
     rep t' 0 (only C [1]) /\ numMoves t' = 1).
Proof.
  apply (towers_solved 1 true (entry 5 6 (mkList 3 4) (mkList 0 0) (mkList 0 9)) one_disc 0); [lia| |reflexivity|reflexivity].
  exists [], (fun p => match p with A => [(1, 1)] | _ => [] end). split; [done|]. split; [done|]. split.
  - intros []; [|done|done]. split; [|done]. split; [done|]. split; [lia|]. by exists 0.
  - by apply NoDup_singleton.
Defined.
End Towers.
