(* ===== verification/RSort.v ===== *)
(** * The radix sort benchmark (riscv-tests/benchmarks/rsort/rsort.c)

    [sort] sorts an array of [unsigned int] by its four bytes, the least
    significant first, counting and scattering four elements at a time.  The
    arrays are lists, pointers into them indices; every access is checked.
    The loops count, so the fuel of the unrolled ones, the length of the
    array, is enough. *)

From S2P Require Import Prelude Util.

Module RSort.

Definition LOG_BASE : Z := 8.
Definition BASE : Z := Z.shiftl 1 LOG_BASE.

(** [( *(ptr) += (inc)) - (inc)]: the old value and the array. *)
Definition fetch_add (bucket : list Z) (i inc : Z) : outcome (Z * list Z) :=
  old ← aget bucket i; bucket ← aset bucket i (u64 (old + inc)); Ok (old, bucket).

(** [(a >> log_exp) % BASE]. *)
Definition digit (log_exp a : Z) : Z := Z.shiftr a log_exp mod BASE.

Definition clear_buckets (bucket : list Z) : outcome (list Z) :=
  oloop 0 BASE (fun b bucket => aset bucket b 0) bucket.

Definition bump (log_exp a : Z) (bucket : list Z) : outcome (list Z) :=
  '(_, bucket) ← fetch_add bucket (digit log_exp a) 1; Ok bucket.

(** [for (p = arr; p < &arr[n-3]; p += 4)]: where it stops, and the counts. *)
Fixpoint count4 (fuel : nat) (n log_exp : Z) (arr : list Z) (p : Z) (bucket : list Z) : outcome (Z * list Z) :=
  if p <? n - 3 then
    match fuel with
    | O => Fuel
    | S fuel =>
        a0 ← aget arr p; a1 ← aget arr (p + 1); a2 ← aget arr (p + 2); a3 ← aget arr (p + 3);
        bucket ← bump log_exp a0 bucket; bucket ← bump log_exp a1 bucket;
        bucket ← bump log_exp a2 bucket; bucket ← bump log_exp a3 bucket;
        count4 fuel n log_exp arr (p + 4) bucket
    end
  else Ok (p, bucket).

Definition count (n log_exp : Z) (arr bucket : list Z) : outcome (list Z) :=
  '(p, bucket) ← count4 (Z.to_nat n) n log_exp arr 0 bucket;
  oloop p n (fun p bucket => a ← aget arr p; bump log_exp a bucket) bucket.

(** [prev += fetch_add(&b[0], prev)]. *)
Definition accumulate (i : Z) (s : Z * list Z) : outcome (Z * list Z) :=
  '(old, bucket) ← fetch_add s.2 i s.1; Ok (u64 (s.1 + old), bucket).

(** The running sums, two buckets a turn. *)
Definition prefix_sums (bucket : list Z) : outcome (list Z) :=
  prev ← aget bucket 0;
  s ← accumulate 1 (prev, bucket);
  s ← oloop 0 (BASE / 2 - 1) (fun j s => s ← accumulate (2 + 2 * j) s; accumulate (2 + 2 * j + 1) s) s;
  Ok s.2.

(** [scratch + fetch_add(pb, -1)] for an element. *)
Definition slot (log_exp a : Z) (bucket : list Z) : outcome (Z * list Z) := fetch_add bucket (digit log_exp a) (-1).

(** [for (p = &arr[n-1]; p >= &arr[3]; p -= 4)]. *)
Fixpoint scatter4 (fuel : nat) (log_exp : Z) (arr : list Z) (p : Z) (bucket scratch : list Z)
    : outcome (Z * list Z * list Z) :=
  if 3 <=? p then
    match fuel with
    | O => Fuel
    | S fuel =>
        a0 ← aget arr p; a1 ← aget arr (p - 1); a2 ← aget arr (p - 2); a3 ← aget arr (p - 3);
        '(s0, bucket) ← slot log_exp a0 bucket; '(s1, bucket) ← slot log_exp a1 bucket;
        '(s2, bucket) ← slot log_exp a2 bucket; '(s3, bucket) ← slot log_exp a3 bucket;
        scratch ← aset scratch (s0 - 1) a0; scratch ← aset scratch (s1 - 1) a1;
        scratch ← aset scratch (s2 - 1) a2; scratch ← aset scratch (s3 - 1) a3;
        scatter4 fuel log_exp arr (p - 4) bucket scratch
    end
  else Ok (p, bucket, scratch).

(** [for ( ; p >= &arr[0]; p--) scratch[--bucket[..]] = *p]. *)
Fixpoint scatter1 (fuel : nat) (log_exp : Z) (arr : list Z) (p : Z) (bucket scratch : list Z) : outcome (list Z * list Z) :=
  if 0 <=? p then
    match fuel with
    | O => Fuel
    | S fuel =>
        a ← aget arr p; '(s, bucket) ← slot log_exp a bucket; scratch ← aset scratch (s - 1) a;
        scatter1 fuel log_exp arr (p - 1) bucket scratch
    end
  else Ok (bucket, scratch).

Definition scatter (n log_exp : Z) (arr bucket scratch : list Z) : outcome (list Z * list Z) :=
  '(p, bucket, scratch) ← scatter4 (Z.to_nat n) log_exp arr (n - 1) bucket scratch;
  scatter1 (Z.to_nat n) log_exp arr p bucket scratch.

(** The body of the [while]: the buckets and the array scattered into. *)
Definition sort_pass (n log_exp : Z) (bucket arr scratch : list Z) : outcome (list Z * list Z) :=
  bucket ← clear_buckets bucket;
  bucket ← count n log_exp arr bucket;
  bucket ← prefix_sums bucket;
  scatter n log_exp arr bucket scratch.

(** [while (log_exp < CHAR_BIT * sizeof(type))]; [swapped] tells whether
    [arr] points at [scratchIn]. *)
Fixpoint sort_loop (fuel : nat) (n log_exp : Z) (bucket arr scratch : list Z) (swapped : bool)
    : outcome (list Z * list Z * bool) :=
  if log_exp <? 32 then
    match fuel with
    | O => Fuel
    | S fuel =>
        '(bucket, scratch) ← sort_pass n log_exp bucket arr scratch;
        sort_loop fuel n (log_exp + LOG_BASE) bucket scratch arr (negb swapped)
    end
  else Ok (arr, scratch, swapped).

(** The contents of [arrIn] and [scratchIn] afterwards; [bucket] is the
    uninitialised local array.  If [arr] is not [arrIn] at the end, the code
    copies [scratch] over [arr]. *)
Definition sort (n : Z) (bucket arrIn scratchIn : list Z) : outcome (list Z * list Z) :=
  '(arr, scratch, swapped) ← sort_loop 4 n 0 bucket arrIn scratchIn false;
  if (swapped : bool) then Ok (scratch, take (Z.to_nat n) scratch ++ drop (Z.to_nat n) arr) else Ok (arr, scratch).

(** [main]; the buckets of the two calls of [sort] are uninitialised. *)
Definition main (preallocate : bool) (n : Z) (bucket1 bucket2 input_data verify_data scratch : list Z) : outcome Z :=
  '(verify_data, scratch, early) ←
    (if preallocate then
       '(verify_data, scratch) ← sort n bucket1 verify_data scratch;
       k ← Util.verify n input_data input_data; Ok (verify_data, scratch, negb (k =? 0))
     else Ok (verify_data, scratch, false));
  if (early : bool) then Ok 1 else
  '(input_data, _) ← sort n bucket2 input_data scratch;
  Util.verify n input_data verify_data.

Example sort_demo : sort 7 (replicate 256 1) [70000; 3; 0xFFFFFFFF; 256; 255; 3; 0x01000000] (replicate 7 0) =
  Ok ([3; 3; 255; 256; 70000; 0x01000000; 0xFFFFFFFF], [0x01000000; 3; 3; 255; 256; 70000; 0xFFFFFFFF]).
Proof. vm_compute. reflexivity. Qed.
End RSort.
