(* ===== verification/RSortSpec.v ===== *)
(** * The radix sort sorts

    Module [Group]: grouping a list by a key, the meaning of one pass, and why
    grouping by one digit after the other sorts.  Module [RSortSpec]: the
    counting, the running sums and the scattering of [RSort] compute that
    grouping in place. *)

From S2P Require Import Prelude Util RSort.

Module Group.
Section Key.
Context (d : Z -> Z) (m : Z).

(** The elements with key [b], and those with a smaller one. *)
Definition bucket (b : Z) (l : list Z) : list Z := filter (fun x => d x = b) l.
Definition below (b : Z) (l : list Z) : list Z := filter (fun x => d x < b) l.
Definition cnt (b : Z) (l : list Z) : Z := Z.of_nat (length (bucket b l)).
Definition start (b : Z) (l : list Z) : Z := Z.of_nat (length (below b l)).

(** The list grouped by key, each group in the order of the list. *)
Definition group (l : list Z) : list Z := concat ((fun b => bucket b l) <$> seqZ 0 m).

Lemma cnt_app (b : Z) (l l' : list Z) : cnt b (l ++ l') = cnt b l + cnt b l'.
Proof. unfold cnt, bucket. rewrite filter_app, length_app. lia. Qed.

Lemma cnt_single (b x : Z) : cnt b [x] = if decide (d x = b) then 1 else 0.
Proof. unfold cnt, bucket. rewrite filter_cons, filter_nil. by case_decide. Qed.

Lemma cnt_nonneg (b : Z) (l : list Z) : 0 <= cnt b l.
Proof. unfold cnt. lia. Qed.

Lemma start_nonneg (b : Z) (l : list Z) : 0 <= start b l.
Proof. unfold start. lia. Qed.

Lemma start_succ (b : Z) (l : list Z) : start (b + 1) l = start b l + cnt b l.
Proof.
  unfold start, cnt, below, bucket. induction l as [|x l IH]; [done|].
  rewrite !filter_cons. repeat case_decide; simpl length; lia.
Qed.

Lemma start_zero (l : list Z) : Forall (fun x => 0 <= d x) l -> start 0 l = 0.
Proof.
  unfold start, below. induction 1 as [|x l Hx Hl IH]; [done|]. rewrite filter_cons, decide_False by lia. done.
Qed.

Lemma start_all (b : Z) (l : list Z) : Forall (fun x => d x < b) l -> start b l = Z.of_nat (length l).
Proof.
  unfold start, below. induction 1 as [|x l Hx Hl IH]; [done|]. rewrite filter_cons, decide_True by done. simpl length. lia.
Qed.

Lemma start_mono (b b' : Z) (l : list Z) : b <= b' -> start b l <= start b' l.
Proof.
  intros Hb. unfold start, below. induction l as [|x l IH]; [done|].
  rewrite !filter_cons. repeat case_decide; simpl length; lia.
Qed.

Lemma start_le_length (b : Z) (l : list Z) : start b l <= Z.of_nat (length l).
Proof. unfold start, below. pose proof (length_filter (fun x => d x < b) l). lia. Qed.

(** Grouping permutes. *)
Lemma group_below (k : nat) (l : list Z) : Forall (fun x => 0 <= d x) l ->
  concat ((fun b => bucket b l) <$> seqZ 0 (Z.of_nat k)) ≡ₚ below (Z.of_nat k) l.
Proof.
  intros Hl. induction k as [|k IH].
  - simpl. unfold below. induction Hl as [|x l Hx Hl IH]; [done|]. by rewrite filter_cons, decide_False by lia.
  - rewrite seqZ_S, fmap_app, concat_app, IH, Nat2Z.inj_succ. simpl. rewrite app_nil_r, Z.add_0_l.
    clear Hl IH. unfold below, bucket. induction l as [|x l IH]; [done|]. rewrite !filter_cons.
    repeat case_decide; try lia; simpl; rewrite <- ?Permutation_middle, ?IH; done.
Qed.

Lemma group_perm (l : list Z) : 0 <= m -> Forall (fun x => 0 <= d x < m) l -> group l ≡ₚ l.
Proof.
  intros Hm Hl. unfold group. rewrite <- (Z2Nat.id m) at 1 by done. rewrite group_below.
  - rewrite Z2Nat.id by done. unfold below. clear Hm. induction Hl as [|x l Hx Hl IH]; [done|].
    rewrite filter_cons, decide_True by lia. by rewrite IH.
  - eapply Forall_impl; [exact Hl|]. simpl. lia.
Qed.

(** An array that holds every group at its place is the grouped list. *)
Lemma group_unique (l s : list Z) : 0 <= m -> Forall (fun x => 0 <= d x < m) l -> length s = length l ->
  (forall b t x, 0 <= b < m -> bucket b l !! t = Some x -> s !! (Z.to_nat (start b l) + t)%nat = Some x) ->
  s = group l.
Proof.
  intros Hm Hl Hlen Hs. pose proof (group_perm l Hm Hl) as Hp.
  enough (forall k, (k <= Z.to_nat m)%nat ->
    take (Z.to_nat (start (Z.of_nat k) l)) s = concat ((fun b => bucket b l) <$> seqZ 0 (Z.of_nat k))) as Hk.
  { unfold group. specialize (Hk (Z.to_nat m) ltac:(lia)). rewrite Z2Nat.id in Hk by done. rewrite <- Hk.
    rewrite start_all, Nat2Z.id, take_ge; [done|lia|]. eapply Forall_impl; [exact Hl|]. simpl. lia. }
  induction k as [|k IH]; intros Hk.
  - rewrite start_zero; [done|]. eapply Forall_impl; [exact Hl|]. simpl. lia.
  - rewrite seqZ_S, fmap_app, concat_app, <- IH, Nat2Z.inj_succ by lia. simpl. rewrite app_nil_r, Z.add_0_l.
    change (Z.succ (Z.of_nat k)) with (Z.of_nat k + 1). rewrite start_succ. pose proof (start_nonneg (Z.of_nat k) l).
    replace (Z.to_nat (start (Z.of_nat k) l + cnt (Z.of_nat k) l))
      with (Z.to_nat (start (Z.of_nat k) l) + length (bucket (Z.of_nat k) l))%nat by (unfold cnt; lia).
    rewrite <- take_take_drop. f_equal. apply list_eq. intros t.
    destruct (decide (t < length (bucket (Z.of_nat k) l))%nat) as [Ht|Ht].
    + rewrite lookup_take_lt, lookup_drop by done. destruct (lookup_lt_is_Some_2 _ _ Ht) as [x Hx].
      rewrite Hx. apply Hs; [lia|done].
    + rewrite lookup_take_ge by lia. symmetry. apply lookup_ge_None. lia.
Qed.
End Key.

(** ** Sorting digit by digit *)

Lemma StronglySorted_concat (R : Z -> Z -> Prop) (ls : list (list Z)) :
  Forall (StronglySorted R) ls -> StronglySorted (fun a b => forall x y, x ∈ a -> y ∈ b -> R x y) ls ->
  StronglySorted R (concat ls).
Proof.
  induction ls as [|l ls IH]; intros Hs Ho; simpl; [constructor|].
  inversion_clear Hs as [|? ? Hl Hls]. inversion_clear Ho as [|? ? Ho' Hlt]. specialize (IH Hls Ho').
  rewrite Forall_forall in Hlt. induction Hl as [|x l Hl IHl Hx]; [done|]. simpl. constructor.
  - apply IHl. intros k Hk a y Ha Hy. apply (Hlt k Hk); set_solver.
  - apply Forall_app. split; [done|]. apply Forall_forall. intros y Hy. apply list_elem_of_In, in_concat in Hy as (k & Hk & Hy).
    apply (Hlt k); [by apply list_elem_of_In|set_solver|by apply list_elem_of_In].
Qed.

Lemma StronglySorted_filter (R : Z -> Z -> Prop) (P : Z -> Prop) `{!forall x, Decision (P x)} (l : list Z) :
  StronglySorted R l -> StronglySorted R (filter P l).
Proof.
  induction 1 as [|x l Hl IH Hx]; [constructor|]. rewrite filter_cons. case_decide; [|done]. constructor; [done|].
  rewrite Forall_forall in *. intros y [_ Hy]%list_elem_of_filter. by apply Hx.
Qed.

(** Grouping by [d] turns a list ordered by [R] into one ordered by [d] first
    and [R] second. *)
Lemma group_sorted (d : Z -> Z) (m : Z) (R R' : Z -> Z -> Prop) (l : list Z) :
  (forall x y, d x < d y -> R' x y) -> (forall x y, d x = d y -> R x y -> R' x y) ->
  StronglySorted R l -> StronglySorted R' (group d m l).
Proof.
  intros Hlt Heq Hl. unfold group. apply StronglySorted_concat.
  - apply Forall_forall. intros k (b & -> & _)%list_elem_of_fmap.
    eapply StronglySorted_impl_elem; [|apply StronglySorted_filter, Hl].
    intros x y [Hx _]%list_elem_of_filter [Hy _]%list_elem_of_filter Hr. apply Heq; [congruence|done].
  - assert (StronglySorted Z.lt (seqZ 0 m)) as Hseq.
    { destruct (decide (0 <= m)); [|rewrite seqZ_nil by lia; constructor]. generalize 0 as a. revert m l0.
      apply (natlike_ind (fun m => forall a, StronglySorted Z.lt (seqZ a m))); [intros a; constructor|].
      intros k Hk IH a. rewrite seqZ_cons by lia. constructor; [rewrite Z.pred_succ; apply IH|].
      apply Forall_forall. intros y Hy%elem_of_seqZ. lia. }
    induction Hseq as [|b bs Hbs IH Hb]; [constructor|]. simpl. constructor; [done|].
    apply Forall_forall. intros k (b' & -> & Hb')%list_elem_of_fmap x y [Hx _]%list_elem_of_filter [Hy _]%list_elem_of_filter.
    apply Hlt. rewrite Hx, Hy. by apply (proj1 (Forall_forall _ _) Hb).
Qed.
End Group.

Module RSortSpec.
Import RSort Group.

Section Pass.
Context (log_exp : Z) (arr : list Z).
Context (Hlog : 0 <= log_exp) (Harr : Z.of_nat (length arr) < 2 ^ 62).

Abbreviation d := (digit log_exp).
Abbreviation n := (Z.of_nat (length arr)).

Lemma d_range (x : Z) : 0 <= d x < 256.
Proof. unfold digit. change BASE with 256. apply Z.mod_pos_bound. lia. Qed.

(** [bk] holds the values of [f]. *)
Definition table (f : Z -> Z) (bk : list Z) : Prop :=
  length bk = 256%nat /\ forall b, 0 <= b < 256 -> bk !! Z.to_nat b = Some (f b).

Lemma table_ext (f g : Z -> Z) (bk : list Z) : (forall b, 0 <= b < 256 -> f b = g b) -> table f bk -> table g bk.
Proof. intros E [Hl Hf]. split; [done|]. intros b Hb. rewrite <- E by done. by apply Hf. Qed.

Lemma fetch_add_table (f : Z -> Z) (bk : list Z) (i inc : Z) :
  table f bk -> 0 <= i < 256 -> in_u 64 (f i + inc) ->
  exists bk', fetch_add bk i inc = Ok (f i, bk') /\ table (fun b => if decide (b = i) then f i + inc else f b) bk'.
Proof.
  intros [Hl Hf] Hi Hu. unfold fetch_add. rewrite (aget_Some bk i (f i)) by (by try apply Hf; lia). simpl.
  rewrite aset_in_range by lia. rewrite uwrap_small by done. simpl. eexists. split; [done|].
  split; [by rewrite length_insert|]. intros b Hb. rewrite list_lookup_insert. case_decide as E.
  - destruct E as [E _]. rewrite decide_True by lia. done.
  - rewrite decide_False; [by apply Hf|]. intros ->. apply E. lia.
Qed.

(** ** Counting *)

Lemma clear_table (bk : list Z) : length bk = 256%nat -> owp (clear_buckets bk) (table (fun _ => 0)).
Proof.
  intros Hl. unfold clear_buckets. change BASE with 256.
  eapply owp_mono; [apply (oloop_inv 0 256 _ (fun i bk => length bk = 256%nat /\ forall b, 0 <= b < i -> bk !! Z.to_nat b = Some 0)); [lia| |]|].
  - split; [done|]. intros; lia.
  - intros j bk' Hj [Hl' Hz]. rewrite aset_in_range by lia. split; [by rewrite length_insert|].
    intros b Hb. rewrite list_lookup_insert. case_decide; [done|]. apply Hz. lia.
  - intros bk' [Hl' Hz]. split; done.
Qed.

Lemma bump_table (l bk : list Z) (a : Z) : table (fun b => cnt d b l) bk -> Z.of_nat (length l) < 2 ^ 62 ->
  owp (bump log_exp a bk) (table (fun b => cnt d b (l ++ [a]))).
Proof.
  intros Ht Hl. unfold bump. pose proof (d_range a) as Hd.
  assert (cnt d (d a) l <= Z.of_nat (length l)) by (unfold cnt, bucket; pose proof (length_filter (fun x => d x = d a) l); lia).
  destruct (fetch_add_table _ bk (d a) 1 Ht Hd) as (bk' & E & Ht'); [pose proof (cnt_nonneg d (d a) l); unfold in_u; lia|].
  rewrite E. simpl. eapply table_ext; [|exact Ht']. intros b Hb. rewrite cnt_app, cnt_single.
  destruct (decide (b = d a)) as [-> |]; [by rewrite decide_True|]. rewrite decide_False by congruence. lia.
Qed.

Lemma take_snoc (i : Z) (x : Z) : 0 <= i -> arr !! Z.to_nat i = Some x -> take (Z.to_nat (i + 1)) arr = take (Z.to_nat i) arr ++ [x].
Proof. intros Hi Hx. replace (Z.to_nat (i + 1)) with (S (Z.to_nat i)) by lia. by apply take_S_r. Qed.

(** One element: read it and count it. *)
Lemma count_step (i : Z) (bk : list Z) : 0 <= i < n -> table (fun b => cnt d b (take (Z.to_nat i) arr)) bk ->
  exists a, aget arr i = Ok a /\ owp (bump log_exp a bk) (table (fun b => cnt d b (take (Z.to_nat (i + 1)) arr))).
Proof.
  intros Hi Ht. destruct (aget_in_range arr i Hi) as (a & Ha & E). exists a. split; [done|].
  rewrite (take_snoc i a) by (done || lia). apply bump_table; [done|]. rewrite length_take. lia.
Qed.

Lemma count4_spec (fuel : nat) : forall p bk, 0 <= p <= n -> n - p <= Z.of_nat fuel ->
  table (fun b => cnt d b (take (Z.to_nat p) arr)) bk ->
  owp (count4 fuel n log_exp arr p bk) (fun '(p', bk') => 0 <= p' <= n /\ table (fun b => cnt d b (take (Z.to_nat p') arr)) bk').
Proof.
  induction fuel as [|fuel IH]; intros p bk Hp Hf Ht; simpl; (destruct (Z.ltb_spec p (n - 3)); [|done]); [lia|].
  destruct (count_step p bk) as (a0 & E0 & H0); [lia|done|]. apply owp_ok in H0 as (bk1 & B1 & T1).
  destruct (count_step (p + 1) bk1) as (a1 & E1 & H1); [lia|done|]. apply owp_ok in H1 as (bk2 & B2 & T2).
  replace (p + 1 + 1) with (p + 2) in T2 by lia.
  destruct (count_step (p + 2) bk2) as (a2 & E2 & H2); [lia|done|]. apply owp_ok in H2 as (bk3 & B3 & T3).
  replace (p + 2 + 1) with (p + 3) in T3 by lia.
  destruct (count_step (p + 3) bk3) as (a3 & E3 & H3); [lia|done|]. apply owp_ok in H3 as (bk4 & B4 & T4).
  replace (p + 3 + 1) with (p + 4) in T4 by lia.
  rewrite E0, E1, E2, E3. simpl. rewrite B1. simpl. rewrite B2. simpl. rewrite B3. simpl. rewrite B4. simpl.
  apply IH; [lia|lia|done].
Qed.

Lemma count_spec (bk : list Z) : table (fun _ => 0) bk -> owp (count n log_exp arr bk) (table (fun b => cnt d b arr)).
Proof.
  intros Ht. unfold count. apply owp_bind. eapply owp_mono; [apply (count4_spec (Z.to_nat n) 0 bk); [lia|lia|done]|].
  intros [p bk'] [Hp Ht']. eapply owp_mono; [apply (oloop_inv p n _ (fun i bk => table (fun b => cnt d b (take (Z.to_nat i) arr)) bk)); [lia|done|]|].
  - intros j bk1 Hj T1. destruct (count_step j bk1) as (a & E & Hb); [lia|done|]. by rewrite E.
  - intros bk1. rewrite take_ge by lia. done.
Qed.

(** ** Running sums *)

(** Behind the first [i] buckets. *)
Definition summed (i : Z) (s : Z * list Z) : Prop :=
  s.1 = start d i arr /\ table (fun b => if decide (b < i) then start d (b + 1) arr else cnt d b arr) s.2.

Lemma accumulate_spec (i : Z) (s : Z * list Z) : 0 <= i < 256 -> summed i s -> owp (accumulate i s) (summed (i + 1)).
Proof.
  intros Hi [Hp Ht]. unfold accumulate. pose proof (start_le_length d (i + 1) arr). pose proof (start_nonneg d i arr).
  pose proof (start_succ d i arr) as Es. pose proof (cnt_nonneg d i arr).
  destruct (fetch_add_table _ s.2 i s.1 Ht) as (bk' & E & Ht'); [done|rewrite decide_False by lia; unfold in_u; lia|].
  rewrite E. simpl. rewrite decide_False by lia. rewrite uwrap_small by (unfold in_u; lia). split; [simpl; lia|].
  eapply table_ext; [|exact Ht']. intros b Hb. simpl. repeat case_decide; subst; try lia; done.
Qed.

Lemma prefix_spec (bk : list Z) : table (fun b => cnt d b arr) bk -> owp (prefix_sums bk) (table (fun b => start d (b + 1) arr)).
Proof.
  intros Ht. unfold prefix_sums. rewrite (aget_Some bk 0 (cnt d 0 arr)) by (by try apply Ht). cbn [mbind outcome_bind].
  assert (start d 0 arr = 0) as S0 by (apply start_zero, Forall_forall; intros x _; apply d_range).
  assert (summed 1 (cnt d 0 arr, bk)) as H1.
  { pose proof (start_succ d 0 arr) as E. split; [simpl; change (0 + 1) with 1 in E; lia|]. eapply table_ext; [|exact Ht].
    intros b Hb. simpl. case_decide; [|done]. replace b with 0 by lia. rewrite E. lia. }
  apply owp_bind. eapply owp_mono; [by apply accumulate_spec|]. intros s2 H2.
  change (BASE / 2 - 1) with 127. apply owp_bind.
  eapply owp_mono; [apply (oloop_inv 0 127 _ (fun j s => summed (2 + 2 * j) s)); [lia|done|]|].
  - intros j s Hj Hs. apply owp_bind. eapply owp_mono; [apply accumulate_spec; [lia|done]|]. intros s' Hs'.
    eapply owp_mono; [apply accumulate_spec; [lia|done]|]. intros s'' Hs''. by replace (2 + 2 * (j + 1)) with (2 + 2 * j + 1 + 1) by lia.
  - intros s [_ Hs]. simpl. eapply table_ext; [|exact Hs]. intros b Hb. simpl. by rewrite decide_True by lia.
Qed.

(** ** Scattering *)

(** The elements from [i] on are at their places, the buckets point behind
    the places of the others. *)
Definition placed (i : Z) (bk scratch : list Z) : Prop :=
  table (fun b => start d b arr + cnt d b (take (Z.to_nat i) arr)) bk /\ length scratch = length arr /\
  forall b t x, 0 <= b < 256 -> bucket d b (drop (Z.to_nat i) arr) !! t = Some x ->
    scratch !! (Z.to_nat (start d b arr + cnt d b (take (Z.to_nat i) arr)) + t)%nat = Some x.

Lemma cnt_split (i b : Z) : cnt d b arr = cnt d b (take (Z.to_nat i) arr) + cnt d b (drop (Z.to_nat i) arr).
Proof. by rewrite <- cnt_app, take_drop. Qed.

(** The places of a key end where those of the next key start. *)
Lemma place_bound (i b : Z) (t : nat) (x : Z) : bucket d b (drop (Z.to_nat i) arr) !! t = Some x ->
  start d b arr <= start d b arr + cnt d b (take (Z.to_nat i) arr) + Z.of_nat t < start d (b + 1) arr.
Proof.
  intros Hx%lookup_lt_Some. rewrite start_succ, (cnt_split i). pose proof (cnt_nonneg d b (take (Z.to_nat i) arr)).
  unfold cnt in *. lia.
Qed.

Definition put (a : Z) (bk scratch : list Z) : outcome (list Z * list Z) :=
  '(s, bk) ← slot log_exp a bk; scratch ← aset scratch (s - 1) a; Ok (bk, scratch).

Lemma put_spec (i a : Z) (bk scratch : list Z) : 0 <= i -> arr !! Z.to_nat i = Some a -> placed (i + 1) bk scratch ->
  owp (put a bk scratch) (fun '(bk', scratch') => placed i bk' scratch').
Proof.
  intros Hi Ha (Ht & Hlen & Hp). pose proof (d_range a) as Hd. pose proof (lookup_lt_Some _ _ _ Ha) as Hlt.
  assert (forall b, cnt d b (take (Z.to_nat (i + 1)) arr) = cnt d b (take (Z.to_nat i) arr) + if decide (d a = b) then 1 else 0) as Ec.
  { intros b. rewrite (take_snoc i a) by done. by rewrite cnt_app, cnt_single. }
  assert (drop (Z.to_nat i) arr = a :: drop (Z.to_nat (i + 1)) arr) as Ed.
  { replace (Z.to_nat (i + 1)) with (S (Z.to_nat i)) by lia. by apply drop_S. }
  set (q := start d (d a) arr + cnt d (d a) (take (Z.to_nat i) arr)).
  assert (start d (d a) arr <= q < start d (d a + 1) arr) as Hq.
  { pose proof (place_bound i (d a) 0 a) as Hb. rewrite Ed in Hb. unfold bucket in Hb. rewrite filter_cons, decide_True in Hb by done.
    specialize (Hb eq_refl). unfold q. lia. }
  pose proof (start_le_length d (d a + 1) arr). pose proof (start_nonneg d (d a) arr).
  unfold put, slot. destruct (fetch_add_table _ bk (d a) (-1) Ht Hd) as (bk' & E & Ht').
  { rewrite Ec, decide_True by done. unfold in_u. lia. }
  rewrite E. simpl. rewrite Ec, decide_True by done.
  replace (start d (d a) arr + (cnt d (d a) (take (Z.to_nat i) arr) + 1) - 1) with q by (unfold q; lia).
  rewrite aset_in_range by lia. simpl. split; [|split; [by rewrite length_insert|]].
  - eapply table_ext; [|exact Ht']. intros b Hb. simpl. case_decide as Eb; rewrite Ec; [rewrite decide_True by done; subst; lia|].
    rewrite decide_False by congruence. lia.
  - intros b t x Hb Hx. pose proof (place_bound i b t x Hx) as Hpl. rewrite Ed in Hx. unfold bucket in Hx.
    rewrite filter_cons in Hx. rewrite list_lookup_insert. destruct (decide (d a = b)) as [<- |Hne].
    + destruct t as [|t]; simpl in Hx.
      * injection Hx as <-. rewrite decide_True; [done|]. unfold q. split; lia.
      * rewrite decide_False by (unfold q; lia). specialize (Hp (d a) t x Hd Hx). rewrite Ec, decide_True in Hp by done.
        rewrite <- Hp. f_equal. pose proof (cnt_nonneg d (d a) (take (Z.to_nat i) arr)). lia.
    + rewrite decide_False; [specialize (Hp b t x Hb Hx); by rewrite Ec, decide_False, Z.add_0_r in Hp by done|].
      intros [Eq _]. pose proof (cnt_nonneg d b (take (Z.to_nat i) arr)). pose proof (start_nonneg d b arr).
      destruct (decide (b < d a)).
      * pose proof (start_mono d (b + 1) (d a) arr ltac:(lia)). lia.
      * pose proof (start_mono d (d a + 1) b arr ltac:(lia)). lia.
Qed.

(** Reading an element and putting it at its place. *)
Lemma put_at (i : Z) (bk scratch : list Z) : 0 <= i < n -> placed (i + 1) bk scratch ->
  exists a s bk' scratch', aget arr i = Ok a /\ slot log_exp a bk = Ok (s, bk') /\ aset scratch (s - 1) a = Ok scratch' /\
    placed i bk' scratch'.
Proof.
  intros Hi Hp. destruct (aget_in_range arr i Hi) as (a & Ha & E). pose proof (put_spec i a bk scratch ltac:(lia) Ha Hp) as Hput.
  apply owp_ok in Hput as ([bk' scratch'] & Ep & Hpl). unfold put in Ep.
  destruct (slot log_exp a bk) as [[s bk1]| |] eqn:Es; [|done..]. simpl in Ep.
  destruct (aset scratch (s - 1) a) as [sc| |] eqn:Ea; [|done..]. injection Ep as -> ->. by exists a, s, bk', scratch'.
Qed.

Lemma scatter4_spec (fuel : nat) : forall p bk scratch, -1 <= p < n -> p + 1 <= Z.of_nat fuel -> placed (p + 1) bk scratch ->
  owp (scatter4 fuel log_exp arr p bk scratch) (fun '(p', bk', scratch') => -1 <= p' <= p /\ placed (p' + 1) bk' scratch').
Proof.
  induction fuel as [|fuel IH]; intros p bk scratch Hp Hf Hpl; simpl; (destruct (Z.leb_spec 3 p); [|split; [lia|done]]); [lia|].
  destruct (put_at p bk scratch) as (a0 & s0 & bk0 & sc0 & A0 & S0 & W0 & P0); [lia|done|].
  destruct (put_at (p - 1) bk0 sc0) as (a1 & s1 & bk1 & sc1 & A1 & S1 & W1 & P1); [lia|by rewrite Z.sub_add|].
  destruct (put_at (p - 2) bk1 sc1) as (a2 & s2 & bk2 & sc2 & A2 & S2 & W2 & P2); [lia|by replace (p - 2 + 1) with (p - 1) by lia|].
  destruct (put_at (p - 3) bk2 sc2) as (a3 & s3 & bk3 & sc3 & A3 & S3 & W3 & P3); [lia|by replace (p - 3 + 1) with (p - 2) by lia|].
  rewrite A0, A1, A2, A3. simpl. rewrite S0. simpl. rewrite S1. simpl. rewrite S2. simpl. rewrite S3. simpl.
  rewrite W0. simpl. rewrite W1. simpl. rewrite W2. simpl. rewrite W3. simpl.
  eapply owp_mono; [apply IH; [lia|lia|by replace (p - 4 + 1) with (p - 3) by lia]|]. intros [[p' bk'] sc'] [Hp' Hpl']. split; [lia|done].
Qed.

Lemma scatter1_spec (fuel : nat) : forall p bk scratch, -1 <= p < n -> p + 1 <= Z.of_nat fuel -> placed (p + 1) bk scratch ->
  owp (scatter1 fuel log_exp arr p bk scratch) (fun '(bk', scratch') => placed 0 bk' scratch').
Proof.
  induction fuel as [|fuel IH]; intros p bk scratch Hp Hf Hpl; simpl;
    (destruct (Z.leb_spec 0 p); [|by replace (p + 1) with 0 in Hpl by lia]); [lia|].
  destruct (put_at p bk scratch) as (a & s & bk' & sc' & A & Sl & Wr & P); [lia|done|].
  rewrite A. simpl. rewrite Sl. simpl. rewrite Wr. simpl. apply IH; [lia|lia|by rewrite Z.sub_add].
Qed.

(** One pass of the sort is the grouping by its digit. *)
Lemma pass_spec (bk scratch : list Z) : length bk = 256%nat -> length scratch = length arr ->
  owp (sort_pass n log_exp bk arr scratch) (fun '(bk', scratch') => length bk' = 256%nat /\ scratch' = group d 256 arr).
Proof.
  intros Hbk Hsc. unfold sort_pass. apply owp_bind. eapply owp_mono; [by apply clear_table|]. intros bk1 T1.
  apply owp_bind. eapply owp_mono; [by apply count_spec|]. intros bk2 T2.
  apply owp_bind. eapply owp_mono; [by apply prefix_spec|]. intros bk3 T3.
  assert (placed n bk3 scratch) as Hp.
  { split; [|split; [done|]].
    - eapply table_ext; [|exact T3]. intros b Hb. simpl. rewrite start_succ, take_ge by lia. done.
    - intros b t x _. rewrite drop_ge by lia. done. }
  unfold scatter. apply owp_bind. eapply owp_mono; [apply (scatter4_spec (Z.to_nat n) (n - 1)); [lia|lia|by rewrite Z.sub_add]|].
  intros [[p bk4] sc4] [Hp4 Hpl4]. eapply owp_mono; [apply (scatter1_spec (Z.to_nat n) p); [lia|lia|done]|].
  intros [bk5 sc5] ([Hl _] & Hlen & Hpl). split; [done|]. apply group_unique; [lia| |done|].
  - apply Forall_forall. intros x _. apply d_range.
  - intros b t x Hb Hx. specialize (Hpl b t x Hb Hx). simpl in Hpl. by rewrite Z.add_0_r in Hpl.
Qed.
End Pass.

(** ** The sort *)

(** Ordered by the low [k] bits. *)
Definition le_low (k : Z) (x y : Z) : Prop := x mod 2 ^ k <= y mod 2 ^ k.

(** The next digit on top of the low bits. *)
Lemma low_digit (k x : Z) : 0 <= k -> x mod 2 ^ (k + 8) = x mod 2 ^ k + 2 ^ k * digit k x.
Proof.
  intros Hk. unfold digit. change BASE with 256. rewrite Z.shiftr_div_pow2 by done.
  rewrite Z.pow_add_r by lia. change (2 ^ 8) with 256. rewrite Z.rem_mul_r by lia. done.
Qed.

Lemma group_low (k : Z) (l : list Z) : 0 <= k -> StronglySorted (le_low k) l ->
  StronglySorted (le_low (k + 8)) (group (digit k) 256 l).
Proof.
  intros Hk. apply group_sorted; unfold le_low; intros x y H; rewrite !low_digit by done.
  - pose proof (Z.mod_pos_bound x (2 ^ k) ltac:(lia)). pose proof (Z.mod_pos_bound y (2 ^ k) ltac:(lia)). nia.
  - rewrite H. lia.
Qed.

Lemma group_digit_perm (k : Z) (l : list Z) : group (digit k) 256 l ≡ₚ l.
Proof. apply group_perm; [lia|]. apply Forall_forall. intros x _. unfold digit. change BASE with 256. apply Z.mod_pos_bound. lia. Qed.

Lemma le_low_32 (l : list Z) : Forall (in_u 32) l -> StronglySorted (le_low 32) l -> StronglySorted Z.le l.
Proof.
  intros Hl. apply StronglySorted_impl_elem. rewrite Forall_forall in Hl. intros x y Hx%Hl Hy%Hl. unfold le_low, in_u in *.
  by rewrite !Z.mod_small by lia.
Qed.

(** The passes that are left, [f] of them, sort by the rest of the bits and
    end in the array the parity of [f] says. *)
Lemma passes_spec (f : nat) : forall log_exp bk arr scratch swapped,
  0 <= log_exp -> log_exp + 8 * Z.of_nat f = 32 -> Z.of_nat (length arr) < 2 ^ 62 ->
  length bk = 256%nat -> length scratch = length arr -> StronglySorted (le_low log_exp) arr ->
  owp (sort_loop f (Z.of_nat (length arr)) log_exp bk arr scratch swapped)
    (fun '(arr', scratch', swapped') => StronglySorted (le_low 32) arr' /\ arr' ≡ₚ arr /\ length scratch' = length arr /\
       swapped' = (if Nat.even f then swapped else negb swapped)).
Proof.
  induction f as [|f IH]; intros log_exp bk arr scratch swapped Hlog Hf Harr Hbk Hsc Hs; cbn [sort_loop].
  - replace log_exp with 32 in * by lia. done.
  - rewrite (proj2 (Z.ltb_lt log_exp 32)) by lia. apply owp_bind. eapply owp_mono; [by apply pass_spec|].
    intros [bk' scratch'] [Hbk' ->]. pose proof (group_digit_perm log_exp arr) as Hp. pose proof (Permutation_length Hp) as Hlen.
    change LOG_BASE with 8. rewrite <- Hlen.
    eapply owp_mono; [apply IH; [lia|lia|lia|done|lia|by apply group_low]|]. intros [[arr' sc'] sw'] (S' & P' & L' & ->).
    rewrite Hp in P'. split_and!; [done|done|lia|]. rewrite Nat.even_succ, <- Nat.negb_even. by destruct (Nat.even f), swapped.
Qed.

(** [n] elements of 32 bits, and arrays to work in. *)
Definition input_ok (bucket arr scratch : list Z) : Prop :=
  length bucket = 256%nat /\ length scratch = length arr /\ Z.of_nat (length arr) < 2 ^ 62 /\ Forall (in_u 32) arr.

Definition sorted_of (arr arr' : list Z) : Prop := StronglySorted Z.le arr' /\ arr' ≡ₚ arr.

Lemma sort_spec (bucket arrIn scratchIn : list Z) : input_ok bucket arrIn scratchIn ->
  owp (sort (Z.of_nat (length arrIn)) bucket arrIn scratchIn)
    (fun '(arr, scratch) => sorted_of arrIn arr /\ length scratch = length arrIn).
Proof.
  intros (Hbk & Hsc & Hn & Hu). unfold sort. apply owp_bind. eapply owp_mono.
  - apply (passes_spec 4); [lia|lia|done|done|done|]. clear. induction arrIn as [|x l IH]; constructor; [done|].
    apply Forall_forall. intros y _. unfold le_low. by rewrite !Z.mod_1_r.
  - intros [[arr scratch] swapped] (S' & P' & L' & ->). split; [|done]. split; [|done].
    apply le_low_32; [|done]. by rewrite P'.
Qed.

Lemma sorted_of_unique (arr l l' : list Z) : sorted_of arr l -> sorted_of arr l' -> l = l'.
Proof. intros [Hs Hp] [Hs' Hp']. apply (StronglySorted_unique Z.le); [done|done|]. by rewrite Hp, Hp'. Qed.

(** [C38] For every array of 32-bit elements and whatever the buckets and the
    scratch array hold, [sort] returns without leaving an array and its first
    argument then holds the elements in ascending order: after the four
    passes the two arrays have been exchanged an even number of times.  So
    [main] returns 0 exactly when the expected data are the sorted input. *)
Theorem rsort_sorts (bucket arrIn scratchIn expected : list Z) :
  input_ok bucket arrIn scratchIn -> length expected = length arrIn ->
  owp (sort (Z.of_nat (length arrIn)) bucket arrIn scratchIn)
    (fun '(arr, scratch) => sorted_of arrIn arr /\ length scratch = length arrIn) /\
  owp (main false (Z.of_nat (length arrIn)) bucket bucket arrIn expected scratchIn) (fun k => k = 0 <-> sorted_of arrIn expected).
Proof.
  intros Hin He. pose proof (sort_spec _ _ _ Hin) as Hs. split; [done|]. unfold main. cbn [mbind outcome_bind].
  apply owp_bind. eapply owp_mono; [exact Hs|]. intros [arr scratch] [Ha _]. pose proof (Permutation_length (proj2 Ha)) as Hlen.
  rewrite <- Hlen. eapply owp_mono; [apply Util.verify_finds; lia|]. intros k [[-> <-]|(Hk & _ & Hd)]; [done|].
  split; [lia|]. intros Hse. rewrite (sorted_of_unique arrIn arr expected Ha Hse) in Hd. done.
Qed.

(** Six elements, on both sides of the unrolled loops. *)
Lemma rsort_sorts_witness :
  owp (main false 6 (replicate 256 7) (replicate 256 7) [70000; 3; 0xFFFFFFFF; 256; 3; 0] [0; 3; 3; 256; 70000; 0xFFFFFFFF] [1; 1; 1; 1; 1; 1])
    (fun k => k = 0 <-> sorted_of [70000; 3; 0xFFFFFFFF; 256; 3; 0] [0; 3; 3; 256; 70000; 0xFFFFFFFF]).
Proof.
  apply (rsort_sorts (replicate 256 7) [70000; 3; 0xFFFFFFFF; 256; 3; 0] [1; 1; 1; 1; 1; 1] [0; 3; 3; 256; 70000; 0xFFFFFFFF]);
    [split; [reflexivity|split; [reflexivity|split; [vm_compute; reflexivity|repeat constructor; unfold in_u; lia]]]|reflexivity].
Defined.
End RSortSpec.
