(* ===== verification/Malloc.v ===== *)
(** * The allocator of the debug programs (riscv-tests/debug/programs/tiny-malloc.c)

    [malloc], [free], [realloc], [calloc], [memalign] and the statistics, as
    built for the target ([MALLOC_DIRECTION] is 1: the heap grows upwards).

    Memory is the byte memory of [LibC].  A block starts with its size; a
    free block has the address of the next free block behind it.  A pointer
    to a block pointer ([nextfree]) is either the variable
    [__malloc_freelist] or the [next] field of a block.  [MALLOC_LIMIT], the
    frame address of the caller, is an argument; so is the address of
    [__malloc_start].  The loops follow the free list; the size of the memory
    is more than enough fuel for a list of disjoint blocks. *)

From S2P Require Import Prelude LibC.

Module Malloc.

Record heap := Heap { hmem : mem; malloc_end : Z; malloc_freelist : Z }.

Abbreviation mal := (ST heap).

Definition set_hmem (m : mem) (h : heap) : heap := Heap m (malloc_end h) (malloc_freelist h).
Definition set_end (e : Z) (h : heap) : heap := Heap (hmem h) e (malloc_freelist h).
Definition set_freelist (b : Z) (h : heap) : heap := Heap (hmem h) (malloc_end h) b.

(** ** Fields *)

Definition SIZEOF_SIZE : Z := 8.
Definition SIZEOF_ENTRY : Z := 16.

Definition load (p : Z) : mal Z := h ← st_get; lift (ldw (hmem h) p).
Definition store (p v : Z) : mal unit := h ← st_get; m ← lift (stw (hmem h) p v); st_put (set_hmem m h).

Definition next_field (block : Z) : Z := u64 (block + SIZEOF_SIZE).
Definition get_size (block : Z) : mal Z := load block.
Definition set_size (block n : Z) : mal unit := store block n.
Definition get_next (block : Z) : mal Z := load (next_field block).
Definition set_next (block p : Z) : mal unit := store (next_field block) p.

(** A [fle *]. *)
Inductive link := Root | Next (block : Z).

Definition deref (l : link) : mal Z :=
  match l with Root => st_gets malloc_freelist | Next b => get_next b end.
Definition assign (l : link) (p : Z) : mal unit :=
  match l with Root => st_modify (set_freelist p) | Next b => set_next b p end.

(** ** Sizes *)

Definition M_ALIGN (x align : Z) : Z := Z.land (u64 (- x)) (u64 (align - 1)).

Definition MALLOC_MINIMUM_GAP : Z := 32.

Definition CAN_ALLOC_P (limit required : Z) : mal bool :=
  st_gets (fun h => required <=? u64 (u64 (limit - malloc_end h) - MALLOC_MINIMUM_GAP)).

Definition REAL_SIZE (sz : Z) : Z :=
  if sz <? SIZEOF_ENTRY - SIZEOF_SIZE then SIZEOF_ENTRY
  else u64 (u64 (sz + SIZEOF_SIZE) + M_ALIGN sz SIZEOF_SIZE).

(** ** malloc *)

(** The label [done]. *)
Definition done_ (block real_size : Z) : mal Z := _ ← set_size block real_size; mret (next_field block).

(** The block is large enough: take it whole or split it. *)
Definition take_block (nextfree : link) (block size real_size : Z) : mal Z :=
  if size <? u64 (real_size + SIZEOF_ENTRY) then
    nx ← get_next block; _ ← assign nextfree nx; mret (next_field block)
  else
    let newsize := u64 (size - real_size) in
    newnext ← get_next block;
    let rest := u64 (block + real_size) in
    _ ← assign nextfree rest; _ ← set_size rest newsize; _ ← set_next rest newnext;
    done_ block real_size.

(** The last free block reaches [__malloc_end]: enlarge it. *)
Definition enlarge (limit : Z) (nextfree : link) (block size real_size : Z) : mal Z :=
  ok ← CAN_ALLOC_P limit (u64 (real_size - size));
  if (ok : bool) then
    _ ← assign nextfree 0; _ ← st_modify (set_end (u64 (block + real_size))); done_ block real_size
  else mret 0.

(** No free block will do: new space at the end. *)
Definition fresh_block (limit real_size : Z) : mal Z :=
  ok ← CAN_ALLOC_P limit real_size;
  if (ok : bool) then
    block ← st_gets malloc_end; _ ← st_modify (set_end (u64 (block + real_size))); done_ block real_size
  else mret 0.

Fixpoint malloc_loop (fuel : nat) (limit real_size : Z) (nextfree : link) : mal Z :=
  match fuel with
  | O => st_fuel
  | S fuel =>
      block ← deref nextfree;
      if block =? 0 then fresh_block limit real_size else
      size ← get_size block;
      if real_size <=? size then take_block nextfree block size real_size else
      nx ← get_next block; e ← st_gets malloc_end;
      if (nx =? 0) && (e =? u64 (block + size)) then enlarge limit nextfree block size real_size
      else malloc_loop fuel limit real_size (Next block)
  end.

Definition list_fuel (h : heap) : nat := S (size (hmem h)).

Definition malloc (limit sz : Z) : mal Z :=
  fuel ← st_gets list_fuel; malloc_loop fuel limit (REAL_SIZE sz) Root.

(** ** free *)

(** The block follows [thisblock]: join them, and the next one if it touches. *)
Definition join_before (thisblock size block : Z) : mal unit :=
  bs ← get_size block; _ ← set_size thisblock (u64 (size + bs));
  nx ← get_next thisblock;
  if nx =? 0 then mret tt else
  bs ← get_size block;
  if u64 (block + bs) =? nx then
    ts ← get_size thisblock; ns ← get_size nx; _ ← set_size thisblock (u64 (ts + ns));
    nn ← get_next nx; set_next thisblock nn
  else mret tt.

(** [thisblock] follows the block. *)
Definition join_after (nextfree : link) (thisblock size block : Z) : mal unit :=
  bs ← get_size block; _ ← set_size block (u64 (bs + size));
  nx ← get_next thisblock; _ ← set_next block nx; assign nextfree block.

Definition link_in (nextfree : link) (block : Z) : mal unit :=
  p ← deref nextfree; _ ← set_next block p; assign nextfree block.

Fixpoint free_loop (fuel : nat) (nextfree : link) (block : Z) : mal unit :=
  match fuel with
  | O => st_fuel
  | S fuel =>
      thisblock ← deref nextfree;
      if thisblock =? 0 then link_in nextfree block else
      size ← get_size thisblock;
      if u64 (thisblock + size) =? block then join_before thisblock size block else
      bs ← get_size block;
      if thisblock =? u64 (block + bs) then join_after nextfree thisblock size block else
      if block <? thisblock then link_in nextfree block
      else free_loop fuel (Next thisblock) block
  end.

(** [block_p - offsetof (struct freelist_entry, next)]. *)
Definition block_of (block_p : Z) : Z := u64 (block_p - SIZEOF_SIZE).

Definition free (block_p : Z) : mal unit :=
  if block_p =? 0 then mret tt else
  fuel ← st_gets list_fuel; free_loop fuel Root (block_of block_p).

Definition cfree (p : Z) : mal unit := free p.

(** ** realloc and calloc *)

(** [memcpy] and [memset] of the C library. *)
Definition mem_copy (dest src len : Z) : mal unit :=
  h ← st_get; l ← lift (ldbs (hmem h) src (Z.to_nat len)); m ← lift (stbs (hmem h) dest l); st_put (set_hmem m h).
Definition mem_set (dest byte len : Z) : mal unit :=
  h ← st_get; m ← lift (stbs (hmem h) dest (replicate (Z.to_nat len) byte)); st_put (set_hmem m h).

Definition realloc (limit block_p sz : Z) : mal Z :=
  let block := block_of block_p in
  let real_size := REAL_SIZE sz in
  if block_p =? 0 then malloc limit sz else
  old_real_size ← get_size block;
  if old_real_size <? real_size then
    let old_size := u64 (old_real_size - SIZEOF_SIZE) in
    result ← malloc limit sz;
    if result =? 0 then mret 0 else
    _ ← mem_copy result block_p (if old_size <? sz then old_size else sz);
    _ ← free block_p; mret result
  else
    _ ← (if SIZEOF_ENTRY <=? u64 (old_real_size - real_size) then
           let newblock := u64 (block + real_size) in
           _ ← set_size block real_size; _ ← set_size newblock (u64 (old_real_size - real_size));
           free (next_field newblock)
         else mret tt);
    mret block_p.

Definition calloc (limit n elem_size : Z) : mal Z :=
  let sz := u64 (n * elem_size) in
  result ← malloc limit sz;
  if result =? 0 then mret 0 else _ ← mem_set result 0 sz; mret result.

(** ** memalign *)

(** The first free block from [nextfree] on; at the end of the list a new
    block of the size needed is appended.  [None] when there is no room. *)
Definition memalign_block (limit align real_size : Z) (nextfree : link) : mal (option (Z * Z)) :=
  p ← deref nextfree;
  if p =? 0 then
    block ← st_gets malloc_end;
    let old_size := u64 (real_size + M_ALIGN (u64 (block + SIZEOF_SIZE)) align) in
    ok ← CAN_ALLOC_P limit old_size;
    if (ok : bool) then
      _ ← st_modify (set_end (u64 (block + old_size))); _ ← assign nextfree block;
      _ ← set_size block old_size; _ ← set_next block 0; mret (Some (block, old_size))
    else mret None
  else
    old_size ← get_size p; mret (Some (p, old_size)).

(** The bytes to leave in front, so that a free block fits there. *)
Definition before (block align : Z) : Z :=
  let before_size := M_ALIGN (next_field block) align in
  if before_size =? 0 then 0 else u64 (SIZEOF_ENTRY + M_ALIGN (next_field (u64 (block + SIZEOF_ENTRY))) align).

(** Enlarges the last block if it is too small and reaches the end: the size
    of the block then, [None] when there is no room. *)
Definition memalign_enlarge (limit block old_size before_size real_size : Z) : mal (option Z) :=
  nx ← get_next block;
  if (nx =? 0) && (old_size <? u64 (real_size + before_size)) then
    size ← get_size block; e ← st_gets malloc_end;
    if e =? u64 (block + size) then
      ok ← CAN_ALLOC_P limit (u64 (u64 (before_size + real_size) - size));
      if (ok : bool) then
        _ ← st_modify (set_end (u64 (u64 (block + before_size) + real_size)));
        _ ← set_size block (u64 (before_size + real_size)); mret (Some (u64 (before_size + real_size)))
      else mret None
    else mret (Some old_size)
  else mret (Some old_size).

(** The block will do: leave [before_size] bytes as a free block. *)
Definition memalign_split (old_block old_size before_size real_size : Z) : mal Z :=
  _ ← set_size old_block before_size;
  let block := u64 (old_block + before_size) in
  if u64 (old_size - before_size) <=? u64 (real_size + SIZEOF_ENTRY) then
    _ ← set_size block (u64 (old_size - before_size)); mret (next_field block)
  else
    let new_block := u64 (block + real_size) in
    _ ← set_size new_block (u64 (u64 (old_size - before_size) - real_size));
    nx ← get_next old_block; _ ← set_next new_block nx; _ ← set_next old_block new_block;
    done_ block real_size.

(** The block is aligned: take it whole or split off its end. *)
Definition memalign_take (nextfree : link) (block old_size real_size : Z) : mal Z :=
  if old_size <=? u64 (real_size + SIZEOF_ENTRY) then
    nx ← get_next block; _ ← assign nextfree nx; mret (next_field block)
  else
    let newsize := u64 (old_size - real_size) in
    newnext ← get_next block;
    let rest := u64 (block + real_size) in
    _ ← assign nextfree rest; _ ← set_size rest newsize; _ ← set_next rest newnext;
    done_ block real_size.

Fixpoint memalign_loop (fuel : nat) (limit align real_size : Z) (nextfree : link) : mal Z :=
  match fuel with
  | O => st_fuel
  | S fuel =>
      found ← memalign_block limit align real_size nextfree;
      match found with
      | None => mret 0
      | Some (block, old_size) =>
          let before_size := before block align in
          grown ← memalign_enlarge limit block old_size before_size real_size;
          match grown with
          | None => mret 0
          | Some old_size =>
              if u64 (real_size + before_size) <=? old_size then
                if before_size =? 0 then memalign_take nextfree block old_size real_size
                else memalign_split block old_size before_size real_size
              else memalign_loop fuel limit align real_size (Next block)
          end
      end
  end.

Definition memalign (limit align sz : Z) : mal Z :=
  if negb (Z.land align (u64 (align - 1)) =? 0) || (align <=? 0) then mret 0 else
  fuel ← st_gets list_fuel; memalign_loop fuel limit align (REAL_SIZE sz) Root.

Definition valloc (limit sz : Z) : mal Z := memalign limit 128 sz.
Definition pvalloc (limit sz : Z) : mal Z := memalign limit 128 (u64 (sz + M_ALIGN sz 128)).

(** ** Statistics *)

Record mallinfo_t := Mallinfo { arena : Z; ordblks : Z; fordblks : Z; uordblks : Z; keepcost : Z }.

(** The free bytes, the free blocks, and the size of the last block if it
    reaches the end. *)
Fixpoint mallinfo_loop (fuel : nat) (fr free_size free_blocks keep : Z) : mal (Z * Z * Z) :=
  if fr =? 0 then mret (free_size, free_blocks, keep) else
  match fuel with
  | O => st_fuel
  | S fuel =>
      size ← get_size fr; nx ← get_next fr; e ← st_gets malloc_end;
      let keep := if (nx =? 0) && (u64 (fr + size) =? e) then size else keep in
      mallinfo_loop fuel nx (u64 (free_size + size)) (u64 (free_blocks + 1)) keep
  end.

Definition mallinfo (malloc_start : Z) : mal mallinfo_t :=
  fuel ← st_gets list_fuel; fr ← st_gets malloc_freelist;
  '(free_size, free_blocks, keep) ← mallinfo_loop fuel fr 0 0 0;
  e ← st_gets malloc_end;
  let total_size := u64 (e - malloc_start) in
  mret (Mallinfo total_size free_blocks free_size (u64 (total_size - free_size)) keep).

Definition malloc_usable_size (block_p : Z) : mal Z :=
  n ← get_size (block_of block_p); mret (u64 (n - SIZEOF_SIZE)).

Definition mallopt (n v : Z) : mal Z := mret 0.

(** The heap before the first call. *)
Definition initial (m : mem) (malloc_start : Z) : heap := Heap m malloc_start 0.

(** ** A run *)

Definition demo_mem : mem := list_to_map ((fun a => (a, 0)) <$> seqZ 4096 512).

(** Three blocks, the second freed, then the first: they are joined, and the
    next request is served from them.  The last one is aligned to 64 bytes. *)
Definition demo : mal (list Z) :=
  a ← malloc 4608 10; b ← malloc 4608 100; c ← malloc 4608 1; _ ← free b; _ ← free a;
  d ← malloc 4608 40; i ← mallinfo 4096; e ← memalign 4608 64 24;
  u ← malloc_usable_size e; mret [a; b; c; d; arena i; ordblks i; fordblks i; uordblks i; e; u].

Example demo_run : fst <$> (match demo (initial demo_mem 4096) with Ok r => Some r | _ => None end) =
  Some [4104; 4128; 4240; 4104; 152; 1; 88; 64; 4288; 24].
Proof. vm_compute. reflexivity. Qed.

(** A request near [SIZE_MAX] wraps: it is served by a block without room for
    a single byte. *)
Lemma malloc_wraps : exists h, malloc 4608 (2 ^ 64 - 1) (initial demo_mem 4096) = Ok (4104, h) /\ malloc_end h = 4104.
Proof. eexists. split; vm_compute; reflexivity. Qed.
End Malloc.
