(* ===== verification/MallocArena.v ===== *)
(** * The abstract allocator

    What [Malloc] promises, without memory: the heap is cut into blocks
    (address and size), the free ones in a list ordered by address and never
    touching one another, the others in use.  [alloc] and [release] are the
    first-fit allocation and the joining release as functions on the free
    list; [arena], the partition of the heap, is kept by both. *)

From S2P Require Import Prelude.

Module Arena.

Abbreviation block := (Z * Z)%type.

(** The end of a block. *)
Definition top (x : block) : Z := x.1 + x.2.

Definition disj (x y : block) : Prop := top x <= y.1 \/ top y <= x.1.

Fixpoint total (l : list block) : Z := match l with [] => 0 | x :: l => x.2 + total l end.

(** ** The operations *)

(** The block taken for [r] bytes, the free list and the end of the heap
    afterwards; [None] when the limit is too close. *)
Fixpoint alloc (limit r e : Z) (F : list block) : option (block * list block * Z) :=
  match F with
  | [] => if r <=? limit - e - 32 then Some ((e, r), [], e + r) else None
  | x :: F' =>
      if r <=? x.2 then
        if x.2 <? r + 16 then Some (x, F', e) else Some ((x.1, r), (x.1 + r, x.2 - r) :: F', e)
      else if bool_decide (F' = []) && (e =? top x) then
        if r - x.2 <=? limit - e - 32 then Some ((x.1, r), [], x.1 + r) else None
      else
        '(y, F'', e') ← alloc limit r e F'; Some (y, x :: F'', e')
  end.

Fixpoint release (x : block) (F : list block) : list block :=
  match F with
  | [] => [x]
  | y :: F' =>
      if top y =? x.1 then
        match F' with
        | z :: F'' => if top x =? z.1 then (y.1, y.2 + x.2 + z.2) :: F'' else (y.1, y.2 + x.2) :: F'
        | [] => [(y.1, y.2 + x.2)]
        end
      else if y.1 =? top x then (x.1, x.2 + y.2) :: F'
      else if x.1 <? y.1 then x :: F
      else y :: release x F'
  end.

(** ** Partitions *)

Section Arena.
Context (start : Z).

Definition fits (e : Z) (x : block) : Prop := start <= x.1 /\ top x <= e /\ 16 <= x.2 /\ x.1 mod 8 = 0 /\ x.2 mod 8 = 0.

(** The blocks of [l] fill the heap from [start] to [e]. *)
Definition parts (e : Z) (l : list block) : Prop :=
  Forall (fits e) l /\ ForallOrdPairs disj l /\ total l = e - start.

Definition gap (x y : block) : Prop := top x < y.1.

Definition arena (e : Z) (F U : list block) : Prop := parts e (F ++ U) /\ StronglySorted gap F.

Lemma total_app (l l' : list block) : total (l ++ l') = total l + total l'.
Proof. induction l as [|x l IH]; simpl; lia. Qed.

Lemma total_perm (l l' : list block) : l ≡ₚ l' -> total l = total l'.
Proof. induction 1; simpl; lia. Qed.

Lemma disj_sym (x y : block) : disj x y -> disj y x.
Proof. unfold disj. tauto. Qed.

Lemma pairs_perm (l l' : list block) : l ≡ₚ l' -> ForallOrdPairs disj l -> ForallOrdPairs disj l'.
Proof.
  induction 1 as [|x l l' Hp IH|x y l|l l' l'' Hp IH Hp' IH']; intros H; [constructor| | |by apply IH', IH].
  - inversion_clear H as [|? ? Hx Hl]. constructor; [by rewrite <- Hp|by apply IH].
  - inversion_clear H as [|? ? Hx Hl]. inversion_clear Hl as [|? ? Hy Hl']. inversion_clear Hx as [|? ? Hxy Hx'].
    constructor; [constructor; [by apply disj_sym|done]|by constructor].
Qed.

#[global] Instance pairs_proper : Proper ((≡ₚ) ==> iff) (ForallOrdPairs disj).
Proof. intros l l' Hp. split; apply pairs_perm; [done|by symmetry]. Qed.

#[global] Instance total_proper : Proper ((≡ₚ) ==> (=)) total.
Proof. intros l l'. apply total_perm. Qed.

#[global] Instance parts_perm : Proper ((=) ==> (≡ₚ) ==> iff) parts.
Proof. intros e ? <- l l' Hp. unfold parts. by rewrite Hp. Qed.

Lemma parts_cons (e : Z) (x : block) (l : list block) : parts e (x :: l) ->
  fits e x /\ Forall (disj x) l /\ Forall (fits e) l /\ ForallOrdPairs disj l.
Proof. intros (Hf & Hd & _). inversion_clear Hf. inversion_clear Hd. done. Qed.

(** Replacing the first block by one with the same place for the others. *)
Lemma parts_split (e r : Z) (x : block) (l : list block) :
  parts e (x :: l) -> 16 <= r -> r + 16 <= x.2 -> r mod 8 = 0 -> parts e ((x.1, r) :: (x.1 + r, x.2 - r) :: l).
Proof.
  intros Hp Hr Hx Ha. pose proof Hp as (_ & _ & Ht). apply parts_cons in Hp as (Hf & Hd & Hfl & Hdl).
  unfold fits, top in Hf. simpl in *. assert ((x.2 - r) mod 8 = 0) by (rewrite Zminus_mod; destruct Hf as (_ & _ & _ & _ & ->); by rewrite Ha).
  assert ((x.1 + r) mod 8 = 0) by (rewrite Z.add_mod by lia; destruct Hf as (_ & _ & _ & -> & _); by rewrite Ha).
  split; [|split].
  - repeat constructor; [unfold fits, top; simpl; lia..|done].
  - constructor; [|constructor; [|done]]; repeat constructor; unfold disj, top in *; simpl in *; [lia| |];
      (eapply Forall_impl; [exact Hd|]; simpl; unfold disj, top; simpl; intros; lia).
  - simpl. lia.
Qed.

Lemma parts_join (e : Z) (x y : block) (l : list block) :
  parts e (x :: y :: l) -> top x = y.1 -> parts e ((x.1, x.2 + y.2) :: l).
Proof.
  intros Hp Ht. pose proof Hp as (_ & _ & Htot). apply parts_cons in Hp as (Hf & Hd & Hfl & Hdl).
  inversion_clear Hd as [|? ? Hxy Hx]. inversion_clear Hfl as [|? ? Hy Hl]. inversion_clear Hdl as [|? ? Hyl Hdl'].
  unfold fits, top in *. simpl in *.
  assert ((x.2 + y.2) mod 8 = 0) by (rewrite Z.add_mod by lia; destruct Hf as (_ & _ & _ & _ & ->); by destruct Hy as (_ & _ & _ & _ & ->)).
  split; [|split].
  - constructor; [unfold fits, top; simpl; lia|done].
  - constructor; [|done]. rewrite Forall_forall in *. intros z Hz. specialize (Hx z Hz). specialize (Hyl z Hz).
    specialize (Hl z Hz). unfold disj, top in *. simpl in *. lia.
  - simpl. lia.
Qed.

Lemma fits_weaken (e e' : Z) (l : list block) : e <= e' -> Forall (fits e) l -> Forall (fits e') l.
Proof. intros He H. eapply Forall_impl; [exact H|]. intros x. unfold fits. simpl. lia. Qed.

(** A new block at the end. *)
Lemma parts_extend (e r : Z) (l : list block) :
  parts e l -> start <= e -> e mod 8 = 0 -> 16 <= r -> r mod 8 = 0 -> parts (e + r) ((e, r) :: l).
Proof.
  intros (Hf & Hd & Ht) Hs He Hr Ha. split; [|split; [|simpl; lia]].
  - constructor; [unfold fits, top; simpl; lia|]. by apply (fits_weaken e); [lia|].
  - constructor; [|done]. eapply Forall_impl; [exact Hf|]. unfold fits, disj, top. simpl. intros; lia.
Qed.

(** The block at the end grows. *)
Lemma parts_grow (e r : Z) (x : block) (l : list block) :
  parts e (x :: l) -> e = top x -> x.2 <= r -> r mod 8 = 0 -> parts (x.1 + r) ((x.1, r) :: l).
Proof.
  intros Hp -> Hr Ha. pose proof Hp as (_ & _ & Ht). apply parts_cons in Hp as (Hf & Hd & Hfl & Hdl).
  unfold fits, top in Hf. split; [|split; [|unfold top in *; simpl in *; lia]].
  - constructor; [unfold fits, top; simpl; lia|]. eapply fits_weaken; [|exact Hfl]. unfold top. lia.
  - constructor; [|done]. rewrite Forall_forall in *. intros z Hz. specialize (Hd z Hz). specialize (Hfl z Hz).
    unfold fits, disj, top in *. simpl in *. lia.
Qed.

Lemma end_aligned (e : Z) (l : list block) : parts e l -> start mod 8 = 0 -> e mod 8 = 0 /\ start <= e.
Proof.
  intros (Hf & _ & Ht) Hs. replace e with (start + total l) by lia. clear Ht.
  induction Hf as [|x l Hx Hl IH]; simpl; [rewrite Z.add_0_r; split; [done|lia]|]. destruct IH as [IHa IHs].
  unfold fits, top in Hx. split; [|lia]. replace (start + (x.2 + total l)) with (x.2 + (start + total l)) by lia.
  rewrite Z.add_mod by lia. destruct Hx as (_ & _ & _ & _ & ->). by rewrite IHa.
Qed.

(** ** Allocation *)

Lemma arena_cons (e : Z) (x : block) (F U : list block) : arena e (x :: F) U ->
  arena e F (x :: U) /\ Forall (gap x) F.
Proof.
  intros [Hp Hs]. inversion_clear Hs as [|? ? Hs' Hx]. split; [|done]. split; [|done].
  by rewrite <- Permutation_middle.
Qed.

Lemma arena_uncons (e : Z) (x : block) (F U : list block) : arena e F (x :: U) -> Forall (gap x) F -> arena e (x :: F) U.
Proof. intros [Hp Hs] Hx. split; [|by constructor]. by rewrite <- Permutation_middle in Hp. Qed.

(** A list from which every block starts at or behind one of [F]. *)
Definition above (F F' : list block) : Prop := Forall (fun y => exists x, x ∈ F /\ x.1 <= y.1) F'.

Lemma above_gap (x : block) (F F' : list block) : above F F' -> Forall (gap x) F -> Forall (gap x) F'.
Proof.
  intros Ha Hx. rewrite Forall_forall in Hx. eapply Forall_impl; [exact Ha|]. intros y (z & Hz & Hle).
  specialize (Hx z Hz). unfold gap in *. simpl. lia.
Qed.

Lemma above_refl (F : list block) : above F F.
Proof. apply Forall_forall. intros y Hy. exists y. split; [done|lia]. Qed.

Lemma alloc_above (limit r e : Z) (F : list block) : forall y F' e', 0 <= r -> alloc limit r e F = Some (y, F', e') -> above F F'.
Proof.
  induction F as [|x F IH]; intros y F' e' Hr Ha; simpl in Ha.
  - case_match; simplify_eq. constructor.
  - assert (forall z, above F z -> above (x :: F) z) as Hw.
    { intros z Hz. eapply Forall_impl; [exact Hz|]. intros a (b & Hb & Hle). exists b. set_solver. }
    repeat case_match; simplify_eq.
    + apply Hw, above_refl.
    + constructor; [exists x; simpl; split; [set_solver|lia]|apply Hw, above_refl].
    + constructor.
    + destruct (alloc limit r e F) as [[[y' F''] e'']|] eqn:E; [|done]. simpl in Ha. simplify_eq.
      constructor; [exists x; split; [set_solver|lia]|]. by eapply Hw, IH.
Qed.

(** What allocation gives: a block of the size asked for (or a little more)
    that was free, and a heap still in order. *)
Lemma alloc_arena (limit r e : Z) (F : list block) : forall U y F' e',
  start mod 8 = 0 -> 16 <= r -> r mod 8 = 0 -> arena e F U -> alloc limit r e F = Some (y, F', e') ->
  arena e' F' (y :: U) /\ r <= y.2 < r + 16 /\ e <= e' /\ (e' = e \/ e' + 32 <= limit).
Proof.
  induction F as [|x F IH]; intros U y F' e' Hs Hr Ha Har Hal; simpl in Hal.
  - case_match eqn:E; simplify_eq. apply Z.leb_le in E. destruct Har as [Hp _].
    destruct (end_aligned e _ Hp Hs). simpl. split; [|lia]. split; [by apply parts_extend|constructor].
  - destruct (Z.leb_spec r x.2) as [Hle|Hgt].
    + apply arena_cons in Har as [[Hp Hss] Hx]. destruct (Z.ltb_spec x.2 (r + 16)); simplify_eq; simpl; (split; [|lia]).
      * split; [done|done].
      * split; [|constructor; [done|]].
        -- rewrite <- Permutation_middle in Hp. apply (parts_split _ r) in Hp; [|lia..].
           eapply parts_perm; [done| |exact Hp]. solve_Permutation.
        -- eapply Forall_impl; [exact Hx|]. unfold gap, top. simpl. intros; lia.
    + destruct (bool_decide (F = []) && (e =? top x)) eqn:Eb.
      * apply andb_true_iff in Eb as [->%bool_decide_eq_true ->%Z.eqb_eq]. case_match eqn:E; simplify_eq. apply Z.leb_le in E.
        destruct Har as [Hp _]. simpl in Hp |- *. split; [|unfold top in *; lia]. split; [|constructor]. simpl.
        by eapply parts_grow; [exact Hp|done|lia|done].
      * clear Eb. destruct (alloc limit r e F) as [[[y' F''] e'']|] eqn:E; [|done]. simpl in Hal. simplify_eq.
        apply arena_cons in Har as [Har Hx]. destruct (IH (x :: U) _ _ _ Hs Hr Ha Har eq_refl) as (Har' & Hrest).
        split; [|done]. apply arena_uncons; [|eapply above_gap; [by eapply alloc_above; [|exact E]; lia|done]].
        destruct Har' as [Hp' Hs']. split; [|done]. eapply parts_perm; [done| |exact Hp']. solve_Permutation.
Qed.

(** ** Release *)

Lemma above_sub (F F' : list block) : F' ⊆ F -> above F F'.
Proof. intros Hs. apply Forall_forall. intros y Hy. exists y. split; [by apply Hs|lia]. Qed.

Lemma above_cons (F F' : list block) (x y : block) : x ∈ F -> x.1 <= y.1 -> above F F' -> above F (y :: F').
Proof. intros Hx Hle HF. constructor; [by exists x|done]. Qed.

Lemma above_mono (F G F' : list block) : F ⊆ G -> above F F' -> above G F'.
Proof. intros Hs H. eapply Forall_impl; [exact H|]. intros a (b & Hb & Hle). exists b. split; [by apply Hs|done]. Qed.

Lemma release_above (x : block) (F : list block) : above (x :: F) (release x F).
Proof.
  induction F as [|y F IH]; simpl; [apply above_sub; set_solver|].
  repeat case_match; subst.
  1-3: apply (above_cons _ _ y); [set_solver|simpl; lia|apply above_sub; set_solver].
  1-2: apply (above_cons _ _ x); [set_solver|simpl; lia|apply above_sub; set_solver].
  apply (above_cons _ _ y); [set_solver|lia|]. eapply above_mono; [|exact IH]. set_solver.
Qed.

(** Two free blocks of the heap: where one is, the other is not. *)
Lemma gap_or (e : Z) (x y : block) : disj x y -> fits e x -> fits e y -> top x <> y.1 -> top y <> x.1 -> gap x y \/ gap y x.
Proof. unfold disj, fits, gap, top. lia. Qed.

Lemma release_arena (e : Z) (x : block) (F : list block) : forall U, arena e F (x :: U) -> arena e (release x F) U.
Proof.
  induction F as [|y F IH]; intros U Har; simpl.
  - destruct Har as [Hp _]. split; [done|]. repeat constructor.
  - pose proof Har as [Hp Hs]. inversion_clear Hs as [|? ? Hs' Hy].
    assert (parts e (y :: x :: F ++ U)) as Hp' by (eapply parts_perm; [done| |exact Hp]; solve_Permutation).
    pose proof (parts_cons _ _ _ Hp') as (Hfy & Hdy & Hfl & Hdl). inversion_clear Hdy as [|? ? Hyx Hdy'].
    inversion_clear Hfl as [|? ? Hfx Hfl']. inversion_clear Hdl as [|? ? Hdx _]. 
    destruct (Z.eqb_spec (top y) x.1) as [Hyx1|Hyx1].
    + apply parts_join in Hp'; [|done]. destruct F as [|z F]; [split; [done|repeat constructor]|].
      inversion_clear Hs' as [|? ? Hs'' Hz]. inversion_clear Hy as [|? ? Hyz Hy'].
      simpl in Hfl', Hdx. inversion_clear Hfl' as [|? ? Hfz _]. inversion_clear Hdx as [|? ? Hxz _].
      unfold fits, disj, gap, top in *. destruct (Z.eqb_spec (x.1 + x.2) z.1) as [Hxz1|Hxz1].
      * split; [apply (parts_join e _ z) in Hp'; [done|unfold top; simpl; lia]|]. constructor; [done|].
        eapply Forall_impl; [exact Hz|]. unfold gap, top. simpl. intros. lia.
      * split; [done|]. constructor; [by constructor|]. constructor; [unfold gap, top; simpl; lia|].
        eapply Forall_impl; [exact Hz|]. unfold gap, top. simpl. intros. lia.
    + destruct (Z.eqb_spec y.1 (top x)) as [Hxy1|Hxy1].
      * split; [|constructor; [done|]].
        -- apply (parts_join e x y); [|done]. eapply parts_perm; [done| |exact Hp']. solve_Permutation.
        -- eapply Forall_impl; [exact Hy|]. unfold gap, top in *. simpl. intros. lia.
      * destruct (gap_or e x y) as [Hg|Hg]; [by apply disj_sym|done|done|congruence|done| |].
        -- rewrite (proj2 (Z.ltb_lt x.1 y.1)) by (unfold gap, fits, top in *; lia).
           apply arena_uncons; [done|]. constructor; [done|]. eapply Forall_impl; [exact Hy|].
           unfold gap, top, fits in *. simpl. intros. lia.
        -- rewrite (proj2 (Z.ltb_ge x.1 y.1)) by (unfold gap, fits, top in *; lia).
           apply arena_uncons.
           ++ apply IH. split; [|done]. eapply parts_perm; [done| |exact Hp']. solve_Permutation.
           ++ eapply above_gap; [apply release_above|]. by constructor.
Qed.

(** ** An arena without a block in use *)

Lemma sorted_total (e : Z) (x : block) (F : list block) : StronglySorted gap (x :: F) -> Forall (fits e) (x :: F) ->
  total (x :: F) <= e - x.1 /\ (F <> [] -> total (x :: F) < e - x.1).
Proof.
  revert x. induction F as [|y F IH]; intros x Hs Hf; inversion_clear Hf as [|? ? Hx Hf'].
  - simpl. unfold fits, top in Hx. split; [lia|done].
  - inversion_clear Hs as [|? ? Hs' Hg]. inversion_clear Hg as [|? ? Hxy _]. destruct (IH y Hs' Hf') as [Hle _].
    unfold gap, fits, top in *. cbn [total] in *. split; intros; lia.
Qed.

(** The free blocks have joined: there is at most one. *)
Lemma arena_unused (e : Z) (F : list block) : arena e F [] -> (F = [] /\ e = start) \/ F = [(start, e - start)].
Proof.
  intros [(Hf & _ & Ht) Hs]. rewrite app_nil_r in *. destruct F as [|x F]; [left; simpl in Ht; split; [done|lia]|]. right.
  destruct (sorted_total e x F Hs Hf) as [_ Hlt]. inversion_clear Hf as [|? ? Hx _]. unfold fits, top in Hx.
  destruct F as [|y F]; [|specialize (Hlt ltac:(done)); lia]. destruct x as [b n]. simpl in *. do 2 f_equal; lia.
Qed.
End Arena.
End Arena.
