(* ===== verification/MallocSpec.v ===== *)
(** * The allocator implements the abstract allocator

    The words of the heap and the free list threaded through it ([seg]), the
    relation [rep] between a heap and a partition of it into free and used
    blocks, and the simulations: [malloc] does what [Arena.alloc] does and
    [free] what [Arena.release] does, without touching a block in use. *)

From S2P Require Import Prelude LibC LibCSpec Malloc MallocArena.

Module MallocSpec.
Import LibCSpec Malloc Arena.

(** ** Words *)

Lemma le_val_split (n : nat) : forall v, 0 <= v < 256 ^ Z.of_nat n -> le_val (le_split n v) = v.
Proof.
  induction n as [|n IH]; intros v Hv; [simpl in *; lia|]. cbn [le_split le_val].
  rewrite Nat2Z.inj_succ, Z.pow_succ_r in Hv by lia. rewrite IH.
  - pose proof (Z.div_mod v 256). lia.
  - split; [apply Z.div_pos; lia|]. apply Z.div_lt_upper_bound; lia.
Qed.

Lemma le_split_bytes (n : nat) : forall v, Forall (in_u 8) (le_split n v).
Proof. induction n as [|n IH]; intros v; constructor; [|done]. apply Z.mod_pos_bound. lia. Qed.

Lemma length_le_split (n : nat) : forall v, length (le_split n v) = n.
Proof. induction n as [|n IH]; intros v; simpl; [done|]. by rewrite IH. Qed.

(** [m'] is [m] with bytes written from [p] on. *)
Definition changed (p n : Z) (m m' : mem) : Prop :=
  (forall a, ~ (p <= a < p + n) -> m' !! a = m !! a) /\ (forall a, is_Some (m !! a) -> is_Some (m' !! a)).

Lemma stbs_ok (l : list Z) : forall m p, 0 <= p -> p + Z.of_nat (length l) < 2 ^ 64 -> mapped m p (Z.of_nat (length l)) ->
  Forall (in_u 8) l -> exists m', stbs m p l = Ok m' /\ holds m' p l /\ changed p (Z.of_nat (length l)) m m'.
Proof.
  induction l as [|b l IH]; intros m p Hp Ht Hm Hl.
  - exists m. split_and!; [done|by intros ? ? ?|split; [done|done]].
  - simpl length in *. inversion_clear Hl as [|? ? Hb Hl']. cbn [stbs]. unfold stb.
    destruct (Hm 0 ltac:(lia)) as [c Hc]. rewrite Z.add_0_r in Hc. rewrite Hc. cbn [mbind outcome_bind].
    rewrite (uwrap_small 64) by (unfold in_u; lia). rewrite (uwrap_small 8) by done.
    destruct (IH (<[p := b]> m) (p + 1)) as (m' & E & Hh & Hf & Hk); [lia|lia| |done|].
    { intros i Hi. rewrite lookup_insert_ne by lia. replace (p + 1 + i) with (p + (i + 1)) by lia. apply Hm. lia. }
    exists m'. split_and!; [done| |].
    + apply holds_cons. split; [|done]. rewrite Hf by lia. by rewrite lookup_insert_eq.
    + split.
      * intros a Ha. rewrite Hf by lia. by rewrite lookup_insert_ne by lia.
      * intros a Ha. apply Hk. destruct (decide (a = p)) as [-> |]; [rewrite lookup_insert_eq; eauto|by rewrite lookup_insert_ne].
Qed.

Lemma ldbs_same (n : nat) : forall m m' p, 0 <= p -> p + Z.of_nat n < 2 ^ 64 ->
  (forall a, p <= a < p + Z.of_nat n -> m' !! a = m !! a) -> ldbs m' p n = ldbs m p n.
Proof.
  induction n as [|n IH]; intros m m' p Hp Ht Hs; [done|]. cbn [ldbs]. unfold ldb. rewrite Hs by lia.
  destruct (m !! p); [|done]. cbn [of_option mbind outcome_bind]. rewrite (uwrap_small 64) by (unfold in_u; lia).
  by rewrite (IH m m') by (try intros; try apply Hs; lia).
Qed.

Lemma ldw_same (m m' : mem) (p : Z) : 0 <= p -> p + 8 < 2 ^ 64 ->
  (forall a, p <= a < p + 8 -> m' !! a = m !! a) -> ldw m' p = ldw m p.
Proof. intros Hp Ht Hs. unfold ldw. case_match; [|done]. by rewrite (ldbs_same 8 m m'). Qed.

Lemma ldw_apart (p q n : Z) (m m' : mem) : changed p n m m' -> 0 <= q -> q + 8 < 2 ^ 64 -> q + 8 <= p \/ p + n <= q -> ldw m' q = ldw m q.
Proof. intros [Hf _] Hq Ht Hd. apply ldw_same; [done|done|]. intros a Ha. apply Hf. lia. Qed.

(** Storing a word. *)
Lemma store_ok (p v : Z) (h : heap) : 0 <= p -> p + 8 < 2 ^ 64 -> p mod 8 = 0 -> mapped (hmem h) p 8 -> in_u 64 v ->
  exists m', store p v h = Ok (tt, set_hmem m' h) /\ ldw m' p = Ok v /\ changed p 8 (hmem h) m'.
Proof.
  intros Hp Ht Ha Hm Hv. pose proof (length_le_split 8 v) as Hl.
  destruct (stbs_ok (le_split 8 v) (hmem h) p) as (m' & E & Hh & Hc); [done|by rewrite Hl|by rewrite Hl|apply le_split_bytes|].
  exists m'. rewrite Hl in Hc. split_and!; [|rewrite (ldw_holds m' p (le_split 8 v)); [|done..]|done].
  - unfold store, mbind, ST_bind, st_get, lift, st_put, stw, WORD. rewrite Ha. simpl Z.eqb. cbv iota. by rewrite E.
  - f_equal. apply le_val_split. exact Hv.
Qed.

Lemma load_ok (p v : Z) (h : heap) : ldw (hmem h) p = Ok v -> load p h = Ok (v, h).
Proof. intros E. unfold load, mbind, ST_bind, st_get, lift. by rewrite E. Qed.

Lemma set_hmem_twice (m m' : mem) (h : heap) : set_hmem m (set_hmem m' h) = set_hmem m h.
Proof. done. Qed.

(** ** Blocks and the free list *)

(** The address lies in a block of the list. *)
Definition inside (L : list block) (a : Z) : Prop := Exists (fun x => x.1 <= a < top x) L.

Definition apart (L L' : list block) : Prop := forall a, inside L a -> inside L' a -> False.

(** Only blocks of [L] were written. *)
Definition touched (L : list block) (m m' : mem) : Prop :=
  (forall a, ~ inside L a -> m' !! a = m !! a) /\ (forall a, is_Some (m !! a) -> is_Some (m' !! a)).

Lemma touched_refl (L : list block) (m : mem) : touched L m m.
Proof. done. Qed.

Lemma inside_mono (L L' : list block) (a : Z) : L ⊆ L' -> inside L a -> inside L' a.
Proof. unfold inside. rewrite !Exists_exists. intros Hs (x & Hx & Ha). exists x. split; [by apply Hs|done]. Qed.

Lemma touched_mono (L L' : list block) (m m' : mem) : L ⊆ L' -> touched L m m' -> touched L' m m'.
Proof. intros Hs [Hf Hk]. split; [|done]. intros a Ha. apply Hf. by intros Hi%(inside_mono _ L'). Qed.

Lemma touched_trans (L : list block) (m1 m2 m3 : mem) : touched L m1 m2 -> touched L m2 m3 -> touched L m1 m3.
Proof. intros [F1 K1] [F2 K2]. split; [|by intros; apply K2, K1]. intros a Ha. by rewrite F2, F1. Qed.

Lemma changed_touched (L : list block) (x : block) (p n : Z) (m m' : mem) :
  changed p n m m' -> x ∈ L -> x.1 <= p -> p + n <= top x -> touched L m m'.
Proof.
  intros [Hf Hk] Hx Hp Ht. split; [|done]. intros a Ha. apply Hf. intros Hi. apply Ha, Exists_exists. exists x. split; [done|lia].
Qed.

Lemma touched_mapped (L : list block) (m m' : mem) (p n : Z) : touched L m m' -> mapped m p n -> mapped m' p n.
Proof. intros [_ Hk] Hm i Hi. by apply Hk, Hm. Qed.

Lemma pairs_apart (L L' R : list block) : ForallOrdPairs disj ((L ++ L') ++ R) -> apart L L'.
Proof.
  intros Hd a. unfold inside. rewrite !Exists_exists. intros (x & Hx & Hax) (y & Hy & Hay).
  apply list_elem_of_split in Hx as (l1 & l2 & ->).
  assert (((l1 ++ x :: l2) ++ L') ++ R ≡ₚ x :: ((l1 ++ l2) ++ L') ++ R) as Hp by solve_Permutation. rewrite Hp in Hd.
  inversion_clear Hd as [|? ? Hxl _]. rewrite Forall_forall in Hxl. specialize (Hxl y ltac:(set_solver)). unfold disj in Hxl. lia.
Qed.

Lemma apart_sym (L L' : list block) : apart L L' -> apart L' L.
Proof. intros H a Ha Hb. by eapply H. Qed.

Lemma apart_mono (L L' M M' : list block) : L ⊆ M -> L' ⊆ M' -> apart M M' -> apart L L'.
Proof. intros H H' Ha a Hi Hi'. by eapply (Ha a); eapply inside_mono. Qed.

(** From [p] the free list runs through the blocks [F] and on to [q]. *)
Fixpoint seg (m : mem) (p : Z) (F : list block) (q : Z) : Prop :=
  match F with
  | [] => p = q
  | x :: F => p = x.1 /\ ldw m x.1 = Ok x.2 /\ exists nx, ldw m (x.1 + 8) = Ok nx /\ seg m nx F q
  end.

Definition headers (m : mem) (U : list block) : Prop := Forall (fun x => ldw m x.1 = Ok x.2) U.

Lemma seg_app (m : mem) (F F' : list block) : forall p q, seg m p (F ++ F') q <-> exists r, seg m p F r /\ seg m r F' q.
Proof. induction F as [|x F IH]; intros p q; simpl; [naive_solver|]. setoid_rewrite IH. naive_solver. Qed.

Section Heap.
Context (start hi : Z) (Hstart : 16 <= start) (Halign : start mod 8 = 0) (Hhi : hi + 16 < 2 ^ 64).

(** The block is in the heap. *)
Abbreviation ok := (fits start hi).

Lemma ok_next (x : block) : ok x -> next_field x.1 = x.1 + 8 /\ (x.1 + 8) mod 8 = 0.
Proof.
  unfold fits, top, next_field, SIZEOF_SIZE. intros Hx. split; [apply uwrap_small; unfold in_u; lia|].
  rewrite Z.add_mod by lia. by destruct Hx as (_ & _ & _ & -> & _).
Qed.

Lemma ldw_touched (L : list block) (m m' : mem) (x : block) (p : Z) :
  touched L m m' -> apart L [x] -> ok x -> x.1 <= p -> p + 8 <= top x -> ldw m' p = ldw m p.
Proof.
  intros [Hf _] Ha Hx Hp Ht. unfold fits in Hx. apply ldw_same; [lia|lia|]. intros a Hi. apply Hf. intros HL. apply (Ha a HL).
  apply Exists_exists. exists x. split; [set_solver|lia].
Qed.

Lemma headers_touched (L U : list block) (m m' : mem) : touched L m m' -> apart L U -> Forall ok U -> headers m U -> headers m' U.
Proof.
  intros Ht Ha Hok. unfold headers. rewrite !Forall_forall in *. intros H x Hx. rewrite <- (H x Hx). specialize (Hok x Hx).
  apply (ldw_touched L _ _ x); [done|eapply apart_mono; [done| |exact Ha]; set_solver|done|lia|unfold fits, top in *; lia].
Qed.

Lemma seg_touched (L F : list block) (m m' : mem) : forall p q,
  touched L m m' -> apart L F -> Forall ok F -> seg m p F q -> seg m' p F q.
Proof.
  induction F as [|x F IH]; intros p q Ht Ha Hok Hs; [done|]. inversion_clear Hok as [|? ? Hx Hok']. simpl in *.
  destruct Hs as (-> & Hn & nx & Hnx & Hs). assert (apart L [x]) as Hax by (eapply apart_mono; [done| |exact Ha]; set_solver).
  split; [done|]. pose proof Hx as Hx'. unfold fits, top in Hx'.
  rewrite !(ldw_touched L m m' x) by (done || unfold top; lia). split; [done|]. exists nx. split; [done|].
  apply IH; [done| |done|done]. eapply apart_mono; [done| |exact Ha]. set_solver.
Qed.

Lemma seg_head (m : mem) (p : Z) (F : list block) : Forall ok F -> seg m p F 0 -> (p = 0 <-> F = []).
Proof.
  intros Hok. destruct F as [|x F]; simpl; [naive_solver|]. intros (-> & _). inversion_clear Hok as [|? ? Hx _].
  unfold fits in Hx. split; [lia|done].
Qed.

(** A list pointer fits its field. *)
Lemma seg_u64 (m : mem) (p : Z) (F : list block) : Forall ok F -> seg m p F 0 -> in_u 64 p.
Proof.
  intros Hok. destruct F as [|x F]; simpl; [intros ->; unfold in_u; lia|]. intros (-> & _). inversion_clear Hok as [|? ? Hx _].
  unfold fits, top, in_u in *. lia.
Qed.

(** The field that points behind the prefix [F] of the free list. *)
Definition link_of (F : list block) : link := match last F with Some x => Next x.1 | None => Root end.

Lemma link_of_snoc (F : list block) (x : block) : link_of (F ++ [x]) = Next x.1.
Proof. unfold link_of. by rewrite last_snoc. Qed.

Lemma deref_ok (F : list block) (q : Z) (h : heap) : Forall ok F -> seg (hmem h) (malloc_freelist h) F q -> deref (link_of F) h = Ok (q, h).
Proof.
  destruct F as [|x F _] using rev_ind; intros Hok Hs; [simpl in Hs; by rewrite <- Hs|].
  rewrite link_of_snoc. apply seg_app in Hs as (r & _ & -> & _ & nx & Hnx & <-).
  apply Forall_app in Hok as [_ Hx]. inversion_clear Hx as [|? ? Hx' _]. unfold deref, get_next.
  rewrite (proj1 (ok_next x Hx')). by apply load_ok.
Qed.

(** The heap is mapped. *)
Abbreviation backed m := (mapped m start (hi - start)).

Lemma backed_word (m : mem) (x : block) (p : Z) : backed m -> ok x -> x.1 <= p -> p + 8 <= top x -> mapped m p 8.
Proof. intros Hm Hx Hp Ht i Hi. unfold fits in Hx. replace (p + i) with (start + (p + i - start)) by lia. apply Hm. lia. Qed.

(** Storing a word of a block. *)
Lemma store_in (L : list block) (x : block) (p v : Z) (h : heap) :
  backed (hmem h) -> x ∈ L -> ok x -> x.1 <= p -> p + 8 <= top x -> p mod 8 = 0 -> in_u 64 v ->
  exists m', store p v h = Ok (tt, set_hmem m' h) /\ ldw m' p = Ok v /\ changed p 8 (hmem h) m' /\ touched L (hmem h) m'.
Proof.
  intros Hm HL Hx Hp Ht Ha Hv. pose proof Hx as Hx'. unfold fits in Hx'.
  destruct (store_ok p v h) as (m' & E & Hw & Hc); [lia|lia|done|by eapply backed_word|done|].
  exists m'. split_and!; [done|done|done|by eapply changed_touched].
Qed.

Lemma assign_ok (F : list block) (q v : Z) (h : heap) :
  Forall ok F -> ForallOrdPairs disj F -> backed (hmem h) -> in_u 64 v -> seg (hmem h) (malloc_freelist h) F q ->
  exists h', assign (link_of F) v h = Ok (tt, h') /\ malloc_end h' = malloc_end h /\ seg (hmem h') (malloc_freelist h') F v /\
    touched F (hmem h) (hmem h').
Proof.
  destruct F as [|x F _] using rev_ind; intros Hok Hd Hm Hv Hs; [by exists (set_freelist v h)|].
  rewrite link_of_snoc. pose proof Hok as Hok'. apply Forall_app in Hok' as [HF Hx]. inversion_clear Hx as [|? ? Hx' _].
  destruct (ok_next x Hx') as [En Ea]. pose proof Hx' as Hx. unfold fits, top in Hx. unfold assign, set_next. rewrite En.
  destruct (store_in [x] x (x.1 + 8) v h) as (m' & E & Hw & Hc & Ht); [done|set_solver|done|lia|unfold top; lia|done|done|].
  exists (set_hmem m' h). split_and!; [done|done| |eapply touched_mono; [|exact Ht]; set_solver].
  apply seg_app in Hs as (r & Hs & -> & Hn & _). apply seg_app. exists x.1. simpl. split_and!.
  - eapply seg_touched; [exact Ht| |done|done]. apply apart_sym, (pairs_apart _ _ []). by rewrite app_nil_r.
  - done.
  - by rewrite (ldw_apart (x.1 + 8) x.1 8 (hmem h) m') by (done || lia).
  - by exists v.
Qed.

(** ** The representation *)

(** [h] is a heap with the free blocks [F], in this order, and the blocks
    [U] in use. *)
Definition rep (h : heap) (F U : list block) : Prop :=
  arena start (malloc_end h) F U /\ malloc_end h <= hi /\ backed (hmem h) /\
  seg (hmem h) (malloc_freelist h) F 0 /\ headers (hmem h) U.

Lemma rep_ok (h : heap) (F U : list block) : rep h F U -> Forall ok F /\ Forall ok U.
Proof. intros ([(Hf & _) _] & He & _). apply Forall_app. by eapply fits_weaken. Qed.

Lemma rep_apart (h : heap) (F U L L' : list block) : rep h F U -> (exists R, F ++ U ≡ₚ (L ++ L') ++ R) -> apart L L'.
Proof. intros ([(Hf & Hd & Ht) _] & _) [R HR]. rewrite HR in Hd. by eapply pairs_apart. Qed.

Lemma rep_pairs (h : heap) (F1 F2 U : list block) : rep h (F1 ++ F2) U -> ForallOrdPairs disj F1.
Proof.
  intros ([(_ & Hd & _) _] & _). rewrite <- app_assoc in Hd. induction F1 as [|x F1 IH]; [constructor|].
  simpl in Hd. inversion_clear Hd as [|? ? Hx Hd']. constructor; [by apply Forall_app in Hx as [? _]|by apply IH].
Qed.

(** What a call that takes the block [y] leaves behind. *)
Definition served (h : heap) (F U : list block) (y : block) (F' : list block) (e' : Z) (res : outcome (Z * heap)) : Prop :=
  exists h', res = Ok (y.1 + 8, h') /\ malloc_end h' = e' /\ seg (hmem h') (malloc_freelist h') F' 0 /\
    headers (hmem h') (y :: U) /\ touched (y :: F) (hmem h) (hmem h').

Section Cut.
Context (h : heap) (F1 F2 U : list block) (x : block).
Context (Hrep : rep h (F1 ++ x :: F2) U) (Hseg : seg (hmem h) (malloc_freelist h) F1 x.1).

Lemma cut_ok : Forall ok F1 /\ ok x /\ Forall ok F2 /\ Forall ok U.
Proof. destruct (rep_ok _ _ _ Hrep) as [HF HU]. apply Forall_app in HF as [H1 H2]. by inversion_clear H2. Qed.

Lemma cut_apart : apart F1 [x] /\ apart F1 F2 /\ apart F1 U /\ apart [x] F1 /\ apart [x] F2 /\ apart [x] U.
Proof.
  assert (apart F1 [x]) by (eapply rep_apart; [exact Hrep|]; exists (F2 ++ U); solve_Permutation).
  split_and!; [done| | |by apply apart_sym| |]; (eapply rep_apart; [exact Hrep|]).
  - exists (x :: U). solve_Permutation.
  - exists (x :: F2). solve_Permutation.
  - exists (F1 ++ U). solve_Permutation.
  - exists (F1 ++ F2). solve_Permutation.
Qed.

Lemma cut_seg : seg (hmem h) x.1 (x :: F2) 0.
Proof.
  destruct Hrep as (_ & _ & _ & Hs & _). apply seg_app in Hs as (r & _ & Hs). assert (r = x.1) as -> by apply Hs. done.
Qed.

(** Making the prefix point at [v]. *)
Lemma cut_assign (v : Z) : in_u 64 v -> exists h', assign (link_of F1) v h = Ok (tt, h') /\ malloc_end h' = malloc_end h /\
  seg (hmem h') (malloc_freelist h') F1 v /\ touched F1 (hmem h) (hmem h') /\
  (forall L, Forall ok L -> apart F1 L -> (forall p q, seg (hmem h) p L q -> seg (hmem h') p L q) /\
     (headers (hmem h) L -> headers (hmem h') L)) /\ backed (hmem h').
Proof.
  intros Hv. destruct cut_ok as (H1 & _). destruct Hrep as (Ha & He & Hm & _).
  destruct (assign_ok F1 x.1 v h) as (h' & E & Ee & Hs & Ht); [done|by eapply rep_pairs|done|done|done|].
  exists h'. split_and!; [done|done|done|done| |by eapply touched_mapped].
  intros L HL HA. split; [intros p q; by apply (seg_touched F1)|by apply (headers_touched F1)].
Qed.

Lemma cut_next : exists nx, ldw (hmem h) (x.1 + 8) = Ok nx /\ in_u 64 nx /\ seg (hmem h) nx F2 0.
Proof.
  destruct cut_ok as (_ & _ & H2 & _). destruct cut_seg as (_ & _ & nx & Hnx & Hs2). exists nx. split_and!; [done|by apply (seg_u64 (hmem h) nx F2)|done].
Qed.

Lemma take_whole (r : Z) : r <= x.2 < r + 16 -> 0 <= r ->
  served h (F1 ++ x :: F2) U x (F1 ++ F2) (malloc_end h) (take_block (link_of F1) x.1 x.2 r h).
Proof.
  intros Hr Hr0. destruct cut_ok as (H1 & Hx & H2 & HU). destruct cut_apart as (A1x & A12 & A1U & Ax1 & Ax2 & AxU).
  destruct cut_seg as (_ & Hn & _). destruct cut_next as (nx & Hnx & Hu & Hs2).
  pose proof (ok_next x Hx) as [En _]. pose proof Hx as Hx'. unfold fits, top in Hx'.
  destruct (cut_assign nx Hu) as (h' & E & Ee & Hs & Ht & Hk & _).
  unfold take_block, SIZEOF_ENTRY. rewrite (uwrap_small 64 (r + 16)) by (unfold in_u; lia). rewrite (proj2 (Z.ltb_lt _ _)) by lia.
  exists h'. split_and!; [|done| | |].
  - unfold mbind, ST_bind. unfold get_next. rewrite En, (load_ok _ nx) by done. by rewrite E.
  - apply seg_app. exists nx. split; [done|]. by apply (Hk F2).
  - constructor.
    + rewrite <- Hn. eapply (ldw_touched F1 _ _ x); [done|done|done|lia|unfold top; lia].
    + apply (Hk U); [done|done|]. apply Hrep.
  - eapply touched_mono; [|exact Ht]. set_solver.
Qed.

(** A word of [x] is stored. *)
Lemma cut_store (h' : heap) (p v : Z) : backed (hmem h') -> x.1 <= p -> p + 8 <= top x -> p mod 8 = 0 -> in_u 64 v ->
  exists m', store p v h' = Ok (tt, set_hmem m' h') /\ ldw m' p = Ok v /\ changed p 8 (hmem h') m' /\ touched [x] (hmem h') m' /\ backed m'.
Proof.
  intros Hb Hp Ht Ha Hv. destruct cut_ok as (_ & Hx & _).
  destruct (store_in [x] x p v h') as (m' & E & Hw & Hc & Ht'); [done|set_solver|done|done|done|done|done|].
  exists m'. split_and!; [done..|by eapply touched_mapped].
Qed.

(** Blocks other than [x] keep their words when only [x] is written. *)
Lemma cut_kept (m m' : mem) : touched [x] m m' ->
  (forall p q, seg m p F1 q -> seg m' p F1 q) /\ (forall p q, seg m p F2 q -> seg m' p F2 q) /\ (headers m U -> headers m' U).
Proof.
  intros Ht. destruct cut_ok as (H1 & _ & H2 & HU). destruct cut_apart as (_ & _ & _ & Ax1 & Ax2 & AxU).
  split_and!; [intros p q; by apply (seg_touched [x])..|by apply (headers_touched [x])].
Qed.

Lemma take_split (r : Z) : 16 <= r -> r + 16 <= x.2 -> r mod 8 = 0 ->
  served h (F1 ++ x :: F2) U (x.1, r) (F1 ++ (x.1 + r, x.2 - r) :: F2) (malloc_end h) (take_block (link_of F1) x.1 x.2 r h).
Proof.
  intros Hr Hx2 Ha. destruct cut_ok as (_ & Hx & H2 & HU). destruct cut_apart as (A1x & A12 & A1U & _).
  destruct cut_next as (nx & Hnx & Hnu & Hs2). pose proof (ok_next x Hx) as [En _]. pose proof Hx as Hx'. unfold fits, top in Hx'.
  assert ((x.1 + r) mod 8 = 0) as Hra by (rewrite Z.add_mod by lia; destruct Hx' as (_ & _ & _ & -> & _); by rewrite Ha).
  assert (next_field (x.1 + r) = x.1 + r + 8) as Er by (apply uwrap_small; unfold in_u, SIZEOF_SIZE; lia).
  destruct (cut_assign (x.1 + r)) as (h1 & E1 & Ee & S1 & T1 & Hk & B1); [unfold in_u; lia|].
  destruct (cut_store h1 (x.1 + r) (x.2 - r)) as (m2 & E2 & W2 & C2 & T2 & B2); [done|lia|unfold top; lia|done|unfold in_u; lia|].
  destruct (cut_store (set_hmem m2 h1) (x.1 + r + 8) nx) as (m3 & E3 & W3 & C3 & T3 & B3);
    [done|lia|unfold top; lia|rewrite Z.add_mod, Hra by lia; done|done|].
  destruct (cut_store (set_hmem m3 h1) x.1 r) as (m4 & E4 & W4 & C4 & T4 & B4); [done|lia|unfold top; lia|tauto|unfold in_u; lia|].
  simpl in C2, C3, C4, T2, T3, T4.
  assert (touched [x] (hmem h1) m4) as T by (eapply touched_trans; [exact T2|by eapply touched_trans]).
  destruct (cut_kept _ _ T) as (K1 & K2 & KU).
  exists (set_hmem m4 h1). split_and!; [|done| | |].
  - unfold take_block, SIZEOF_ENTRY. rewrite (uwrap_small 64 (r + 16)) by (unfold in_u; lia). rewrite (proj2 (Z.ltb_ge _ _)) by lia.
    rewrite (uwrap_small 64 (x.2 - r)), (uwrap_small 64 (x.1 + r)) by (unfold in_u; lia).
    unfold mbind, ST_bind, get_next, done_, set_size, set_next, mret, ST_ret. rewrite En, Er, (load_ok _ nx) by done. rewrite E1, E2, E3.
    unfold mbind, ST_bind. by rewrite set_hmem_twice, E4.
  - apply seg_app. exists (x.1 + r). split; [by apply K1|]. simpl. split_and!; [done| |].
    + by rewrite (ldw_apart x.1 _ 8 m3 m4), (ldw_apart (x.1 + r + 8) _ 8 m2 m3) by (done || lia).
    + exists nx. split; [by rewrite (ldw_apart x.1 _ 8 m3 m4) by (done || lia)|]. by apply K2, (Hk F2).
  - constructor; [done|]. apply KU, (Hk U); [done|done|]. apply Hrep.
  - eapply touched_trans; [eapply touched_mono; [|exact T1]; set_solver|eapply touched_mono; [|exact T]; set_solver].
Qed.

Lemma enlarge_last (limit r : Z) : malloc_end h + 32 <= limit -> limit <= hi -> malloc_end h = top x -> x.2 < r < 2 ^ 64 ->
  if r - x.2 <=? limit - malloc_end h - 32
  then served h (F1 ++ x :: F2) U (x.1, r) F1 (x.1 + r) (enlarge limit (link_of F1) x.1 x.2 r h)
  else enlarge limit (link_of F1) x.1 x.2 r h = Ok (0, h).
Proof.
  intros Hl Hlh Hend Hr. destruct cut_ok as (_ & Hx & _ & HU). pose proof (ok_next x Hx) as [En _]. pose proof Hx as Hx'. unfold fits, top in Hx'.
  assert (CAN_ALLOC_P limit (u64 (r - x.2)) h = Ok (r - x.2 <=? limit - malloc_end h - 32, h)) as Ec.
  { unfold CAN_ALLOC_P, MALLOC_MINIMUM_GAP, st_gets. by rewrite !(uwrap_small 64) by (unfold in_u, top in *; rewrite ?uwrap_small; unfold in_u; lia). }
  unfold enlarge, mbind, ST_bind. rewrite Ec. destruct (Z.leb_spec (r - x.2) (limit - malloc_end h - 32)) as [Hfit|]; [|done].
  unfold top in Hend. destruct (cut_assign 0) as (h1 & E1 & Ee & S1 & T1 & Hk & B1); [unfold in_u; lia|].
  destruct (cut_store (set_end (x.1 + r) h1) x.1 r) as (m2 & E2 & W2 & C2 & T2 & B2); [done|lia|unfold top; lia|tauto|unfold in_u; lia|].
  simpl in T2. destruct (cut_kept _ _ T2) as (K1 & _ & KU). exists (set_hmem m2 (set_end (x.1 + r) h1)). split_and!.
  - rewrite E1. rewrite (uwrap_small 64 (x.1 + r)) by (unfold in_u; lia).
    unfold st_modify, done_, set_size, mbind, ST_bind. rewrite E2, En. done.
  - done.
  - simpl. by apply K1.
  - constructor; [done|]. simpl. apply KU, (Hk U); [done|apply cut_apart|apply Hrep].
  - simpl. eapply touched_trans; [eapply touched_mono; [|exact T1]; set_solver|eapply touched_mono; [|exact T2]; set_solver].
Qed.
End Cut.

(** ** malloc *)

Lemma fresh_spec (h : heap) (F U : list block) (limit r : Z) :
  rep h F U -> malloc_end h + 32 <= limit -> limit <= hi -> 16 <= r < 2 ^ 64 -> r mod 8 = 0 ->
  if r <=? limit - malloc_end h - 32
  then served h F U (malloc_end h, r) F (malloc_end h + r) (fresh_block limit r h)
  else fresh_block limit r h = Ok (0, h).
Proof.
  intros Hrep Hl Hlh Hr Ha. destruct (rep_ok h F U Hrep) as [HF HU]. pose proof Hrep as ([Hp _] & He & Hm & Hs & Hh).
  destruct (end_aligned start _ _ Hp Halign) as [Hea Hse]. set (e := malloc_end h) in *.
  assert (CAN_ALLOC_P limit r h = Ok (r <=? limit - e - 32, h)) as Ec.
  { unfold CAN_ALLOC_P, MALLOC_MINIMUM_GAP, st_gets. by rewrite !(uwrap_small 64) by (unfold in_u, e in *; rewrite ?uwrap_small; unfold in_u; lia). }
  unfold fresh_block, mbind, ST_bind. rewrite Ec. destruct (Z.leb_spec r (limit - e - 32)) as [Hfit|]; [|done].
  assert (ok (e, r)) as Hok by (unfold fits, top; simpl; lia).
  destruct (store_in [(e, r)] (e, r) e r (set_end (e + r) h)) as (m' & E & W & C & T); [done|set_solver|done|simpl; lia|unfold top; simpl; lia|done|unfold in_u; lia|].
  assert (apart [(e, r)] (F ++ U)) as HA.
  { intros a Hi Hj. unfold inside in *. rewrite Exists_exists in Hj. destruct Hj as (y & Hy & Hay).
    inversion_clear Hi as [? ? Hax|? ? Hn]; [|by inversion Hn]. destruct Hp as (Hf & _). rewrite Forall_forall in Hf. specialize (Hf y Hy).
    unfold fits, top in *. simpl in *. lia. }
  exists (set_hmem m' (set_end (e + r) h)). simpl in *. split_and!; [|done| | |].
  - unfold st_gets, st_modify. fold e. rewrite (uwrap_small 64 (e + r)) by (unfold in_u; lia).
    unfold done_, set_size, mbind, ST_bind. rewrite E. unfold mret, ST_ret, next_field, SIZEOF_SIZE.
    by rewrite uwrap_small by (unfold in_u; lia).
  - eapply (seg_touched [(e, r)]); [exact T|eapply apart_mono; [done| |exact HA]; set_solver|done|done].
  - constructor; [done|]. eapply (headers_touched [(e, r)]); [exact T|eapply apart_mono; [done| |exact HA]; set_solver|done|done].
  - eapply touched_mono; [|exact T]. set_solver.
Qed.

Lemma malloc_loop_spec (limit r : Z) (U : list block) (h : heap) :
  malloc_end h + 32 <= limit -> limit <= hi -> 16 <= r < 2 ^ 64 -> r mod 8 = 0 ->
  forall F2 F1 fuel q, rep h (F1 ++ F2) U -> seg (hmem h) (malloc_freelist h) F1 q -> seg (hmem h) q F2 0 -> (length F2 < fuel)%nat ->
  match alloc limit r (malloc_end h) F2 with
  | Some (y, F', e') => served h (F1 ++ F2) U y (F1 ++ F') e' (malloc_loop fuel limit r (link_of F1) h)
  | None => malloc_loop fuel limit r (link_of F1) h = Ok (0, h)
  end.
Proof.
  intros Hl Hlh Hr Ha. induction F2 as [|x F2 IH]; intros F1 [|fuel] q Hrep S1 S2 Hfuel; [simpl in Hfuel; lia| |simpl in Hfuel; lia|];
    cbn [malloc_loop alloc]; unfold mbind, ST_bind.
  - simpl in S2. subst q. pose proof (rep_ok h _ U Hrep) as [HF _]. rewrite app_nil_r in *. rewrite (deref_ok F1 0) by done. cbv iota beta.
    pose proof (fresh_spec h F1 U limit r Hrep Hl Hlh Hr Ha) as Hfr. simpl Z.eqb. cbv iota.
    destruct (r <=? limit - malloc_end h - 32); [by rewrite app_nil_r|done].
  - pose proof S2 as (-> & Hn & nx & Hnx & S2'). destruct (cut_ok h F1 F2 U x Hrep) as (H1 & Hx & H2 & _).
    pose proof (ok_next x Hx) as [En _]. pose proof Hx as Hx'. unfold fits, top in Hx'.
    rewrite (deref_ok F1 x.1) by done. rewrite (proj2 (Z.eqb_neq x.1 0)) by lia. unfold get_size. rewrite (load_ok _ x.2) by done.
    destruct (Z.leb_spec r x.2) as [Hle|Hgt].
    + destruct (Z.ltb_spec x.2 (r + 16)); [by apply take_whole; try done; lia|by apply take_split; try done; lia].
    + unfold get_next. rewrite En, (load_ok _ nx) by done. unfold st_gets. rewrite (uwrap_small 64 (x.1 + x.2)) by (unfold in_u; lia).
      replace (nx =? 0) with (bool_decide (F2 = [])); last first.
      { pose proof (seg_head _ nx F2 H2 S2'). destruct (Z.eqb_spec nx 0); [by apply bool_decide_eq_true_2; tauto|apply bool_decide_eq_false_2; tauto]. }
      change (x.1 + x.2) with (top x). destruct (bool_decide (F2 = []) && (malloc_end h =? top x)) eqn:Eb.
      * apply andb_true_iff in Eb as [EF%bool_decide_eq_true Ee%Z.eqb_eq].
        pose proof (enlarge_last h F1 F2 U x Hrep S1 limit r Hl Hlh Ee ltac:(lia)) as Hen. destruct (r - x.2 <=? limit - malloc_end h - 32); [|done].
        by rewrite app_nil_r.
      * specialize (IH (F1 ++ [x]) fuel nx). rewrite <- app_assoc, link_of_snoc in IH.
        assert (seg (hmem h) (malloc_freelist h) (F1 ++ [x]) nx) as S1'.
        { apply seg_app. exists x.1. split; [done|]. simpl. split_and!; [done|done|]. by exists nx. }
        specialize (IH Hrep S1' S2' ltac:(simpl in Hfuel; lia)).
        destruct (alloc limit r (malloc_end h) F2) as [[[y F'] e']|]; simpl; [|done]. by rewrite <- app_assoc in IH.
Qed.

(** The fuel is enough: the free blocks are at different mapped addresses. *)
Lemma rep_length (h : heap) (F U : list block) : rep h F U -> (length F < list_fuel h)%nat.
Proof.
  intros Hrep. destruct (rep_ok h F U Hrep) as [HF _]. pose proof Hrep as ([_ Hs] & _ & Hm & _). unfold list_fuel.
  enough (length F <= size (dom (hmem h)))%nat by (rewrite size_dom in *; lia).
  rewrite <- (length_fmap fst F), <- (size_list_to_set (C := gset Z) F.*1).
  - apply subseteq_size. intros a Ha%elem_of_list_to_set. apply list_elem_of_fmap in Ha as (x & -> & Hx). rewrite Forall_forall in HF.
    specialize (HF x Hx). unfold fits, top in HF. apply elem_of_dom. replace x.1 with (start + (x.1 - start)) by lia. apply Hm. lia.
  - clear Hrep Hm. induction Hs as [|x F Hs IH Hx]; simpl; constructor; inversion_clear HF as [|? ? Hfx HF'].
    + intros (y & Hy & Hin)%list_elem_of_fmap. rewrite Forall_forall in Hx. specialize (Hx y Hin). unfold gap, fits, top in *. lia.
    + by apply IH.
Qed.

Lemma real_size_spec (sz : Z) : 0 <= sz <= 2 ^ 64 - 16 ->
  16 <= REAL_SIZE sz < 2 ^ 64 /\ REAL_SIZE sz mod 8 = 0 /\ sz + 8 <= REAL_SIZE sz <= sz + 16.
Proof.
  intros Hsz. unfold REAL_SIZE, SIZEOF_ENTRY, SIZEOF_SIZE. destruct (Z.ltb_spec sz (16 - 8)) as [Hlt|Hge].
  - split_and!; (lia || done).
  - assert (M_ALIGN sz 8 = (- sz) mod 8) as ->.
    { unfold M_ALIGN. change (u64 (8 - 1)) with (WORD - 1). rewrite land7. unfold uwrap. apply Z.mod_mod_divide. by exists (2 ^ 61). }
    pose proof (Z.mod_pos_bound (- sz) 8 ltac:(lia)) as Hb. rewrite !uwrap_small by (unfold in_u; rewrite ?uwrap_small; unfold in_u; lia).
    assert ((sz + 8 + (- sz) mod 8) mod 8 = 0) as Hm by (rewrite Zplus_mod_idemp_r; by replace (sz + 8 + - sz) with (1 * 8) by lia).
    split_and!; [lia|lia|done|lia|].
    destruct (decide ((- sz) mod 8 = 0)); lia.
Qed.

Lemma touched_kept (L U : list block) (m m' : mem) : touched L m m' -> apart L U -> forall a, inside U a -> m' !! a = m !! a.
Proof. intros [Hf _] Ha a Hi. apply Hf. intros HL. by eapply Ha. Qed.

(** [malloc] is [alloc]. *)
Lemma malloc_spec (h : heap) (F U : list block) (limit sz : Z) :
  rep h F U -> 0 <= sz <= 2 ^ 64 - 16 -> malloc_end h + 32 <= limit -> limit <= hi ->
  match alloc limit (REAL_SIZE sz) (malloc_end h) F with
  | Some (y, F', e') => exists h', malloc limit sz h = Ok (y.1 + 8, h') /\ rep h' F' (y :: U) /\ malloc_end h' = e' /\
      (e' = malloc_end h \/ e' + 32 <= limit) /\ sz + 8 <= y.2 /\ forall a, inside U a -> hmem h' !! a = hmem h !! a
  | None => malloc limit sz h = Ok (0, h)
  end.
Proof.
  intros Hrep Hsz Hl Hlh. destruct (real_size_spec sz Hsz) as (Hr & Hra & Hr8). pose proof Hrep as (Har & He & Hm & Hs & Hh).
  pose proof (malloc_loop_spec limit (REAL_SIZE sz) U h Hl Hlh Hr Hra F [] (list_fuel h) _ Hrep eq_refl Hs (rep_length h F U Hrep)) as Hloop.
  unfold malloc, mbind, ST_bind, st_gets. change Root with (link_of []).
  destruct (alloc limit (REAL_SIZE sz) (malloc_end h) F) as [[[y F'] e']|] eqn:Ea; [|done]. destruct Hloop as (h' & E & Ee & S' & H' & T').
  destruct (alloc_arena start limit (REAL_SIZE sz) (malloc_end h) F U y F' e' Halign ltac:(lia) Hra Har Ea) as (Har' & Hy & Hle & Hlim).
  exists h'. split_and!; [done| |done|done|lia|].
  - split_and!; [by rewrite Ee|lia|by eapply touched_mapped|done|done].
  - eapply touched_kept; [exact T'|]. assert (apart [y] U) as A1.
    { destruct Har' as [(_ & Hd & _) _]. eapply (pairs_apart _ _ F'). eapply pairs_perm; [|exact Hd]. solve_Permutation. }
    assert (apart F U) as A2 by (eapply rep_apart; [exact Hrep|]; exists []; solve_Permutation).
    intros a Hi Hj. inversion Hi; subst; [apply (A1 a); [by constructor|done]|by apply (A2 a)].
Qed.

(** ** free *)

Definition freed (h : heap) (L : list block) (F' U : list block) (res : outcome (unit * heap)) : Prop :=
  exists h', res = Ok (tt, h') /\ malloc_end h' = malloc_end h /\ seg (hmem h') (malloc_freelist h') F' 0 /\
    headers (hmem h') U /\ touched L (hmem h) (hmem h').

(** Linking a block whose fields are written behind the prefix [F1]. *)
Lemma relink (h : heap) (F1 G U : list block) (x : block) (q s nx : Z) :
  Forall ok F1 -> ForallOrdPairs disj F1 -> backed (hmem h) -> ok x -> Forall ok G -> Forall ok U ->
  apart F1 [x] -> apart F1 G -> apart F1 U -> seg (hmem h) (malloc_freelist h) F1 q ->
  ldw (hmem h) x.1 = Ok s -> ldw (hmem h) (x.1 + 8) = Ok nx -> seg (hmem h) nx G 0 -> headers (hmem h) U ->
  freed h F1 (F1 ++ (x.1, s) :: G) U (assign (link_of F1) x.1 h).
Proof.
  intros H1 Hd Hm Hx HG HU Ax AG AU S1 Ws Wn SG Hh. pose proof Hx as Hx'. unfold fits, top in Hx'.
  destruct (assign_ok F1 q x.1 h) as (h' & E & Ee & S' & T'); [done|done|done|unfold in_u; lia|done|].
  exists h'. split_and!; [done|done| |by apply (headers_touched F1 U (hmem h))|done].
  apply seg_app. exists x.1. split; [done|]. simpl. split_and!; [done| |].
  - by rewrite (ldw_touched F1 (hmem h) _ x) by (done || unfold top; lia).
  - exists nx. split; [by rewrite (ldw_touched F1 (hmem h) _ x) by (done || unfold top; lia)|]. by apply (seg_touched F1 G (hmem h)).
Qed.

Section Free.
Context (h : heap) (F1 F2 U : list block) (x : block) (q : Z).
Context (Hrep : rep h (F1 ++ F2) (x :: U)) (S1 : seg (hmem h) (malloc_freelist h) F1 q) (S2 : seg (hmem h) q F2 0).

Lemma free_ok : Forall ok F1 /\ Forall ok F2 /\ ok x /\ Forall ok U.
Proof. destruct (rep_ok _ _ _ Hrep) as [HF HU]. apply Forall_app in HF as [H1 H2]. by inversion_clear HU. Qed.

Lemma free_apart : apart F1 [x] /\ apart F1 F2 /\ apart F1 U /\ apart F2 [x] /\ apart F2 U /\ apart [x] U.
Proof.
  split_and!; (eapply rep_apart; [exact Hrep|]).
  - exists (F2 ++ U). solve_Permutation.
  - exists (x :: U). solve_Permutation.
  - exists (x :: F2). solve_Permutation.
  - exists (F1 ++ U). solve_Permutation.
  - exists (x :: F1). solve_Permutation.
  - exists (F1 ++ F2). solve_Permutation.
Qed.

Lemma free_header : ldw (hmem h) x.1 = Ok x.2 /\ headers (hmem h) U.
Proof. destruct Hrep as (_ & _ & _ & _ & Hh). by inversion_clear Hh. Qed.

Lemma link_in_ok : freed h (x :: F1 ++ F2) (F1 ++ x :: F2) U (link_in (link_of F1) x.1 h).
Proof.
  destruct free_ok as (H1 & H2 & Hx & HU). destruct free_apart as (A1x & A12 & A1U & A2x & A2U & AxU). destruct free_header as [Wx Wu].
  pose proof Hrep as (_ & _ & Hm & _). pose proof (ok_next x Hx) as [En Ea]. pose proof Hx as Hx'. unfold fits, top in Hx'.
  assert (in_u 64 q) as Hq by (by apply (seg_u64 (hmem h) q F2)).
  destruct (store_in [x] x (x.1 + 8) q h) as (m' & E & W & C & T); [done|set_solver|done|lia|unfold top; lia|done|done|].
  destruct (relink (set_hmem m' h) F1 F2 U x q x.2 q) as (h' & E' & Ee & S' & Hh' & T'); simpl; try done.
  - by eapply rep_pairs.
  - by eapply touched_mapped.
  - apply (seg_touched [x] F1 (hmem h)); [done|by apply apart_sym|done|done].
  - by rewrite (ldw_apart (x.1 + 8) x.1 8 (hmem h) m') by (done || lia).
  - apply (seg_touched [x] F2 (hmem h)); [done|by apply apart_sym|done|done].
  - by apply (headers_touched [x] U (hmem h)).
  - exists h'. destruct x as [b n]. split_and!; [|done|done|done|].
    + unfold link_in, mbind, ST_bind. rewrite (deref_ok F1 q) by done. unfold set_next. by rewrite En, E.
    + eapply touched_trans; [eapply touched_mono; [|exact T]; set_solver|eapply touched_mono; [|exact T']; set_solver].
Qed.
End Free.

Section Join.
Context (h : heap) (F1 G U : list block) (x y : block).
Context (Hrep : rep h (F1 ++ y :: G) (x :: U)) (S1 : seg (hmem h) (malloc_freelist h) F1 y.1) (S2 : seg (hmem h) y.1 (y :: G) 0).

Lemma join_facts : Forall ok F1 /\ ok y /\ Forall ok G /\ ok x /\ Forall ok U /\
  apart [x] F1 /\ apart [y] F1 /\ apart F1 G /\ apart F1 U /\ apart [x] [y] /\ apart [x] G /\ apart [x] U /\ apart [y] G /\ apart [y] U.
Proof.
  destruct (free_ok h F1 (y :: G) U x Hrep) as (H1 & H2 & Hx & HU). inversion_clear H2 as [|? ? Hy HG].
  split_and!; [done..| | | | | | | | |]; (eapply rep_apart; [exact Hrep|]).
  - exists (y :: G ++ U). solve_Permutation.
  - exists (x :: G ++ U). solve_Permutation.
  - exists (x :: y :: U). solve_Permutation.
  - exists (x :: y :: G). solve_Permutation.
  - exists (F1 ++ G ++ U). solve_Permutation.
  - exists (y :: F1 ++ U). solve_Permutation.
  - exists (y :: F1 ++ G). solve_Permutation.
  - exists (x :: F1 ++ U). solve_Permutation.
  - exists (x :: F1 ++ G). solve_Permutation.
Qed.

Lemma join_after_ok : y.1 = top x -> freed h (x :: F1 ++ y :: G) (F1 ++ (x.1, x.2 + y.2) :: G) U (join_after (link_of F1) y.1 y.2 x.1 h).
Proof.
  intros Hxy. destruct join_facts as (H1 & Hy & HG & Hx & HU & Ax1 & Ay1 & A1G & A1U & Axy & AxG & AxU & AyG & AyU).
  destruct (free_header h F1 (y :: G) U x Hrep) as [Wx Wu]. pose proof Hrep as (_ & _ & Hm & _).
  destruct S2 as (_ & Wy & nx & Wn & SG). pose proof (ok_next x Hx) as [Ex Eax]. pose proof (ok_next y Hy) as [Ey _].
  pose proof Hx as Hx'. pose proof Hy as Hy'. unfold fits, top in Hx', Hy', Hxy.
  assert (in_u 64 nx) as Hnx by (by apply (seg_u64 (hmem h) nx G)).
  destruct (store_in [x] x x.1 (x.2 + y.2) h) as (m1 & E1 & W1 & C1 & T1); [done|set_solver|done|lia|unfold top; lia|tauto|unfold in_u; lia|].
  destruct (store_in [x] x (x.1 + 8) nx (set_hmem m1 h)) as (m2 & E2 & W2 & C2 & T2);
    [by eapply touched_mapped|set_solver|done|lia|unfold top; lia|done|done|]. simpl in C2, T2.
  assert (touched [x] (hmem h) m2) as T by (by eapply touched_trans).
  destruct (relink (set_hmem m2 h) F1 G U x y.1 (x.2 + y.2) nx) as (h' & E' & Ee & S' & Hh' & T'); simpl; try done.
  - by eapply rep_pairs.
  - by eapply touched_mapped.
  - by apply apart_sym.
  - by apply (seg_touched [x] F1 (hmem h)).
  - by rewrite (ldw_apart (x.1 + 8) x.1 8 m1 m2) by (done || lia).
  - by apply (seg_touched [x] G (hmem h)).
  - by apply (headers_touched [x] U (hmem h)).
  - exists h'. split_and!; [|done|done|done|].
    + unfold join_after, mbind, ST_bind, get_size, set_size, get_next, set_next. rewrite (load_ok _ x.2) by done.
      rewrite (uwrap_small 64 (x.2 + y.2)) by (unfold in_u; lia). rewrite E1, Ey, (load_ok _ nx).
      * by rewrite Ex, E2.
      * simpl. rewrite <- Wn. by apply (ldw_touched [x] _ _ y); [| | |lia|unfold top; lia].
    + eapply touched_trans; [eapply touched_mono; [|exact T]; set_solver|eapply touched_mono; [|exact T']; set_solver].
Qed.

(** Writing only the block [y] keeps the rest. *)
Lemma join_kept (m : mem) (s nx : Z) (G' : list block) : touched [y] (hmem h) m -> Forall ok G' -> apart [y] G' ->
  ldw m y.1 = Ok s -> ldw m (y.1 + 8) = Ok nx -> seg (hmem h) nx G' 0 ->
  seg m (malloc_freelist h) (F1 ++ (y.1, s) :: G') 0 /\ headers m U.
Proof.
  intros T HG' AG' Ws Wn SG'. destruct join_facts as (H1 & Hy & HG & Hx & HU & Ax1 & Ay1 & A1G & A1U & Axy & AxG & AxU & AyG & AyU).
  split; [|apply (headers_touched [y] U (hmem h)); [done|done|done|]; by apply (free_header h F1 (y :: G) U x)].
  apply seg_app. exists y.1. split; [by apply (seg_touched [y] F1 (hmem h))|]. simpl. split_and!; [done|done|].
  exists nx. split; [done|]. by apply (seg_touched [y] G' (hmem h)).
Qed.

(** The first step of joining: [y] takes in [x], and that may be all. *)
Lemma join_one : top y = x.1 -> exists m1 nx, store y.1 (y.2 + x.2) h = Ok (tt, set_hmem m1 h) /\ ldw m1 y.1 = Ok (y.2 + x.2) /\
  ldw m1 (y.1 + 8) = Ok nx /\ seg (hmem h) nx G 0 /\ ldw m1 x.1 = Ok x.2 /\ touched [y] (hmem h) m1 /\
  freed h (x :: F1 ++ y :: G) (F1 ++ (y.1, y.2 + x.2) :: G) U (Ok (tt, set_hmem m1 h)).
Proof.
  intros Hyx. destruct join_facts as (H1 & Hy & HG & Hx & HU & Ax1 & Ay1 & A1G & A1U & Axy & AxG & AxU & AyG & AyU).
  destruct (free_header h F1 (y :: G) U x Hrep) as [Wx Wu]. pose proof Hrep as (_ & _ & Hm & _). destruct S2 as (_ & Wy & nx & Wn & SG).
  pose proof Hx as Hx'. pose proof Hy as Hy'. unfold fits, top in Hx', Hy', Hyx.
  destruct (store_in [y] y y.1 (y.2 + x.2) h) as (m1 & E1 & W1 & C1 & T1); [done|set_solver|done|lia|unfold top; lia|tauto|unfold in_u; lia|].
  assert (ldw m1 (y.1 + 8) = Ok nx) as W1n by (by rewrite (ldw_apart y.1 (y.1 + 8) 8 (hmem h) m1) by (done || lia)).
  exists m1, nx. split_and!; [done..| |done|].
  - rewrite <- Wx. by apply (ldw_touched [y] _ _ x); [|by apply apart_sym| |lia|unfold top; lia].
  - destruct (join_kept m1 (y.2 + x.2) nx G) as [Hs Hh]; [done..|]. exists (set_hmem m1 h). split_and!; [done..|].
    simpl. eapply touched_mono; [|exact T1]. set_solver.
Qed.
End Join.

Lemma join_before_ok (h : heap) (F1 G U : list block) (x y : block) :
  rep h (F1 ++ y :: G) (x :: U) -> seg (hmem h) (malloc_freelist h) F1 y.1 -> seg (hmem h) y.1 (y :: G) 0 -> top y = x.1 ->
  freed h (x :: F1 ++ y :: G)
    (F1 ++ match G with
           | z :: G' => if top x =? z.1 then (y.1, y.2 + x.2 + z.2) :: G' else (y.1, y.2 + x.2) :: G
           | [] => [(y.1, y.2 + x.2)]
           end) U (join_before y.1 y.2 x.1 h).
Proof.
  intros Hrep S1 S2 Hyx. destruct (join_facts h F1 G U x y Hrep) as (_ & Hy & HG & Hx & _ & _ & _ & _ & _ & _ & _ & _ & AyG & _).
  destruct (join_one h F1 G U x y Hrep S1 S2 Hyx) as (m1 & nx & E1 & W1 & W1n & SG & W1x & T1 & Hone).
  pose proof Hrep as (_ & _ & Hm & _ & Hh). inversion_clear Hh as [|? ? Wx _]. destruct (ok_next y Hy) as [Ey Eay].
  pose proof Hx as Hx'. pose proof Hy as Hy'. unfold fits, top in Hx', Hy', Hyx.
  unfold join_before, mbind, ST_bind, get_size, set_size, get_next, set_next. rewrite (load_ok _ x.2) by done.
  rewrite (uwrap_small 64 (y.2 + x.2)) by (unfold in_u; lia). rewrite E1, Ey, (load_ok _ nx) by done.
  destruct G as [|z G']; [simpl in SG; subst nx; exact Hone|]. destruct SG as (-> & Wz & nn & Wnn & SG').
  inversion_clear HG as [|? ? Hz HG']. pose proof Hz as Hz'. unfold fits, top in Hz'. pose proof (ok_next z Hz) as [Ez _].
  rewrite (proj2 (Z.eqb_neq z.1 0)) by lia. rewrite (load_ok _ x.2) by done. rewrite (uwrap_small 64 (x.1 + x.2)) by (unfold in_u; lia).
  change (x.1 + x.2) with (top x). destruct (Z.eqb_spec (top x) z.1) as [Exz|]; [|exact Hone]. unfold top in Exz.
  assert (apart [y] [z]) as Ayz by (eapply apart_mono; [done| |exact AyG]; set_solver).
  assert (ldw m1 z.1 = Ok z.2) as W1z by (rewrite <- Wz; by apply (ldw_touched [y] _ _ z); [| | |lia|unfold top; lia]).
  rewrite (load_ok _ (y.2 + x.2)), (load_ok _ z.2) by done. rewrite (uwrap_small 64 (y.2 + x.2 + z.2)) by (unfold in_u; lia).
  destruct (store_in [y] y y.1 (y.2 + x.2 + z.2) (set_hmem m1 h)) as (m2 & E2 & W2 & C2 & T2);
    [by eapply touched_mapped|set_solver|done|lia|unfold top; lia|tauto|unfold in_u; lia|]. simpl in C2, T2.
  assert (touched [y] (hmem h) m2) as T12 by (by eapply touched_trans).
  rewrite E2, Ez, (load_ok _ nn); last first.
  { simpl. rewrite <- Wnn. by apply (ldw_touched [y] _ _ z); [| | |lia|unfold top; lia]. }
  destruct (store_in [y] y (y.1 + 8) nn (set_hmem m2 h)) as (m3 & E3 & W3 & C3 & T3);
    [by eapply touched_mapped|set_solver|done|lia|unfold top; lia|done|by apply (seg_u64 (hmem h) nn G')|]. simpl in C3, T3.
  rewrite set_hmem_twice, E3. assert (touched [y] (hmem h) m3) as T by (by eapply touched_trans).
  destruct (join_kept h F1 (z :: G') U x y Hrep S1 m3 (y.2 + x.2 + z.2) nn G') as [Hs Hh]; [done|done| | |done|done|].
  - eapply apart_mono; [done| |exact AyG]. set_solver.
  - by rewrite (ldw_apart (y.1 + 8) y.1 8 m2 m3) by (done || lia).
  - exists (set_hmem m3 h). split_and!; [done..|]. simpl. eapply touched_mono; [|exact T]. set_solver.
Qed.

Lemma free_loop_spec (h : heap) (U : list block) (x : block) :
  forall F2 F1 fuel q, rep h (F1 ++ F2) (x :: U) -> seg (hmem h) (malloc_freelist h) F1 q -> seg (hmem h) q F2 0 -> (length F2 < fuel)%nat ->
  freed h (x :: F1 ++ F2) (F1 ++ release x F2) U (free_loop fuel (link_of F1) x.1 h).
Proof.
  induction F2 as [|y G IH]; intros F1 [|fuel] q Hrep S1 S2 Hfuel; [simpl in Hfuel; lia| |simpl in Hfuel; lia|];
    cbn [free_loop]; unfold mbind, ST_bind; destruct (free_ok h _ _ U x Hrep) as (H1 & H2 & Hx & _).
  - rewrite (deref_ok F1 q) by done. pose proof (link_in_ok h F1 [] U x q Hrep S1 S2) as Hli. simpl in S2. subst q. exact Hli.
  - pose proof S2 as (-> & Wy & nx & Wn & SG). inversion_clear H2 as [|? ? Hy HG].
    rewrite (deref_ok F1 y.1) by done. destruct (free_header h _ _ U x Hrep) as [Wx _].
    pose proof Hx as Hx'. pose proof Hy as Hy'. unfold fits, top in Hx', Hy'.
    rewrite (proj2 (Z.eqb_neq y.1 0)) by lia. unfold get_size. rewrite (load_ok _ y.2) by done.
    rewrite (uwrap_small 64 (y.1 + y.2)) by (unfold in_u; lia). change (y.1 + y.2) with (top y). cbn [release].
    destruct (Z.eqb_spec (top y) x.1) as [Hyx|Hyx]; [by apply join_before_ok|]. rewrite (load_ok _ x.2) by done.
    rewrite (uwrap_small 64 (x.1 + x.2)) by (unfold in_u; lia). change (x.1 + x.2) with (top x).
    destruct (Z.eqb_spec y.1 (top x)) as [Hxy|Hxy]; [by apply join_after_ok|].
    destruct (Z.ltb_spec x.1 y.1) as [Hlt|Hge]; [by apply (link_in_ok h F1 (y :: G) U x y.1)|].
    specialize (IH (F1 ++ [y]) fuel nx). rewrite <- !app_assoc, link_of_snoc in IH. apply IH; [done| |done|simpl in Hfuel; lia].
    apply seg_app. exists y.1. split; [done|]. simpl. split_and!; [done|done|]. by exists nx.
Qed.

(** [free] is [release]. *)
Lemma free_spec (h : heap) (F U : list block) (x : block) : rep h F (x :: U) ->
  exists h', free (x.1 + 8) h = Ok (tt, h') /\ rep h' (release x F) U /\ malloc_end h' = malloc_end h /\
    forall a, inside U a -> hmem h' !! a = hmem h !! a.
Proof.
  intros Hrep. pose proof Hrep as (Har & He & Hm & Hs & _). destruct (rep_ok h _ _ Hrep) as [_ HU]. inversion_clear HU as [|? ? Hx _].
  unfold fits, top in Hx. destruct (free_loop_spec h U x F [] (list_fuel h) _ Hrep eq_refl Hs (rep_length h _ _ Hrep)) as (h' & E & Ee & S' & H' & T').
  exists h'. split_and!; [|split_and!|done|].
  - unfold free, block_of, SIZEOF_SIZE. rewrite (proj2 (Z.eqb_neq _ _)) by lia.
    rewrite (uwrap_small 64) by (unfold in_u; lia). rewrite Z.add_simpl_r. exact E.
  - rewrite Ee. by apply release_arena.
  - lia.
  - by eapply touched_mapped.
  - done.
  - done.
  - eapply touched_kept; [exact T'|]. eapply rep_apart; [exact Hrep|]. exists []. solve_Permutation.
Qed.
End Heap.
End MallocSpec.
