(* ===== verification/MallocClient.v ===== *)
(** * What the allocator gives its clients

    A client allocates, reallocates, writes inside the blocks it holds and
    frees them, in any order.  [run] is such a client over the code of
    [Malloc]; its ledger remembers what it holds and what it wrote.  The limit
    of the heap is the frame address of the running [malloc], which differs
    from call to call: every request carries the one its call of [malloc] has
    ([calloc] and [realloc] make at most one).  Theorems: the refinement of
    the abstract allocator, and that the client never faults, never loses a
    byte, and gets its memory back in one piece. *)

From S2P Require Import Prelude LibC LibCSpec Malloc MallocArena MallocSpec.

Module MallocClient.
Import LibCSpec Malloc Arena MallocSpec.

(** A block the client holds: the pointer, the size it asked for, and the
    bytes it wrote, by their index. *)
Record cell := Cell { ptr : Z; len : Z; data : gmap Z Z }.

Inductive op := OMalloc (sz : Z) | OCalloc (n elem_size : Z) | ORealloc (k : nat) (sz : Z) | OFree (k : nat) | OStore (k : nat) (i v : Z).

(** Requests that do not wrap, see [Malloc.malloc_wraps]. *)
Definition valid (o : op) : Prop :=
  match o with
  | OMalloc sz | ORealloc _ sz => 0 <= sz <= 2 ^ 64 - 16
  | OCalloc n elem_size => 0 <= n /\ 0 <= elem_size /\ n * elem_size <= 2 ^ 64 - 16
  | _ => True
  end.

(** The bytes [calloc] promises, and those [realloc] keeps. *)
Definition zeros (sz : Z) : gmap Z Z := list_to_map ((fun i => (i, 0)) <$> seqZ 0 sz).
Definition truncated (sz : Z) (d : gmap Z Z) : gmap Z Z := filter (fun '(i, _) => i < sz) d.

(** One request; [ORealloc], [OFree] and [OStore] name the [k]-th block held,
    newest first, and do nothing if there is none or the index is outside it.
    A block that was reallocated is the newest. *)
Definition step (limit : Z) (o : op) (s : heap * list cell) : outcome (heap * list cell) :=
  let '(h, live) := s in
  match o with
  | OMalloc sz => '(p, h) ← malloc limit sz h; Ok (h, if p =? 0 then live else Cell p sz ∅ :: live)
  | OCalloc n elem_size =>
      '(p, h) ← calloc limit n elem_size h; Ok (h, if p =? 0 then live else Cell p (n * elem_size) (zeros (n * elem_size)) :: live)
  | ORealloc k sz =>
      match live !! k with
      | Some c =>
          '(p, h) ← realloc limit (ptr c) sz h;
          Ok (h, if p =? 0 then live else Cell p sz (truncated sz (data c)) :: delete k live)
      | None => Ok s
      end
  | OFree k =>
      match live !! k with
      | Some c => '(_, h) ← free (ptr c) h; Ok (h, delete k live)
      | None => Ok s
      end
  | OStore k i v =>
      match live !! k with
      | Some c =>
          if (0 <=? i) && (i <? len c) then
            m ← stb (hmem h) (ptr c + i) v;
            Ok (set_hmem m h, <[k := Cell (ptr c) (len c) (<[i := u8 v]> (data c))]> live)
          else Ok s
      | None => Ok s
      end
  end.

Fixpoint run (ops : list (Z * op)) (s : heap * list cell) : outcome (heap * list cell) :=
  match ops with [] => Ok s | (limit, o) :: ops => s ← step limit o s; run ops s end.

(** At every request the stack is at least the minimum gap above the end of
    the heap, and not above [hi]: closer, the subtraction of [CAN_ALLOC_P]
    wraps and grants every request. *)
Fixpoint gaps (hi : Z) (ops : list (Z * op)) (s : heap * list cell) : bool :=
  match ops with
  | [] => true
  | (limit, o) :: ops =>
      (malloc_end s.1 + 32 <=? limit) && (limit <=? hi) && match step limit o s with Ok s => gaps hi ops s | _ => true end
  end.

Section Client.
Context (start hi : Z) (Hstart : 16 <= start) (Halign : start mod 8 = 0) (Hhi : hi + 16 < 2 ^ 64).

Abbreviation rep := (rep start hi).

Lemma rep_initial (m : mem) : start <= hi -> mapped m start (hi - start) -> rep (initial m start) [] [].
Proof.
  intros Hle Hm. split_and!; [|done|done|done|constructor]. split; [|constructor].
  split_and!; [constructor|constructor|simpl; lia].
Qed.

Lemma rep_perm (h : heap) (F U U' : list block) : U ≡ₚ U' -> rep h F U -> rep h F U'.
Proof.
  intros Hp ((Ha & Hs) & He & Hm & Hseg & Hh). split_and!; [|done|done|done|].
  - split; [|done]. by rewrite <- Hp.
  - unfold headers in *. by rewrite <- Hp.
Qed.

(** Bytes written behind the header of a block in use. *)
Lemma rep_write (h : heap) (F U : list block) (x : block) (p n : Z) (m' : mem) : rep h F (x :: U) ->
  x.1 + 8 <= p -> p + n <= top x -> changed p n (hmem h) m' -> rep (set_hmem m' h) F (x :: U).
Proof.
  intros Hrep Hp Hn C. pose proof Hrep as (Har & He & Hm & Hs & Hh). destruct (rep_ok _ _ h _ _ Hrep) as [HF HU].
  inversion_clear HU as [|? ? Hx HU']. inversion_clear Hh as [|? ? Wx Wu]. pose proof Hx as Hx'. unfold fits, top in Hx'.
  assert (touched [x] (hmem h) m') as T by (eapply (changed_touched _ x); [exact C|set_solver|lia|done]).
  split_and!; [done|done|by eapply touched_mapped| |constructor].
  - apply (seg_touched start hi Hstart Halign Hhi [x] F (hmem h)); [done| |done|done].
    eapply rep_apart; [exact Hrep|]. exists U. solve_Permutation.
  - simpl. by rewrite (ldw_apart p x.1 n (hmem h)) by (done || lia).
  - apply (headers_touched start hi Hstart Halign Hhi [x] U (hmem h)); [done| |done|done].
    eapply rep_apart; [exact Hrep|]. exists F. solve_Permutation.
Qed.

(** The payload of a block in use is mapped. *)
Lemma rep_mapped (h : heap) (F U : list block) (x : block) (p n : Z) : rep h F (x :: U) ->
  x.1 + 8 <= p -> p + n <= top x -> 0 <= p /\ (0 <= n -> p + n < 2 ^ 64) /\ mapped (hmem h) p n.
Proof.
  intros Hrep Hp Hn. pose proof Hrep as (_ & _ & Hm & _). destruct (rep_ok _ _ h _ _ Hrep) as [_ HU]. inversion_clear HU as [|? ? Hx _].
  unfold fits in Hx. split_and!; [lia|lia|]. intros i Hi. replace (p + i) with (start + (p + i - start)) by lia. apply Hm. lia.
Qed.

Lemma rep_stbs (h : heap) (F U : list block) (x : block) (p : Z) (l : list Z) : rep h F (x :: U) ->
  x.1 + 8 <= p -> p + Z.of_nat (length l) <= top x -> Forall (in_u 8) l ->
  exists m', stbs (hmem h) p l = Ok m' /\ rep (set_hmem m' h) F (x :: U) /\ holds m' p l /\ changed p (Z.of_nat (length l)) (hmem h) m'.
Proof.
  intros Hrep Hp Hn Hl. destruct (rep_mapped h F U x p (Z.of_nat (length l)) Hrep Hp Hn) as (H0 & H64 & Hm).
  destruct (stbs_ok l (hmem h) p) as (m' & E & Hh & Hc); [done|lia|done|done|]. exists m'. split_and!; [done|by eapply rep_write|done|done].
Qed.

Lemma rep_store (h : heap) (F U : list block) (x : block) (a v : Z) : rep h F (x :: U) -> x.1 + 8 <= a < top x ->
  stb (hmem h) a v = Ok (<[a := u8 v]> (hmem h)) /\ rep (set_hmem (<[a := u8 v]> (hmem h)) h) F (x :: U).
Proof.
  intros Hrep Ha. destruct (rep_mapped h F U x a 1 Hrep) as (_ & _ & Hm); [lia|lia|]. destruct (Hm 0 ltac:(lia)) as [c Hc].
  rewrite Z.add_0_r in Hc. split; [unfold stb; by rewrite Hc|]. apply (rep_write h F U x a 1); [done|lia|lia|].
  split; [intros b Hb; by rewrite lookup_insert_ne by lia|]. intros b Hb.
  destruct (decide (b = a)) as [-> |]; [rewrite lookup_insert_eq; eauto|by rewrite lookup_insert_ne].
Qed.

(** A cell of the ledger and its block. *)
Definition holds_cell (m : mem) (c : cell) (x : block) : Prop :=
  ptr c = x.1 + 8 /\ len c + 8 <= x.2 /\
  map_Forall (fun i v => 0 <= i < len c /\ in_u 8 v /\ m !! (ptr c + i) = Some v) (data c).

Definition simulates (limit : Z) (s : heap * list cell) : Prop :=
  exists F U, rep s.1 F U /\ malloc_end s.1 + 32 <= limit /\ Forall2 (holds_cell (hmem s.1)) s.2 U.

(** Cells keep their contents when their blocks do. *)
Lemma cells_kept (m m' : mem) (live : list cell) (U : list block) : (forall a, inside U a -> m' !! a = m !! a) ->
  Forall2 (holds_cell m) live U -> Forall2 (holds_cell m') live U.
Proof.
  intros Hk H. induction H as [|c x live U (Hp & Hl & Hd) H IH]; constructor.
  - split_and!; [done|done|]. intros i v Hi. destruct (Hd i v Hi) as (Hr & Hu & Hv). split; [done|split; [done|]]. rewrite Hk; [done|].
    constructor. unfold top. lia.
  - apply IH. intros a Ha. apply Hk. by constructor 2.
Qed.

Lemma step_malloc (limit sz : Z) (h : heap) (live : list cell) : limit <= hi -> 0 <= sz <= 2 ^ 64 - 16 ->
  simulates limit (h, live) -> owp (step limit (OMalloc sz) (h, live)) (simulates limit).
Proof.
  intros Hlim Hsz (F & U & Hrep & He & Hl). simpl in *. pose proof (malloc_spec start hi Hstart Halign Hhi h F U limit sz Hrep Hsz He Hlim) as Hspec.
  destruct (alloc limit (REAL_SIZE sz) (malloc_end h) F) as [[[y F'] e']|].
  - destruct Hspec as (h' & E & Hrep' & Ee & Hlim' & Hy & Hk). rewrite E. cbn [mbind outcome_bind owp].
    pose proof (rep_ok _ _ _ _ _ Hrep') as [_ HU]. inversion_clear HU as [|? ? Hyok _]. unfold fits in Hyok.
    rewrite (proj2 (Z.eqb_neq (y.1 + 8) 0)) by lia. exists F', (y :: U). simpl. split_and!; [done|lia|]. constructor; [|by eapply cells_kept].
    split_and!; [done|simpl; lia|]. apply map_Forall_empty.
  - rewrite Hspec. simpl. by exists F, U.
Qed.

Lemma zeros_lookup (sz i v : Z) : zeros sz !! i = Some v -> v = 0 /\ 0 <= i < sz.
Proof.
  unfold zeros. intros H%elem_of_list_to_map_2. apply list_elem_of_fmap in H as (j & [= -> ->] & Hj). by apply elem_of_seqZ in Hj as [? ?].
Qed.

Lemma step_calloc (limit n e : Z) (h : heap) (live : list cell) : limit <= hi -> valid (OCalloc n e) ->
  simulates limit (h, live) -> owp (step limit (OCalloc n e) (h, live)) (simulates limit).
Proof.
  intros Hlim (Hn & He0 & Hsz) (F & U & Hrep & He & Hl). simpl in *. assert (0 <= n * e) as Hpos by nia.
  pose proof (malloc_spec start hi Hstart Halign Hhi h F U limit (n * e) Hrep ltac:(lia) He Hlim) as Hspec.
  unfold calloc, mbind, ST_bind. rewrite (uwrap_small 64 (n * e)) by (unfold in_u; lia).
  destruct (alloc limit (REAL_SIZE (n * e)) (malloc_end h) F) as [[[y F'] e']|].
  - destruct Hspec as (h' & E & Hrep' & Ee & Hlim' & Hy & Hk). rewrite E.
    pose proof (rep_ok _ _ _ _ _ Hrep') as [_ HU]. inversion_clear HU as [|? ? Hyok _]. unfold fits in Hyok.
    rewrite (proj2 (Z.eqb_neq (y.1 + 8) 0)) by lia. set (l := replicate (Z.to_nat (n * e)) 0).
    assert (Z.of_nat (length l) = n * e) as Hlen by (unfold l; rewrite length_replicate; lia).
    destruct (rep_stbs h' F' U y (y.1 + 8) l Hrep') as (m' & E' & Hrep'' & Hh & Hc); [lia|unfold top; lia|by apply Forall_replicate|].
    unfold mem_set, mbind, ST_bind, st_get, lift, st_put. fold l. rewrite E'. simpl. rewrite (proj2 (Z.eqb_neq (y.1 + 8) 0)) by lia.
    exists F', (y :: U). simpl. split_and!; [done|lia|]. constructor.
    + split_and!; [done|simpl; lia|]. simpl. intros i v [-> Hi]%zeros_lookup. split; [done|split; [unfold in_u; lia|]].
      rewrite <- (Hh (Z.to_nat i) 0); [f_equal; lia|]. apply lookup_replicate_2. lia.
    + eapply cells_kept; [|eapply cells_kept; [exact Hk|exact Hl]]. simpl. eapply touched_kept.
      * eapply (changed_touched [y] y); [exact Hc|set_solver|lia|unfold top; lia].
      * eapply rep_apart; [exact Hrep'|]. exists F'. solve_Permutation.
  - rewrite Hspec. simpl. by exists F, U.
Qed.

(** ** realloc *)

Lemma ldbs_mapped (n : nat) : forall m p, 0 <= p -> p + Z.of_nat n < 2 ^ 64 -> mapped m p (Z.of_nat n) ->
  exists l, ldbs m p n = Ok l /\ length l = n /\ holds m p l.
Proof.
  induction n as [|n IH]; intros m p Hp Ht Hm; [exists []; split_and!; [done|done|by intros ? ? ?]|].
  destruct (Hm 0 ltac:(lia)) as [b Hb]. rewrite Z.add_0_r in Hb. cbn [ldbs]. unfold ldb. rewrite Hb. cbn [of_option mbind outcome_bind].
  rewrite (uwrap_small 64) by (unfold in_u; lia). destruct (IH m (p + 1)) as (l & E & Hl & Hh); [lia|lia| |].
  { intros i Hi. replace (p + 1 + i) with (p + (i + 1)) by lia. apply Hm. lia. }
  exists (b :: l). rewrite E. split_and!; [done|simpl; by rewrite Hl|]. by apply holds_cons.
Qed.

(** A store keeps the low eight bits. *)
Lemma stbs_u8 (l : list Z) : forall m p, stbs m p l = stbs m p (u8 <$> l).
Proof.
  induction l as [|b l IH]; intros m p; [done|]. cbn [stbs fmap list_fmap]. unfold stb. rewrite uwrap_uwrap by lia.
  destruct (m !! p); [|done]. cbn [mbind outcome_bind]. apply IH.
Qed.

(** What [realloc] of the block [x] leaves: a block [y] large enough, with
    the bytes of [x] that fit. *)
Definition moved (limit sz : Z) (h : heap) (U : list block) (x : block) (res : outcome (Z * heap)) : Prop :=
  exists y F' h', res = Ok (y.1 + 8, h') /\ rep h' F' (y :: U) /\ malloc_end h' + 32 <= limit /\ sz + 8 <= y.2 /\
    (forall a, inside U a -> hmem h' !! a = hmem h !! a) /\
    (forall i v, 0 <= i < x.2 - 8 -> i < sz -> in_u 8 v -> hmem h !! (x.1 + 8 + i) = Some v -> hmem h' !! (y.1 + 8 + i) = Some v).

(** Copying the payload of [x] to [y]. *)
Lemma copy_payload (h : heap) (F U : list block) (x y : block) (n : Z) : rep h F (y :: x :: U) -> 0 <= n -> n + 8 <= x.2 -> n + 8 <= y.2 ->
  exists m', mem_copy (y.1 + 8) (x.1 + 8) n h = Ok (tt, set_hmem m' h) /\ rep (set_hmem m' h) F (y :: x :: U) /\ touched [y] (hmem h) m' /\
    forall i v, 0 <= i < n -> in_u 8 v -> hmem h !! (x.1 + 8 + i) = Some v -> m' !! (y.1 + 8 + i) = Some v.
Proof.
  intros Hrep Hn Hx Hy. assert (rep h F (x :: y :: U)) as Hrep' by (eapply rep_perm; [|exact Hrep]; solve_Permutation).
  destruct (rep_mapped h F _ x (x.1 + 8) n Hrep') as (H0 & H64 & Hm); [lia|unfold top; lia|].
  destruct (ldbs_mapped (Z.to_nat n) (hmem h) (x.1 + 8)) as (l & El & Hl & Hh); [done|lia|by rewrite Z2Nat.id|].
  assert (length (u8 <$> l) = Z.to_nat n) as Hl' by (by rewrite length_fmap).
  destruct (rep_stbs h F (x :: U) y (y.1 + 8) (u8 <$> l) Hrep) as (m' & E & Hr & Hh' & Hc);
    [lia|rewrite Hl'; unfold top; lia|apply Forall_fmap, Forall_true; intros; by apply uwrap_range|].
  exists m'. split_and!; [|done| |].
  - unfold mem_copy, mbind, ST_bind, st_get, lift, st_put. by rewrite El, stbs_u8, E.
  - eapply (changed_touched [y] y); [exact Hc|set_solver|lia|rewrite Hl'; unfold top; lia].
  - intros i v Hi Hv Hxi. destruct (lookup_lt_is_Some_2 l (Z.to_nat i)) as [w Hw]; [lia|]. pose proof (Hh _ _ Hw) as Hh1. rewrite Z2Nat.id in Hh1 by lia.
    assert (w = v) as -> by congruence. rewrite <- (Hh' (Z.to_nat i) v); [f_equal; lia|]. rewrite list_lookup_fmap, Hw. simpl. by rewrite uwrap_small.
Qed.

Lemma realloc_grow (limit sz : Z) (h : heap) (F U : list block) (x : block) :
  limit <= hi -> 0 <= sz <= 2 ^ 64 - 16 -> malloc_end h + 32 <= limit -> rep h F (x :: U) -> x.2 < REAL_SIZE sz ->
  realloc limit (x.1 + 8) sz h = Ok (0, h) \/ moved limit sz h U x (realloc limit (x.1 + 8) sz h).
Proof.
  intros Hlim Hsz He Hrep Hgt. pose proof (malloc_spec start hi Hstart Halign Hhi h F (x :: U) limit sz Hrep Hsz He Hlim) as Hspec.
  pose proof Hrep as (_ & _ & _ & _ & Hh). inversion_clear Hh as [|? ? Wx _]. destruct (rep_ok _ _ _ _ _ Hrep) as [_ HU].
  inversion_clear HU as [|? ? Hx _]. unfold fits, top in Hx.
  unfold realloc, block_of, SIZEOF_SIZE, mbind, ST_bind, get_size. rewrite (proj2 (Z.eqb_neq (x.1 + 8) 0)) by lia.
  rewrite (uwrap_small 64 (x.1 + 8 - 8)), Z.add_simpl_r by (unfold in_u; lia). rewrite (load_ok _ x.2) by done.
  rewrite (proj2 (Z.ltb_lt _ _)) by done. rewrite (uwrap_small 64 (x.2 - 8)) by (unfold in_u; lia).
  destruct (alloc limit (REAL_SIZE sz) (malloc_end h) F) as [[[y F1] e1]|]; [|left; by rewrite Hspec].
  destruct Hspec as (h1 & E1 & Hrep1 & Ee & Hlim1 & Hy & Hk1). rewrite E1. right.
  destruct (rep_ok _ _ _ _ _ Hrep1) as [_ HU1]. inversion_clear HU1 as [|? ? Hyok _]. unfold fits in Hyok.
  rewrite (proj2 (Z.eqb_neq (y.1 + 8) 0)) by lia. set (n := if x.2 - 8 <? sz then x.2 - 8 else sz).
  assert (0 <= n /\ n <= x.2 - 8 /\ n <= sz /\ (n = x.2 - 8 \/ n = sz)) as Hn by (unfold n; destruct (Z.ltb_spec (x.2 - 8) sz); lia).
  destruct (copy_payload h1 F1 U x y n Hrep1) as (m2 & E2 & Hrep2 & T2 & Hcopy); [lia|lia|lia|]. rewrite E2.
  apply (rep_perm _ _ _ (x :: y :: U)) in Hrep2; [|solve_Permutation].
  destruct (free_spec start hi Hstart Halign Hhi (set_hmem m2 h1) F1 (y :: U) x Hrep2) as (h3 & E3 & Hrep3 & Ee3 & Hk3).
  rewrite E3. exists y, (release x F1), h3. simpl in *. split_and!; [done|done|lia|done| |].
  - intros a Ha. rewrite Hk3 by (by constructor 2). rewrite <- Hk1 by (by constructor 2). eapply touched_kept; [exact T2| |exact Ha].
    eapply rep_apart; [exact Hrep1|]. exists (x :: F1). solve_Permutation.
  - intros i v Hi Hisz Hv Hxi. rewrite Hk3 by (constructor; unfold top; lia). apply Hcopy; [lia|done|]. rewrite Hk1; [done|].
    constructor. unfold top. lia.
Qed.

(** Cutting a block in use in two: the headers of both parts are written. *)
Lemma rep_cut (h : heap) (F U : list block) (x : block) (r : Z) : rep h F (x :: U) -> 16 <= r -> r + 16 <= x.2 -> r mod 8 = 0 ->
  exists m1 m2, store x.1 r h = Ok (tt, set_hmem m1 h) /\ store (x.1 + r) (x.2 - r) (set_hmem m1 h) = Ok (tt, set_hmem m2 h) /\
    rep (set_hmem m2 h) F ((x.1 + r, x.2 - r) :: (x.1, r) :: U) /\ touched [x] (hmem h) m2 /\
    forall a, x.1 + 8 <= a < x.1 + r -> m2 !! a = hmem h !! a.
Proof.
  intros Hrep Hr Hx2 Ha. pose proof Hrep as (Har & He & Hm & Hs & Hh). destruct (rep_ok _ _ _ _ _ Hrep) as [HF HU].
  inversion_clear HU as [|? ? Hx HU']. inversion_clear Hh as [|? ? Wx Wu]. pose proof Hx as Hx'. unfold fits, top in Hx'.
  assert ((x.1 + r) mod 8 = 0) as Hra by (rewrite Z.add_mod by lia; destruct Hx' as (_ & _ & _ & -> & _); by rewrite Ha).
  destruct (store_in start hi Hstart Hhi [x] x x.1 r h) as (m1 & E1 & W1 & C1 & T1);
    [done|set_solver|done|lia|unfold top; lia|tauto|unfold in_u; lia|].
  destruct (store_in start hi Hstart Hhi [x] x (x.1 + r) (x.2 - r) (set_hmem m1 h)) as (m2 & E2 & W2 & C2 & T2);
    [by eapply touched_mapped|set_solver|done|lia|unfold top; lia|done|unfold in_u; lia|]. simpl in C2, T2.
  assert (touched [x] (hmem h) m2) as T by (by eapply touched_trans). exists m1, m2. split_and!; [done|done| |done|].
  - split_and!; [|done|by eapply touched_mapped| |repeat constructor].
    + destruct Har as [Hp Hss]. split; [|done]. rewrite <- Permutation_middle in Hp. apply (parts_split _ _ r) in Hp; [|done..].
      eapply parts_perm; [done| |exact Hp]. solve_Permutation.
    + apply (seg_touched start hi Hstart Halign Hhi [x] F (hmem h)); [done| |done|done].
      eapply rep_apart; [exact Hrep|]. exists U. solve_Permutation.
    + done.
    + simpl. by rewrite (ldw_apart (x.1 + r) x.1 8 m1 m2) by (done || lia).
    + apply (headers_touched start hi Hstart Halign Hhi [x] U (hmem h)); [done| |done|done].
      eapply rep_apart; [exact Hrep|]. exists F. solve_Permutation.
  - intros a Hai. rewrite (proj1 C2), (proj1 C1) by lia. done.
Qed.

Lemma realloc_shrink (limit sz : Z) (h : heap) (F U : list block) (x : block) :
  0 <= sz <= 2 ^ 64 - 16 -> malloc_end h + 32 <= limit -> rep h F (x :: U) -> REAL_SIZE sz <= x.2 ->
  moved limit sz h U x (realloc limit (x.1 + 8) sz h).
Proof.
  intros Hsz He Hrep Hle. destruct (real_size_spec sz Hsz) as (Hr & Hra & Hr8).
  pose proof Hrep as (_ & _ & _ & _ & Hh). inversion_clear Hh as [|? ? Wx _]. destruct (rep_ok _ _ _ _ _ Hrep) as [_ HU].
  inversion_clear HU as [|? ? Hx _]. unfold fits, top in Hx.
  unfold realloc, block_of, SIZEOF_SIZE, SIZEOF_ENTRY, mbind, ST_bind, get_size, set_size. rewrite (proj2 (Z.eqb_neq (x.1 + 8) 0)) by lia.
  rewrite (uwrap_small 64 (x.1 + 8 - 8)), Z.add_simpl_r by (unfold in_u; lia). rewrite (load_ok _ x.2) by done.
  rewrite (proj2 (Z.ltb_ge _ _)) by done. rewrite (uwrap_small 64 (x.2 - REAL_SIZE sz)) by (unfold in_u; lia).
  set (r := REAL_SIZE sz) in *. destruct (Z.leb_spec 16 (x.2 - r)) as [Hcut|Hno].
  - rewrite (uwrap_small 64 (x.1 + r)) by (unfold in_u; lia).
    destruct (rep_cut h F U x r Hrep) as (m1 & m2 & E1 & E2 & Hrep2 & T & Hkeep); [lia|lia|done|]. rewrite E1, E2.
    destruct (free_spec start hi Hstart Halign Hhi _ _ _ _ Hrep2) as (h3 & E3 & Hrep3 & Ee3 & Hk3).
    assert (next_field (x.1 + r) = x.1 + r + 8) as -> by (apply uwrap_small; unfold in_u, SIZEOF_SIZE; lia).
    simpl in E3, Hk3, Ee3. rewrite E3. exists (x.1, r), (release (x.1 + r, x.2 - r) F), h3. simpl. split_and!; [done|done|lia|lia| |].
    + intros a Ha. rewrite Hk3 by (by constructor 2). eapply touched_kept; [exact T| |exact Ha].
      eapply rep_apart; [exact Hrep|]. exists F. solve_Permutation.
    + intros i v Hi Hisz Hv Hxi. rewrite Hk3 by (constructor; unfold top; simpl; lia). by rewrite Hkeep by lia.
  - exists x, F, h. split_and!; [done|done|done|lia|done|done].
Qed.

Lemma step_realloc (limit : Z) (k : nat) (sz : Z) (h : heap) (live : list cell) : limit <= hi -> 0 <= sz <= 2 ^ 64 - 16 ->
  simulates limit (h, live) -> owp (step limit (ORealloc k sz) (h, live)) (simulates limit).
Proof.
  intros Hlim Hsz (F & U & Hrep & He & Hl). simpl in *. destruct (live !! k) as [c|] eqn:Ek; [|by exists F, U].
  destruct (Forall2_lookup_l _ _ _ _ _ Hl Ek) as (x & Ex & Hp & Hlen & Hd). pose proof (delete_Permutation U k x Ex) as HU.
  pose proof (rep_perm h F U _ HU Hrep) as Hrep'.
  assert (realloc limit (x.1 + 8) sz h = Ok (0, h) \/ moved limit sz h (delete k U) x (realloc limit (x.1 + 8) sz h)) as [E|Hm].
  { destruct (Z.lt_ge_cases x.2 (REAL_SIZE sz)); [by apply (realloc_grow limit sz h F)|right; by apply (realloc_shrink limit sz h F)]. }
  - rewrite Hp, E. simpl. by exists F, U.
  - destruct Hm as (y & F' & h' & E & Hrep1 & He1 & Hy & Hk & Hcopy). rewrite Hp, E. simpl.
    destruct (rep_ok _ _ _ _ _ Hrep1) as [_ HU1]. inversion_clear HU1 as [|? ? Hyok _]. unfold fits in Hyok.
    rewrite (proj2 (Z.eqb_neq (y.1 + 8) 0)) by lia. exists F', (y :: delete k U). simpl. split_and!; [done|done|].
    constructor; [|eapply cells_kept; [exact Hk|]; by apply Forall2_delete].
    split_and!; [done|simpl; lia|]. simpl. intros i v [Hi Hlt]%map_lookup_filter_Some. destruct (Hd i v Hi) as (Hr & Hu & Hv).
    split; [lia|split; [done|]]. rewrite Hp in Hv. apply Hcopy; [lia|done|done|done].
Qed.

Lemma step_free (limit : Z) (k : nat) (h : heap) (live : list cell) :
  simulates limit (h, live) -> owp (step limit (OFree k) (h, live)) (simulates limit).
Proof.
  intros (F & U & Hrep & He & Hl). simpl in *. destruct (live !! k) as [c|] eqn:Ek; [|by exists F, U].
  destruct (Forall2_lookup_l _ _ _ _ _ Hl Ek) as (x & Ex & Hp & _). pose proof (delete_Permutation U k x Ex) as HU.
  apply (rep_perm h F U _ HU) in Hrep.
  destruct (free_spec start hi Hstart Halign Hhi h F (delete k U) x Hrep) as (h' & E & Hrep' & Ee & Hk).
  rewrite Hp, E. simpl. exists (release x F), (delete k U). simpl. split_and!; [done|lia|].
  eapply cells_kept; [exact Hk|]. by apply Forall2_delete.
Qed.

Lemma step_store (limit : Z) (k : nat) (i v : Z) (h : heap) (live : list cell) :
  simulates limit (h, live) -> owp (step limit (OStore k i v) (h, live)) (simulates limit).
Proof.
  intros (F & U & Hrep & He & Hl). simpl in *. destruct (live !! k) as [c|] eqn:Ek; [|by exists F, U].
  destruct ((0 <=? i) && (i <? len c)) eqn:Ei; [|by exists F, U]. apply andb_true_iff in Ei as [Hi%Z.leb_le Hi'%Z.ltb_lt].
  destruct (Forall2_lookup_l _ _ _ _ _ Hl Ek) as (x & Ex & Hp & Hlen & Hd). pose proof (delete_Permutation U k x Ex) as HU.
  apply (rep_perm h F U _ HU) in Hrep. destruct (rep_store h F (delete k U) x (ptr c + i) v Hrep) as [E Hrep']; [unfold top; lia|].
  rewrite E. simpl. exists F, U. simpl. split_and!; [by eapply rep_perm; [symmetry|]|done|].
  assert (forall j c' y, j <> k -> live !! j = Some c' -> U !! j = Some y -> holds_cell (hmem h) c' y ->
    holds_cell (<[ptr c + i := u8 v]> (hmem h)) c' y) as Hother.
  { intros j c' y Hj Hc' Hy (Hp' & Hl' & Hd'). split_and!; [done|done|]. intros a w Ha. destruct (Hd' a w Ha) as (Hr & Hu & Hw). split; [done|split; [done|]].
    rewrite lookup_insert_ne; [done|]. intros Eq. apply (rep_apart start hi h F (x :: delete k U) [x] (delete k U) Hrep) with (ptr c + i).
    - exists F. solve_Permutation.
    - constructor. unfold top. lia.
    - apply Exists_exists. exists y. split; [|unfold top; lia]. apply list_elem_of_lookup.
      destruct (decide (j < k)%nat); [exists j; by rewrite list_lookup_delete_lt|].
      exists (pred j). rewrite list_lookup_delete_ge by lia. by replace (S (pred j)) with j by lia. }
  apply Forall2_lookup. intros j. destruct (decide (j = k)) as [-> |Hj].
  - rewrite list_lookup_insert_eq by (by eapply lookup_lt_Some). rewrite Ex. constructor. split_and!; [done|done|]. simpl.
    intros a w [[<- <-]|[Hne Ha]]%lookup_insert_Some; [split; [lia|split; [by apply uwrap_range|by rewrite lookup_insert_eq]]|].
    destruct (Hd a w Ha) as (Hr & Hu & Hw). split; [done|split; [done|]]. by rewrite lookup_insert_ne by lia.
  - rewrite list_lookup_insert_ne by done. rewrite Forall2_lookup in Hl. specialize (Hl j).
    inversion Hl as [c' y Hc Hc1 Hc2|]; constructor. by eapply Hother.
Qed.

Lemma step_simulates (limit : Z) (o : op) (s : heap * list cell) : limit <= hi -> valid o ->
  simulates limit s -> owp (step limit o s) (simulates limit).
Proof.
  intros Hlim Ho Hs. destruct s as [h live].
  destruct o; [by apply step_malloc|by apply step_calloc|by apply step_realloc|by apply step_free|by apply step_store].
Qed.

Lemma simulates_limit (limit limit' : Z) (s : heap * list cell) : malloc_end s.1 + 32 <= limit' -> simulates limit s -> simulates limit' s.
Proof. intros He (F & U & Hrep & _ & Hl). by exists F, U. Qed.

Lemma run_simulates (ops : list (Z * op)) : Forall (fun o => valid o.2) ops ->
  forall limit s, simulates limit s -> gaps hi ops s = true -> owp (run ops s) (fun s' => exists limit', simulates limit' s').
Proof.
  induction 1 as [|[l o] ops Ho Hv IH]; intros limit s Hs Hg; cbn [run gaps] in *; [by exists limit|].
  rewrite !andb_true_iff, !Z.leb_le in Hg. destruct Hg as [[H1 H2] Hg].
  pose proof (step_simulates l o s H2 Ho (simulates_limit limit l s H1 Hs)) as Hst.
  destruct (step l o s) as [s'| |]; [|done|done]. by apply (IH l).
Qed.

(** From one frame the client cannot run into the gap. *)
Lemma gaps_constant (limit : Z) (ops : list op) : limit <= hi -> Forall valid ops ->
  forall s, simulates limit s -> gaps hi (pair limit <$> ops) s = true.
Proof.
  intros Hlim. induction 1 as [|o ops Ho Hv IH]; intros s Hs; cbn [fmap list_fmap gaps]; [done|].
  pose proof (step_simulates limit o s Hlim Ho Hs) as Hst. pose proof Hs as (F & U & _ & He & _).
  rewrite !andb_true_iff, !Z.leb_le. split; [done|]. destruct (step limit o s) as [s'| |]; [by apply IH|done|done].
Qed.

(** What the ledger says of the blocks. *)
Definition cell_ok (h : heap) (c : cell) : Prop :=
  ptr c mod 8 = 0 /\ start <= ptr c /\ ptr c + len c <= malloc_end h /\
  forall i v, data c !! i = Some v -> hmem h !! (ptr c + i) = Some v.

Definition cells_apart (c c' : cell) : Prop := ptr c + len c <= ptr c' - 8 \/ ptr c' + len c' <= ptr c - 8.

Lemma simulates_cells (limit : Z) (h : heap) (live : list cell) : simulates limit (h, live) ->
  Forall (cell_ok h) live /\ ForallOrdPairs cells_apart live.
Proof.
  intros (F & U & Hrep & He & Hl). simpl in *. pose proof Hrep as ([Hp _] & _). destruct Hp as (Hf & Hd & _).
  apply Forall_app in Hf as [_ HU].
  assert (ForallOrdPairs disj U) as HdU.
  { clear -Hd. induction F as [|x F IH]; [done|]. apply IH. by inversion Hd. }
  clear Hd Hrep. induction Hl as [|c x live U (Hc & Hlen & Hdat) Hl IH]; [split; constructor|].
  inversion_clear HU as [|? ? Hx HU']. inversion_clear HdU as [|? ? Hxd HdU']. destruct (IH HU' HdU') as [IH1 IH2].
  unfold fits, top in Hx. split; constructor; [|done| |done].
  - split_and!; [|lia|lia|by intros i v Hi; apply (Hdat i v Hi)]. rewrite Hc, Z.add_mod by lia. by destruct Hx as (_ & _ & _ & -> & _).
  - clear -Hc Hlen Hxd Hl. induction Hl as [|c' y live U (Hc' & Hl' & _) Hl IH]; constructor; inversion_clear Hxd as [|? ? Hxy Hxd'].
    + unfold disj, cells_apart, top in *. lia.
    + by apply IH.
Qed.
End Client.

(** Every byte of the blocks of [U] is as it was. *)
Definition keeps (U : list block) (h h' : heap) : Prop := forall a, inside U a -> hmem h' !! a = hmem h !! a.

(** [C39] The allocator implements the abstract one: on every heap that
    represents a partition into free and used blocks and ends at least the
    minimum gap of 32 bytes below the stack, for every size up to 2^64 - 16,
    [malloc] returns NULL
    and changes nothing exactly when [alloc] finds no room, and otherwise
    takes the block [alloc] takes, large enough for the request, and leaves a
    heap that represents the partition [alloc] leaves; [free] of a block in
    use leaves the partition [release] leaves; neither writes a byte of any
    other block in use. *)
Theorem heap_refines (start hi limit : Z) (h : heap) (F U : list block) :
  16 <= start -> start mod 8 = 0 -> hi + 16 < 2 ^ 64 -> limit <= hi -> malloc_end h + 32 <= limit -> rep start hi h F U ->
  (forall sz, 0 <= sz <= 2 ^ 64 - 16 ->
     match alloc limit (REAL_SIZE sz) (malloc_end h) F with
     | Some (y, F', e') => exists h', malloc limit sz h = Ok (y.1 + 8, h') /\ rep start hi h' F' (y :: U) /\ malloc_end h' = e' /\
         sz + 8 <= y.2 /\ keeps U h h'
     | None => malloc limit sz h = Ok (0, h)
     end) /\
  (forall x U', U ≡ₚ x :: U' ->
     exists h', free (x.1 + 8) h = Ok (tt, h') /\ rep start hi h' (release x F) U' /\ malloc_end h' = malloc_end h /\
       keeps U' h h').
Proof.
  intros Hs Ha Hhi Hlim He Hrep. split.
  - intros sz Hsz. pose proof (malloc_spec start hi Hs Ha Hhi h F U limit sz Hrep Hsz He Hlim) as Hspec.
    destruct (alloc limit (REAL_SIZE sz) (malloc_end h) F) as [[[y F'] e']|]; [|done]. naive_solver.
  - intros x U' HU. apply (free_spec start hi Hs Ha Hhi h F U' x). by apply (rep_perm start hi h F U).
Qed.

Lemma initial_simulates (start hi limit : Z) (m : mem) :
  start + 32 <= limit -> limit <= hi -> mapped m start (hi - start) -> simulates start hi limit (initial m start, []).
Proof. intros Hsl Hlim Hm. exists [], []. split_and!; [by apply rep_initial; [lia|]|simpl; lia|constructor]. Qed.

(** [C40] A client that calls [malloc], [calloc], [realloc] and [free] on what
    it holds and writes into it, in any order and from an untouched heap, with
    sizes that do not wrap (below 2^64 - 16) and at stack depths that leave the minimum gap
    of 32 bytes to the heap, never makes the allocator fault or loop; at the
    end every block it holds is aligned, lies in the heap, does not meet
    another, and has every byte that was written to it (or cleared by
    [calloc], or carried over by [realloc]); and when it holds nothing, the
    whole heap is one free block again.  When all requests come from the same
    depth the gap is kept by the allocator itself. *)
Theorem client_safe (start hi : Z) (m : mem) (ops : list (Z * op)) :
  16 <= start -> start mod 8 = 0 -> hi + 16 < 2 ^ 64 -> start + 32 <= hi ->
  mapped m start (hi - start) -> Forall (fun o => valid o.2) ops ->
  (gaps hi ops (initial m start, []) = true ->
   owp (run ops (initial m start, [])) (fun '(h, live) =>
    Forall (cell_ok start h) live /\ ForallOrdPairs cells_apart live /\
    (live = [] -> malloc_end h = start \/
       malloc_freelist h = start /\ ldw (hmem h) start = Ok (malloc_end h - start) /\ ldw (hmem h) (start + 8) = Ok 0))) /\
  (forall limit, start + 32 <= limit <= hi -> Forall (fun o => o.1 = limit) ops -> gaps hi ops (initial m start, []) = true).
Proof.
  intros Hs Ha Hhi Hsl Hm Hv. split.
  - intros Hg. eapply owp_mono; [by apply (run_simulates start hi Hs Ha Hhi ops Hv hi); [apply initial_simulates|]|].
    intros [h live] [limit Hsim]. destruct (simulates_cells start hi limit h live Hsim) as [Hc Hd]. split_and!; [done|done|]. intros ->.
    destruct Hsim as (F & U & Hrep & _ & Hl). inversion Hl; subst. destruct Hrep as (Har & _ & _ & Hseg & _). simpl in *.
    destruct (arena_unused start _ F Har) as [[-> He]| ->]; [by left|right]. simpl in Hseg. destruct Hseg as (-> & Hw & nx & Hn & ->). done.
  - intros limit Hlim Hc. assert (ops = pair limit <$> (snd <$> ops)) as ->.
    { rewrite <- list_fmap_compose. clear -Hc. induction Hc as [|[l o] ops Hl _ IH]; [done|]. cbn in *. by rewrite <- IH, Hl. }
    apply (gaps_constant start hi Hs Ha Hhi limit); [lia| |apply initial_simulates; [lia|lia|done]].
    apply Forall_fmap. exact Hv.
Qed.

(** ** Witnesses *)

Lemma demo_mapped : mapped demo_mem 4096 512.
Proof.
  intros i Hi. assert (allb 512 (fun i => bool_decide (is_Some (demo_mem !! (4096 + i)))) = true) as H by (vm_compute; reflexivity).
  apply (allb_spec 512 _ i) in H; [|lia]. by apply bool_decide_eq_true in H.
Qed.

Lemma heap_refines_witness : exists h', malloc 4608 10 (initial demo_mem 4096) = Ok (4104, h') /\ malloc_end h' = 4120.
Proof.
  destruct (heap_refines 4096 4608 4608 (initial demo_mem 4096) [] []) as [Hm _];
    [lia|reflexivity|vm_compute; reflexivity|lia|simpl; lia|apply rep_initial; [lia|exact demo_mapped]|].
  specialize (Hm 10 ltac:(lia)). destruct Hm as (h' & E & _ & Ee & _). exists h'. split; [exact E|exact Ee].
Defined.

(** The requests come from different depths of the stack. *)
Definition demo_ops : list (Z * op) :=
  [(4608, OMalloc 10); (4480, OMalloc 20); (4608, OStore 0 19 7); (4300, OFree 1); (4512, OMalloc 5); (4512, OStore 0 4 9);
   (4400, ORealloc 0 40); (4416, OCalloc 3 8); (4600, ORealloc 1 2); (4608, OFree 0); (4608, OFree 0); (4608, OFree 0)].

Lemma client_safe_witness :
  owp (run demo_ops (initial demo_mem 4096, []))
    (fun '(h, live) => live = [] -> malloc_end h = 4096 \/
       malloc_freelist h = 4096 /\ ldw (hmem h) 4096 = Ok (malloc_end h - 4096) /\ ldw (hmem h) (4096 + 8) = Ok 0).
Proof.
  assert (gaps 4608 demo_ops (initial demo_mem 4096, []) = true) as Hg by (vm_compute; reflexivity).
  destruct (client_safe 4096 4608 demo_mem demo_ops) as [H _];
    [lia|reflexivity|reflexivity|lia|exact demo_mapped|repeat constructor; simpl; lia|].
  eapply owp_mono; [exact (H Hg)|]. intros [h live] (_ & _ & Hl). exact Hl.
Defined.
End MallocClient.
