(* ===== verification/Dhry.v ===== *)
(** * The Dhrystone benchmark (guests/coremark/dry.c)

    The procedures [Proc_1] to [Proc_8] and the functions [Func_1] to
    [Func_3], the loop that calls them, the repetition until the run is long
    enough to be timed, and the report of the final values.

    The global variables are a record; the two records on the heap are in a
    store by address, since [Proc_1] and [Proc_3] reach them along several
    pointers.  Only the first variant of their union is ever used.  What
    [malloc] returned and left in the records, the arguments and the timer
    readings are inputs.  A procedure that only writes through a reference
    returns what it wrote.  Arithmetic is on [int]: overflow is undefined. *)

From S2P Require Import Prelude.

Module Dhry.

Inductive Enumeration := Ident_1 | Ident_2 | Ident_3 | Ident_4 | Ident_5.

#[global] Instance Enumeration_eq_dec : EqDecision Enumeration.
Proof. solve_decision. Defined.

(** The value of the enumerator, as [%d] prints it. *)
Definition enum_val (e : Enumeration) : Z :=
  match e with Ident_1 => 0 | Ident_2 => 1 | Ident_3 => 2 | Ident_4 => 3 | Ident_5 => 4 end.

Record Rec_Type := Rec { Ptr_Comp : Z; Discr : Enumeration; Enum_Comp : Enumeration; Int_Comp : Z; Str_Comp : list Z }.

Record globals := Globals {
  Ptr_Glob : Z; Next_Ptr_Glob : Z; Int_Glob : Z; Bool_Glob : Z; Ch_1_Glob : Z; Ch_2_Glob : Z;
  Arr_1_Glob : list Z; Arr_2_Glob : list (list Z); store : gmap Z Rec_Type }.

Abbreviation dhry := (ST globals).

Definition set_Int_Glob (x : Z) (g : globals) : globals :=
  Globals (Ptr_Glob g) (Next_Ptr_Glob g) x (Bool_Glob g) (Ch_1_Glob g) (Ch_2_Glob g) (Arr_1_Glob g) (Arr_2_Glob g) (store g).
Definition set_Bool_Glob (x : Z) (g : globals) : globals :=
  Globals (Ptr_Glob g) (Next_Ptr_Glob g) (Int_Glob g) x (Ch_1_Glob g) (Ch_2_Glob g) (Arr_1_Glob g) (Arr_2_Glob g) (store g).
Definition set_Ch_1_Glob (x : Z) (g : globals) : globals :=
  Globals (Ptr_Glob g) (Next_Ptr_Glob g) (Int_Glob g) (Bool_Glob g) x (Ch_2_Glob g) (Arr_1_Glob g) (Arr_2_Glob g) (store g).
Definition set_Ch_2_Glob (x : Z) (g : globals) : globals :=
  Globals (Ptr_Glob g) (Next_Ptr_Glob g) (Int_Glob g) (Bool_Glob g) (Ch_1_Glob g) x (Arr_1_Glob g) (Arr_2_Glob g) (store g).
Definition set_Arrs (a1 : list Z) (a2 : list (list Z)) (g : globals) : globals :=
  Globals (Ptr_Glob g) (Next_Ptr_Glob g) (Int_Glob g) (Bool_Glob g) (Ch_1_Glob g) (Ch_2_Glob g) a1 a2 (store g).
Definition set_store (m : gmap Z Rec_Type) (g : globals) : globals :=
  Globals (Ptr_Glob g) (Next_Ptr_Glob g) (Int_Glob g) (Bool_Glob g) (Ch_1_Glob g) (Ch_2_Glob g) (Arr_1_Glob g) (Arr_2_Glob g) m.

(** [*p] and [*p = r]; NULL and wild pointers are undefined. *)
Definition rec (p : Z) : dhry Rec_Type := g ← st_get; lift (of_option (store g !! p)).
Definition set_rec (p : Z) (r : Rec_Type) : dhry unit :=
  _ ← rec p; st_modify (fun g => set_store (<[p := r]> (store g)) g).

(** Assignments to one component. *)
Definition set_Ptr_Comp (p x : Z) : dhry unit := r ← rec p; set_rec p (Rec x (Discr r) (Enum_Comp r) (Int_Comp r) (Str_Comp r)).
Definition set_Discr (p : Z) (x : Enumeration) : dhry unit := r ← rec p; set_rec p (Rec (Ptr_Comp r) x (Enum_Comp r) (Int_Comp r) (Str_Comp r)).
Definition set_Enum_Comp (p : Z) (x : Enumeration) : dhry unit := r ← rec p; set_rec p (Rec (Ptr_Comp r) (Discr r) x (Int_Comp r) (Str_Comp r)).
Definition set_Int_Comp (p x : Z) : dhry unit := r ← rec p; set_rec p (Rec (Ptr_Comp r) (Discr r) (Enum_Comp r) x (Str_Comp r)).
Definition set_Str_Comp (p : Z) (x : list Z) : dhry unit := r ← rec p; set_rec p (Rec (Ptr_Comp r) (Discr r) (Enum_Comp r) (Int_Comp r) x).

(** [strcpy] of a literal into an array, [strcmp] of two arrays. *)
Definition strcpy (dst src : list Z) : outcome (list Z) :=
  if (length src <=? length dst)%nat then Ok (src ++ drop (length src) dst) else UB.

Fixpoint strcmp (s1 s2 : list Z) : outcome Z :=
  match s1, s2 with
  | c1 :: s1, c2 :: s2 => if negb (c1 =? 0) && (c1 =? c2) then strcmp s1 s2 else Ok (c1 - c2)
  | _, _ => UB
  end.

(** ** Functions *)

Definition Func_1 (Ch_1_Par_Val Ch_2_Par_Val : Z) : dhry Enumeration :=
  let Ch_1_Loc := Ch_1_Par_Val in
  let Ch_2_Loc := Ch_1_Loc in
  if negb (Ch_2_Loc =? Ch_2_Par_Val) then mret Ident_1
  else st_modify (set_Ch_1_Glob Ch_1_Loc);; mret Ident_2.

(** [while (Int_Loc <= 2) if (...)]: the values of [Int_Loc] and [Ch_Loc]. *)
Fixpoint Func_2_loop (fuel : nat) (Str_1_Par_Ref Str_2_Par_Ref : list Z) (Int_Loc : Z) (Ch_Loc : option Z) : dhry (Z * option Z) :=
  if Int_Loc <=? 2 then
    match fuel with
    | O => st_fuel
    | S fuel =>
        c1 ← lift (aget Str_1_Par_Ref Int_Loc); c2 ← lift (aget Str_2_Par_Ref (Int_Loc + 1));
        e ← Func_1 c1 c2;
        if decide (e = Ident_1) then Func_2_loop fuel Str_1_Par_Ref Str_2_Par_Ref (Int_Loc + 1) (Some 65)
        else Func_2_loop fuel Str_1_Par_Ref Str_2_Par_Ref Int_Loc Ch_Loc
    end
  else mret (Int_Loc, Ch_Loc).

Definition Func_2 (Str_1_Par_Ref Str_2_Par_Ref : list Z) : dhry Z :=
  '(Int_Loc, Ch_Loc) ← Func_2_loop 1 Str_1_Par_Ref Str_2_Par_Ref 2 None;
  Ch_Loc ← lift (of_option Ch_Loc);
  let Int_Loc := if (87 <=? Ch_Loc) && (Ch_Loc <? 90) then 7 else Int_Loc in
  if Ch_Loc =? 82 then mret 1 else
  d ← lift (strcmp Str_1_Par_Ref Str_2_Par_Ref);
  if 0 <? d then
    Int_Loc ← lift (sint (Int_Loc + 7)); st_modify (set_Int_Glob Int_Loc);; mret 1
  else mret 0.

Definition Func_3 (Enum_Par_Val : Enumeration) : bool := bool_decide (Enum_Par_Val = Ident_3).

(** ** Procedures *)

(** What is stored through [Int_Par_Ref]. *)
Definition Proc_7 (Int_1_Par_Val Int_2_Par_Val : Z) : outcome Z :=
  Int_Loc ← sint (Int_1_Par_Val + 2); sint (Int_2_Par_Val + Int_Loc).

(** What is stored through [Enum_Ref_Par] in the end. *)
Definition Proc_6 (Enum_Val_Par : Enumeration) : dhry Enumeration :=
  let ref := Enum_Val_Par in
  let ref := if negb (Func_3 Enum_Val_Par) then Ident_4 else ref in
  match Enum_Val_Par with
  | Ident_1 => mret Ident_1
  | Ident_2 => g ← st_get; mret (if 100 <? Int_Glob g then Ident_1 else Ident_4)
  | Ident_3 => mret Ident_2
  | Ident_4 => mret ref
  | Ident_5 => mret Ident_3
  end.

Definition get2 (a : list (list Z)) (i j : Z) : outcome Z := row ← aget a i; aget row j.
Definition set2 (a : list (list Z)) (i j x : Z) : outcome (list (list Z)) := row ← aget a i; row ← aset row j x; aset a i row.

(** The arrays are passed by reference: what they hold in the end. *)
Definition Proc_8 (Arr_1_Par_Ref : list Z) (Arr_2_Par_Ref : list (list Z)) (Int_1_Par_Val Int_2_Par_Val : Z)
    : dhry (list Z * list (list Z)) :=
  Int_Loc ← lift (sint (Int_1_Par_Val + 5));
  a1 ← lift (aset Arr_1_Par_Ref Int_Loc Int_2_Par_Val);
  x ← lift (aget a1 Int_Loc); a1 ← lift (aset a1 (Int_Loc + 1) x);
  a1 ← lift (aset a1 (Int_Loc + 30) Int_Loc);
  a2 ← lift (oloop Int_Loc (Int_Loc + 2) (fun Int_Index a2 => set2 a2 Int_Loc Int_Index Int_Loc) Arr_2_Par_Ref);
  y ← lift (get2 a2 Int_Loc (Int_Loc - 1)); y ← lift (sint (y + 1)); a2 ← lift (set2 a2 Int_Loc (Int_Loc - 1) y);
  x ← lift (aget a1 Int_Loc); a2 ← lift (set2 a2 (Int_Loc + 20) Int_Loc x);
  st_modify (set_Int_Glob 5);; mret (a1, a2).

Definition Proc_5 : dhry unit := st_modify (set_Ch_1_Glob 65);; st_modify (set_Bool_Glob 0).

Definition Proc_4 : dhry unit :=
  g ← st_get;
  let Bool_Loc := if Ch_1_Glob g =? 65 then 1 else 0 in
  st_modify (set_Bool_Glob (Z.lor Bool_Loc (Bool_Glob g)));; st_modify (set_Ch_2_Glob 66).

(** [Ptr_Ref_Par] is the [Ptr_Comp] component of the record at [r]. *)
Definition Proc_3 (r : Z) : dhry unit :=
  g ← st_get;
  (if negb (Ptr_Glob g =? 0) then p ← rec (Ptr_Glob g); set_Ptr_Comp r (Ptr_Comp p) else mret tt);;
  x ← lift (Proc_7 10 (Int_Glob g)); set_Int_Comp (Ptr_Glob g) x.

(** [do if (...) ... while (Enum_Loc != Ident_1)], with [Enum_Loc] not
    initialised: what [*Int_Par_Ref] becomes. *)
Definition Proc_2 (Int_Par_Ref : Z) : dhry Z :=
  Int_Loc ← lift (sint (Int_Par_Ref + 10));
  g ← st_get;
  if Ch_1_Glob g =? 65 then
    Int_Loc ← lift (sint (Int_Loc - 1)); lift (sint (Int_Loc - Int_Glob g))
  else st_ub.

Definition Proc_1 (Ptr_Val_Par : Z) : dhry unit :=
  v ← rec Ptr_Val_Par;
  let Next_Record := Ptr_Comp v in
  g ← st_get; r ← rec (Ptr_Glob g); set_rec Next_Record r;;
  set_Int_Comp Ptr_Val_Par 5;;
  v ← rec Ptr_Val_Par; set_Int_Comp Next_Record (Int_Comp v);;
  v ← rec Ptr_Val_Par; set_Ptr_Comp Next_Record (Ptr_Comp v);;
  Proc_3 Next_Record;;
  n ← rec Next_Record;
  if decide (Discr n = Ident_1) then
    set_Int_Comp Next_Record 6;;
    v ← rec Ptr_Val_Par; e ← Proc_6 (Enum_Comp v); set_Enum_Comp Next_Record e;;
    g ← st_get; r ← rec (Ptr_Glob g); set_Ptr_Comp Next_Record (Ptr_Comp r);;
    n ← rec Next_Record; x ← lift (Proc_7 (Int_Comp n) 10); set_Int_Comp Next_Record x
  else
    v ← rec Ptr_Val_Par; r ← rec (Ptr_Comp v); set_rec Ptr_Val_Par r.

(** ** The measured loop *)

Record locals := Locals { Int_1_Loc : Z; Int_2_Loc : Z; Int_3_Loc : Z; Enum_Loc : Enumeration; Str_1_Loc : list Z; Str_2_Loc : list Z }.

Definition NUMBER_OF_RUNS : Z := 50000.

Definition SOME_STRING : list Z := cstr "DHRYSTONE PROGRAM, SOME STRING".
Definition STRING_1 : list Z := cstr "DHRYSTONE PROGRAM, 1'ST STRING".
Definition STRING_2 : list Z := cstr "DHRYSTONE PROGRAM, 2'ND STRING".
Definition STRING_3 : list Z := cstr "DHRYSTONE PROGRAM, 3'RD STRING".

(** [while (Int_1_Loc < Int_2_Loc)]: the final [Int_1_Loc] and [Int_3_Loc]. *)
Fixpoint while_loop (fuel : nat) (i1 i2 i3 : Z) : outcome (Z * Z) :=
  if i1 <? i2 then
    match fuel with
    | O => Fuel
    | S fuel =>
        t ← sint (5 * i1); _ ← sint (t - i2);
        i3 ← Proc_7 i1 i2;
        i1 ← sint (i1 + 1); while_loop fuel i1 i2 i3
    end
  else Ok (i1, i3).

(** [for (Ch_Index = 'A'; Ch_Index <= Ch_2_Glob; ++Ch_Index)]. *)
Fixpoint ch_loop (fuel : nat) (Run_Index Ch_Index : Z) (l : locals) : dhry locals :=
  g ← st_get;
  if Ch_Index <=? Ch_2_Glob g then
    match fuel with
    | O => st_fuel
    | S fuel =>
        e ← Func_1 Ch_Index 67;
        l ← (if decide (Enum_Loc l = e) then
               e ← Proc_6 Ident_1; s ← lift (strcpy (Str_2_Loc l) STRING_3);
               st_modify (set_Int_Glob Run_Index);;
               mret (Locals (Int_1_Loc l) Run_Index (Int_3_Loc l) e (Str_1_Loc l) s)
             else mret l);
        ch_loop fuel Run_Index (u8 (Ch_Index + 1)) l
    end
  else mret l.

Definition run_once (Run_Index : Z) (l : locals) : dhry locals :=
  Proc_5;; Proc_4;;
  s2 ← lift (strcpy (Str_2_Loc l) STRING_2);
  b ← Func_2 (Str_1_Loc l) s2; st_modify (set_Bool_Glob (if b =? 0 then 1 else 0));;
  '(i1, i3) ← lift (while_loop 1 2 3 (Int_3_Loc l));
  g ← st_get; '(a1, a2) ← Proc_8 (Arr_1_Glob g) (Arr_2_Glob g) i1 i3; st_modify (set_Arrs a1 a2);;
  g ← st_get; Proc_1 (Ptr_Glob g);;
  l ← ch_loop 256 Run_Index 65 (Locals i1 3 i3 Ident_2 (Str_1_Loc l) s2);
  i2 ← lift (sint (Int_2_Loc l * Int_1_Loc l));
  i1 ← lift (sdiv i2 (Int_3_Loc l));
  d ← lift (sint (i2 - Int_3_Loc l)); t ← lift (sint (7 * d)); i2 ← lift (sint (t - i1));
  i1 ← Proc_2 i1;
  mret (Locals i1 i2 (Int_3_Loc l) (Enum_Loc l) (Str_1_Loc l) (Str_2_Loc l)).

(** [for (Run_Index = 1; Run_Index <= Number_Of_Runs; ++Run_Index)]. *)
Fixpoint runs (n : nat) (Run_Index : Z) (l : locals) : dhry locals :=
  match n with
  | O => mret l
  | S n => l ← run_once Run_Index l; runs n (Run_Index + 1) l
  end.

(** [while (!Done)]: the timer readings before and after every attempt are
    given, in the unit of [HZ]; the number of runs of the last attempt. *)
Definition Too_Small_Time (HZ : Z) : Z := 2 * HZ.

Fixpoint attempts (HZ : Z) (timer : list (Z * Z)) (Number_Of_Runs : Z) (l : locals) : dhry (locals * Z) :=
  match timer with
  | [] => st_fuel
  | (Begin_Time, End_Time) :: timer =>
      l ← runs (Z.to_nat Number_Of_Runs) 1 l;
      if End_Time - Begin_Time <? Too_Small_Time HZ then
        n ← lift (sint (Number_Of_Runs * 10)); attempts HZ timer n l
      else mret (l, Number_Of_Runs)
  end.

(** ** Start and report *)

(** The records after the initialisation, at the addresses [malloc] gave. *)
Definition init_records (next ptr : Z) : dhry unit :=
  set_Ptr_Comp ptr next;; set_Discr ptr Ident_1;; set_Enum_Comp ptr Ident_3;; set_Int_Comp ptr 40;;
  r ← rec ptr; s ← lift (strcpy (Str_Comp r) SOME_STRING); set_Str_Comp ptr s.

Definition init (next ptr : Z) (l : locals) : dhry locals :=
  st_modify (fun g => Globals ptr next (Int_Glob g) (Bool_Glob g) (Ch_1_Glob g) (Ch_2_Glob g) (Arr_1_Glob g) (Arr_2_Glob g) (store g));;
  init_records next ptr;;
  s1 ← lift (strcpy (Str_1_Loc l) STRING_1);
  g ← st_get; a2 ← lift (set2 (Arr_2_Glob g) 8 7 10); st_modify (set_Arrs (Arr_1_Glob g) a2);;
  mret (Locals (Int_1_Loc l) (Int_2_Loc l) (Int_3_Loc l) (Enum_Loc l) s1 (Str_2_Loc l)).

(** A line of the report: what it shows and what it says it should be. *)
Inductive value := VInt (x : Z) | VStr (s : list Z).
Record report_line := Line { label : String.string; shown : value; should_be : value }.

Open Scope string_scope.

Definition report (Number_Of_Runs : Z) (l : locals) : dhry (list report_line) :=
  g ← st_get; p ← rec (Ptr_Glob g); n ← rec (Next_Ptr_Glob g);
  a1 ← lift (aget (Arr_1_Glob g) 8); a2 ← lift (get2 (Arr_2_Glob g) 8 7);
  mret [ Line "Int_Glob" (VInt (Int_Glob g)) (VInt 5);
         Line "Bool_Glob" (VInt (Bool_Glob g)) (VInt 1);
         Line "Ch_1_Glob" (VInt (Ch_1_Glob g)) (VInt 65);
         Line "Ch_2_Glob" (VInt (Ch_2_Glob g)) (VInt 66);
         Line "Arr_1_Glob[8]" (VInt a1) (VInt 7);
         Line "Arr_2_Glob[8][7]" (VInt a2) (VInt (Number_Of_Runs + 10));
         Line "Ptr_Glob->Discr" (VInt (enum_val (Discr p))) (VInt 0);
         Line "Ptr_Glob->Enum_Comp" (VInt (enum_val (Enum_Comp p))) (VInt 2);
         Line "Ptr_Glob->Int_Comp" (VInt (Int_Comp p)) (VInt 17);
         Line "Ptr_Glob->Str_Comp" (VStr (Str_Comp p)) (VStr SOME_STRING);
         Line "Next_Ptr_Glob->Ptr_Comp" (VInt (Ptr_Comp n)) (VInt (Ptr_Comp p));
         Line "Next_Ptr_Glob->Discr" (VInt (enum_val (Discr n))) (VInt 0);
         Line "Next_Ptr_Glob->Enum_Comp" (VInt (enum_val (Enum_Comp n))) (VInt 1);
         Line "Next_Ptr_Glob->Int_Comp" (VInt (Int_Comp n)) (VInt 18);
         Line "Next_Ptr_Glob->Str_Comp" (VStr (Str_Comp n)) (VStr SOME_STRING);
         Line "Int_1_Loc" (VInt (Int_1_Loc l)) (VInt 5);
         Line "Int_2_Loc" (VInt (Int_2_Loc l)) (VInt 13);
         Line "Int_3_Loc" (VInt (Int_3_Loc l)) (VInt 7);
         Line "Enum_Loc" (VInt (enum_val (Enum_Loc l))) (VInt 1);
         Line "Str_1_Loc" (VStr (Str_1_Loc l)) (VStr STRING_1);
         Line "Str_2_Loc" (VStr (Str_2_Loc l)) (VStr STRING_2) ].

Close Scope string_scope.

(** [main]: [None] is the exit with the usage message; [args] are the values
    of the arguments, [next] and [ptr] the results of [malloc], [l] the
    uninitialised locals. *)
Definition main (args : list Z) (next ptr HZ : Z) (timer : list (Z * Z)) (l : locals) : dhry (option (list report_line)) :=
  match args with
  | _ :: _ :: _ => mret None
  | _ =>
      let Number_Of_Runs := match args with [a] => a | _ => NUMBER_OF_RUNS end in
      let Number_Of_Runs := if Number_Of_Runs <=? 0 then NUMBER_OF_RUNS else Number_Of_Runs in
      l ← init next ptr l;
      '(l, n) ← attempts HZ timer Number_Of_Runs l;
      r ← report n l; mret (Some r)
  end.

(** Three runs, timed at once. *)
Definition blank : Rec_Type := Rec 0 Ident_5 Ident_5 0 (replicate 31 9).
Definition blank_globals : globals :=
  Globals 0 0 0 0 0 0 (replicate 50 0) (replicate 50 (replicate 50 0)) {[ 64 := blank; 128 := blank ]}.
Definition blank_locals : locals := Locals 0 0 0 Ident_5 (replicate 31 9) (replicate 31 9).

Example demo : (match main [3] 64 128 100 [(0, 200)] blank_locals blank_globals with
                | Ok (Some r, _) => forallb (fun x => match shown x, should_be x with
                                                      | VInt a, VInt b => a =? b
                                                      | VStr a, VStr b => bool_decide (a = b)
                                                      | _, _ => false end) r
                | _ => false end) = true.
Proof. vm_compute. reflexivity. Qed.
End Dhry.
