(* ===== verification/DhrySpec.v ===== *)
(** * Dhrystone: every run leaves the values the report expects

    The arrays, the records and the strings are followed through one run of
    the measured loop; the state a run leaves is the one it can start from,
    so any number of runs and of timing attempts ends in it. *)

From S2P Require Import Prelude.
From S2P Require Import Dhry.

Module DhrySpec.
Import Dhry.

(** ** The arrays *)

Definition square (a2 : list (list Z)) : Prop :=
  length a2 = 50%nat /\ Forall (fun row => length row = 50%nat) a2.

Lemma get2_ok (a2 : list (list Z)) (i j : Z) :
  square a2 -> 0 <= i < 50 -> 0 <= j < 50 -> exists x, get2 a2 i j = Ok x.
Proof.
  intros [Hl Hr] Hi Hj. unfold get2.
  destruct (aget_in_range a2 i) as (row & Hrow & ->); [lia|]. cbn [mbind outcome_bind].
  destruct (aget_in_range row j) as (x & _ & ->); [|by eauto].
  pose proof (Forall_lookup_1 _ _ _ _ Hr Hrow). simpl in *. lia.
Qed.

Lemma set2_wp (a2 : list (list Z)) (i j x : Z) :
  square a2 -> 0 <= i < 50 -> 0 <= j < 50 ->
  owp (set2 a2 i j x) (fun a => square a /\
    forall i' j', 0 <= i' -> 0 <= j' -> get2 a i' j' = if decide (i' = i /\ j' = j) then Ok x else get2 a2 i' j').
Proof.
  intros [Hl Hr] Hi Hj. unfold set2.
  destruct (aget_in_range a2 i) as (row & Hrow & ->); [lia|].
  pose proof (Forall_lookup_1 _ _ _ _ Hr Hrow) as Hlen. cbn [mbind outcome_bind] in *. simpl in Hlen.
  rewrite aset_in_range by lia. cbn [mbind outcome_bind]. rewrite aset_in_range by lia. cbn [owp].
  split; [split; [by rewrite length_insert|apply Forall_insert; [done|by rewrite length_insert]]|].
  intros i' j' Hi' Hj'. unfold get2, aget. rewrite !(proj2 (Z.leb_le _ _)) by lia.
  destruct (decide (i' = i)) as [->|Hne].
  - rewrite list_lookup_insert_eq by lia. rewrite Hrow. cbn [of_option mbind outcome_bind].
    destruct (decide (j' = j)) as [->|Hne].
    + rewrite list_lookup_insert_eq by lia. by rewrite decide_True.
    + rewrite list_lookup_insert_ne by lia. rewrite decide_False by naive_solver. done.
  - rewrite list_lookup_insert_ne by lia. rewrite decide_False by naive_solver. done.
Qed.

(** What [Proc_8 (Arr_1_Glob, Arr_2_Glob, 3, 7)] does to the two elements the
    report shows. *)
Lemma Proc_8_wp (a1 : list Z) (a2 : list (list Z)) (c : Z) (g : globals) :
  length a1 = 50%nat -> square a2 -> get2 a2 8 7 = Ok c -> in_s 32 (c + 1) ->
  wp (Proc_8 a1 a2 3 7) (fun r g' => g' = set_Int_Glob 5 g /\ length (r.1) = 50%nat /\ square (r.2) /\
    aget (r.1) 8 = Ok 7 /\ get2 (r.2) 8 7 = Ok (c + 1)) g.
Proof.
  intros H1 H2 Hc Hs. unfold Proc_8. change (sint (3 + 5)) with (Ok 8 : outcome Z).
  wp_step. wp_step. wp_step. wp_step. wp_step. rewrite aset_in_range by lia. red.
  wp_step. wp_step. rewrite (aget_Some _ 8 7) by (try lia; apply list_lookup_insert_eq; lia). red.
  wp_step. wp_step. rewrite aset_in_range by (rewrite length_insert; lia). red.
  wp_step. wp_step. rewrite aset_in_range by (rewrite !length_insert; lia). red.
  set (b1 := <[Z.to_nat (8 + 30) := 8]> _).
  assert (length b1 = 50%nat) as Hb by (unfold b1; by rewrite !length_insert).
  assert (aget b1 8 = Ok 7) as Hb8.
  { apply aget_Some; [lia|]. unfold b1. rewrite !list_lookup_insert_ne by lia. apply list_lookup_insert_eq. lia. }
  wp_step. wp_step.
  eapply owp_mono; [apply (oloop_inv _ _ _ (fun _ a => square a /\ get2 a 8 7 = Ok c)); [lia|done|]|].
  { intros i a Hi [Ha Hg]. eapply owp_mono; [apply set2_wp; [done|lia|lia]|].
    intros a' [Ha' Hg']. split; [done|]. rewrite Hg' by lia. rewrite decide_False by lia. done. }
  intros b2 [Hb2 Hg2].
  wp_step. wp_step. change (8 - 1) with 7. rewrite Hg2. red. wp_step. wp_step. rewrite sint_ok by done. red.
  wp_step. wp_step. eapply owp_mono; [apply set2_wp; [done|lia|lia]|]. intros b3 [Hb3 Hg3].
  wp_step. wp_step. rewrite Hb8. red. wp_step. wp_step.
  eapply owp_mono; [apply set2_wp; [done|lia|lia]|]. intros b4 [Hb4 Hg4].
  wp_step. wp_step. wp_step. simpl.
  split_and!; try done. rewrite Hg4 by lia. rewrite decide_False by lia. rewrite Hg3 by lia. by rewrite decide_True.
Qed.

(** ** The records *)

Definition ptr_rec (next k : Z) : Rec_Type := Rec next Ident_1 Ident_3 k SOME_STRING.
Definition next_rec (next : Z) : Rec_Type := Rec next Ident_1 Ident_2 18 SOME_STRING.

Lemma rec_wp (p : Z) (r : Rec_Type) (Q : Rec_Type -> globals -> Prop) (g : globals) :
  store g !! p = Some r -> Q r g -> wp (rec p) Q g.
Proof. intros Hp HQ. unfold rec, wp, mbind, ST_bind, st_get, lift. by rewrite Hp. Qed.

Lemma set_rec_wp (p : Z) (r r' : Rec_Type) (Q : unit -> globals -> Prop) (g : globals) :
  store g !! p = Some r' -> Q tt (set_store (<[p := r]> (store g)) g) -> wp (set_rec p r) Q g.
Proof. intros Hp HQ. unfold set_rec. wp_step. eapply rec_wp; [done|]. by wp_step. Qed.

Lemma lift_wp {S A} (o : outcome A) (x : A) (Q : A -> S -> Prop) (s : S) : o = Ok x -> Q x s -> wp (lift o) Q s.
Proof. by intros ->. Qed.

Lemma strcpy_whole (dst src : list Z) : length src = length dst -> strcpy dst src = Ok src.
Proof.
  intros Hl. unfold strcpy. rewrite Hl, Nat.leb_refl, drop_all. by rewrite app_nil_r.
Qed.

(** Lookups of the two records after assignments to either. *)
Ltac on_store :=
  cbn [store set_store];
  repeat first [ rewrite lookup_insert_eq | rewrite lookup_insert_ne by congruence ]; eassumption || reflexivity.
Ltac rec_step :=
  lazymatch goal with
  | |- wp (rec _) _ _ => eapply rec_wp; [on_store|]
  | |- wp (set_rec _ _) _ _ => eapply set_rec_wp; [on_store|]
  | |- wp (set_Ptr_Comp _ _) _ _ => unfold set_Ptr_Comp
  | |- wp (set_Discr _ _) _ _ => unfold set_Discr
  | |- wp (set_Enum_Comp _ _) _ _ => unfold set_Enum_Comp
  | |- wp (set_Int_Comp _ _) _ _ => unfold set_Int_Comp
  | |- wp (set_Str_Comp _ _) _ _ => unfold set_Str_Comp
  | |- wp (lift _) _ _ => eapply lift_wp; [first [by apply strcpy_whole | vm_compute; reflexivity]|]
  | |- _ => wp_step
  end; cbn [store set_store Ptr_Comp Discr Enum_Comp Int_Comp Str_Comp Ptr_Glob Next_Ptr_Glob Int_Glob].

Lemma Proc_1_wp (ptr next k : Z) (r : Rec_Type) (g : globals) :
  ptr <> next -> ptr <> 0 -> Ptr_Glob g = ptr -> Int_Glob g = 5 ->
  store g !! ptr = Some (ptr_rec next k) -> store g !! next = Some r ->
  wp (Proc_1 ptr) (fun _ g' => exists m, g' = set_store m g /\ m !! ptr = Some (ptr_rec next 17) /\ m !! next = Some (next_rec next)) g.
Proof.
  intros Hne Hn0 HP HI Hp Hn. destruct g as [P N I B C1 C2 A1 A2 m]. cbn in HP, HI, Hp, Hn. subst P I.
  unfold Proc_1, Proc_3, ptr_rec in *. cbn [Ptr_Glob].
  repeat rec_step. rewrite (proj2 (Z.eqb_neq ptr 0)) by done. cbn [negb].
  repeat rec_step. rewrite decide_True by done. unfold Proc_6, Func_3.
  repeat rec_step.
  eexists. split; [reflexivity|]. split; on_store.
Qed.

(** ** One run *)

(** What a run needs of the globals, and what it leaves in them; [c] is the
    element [Arr_2_Glob[8][7]]. *)
Definition ready (ptr next c : Z) (g : globals) : Prop :=
  Ptr_Glob g = ptr /\ Next_Ptr_Glob g = next /\ length (Arr_1_Glob g) = 50%nat /\ square (Arr_2_Glob g) /\
  get2 (Arr_2_Glob g) 8 7 = Ok c /\
  (exists k, store g !! ptr = Some (ptr_rec next k)) /\ (exists r, store g !! next = Some r).

Definition settled (ptr next c : Z) (g : globals) : Prop :=
  ready ptr next c g /\ Int_Glob g = 5 /\ Bool_Glob g = 1 /\ Ch_1_Glob g = 65 /\ Ch_2_Glob g = 66 /\
  aget (Arr_1_Glob g) 8 = Ok 7 /\
  store g !! ptr = Some (ptr_rec next 17) /\ store g !! next = Some (next_rec next).

Definition final_locals : locals := Locals 5 13 7 Ident_2 STRING_1 STRING_2.

(** The two iterations of the loop over [Ch_Index] change nothing. *)
Lemma ch_loop_idle (i : Z) (l : locals) (g : globals) :
  Enum_Loc l = Ident_2 -> Ch_2_Glob g = 66 -> ch_loop 256 i 65 l g = Ok (l, g).
Proof.
  intros He Hc. destruct l as [? ? ? e ? ?]. cbn in He. subst e. destruct g as [P N I B C1 C2 A1 A2 m]. cbn in Hc. subst C2.
  reflexivity.
Qed.

Lemma wp_eq {S A} (m : ST S A) (a : A) (s s' : S) (Q : A -> S -> Prop) : m s = Ok (a, s') -> Q a s' -> wp m Q s.
Proof. unfold wp. by intros ->. Qed.

Section Run.
Variables ptr next : Z.
Hypothesis Hne : ptr <> next.
Hypothesis Hn0 : ptr <> 0.

Lemma run_once_wp (i c : Z) (l : locals) (g : globals) :
  ready ptr next c g -> in_s 32 (c + 1) -> Str_1_Loc l = STRING_1 -> length (Str_2_Loc l) = 31%nat ->
  wp (run_once i l) (fun l' g' => l' = final_locals /\ settled ptr next (c + 1) g') g.
Proof.
  intros (HP & HN & H1 & H2 & Hc & [k Hk] & [r Hr]) Hs Hs1 Hs2.
  destruct g as [P N I B C1 C2 A1 A2 m]. cbn [Ptr_Glob Next_Ptr_Glob Arr_1_Glob Arr_2_Glob store] in *. subst P N.
  destruct l as [x1 x2 x3 xe s1 s2]. cbn [Str_1_Loc Str_2_Loc] in *. subst s1.
  unfold run_once, Proc_5, Proc_4. cbn [Str_1_Loc Str_2_Loc Int_3_Loc].
  wp_step. eapply wp_eq; [reflexivity|]. wp_step. eapply wp_eq; [reflexivity|].
  wp_step. eapply lift_wp; [by apply strcpy_whole|].
  wp_step. eapply wp_eq; [vm_compute; reflexivity|]. wp_step. eapply wp_eq; [reflexivity|].
  wp_step. eapply lift_wp; [vm_compute; reflexivity|]. cbv beta iota. wp_step. wp_step.
  cbn [Ptr_Glob Next_Ptr_Glob Arr_1_Glob Arr_2_Glob store set_Bool_Glob]. wp_step.
  eapply wp_mono; [by apply Proc_8_wp|]. intros [a1 a2] g' (-> & Ha1 & Ha2 & Ha8 & Hac). cbn [fst snd] in *.
  wp_step. wp_step. wp_step. wp_step. wp_step.
  cbn [set_Bool_Glob set_Int_Glob set_Arrs Ptr_Glob Next_Ptr_Glob Arr_1_Glob Arr_2_Glob Ch_1_Glob Ch_2_Glob Bool_Glob store].
  eapply wp_mono; [eapply (Proc_1_wp ptr next k r); done|]. intros [] g' (m' & -> & Hp' & Hn').
  wp_step. eapply wp_eq; [by apply ch_loop_idle|]. cbn [Int_1_Loc Int_2_Loc Int_3_Loc Enum_Loc Str_1_Loc Str_2_Loc].
  do 5 (wp_step; eapply lift_wp; [vm_compute; reflexivity|]).
  wp_step. eapply wp_eq; [reflexivity|]. wp_step.
  split; [reflexivity|]. unfold settled, ready. cbn. naive_solver.
Qed.

Lemma settled_ready (c : Z) (g : globals) : settled ptr next c g -> ready ptr next c g.
Proof. by intros [H _]. Qed.

(** Any positive number of runs. *)
Lemma runs_wp (n : nat) (i c : Z) (l : locals) (g : globals) :
  ready ptr next c g -> 0 <= c -> c + Z.of_nat (S n) < 2 ^ 31 -> Str_1_Loc l = STRING_1 -> length (Str_2_Loc l) = 31%nat ->
  wp (runs (S n) i l) (fun l' g' => l' = final_locals /\ settled ptr next (c + Z.of_nat (S n)) g') g.
Proof.
  revert i c l g. induction n as [|n IH]; intros i c l g Hg Hc Hs H1 H2.
  - cbn [runs]. wp_step. eapply wp_mono; [apply run_once_wp; [done|unfold in_s; lia|done|done]|].
    intros l' g' [-> Hg']. wp_step. done.
  - change (runs (S (S n)) i l) with (run_once i l ≫= runs (S n) (i + 1)). wp_step.
    eapply wp_mono; [apply run_once_wp; [done|unfold in_s; lia|done|done]|].
    intros l' g' [-> Hg']. eapply wp_mono; [apply (IH _ (c + 1)); try done; [by apply settled_ready|lia|lia]|].
    intros l' g'' [-> Hg'']. split; [done|]. by replace (c + Z.of_nat (S (S n))) with (c + 1 + Z.of_nat (S n)) by lia.
Qed.

(** The runs made by [k] attempts that were too short and the one that was
    not, starting with [n] runs. *)
Fixpoint total (n : Z) (k : nat) : Z := match k with O => n | S k => n + total (n * 10) k end.

Lemma total_ge (n : Z) (k : nat) : 0 < n -> n * 10 ^ Z.of_nat k <= total n k.
Proof.
  revert n. induction k as [|k IH]; intros n Hn; [cbn; lia|]. cbn [total].
  rewrite Nat2Z.inj_succ, Z.pow_succ_r by lia. pose proof (IH (n * 10) ltac:(lia)). lia.
Qed.

Lemma attempts_wp (HZ b e : Z) (short rest : list (Z * Z)) (n c : Z) (l : locals) (g : globals) :
  ready ptr next c g -> 0 <= c -> 0 < n -> c + total n (length short) < 2 ^ 31 ->
  Str_1_Loc l = STRING_1 -> length (Str_2_Loc l) = 31%nat ->
  Forall (fun t => t.2 - t.1 < Too_Small_Time HZ) short -> Too_Small_Time HZ <= e - b ->
  wp (attempts HZ (short ++ (b, e) :: rest) n l)
     (fun r g' => r = (final_locals, n * 10 ^ Z.of_nat (length short)) /\ settled ptr next (c + total n (length short)) g') g.
Proof.
  intros Hg Hc Hn Hs H1 H2 Hsh He. revert n c l g Hg Hc Hn Hs H1 H2.
  induction Hsh as [|[b' e'] short Hlt Hsh IH]; intros n c l g Hg Hc Hn Hs H1 H2.
  - cbn [attempts app length total] in *. destruct (Z.to_nat n) as [|n'] eqn:En; [lia|]. wp_step.
    eapply wp_mono; [apply (runs_wp _ _ c); [done|lia|lia|done|done]|]. intros l' g' [-> Hg'].
    rewrite (proj2 (Z.ltb_ge _ _)) by done. wp_step. rewrite <-En, Z2Nat.id in Hg' by lia.
    split; [f_equal; lia|done].
  - cbn [attempts app length total fst snd] in *. destruct (Z.to_nat n) as [|n'] eqn:En; [lia|].
    pose proof (total_ge (n * 10) (length short) ltac:(lia)) as Hge.
    pose proof (Z.pow_pos_nonneg 10 (Z.of_nat (length short)) ltac:(lia) ltac:(lia)) as Hpow.
    assert (n * 10 <= total (n * 10) (length short)) as Hle by nia.
    wp_step. eapply wp_mono; [apply (runs_wp _ _ c); [done|lia|lia|done|done]|]. intros l' g' [-> Hg'].
    rewrite (proj2 (Z.ltb_lt _ _)) by done. wp_step. eapply lift_wp; [apply sint_ok; unfold in_s; lia|].
    rewrite <-En, Z2Nat.id in Hg' by lia.
    eapply wp_mono; [apply (IH (n * 10) (c + n)); try done; [by apply settled_ready|lia|lia|lia]|].
    intros r g'' [-> Hg'']. rewrite Nat2Z.inj_succ, Z.pow_succ_r by lia. split; [f_equal; lia|].
    by replace (c + (n + total (n * 10) (length short))) with (c + n + total (n * 10) (length short)) by lia.
Qed.
End Run.

(** ** The program *)

(** The number of runs the arguments ask for. *)
Definition runs_asked (args : list Z) : Z :=
  match args with [a] => if a <=? 0 then NUMBER_OF_RUNS else a | _ => NUMBER_OF_RUNS end.

(** What [malloc] and the uninitialised storage must be like. *)
Definition fresh (ptr next : Z) (g : globals) (l : locals) : Prop :=
  ptr <> next /\ ptr <> 0 /\ length (Arr_1_Glob g) = 50%nat /\ square (Arr_2_Glob g) /\
  (exists r, store g !! ptr = Some r /\ length (Str_Comp r) = 31%nat) /\ (exists r, store g !! next = Some r) /\
  length (Str_1_Loc l) = 31%nat /\ length (Str_2_Loc l) = 31%nat.

Lemma init_wp (ptr next : Z) (l : locals) (g : globals) :
  fresh ptr next g l ->
  wp (init next ptr l) (fun l' g' => ready ptr next 10 g' /\ Str_1_Loc l' = STRING_1 /\ length (Str_2_Loc l') = 31%nat) g.
Proof.
  intros (Hne & Hn0 & H1 & H2 & (r & Hr & Hl) & (r' & Hr') & Hs1 & Hs2).
  destruct g as [P N I B C1 C2 A1 A2 m]. cbn in *. destruct r as [p d e i s]. cbn in Hl.
  unfold init, init_records. repeat rec_step. apply wp_lift. cbn [Arr_2_Glob set_store].
  eapply owp_mono; [apply set2_wp; [done|lia|lia]|]. intros a2 [Ha2 Hg2]. repeat rec_step.
  split; [|done]. unfold ready. cbn [Ptr_Glob Next_Ptr_Glob Arr_1_Glob Arr_2_Glob store set_store set_Arrs].
  split_and!; try done; [by rewrite Hg2 by lia|exists 40; on_store|exists r'; on_store].
Qed.

(** A line that shows what it says it should be. *)
Definition as_expected (x : report_line) : Prop := shown x = should_be x.

Open Scope string_scope.

(** The report of a settled state: one line depends on how many runs were
    made and how many the last attempt had. *)
Lemma report_wp (ptr next c n : Z) (g : globals) :
  settled ptr next c g ->
  wp (report n final_locals) (fun ls _ => length ls = 21%nat /\ (exists x, x ∈ ls /\ label x = "Arr_2_Glob[8][7]") /\
    forall x, x ∈ ls -> if decide (label x = "Arr_2_Glob[8][7]") then shown x = VInt c /\ should_be x = VInt (n + 10) else as_expected x) g.
Proof.
  intros ((HP & HN & H1 & H2 & Hc & _) & HI & HB & HC1 & HC2 & H8 & Hp & Hn).
  destruct g as [P N I B C1 C2 A1 A2 m].
  cbn [Ptr_Glob Next_Ptr_Glob Int_Glob Bool_Glob Ch_1_Glob Ch_2_Glob Arr_1_Glob Arr_2_Glob store] in *. subst.
  unfold report. wp_step. wp_step. wp_step. eapply rec_wp; [done|]. wp_step. eapply rec_wp; [done|].
  wp_step. eapply lift_wp; [done|]. wp_step. eapply lift_wp; [done|]. wp_step. split; [done|]. split; [eexists; split; [do 5 apply list_elem_of_further; apply list_elem_of_here|done]|].
  rewrite <-Forall_forall. repeat (constructor; [by vm_compute|]). constructor.
Qed.

Lemma total_last (n : Z) (k : nat) : 0 < n -> total n k = n * 10 ^ Z.of_nat k <-> k = O.
Proof.
  intros Hn. split; [|intros ->; cbn; lia]. destruct k as [|k]; [done|]. cbn [total].
  pose proof (total_ge (n * 10) k). rewrite Nat2Z.inj_succ, Z.pow_succ_r by lia. lia.
Qed.

Lemma runs_asked_pos (args : list Z) : 0 < runs_asked args.
Proof. destruct args as [|a [|]]; cbn; try done. zcases; [done|lia]. Qed.

Lemma main_wp (args : list Z) (ptr next HZ b e : Z) (short rest : list (Z * Z)) (l : locals) (g : globals) :
  (length args <= 1)%nat -> fresh ptr next g l ->
  Forall (fun t => t.2 - t.1 < Too_Small_Time HZ) short -> Too_Small_Time HZ <= e - b ->
  10 + total (runs_asked args) (length short) < 2 ^ 31 ->
  wp (main args next ptr HZ (short ++ (b, e) :: rest) l) (fun r g' => exists ls, r = Some ls /\
    length ls = 21%nat /\ (exists x, x ∈ ls /\ label x = "Arr_2_Glob[8][7]") /\
    forall x, x ∈ ls -> if decide (label x = "Arr_2_Glob[8][7]")
       then shown x = VInt (10 + total (runs_asked args) (length short)) /\
            should_be x = VInt (runs_asked args * 10 ^ Z.of_nat (length short) + 10)
       else as_expected x) g.
Proof.
  intros Ha Hf Hsh He Ht.
  set (body := fun n => l ← init next ptr l; '(l, n) ← attempts HZ (short ++ (b, e) :: rest) n l; r ← report n l; mret (Some r)).
  assert (main args next ptr HZ (short ++ (b, e) :: rest) l = body (runs_asked args)) as ->.
  { destruct args as [|a [|]]; cbn in Ha; [reflexivity|reflexivity|lia]. }
  pose proof (runs_asked_pos args). unfold body. wp_step.
  eapply wp_mono; [by apply init_wp|]. intros l' g' (Hg' & H1 & H2). destruct Hf as (Hne & Hn0 & _).
  wp_step. eapply wp_mono; [by eapply (attempts_wp ptr next Hne Hn0 HZ b e short rest (runs_asked args) 10)|].
  intros r g'' [-> Hg'']. cbv beta iota. wp_step. eapply wp_mono; [by eapply report_wp|].
  intros ls g3 Hls. wp_step. by exists ls.
Qed.

(** [C7] Dhrystone checks itself: whatever the uninitialised storage held, for
    every number of runs and every sequence of timer readings of which the
    first [k] differences are too short and the next is not, [main] ends, and
    each of the 21 lines it reports shows what the report says it should be,
    except [Arr_2_Glob[8][7]]: it is 10 plus the runs of all attempts, while
    the report asks for the runs of the last one plus 10.  The whole report is
    as expected exactly when the first attempt was long enough. *)
Theorem main_report (args : list Z) (ptr next HZ b e : Z) (short rest : list (Z * Z)) (l : locals) (g : globals) :
  (length args <= 1)%nat -> fresh ptr next g l ->
  Forall (fun t => t.2 - t.1 < Too_Small_Time HZ) short -> Too_Small_Time HZ <= e - b ->
  10 + total (runs_asked args) (length short) < 2 ^ 31 ->
  exists ls g', main args next ptr HZ (short ++ (b, e) :: rest) l g = Ok (Some ls, g') /\ length ls = 21%nat /\
    (forall x, x ∈ ls -> if decide (label x = "Arr_2_Glob[8][7]")
       then shown x = VInt (10 + total (runs_asked args) (length short)) /\
            should_be x = VInt (runs_asked args * 10 ^ Z.of_nat (length short) + 10)
       else as_expected x) /\
    (Forall as_expected ls <-> short = []).
Proof.
  intros Ha Hf Hsh He Ht. pose proof (main_wp args ptr next HZ b e short rest l g Ha Hf Hsh He Ht) as Hm.
  apply wp_ok in Hm as (r & g' & Hr & ls & -> & Hlen & (x & Hx & Hlab) & Hls). exists ls, g'. split_and!; try done.
  pose proof (total_last (runs_asked args) (length short) (runs_asked_pos args)) as [Hlast1 Hlast2].
  split; [intros Hall|intros ->].
  - pose proof (Hls x Hx) as Hxs. rewrite decide_True in Hxs by done. destruct Hxs as [Hsx Hbx].
    rewrite Forall_forall in Hall. specialize (Hall x Hx). red in Hall. rewrite Hsx, Hbx in Hall.
    injection Hall as Hall. destruct short; [done|]. cbn [length] in *. lia.
  - apply Forall_forall. intros y Hy. specialize (Hls y Hy). destruct (decide _) as [Hd|Hd]; [|done].
    destruct Hls as [Hs Hb]. red. rewrite Hs, Hb. f_equal. cbn in *. lia.
Qed.

(** Ten runs are too few, a hundred are enough: 120 is shown for 110. *)
Lemma main_report_witness :
  exists ls g', main [10] 64 128 100 [(0, 20); (20, 220)] blank_locals blank_globals = Ok (Some ls, g') /\ length ls = 21%nat /\
    (forall x, x ∈ ls -> if decide (label x = "Arr_2_Glob[8][7]")
       then shown x = VInt 120 /\ should_be x = VInt 110 else as_expected x) /\
    (Forall as_expected ls <-> [(0, 20)] = ([] : list (Z * Z))).
Proof.
  apply (main_report [10] 128 64 100 20 220 [(0, 20)] [] blank_locals blank_globals).
  - cbn; lia.
  - split_and!; try done; [repeat constructor|eexists; done|eexists; done].
  - repeat constructor.
  - done.
  - done.
Defined.

Close Scope string_scope.
End DhrySpec.
