(* ===== verification/Vm.v ===== *)
(** * The virtual-memory test environment (riscv-tests/env/v/vm.c)

    A small kernel that runs a test program in user mode, in pages it maps on
    demand: [vm_boot] builds the page tables and the list of free frames,
    [handle_trap] and [handle_fault] serve the traps of the program, [evict]
    copies a page back when the program ends.  This is the 64-bit build, with
    Sv39 translation.

    The objects of the kernel (page tables, the list nodes, the two list
    pointers) are the fields of a record; a node pointer says which array it
    points into.  Physical memory is a map from frame numbers to pages: all
    copies the kernel makes are of whole pages.  The pages the kernel itself
    lies in are not among them.

    [Sv39] is the translation of the architecture, as the tables are used by
    it: permissions, the accessed and dirty bits (updated by the hart or
    left to a page fault, [svadu]), superpages.  There is no cache of
    translations, so [flush_page] and [fence.i] do nothing.  An access of the kernel
    itself that cannot be translated is undefined.

    Parameters: the physical address of [pt]; [pf_filter] and [trap_filter],
    which a test may define; the number of times the host is polled before it
    has taken a value; the registers whose contents depend on the hart. *)

From S2P Require Import Prelude.

Module Vm.

(** ** Constants: env/encoding.h, env/v/riscv_test.h *)

Definition DRAM_BASE : Z := 0x80000000.
Definition PTE_V : Z := 0x001.
Definition PTE_R : Z := 0x002.
Definition PTE_W : Z := 0x004.
Definition PTE_X : Z := 0x008.
Definition PTE_U : Z := 0x010.
Definition PTE_A : Z := 0x040.
Definition PTE_D : Z := 0x080.
Definition PTE_ATTR : Z := 0xFFC0000000000000.
Definition PTE_PPN_SHIFT : Z := 10.
Definition SATP_MODE : Z := 0xF000000000000000.
Definition SATP_MODE_SV39 : Z := 8.
Definition CAUSE_ILLEGAL_INSTRUCTION : Z := 0x2.
Definition CAUSE_USER_ECALL : Z := 0x8.
Definition CAUSE_FETCH_PAGE_FAULT : Z := 0xc.
Definition CAUSE_LOAD_PAGE_FAULT : Z := 0xd.
Definition CAUSE_STORE_PAGE_FAULT : Z := 0xf.
Definition PMP_NAPOT : Z := 0x18.
Definition MSTATUS_FS : Z := 0x00006000.
Definition MSTATUS_XS : Z := 0x00018000.
Definition MSTATUS_VS : Z := 0x00000600.

Definition LFSR_BITS : Z := 6.
Definition MAX_TEST_PAGES : Z := Z.shiftl 1 LFSR_BITS - 1.
Definition LFSR_NEXT (x : Z) : Z :=
  Z.lor (u64 (Z.shiftl (Z.land (Z.lxor x (Z.shiftr x 1)) 1) (LFSR_BITS - 1))) (Z.shiftr x 1).
Definition PGSHIFT : Z := 12.
Definition PGSIZE : Z := Z.shiftl 1 PGSHIFT.
Definition PTES_PER_PT : Z := Z.shiftl 1 9.
Definition MEGAPAGE_SIZE : Z := PTES_PER_PT * PGSIZE.

Record trapframe_t := Trapframe { gpr : list Z; sr : Z; epc : Z; badvaddr : Z; cause : Z }.

(** ** State *)

(** A pointer to a list node: in [freelist_nodes] or in [user_mapping]. *)
Inductive node_ptr := NULL | FNode (i : Z) | UNode (i : Z).

#[global] Instance node_ptr_eq_dec : EqDecision node_ptr.
Proof. solve_decision. Defined.

Record freelist_t := Node { addr : Z; next : node_ptr }.

(** The registers the kernel sets, besides [SUM] of [sstatus]. *)
Record csrs := Csrs { satp : Z; stvec : Z; sscratch : Z; medeleg : Z; mstatus : Z; mie : Z; pmpaddr0 : Z; pmpcfg0 : Z }.

Record vm := State {
  pt : list (list Z);
  user_mapping : list freelist_t; freelist_nodes : list freelist_t;
  freelist_head : node_ptr; freelist_tail : node_ptr;
  frames : gmap Z (list Z);
  sum : bool; csr : csrs;
  tohost : Z; fromhost : Z; sent : list Z }.

Definition set_pt x s := State x (user_mapping s) (freelist_nodes s) (freelist_head s) (freelist_tail s) (frames s) (sum s) (csr s) (tohost s) (fromhost s) (sent s).
Definition set_user_mapping x s := State (pt s) x (freelist_nodes s) (freelist_head s) (freelist_tail s) (frames s) (sum s) (csr s) (tohost s) (fromhost s) (sent s).
Definition set_freelist_nodes x s := State (pt s) (user_mapping s) x (freelist_head s) (freelist_tail s) (frames s) (sum s) (csr s) (tohost s) (fromhost s) (sent s).
Definition set_freelist_head x s := State (pt s) (user_mapping s) (freelist_nodes s) x (freelist_tail s) (frames s) (sum s) (csr s) (tohost s) (fromhost s) (sent s).
Definition set_freelist_tail x s := State (pt s) (user_mapping s) (freelist_nodes s) (freelist_head s) x (frames s) (sum s) (csr s) (tohost s) (fromhost s) (sent s).
Definition set_frames x s := State (pt s) (user_mapping s) (freelist_nodes s) (freelist_head s) (freelist_tail s) x (sum s) (csr s) (tohost s) (fromhost s) (sent s).
Definition set_sum x s := State (pt s) (user_mapping s) (freelist_nodes s) (freelist_head s) (freelist_tail s) (frames s) x (csr s) (tohost s) (fromhost s) (sent s).
Definition set_csr x s := State (pt s) (user_mapping s) (freelist_nodes s) (freelist_head s) (freelist_tail s) (frames s) (sum s) x (tohost s) (fromhost s) (sent s).
Definition set_host t f l s := State (pt s) (user_mapping s) (freelist_nodes s) (freelist_head s) (freelist_tail s) (frames s) (sum s) (csr s) t f l.

(** Code that may end the program: [terminate] does not return. *)
Inductive res (A : Type) := Ret (a : A) | Halt.
Arguments Ret {A} a.
Arguments Halt {A}.

Definition VM (A : Type) : Type := vm -> outcome (res A * vm).
#[global] Typeclasses Opaque VM.
#[export] Instance VM_ret : MRet VM := fun A a s => Ok (Ret a, s).
#[export] Instance VM_bind : MBind VM := fun A B f m s =>
  match m s with Ok (Ret a, s') => f a s' | Ok (Halt, s') => Ok (Halt, s') | UB => UB | Fuel => Fuel end.

Definition gets {A} (f : vm -> A) : VM A := fun s => Ok (Ret (f s), s).
Definition modify (f : vm -> vm) : VM unit := fun s => Ok (Ret tt, f s).
Definition vlift {A} (o : outcome A) : VM A := fun s => match o with Ok a => Ok (Ret a, s) | UB => UB | Fuel => Fuel end.
Definition halt {A} : VM A := fun s => Ok (Halt, s).

(** The four page tables. *)
Definition NPT : Z := 4.
Definition l1pt : Z := 0.
Definition user_l2pt : Z := 1.
Definition kernel_l2pt : Z := 2.
Definition user_llpt : Z := 3.

Definition pte_get (k i : Z) : VM Z := t ← gets pt; vlift (row ← aget t k; aget row i).
Definition pte_set (k i x : Z) : VM unit :=
  t ← gets pt; t ← vlift (row ← aget t k; row ← aset row i (u64 x); aset t k row); modify (set_pt t).

(** [pa2kva] and [uva2kva]. *)
Definition pa2kva (pa : Z) : Z := u64 (pa - DRAM_BASE - MEGAPAGE_SIZE).
Definition uva2kva (pa : Z) : Z := u64 (pa - MEGAPAGE_SIZE).

Definition lfsr63 (x : Z) : Z :=
  let bit := Z.land (Z.lxor x (Z.shiftr x 1)) 1 in
  Z.lor (Z.shiftr x 1) (u64 (Z.shiftl bit 62)).

(** ** Translation *)

Inductive access := Fetch | Read | Write.
Inductive priv := U | S_.

#[global] Instance access_eq_dec : EqDecision access.
Proof. solve_decision. Defined.

#[global] Instance priv_eq_dec : EqDecision priv.
Proof. solve_decision. Defined.

(** Fields of an entry. *)
Definition flag (pte m : Z) : bool := negb (Z.land pte m =? 0).
Definition pte_ppn (pte : Z) : Z := Z.land (Z.shiftr pte 10) (2 ^ 44 - 1).
Definition leaf (pte : Z) : bool := flag pte (Z.lor PTE_R PTE_X).
Definition malformed (pte : Z) : bool :=
  negb (flag pte PTE_V) || (negb (flag pte PTE_R) && flag pte PTE_W) || flag pte PTE_ATTR.

(** A virtual address is the sign extension of its low 39 bits. *)
Definition canonical (va : Z) : bool := u64 (swrap 39 va) =? va.
Definition vpn (level : nat) (va : Z) : Z := Z.land (Z.shiftr va (12 + 9 * Z.of_nat level)) 511.

Section Kernel.
Context (pt_pa : Z) (svadu : bool) (polls : nat).
Context (pf_filter : Z -> option Z) (trap_filter : trapframe_t -> bool * trapframe_t) (fssr : Z).

(** The table in frame [ppn], when it is one of [pt]. *)
Definition table_of (ppn : Z) : option Z :=
  let k := ppn - Z.shiftr pt_pa PGSHIFT in if (0 <=? k) && (k <? NPT) then Some k else None.

(** The table, the index, the level and the contents of the leaf entry. *)
Fixpoint walk (t : list (list Z)) (level : nat) (ppn va : Z) : option (Z * Z * nat * Z) :=
  k ← table_of ppn; row ← t !! Z.to_nat k; pte ← row !! Z.to_nat (vpn level va);
  if malformed pte then None
  else if leaf pte then Some (k, vpn level va, level, pte)
  else match level with O => None | S level => walk t level (pte_ppn pte) va end.

Definition permitted (p : priv) (a : access) (sum : bool) (pte : Z) : bool :=
  match a with Fetch => flag pte PTE_X | Read => flag pte PTE_R | Write => flag pte PTE_W end &&
  match p with
  | U => flag pte PTE_U
  | S_ => if flag pte PTE_U then sum && negb (bool_decide (a = Fetch)) else true
  end.

(** The entry after an access, when the hart keeps the bits up to date. *)
Definition touch (a : access) (pte : Z) : Z :=
  Z.lor pte (Z.lor PTE_A (match a with Write => PTE_D | _ => 0 end)).

Definition frame_of (level : nat) (pte va : Z) : Z :=
  let low := 9 * Z.of_nat level in
  Z.lor (Z.shiftl (Z.shiftr (pte_ppn pte) low) low) (Z.land (Z.shiftr va PGSHIFT) (2 ^ low - 1)).

(** [None] is a page fault, otherwise the frame. *)
Definition translate (p : priv) (a : access) (va : Z) : VM (option Z) :=
  s ← gets id;
  if negb (canonical va) then mret None else
  match walk (pt s) 2 (Z.land (satp (csr s)) (2 ^ 44 - 1)) va with
  | None => mret None
  | Some (k, i, level, pte) =>
      if negb (permitted p a (sum s) pte) then mret None
      else if negb (Z.land (pte_ppn pte) (2 ^ (9 * Z.of_nat level) - 1) =? 0) then mret None
      else if bool_decide (touch a pte = pte) then mret (Some (frame_of level pte va))
      else if svadu then pte_set k i (touch a pte);; mret (Some (frame_of level pte va))
      else mret None
  end.

(** ** Output *)

(** [while (tohost) fromhost = 0]: the host is polled [n] times more. *)
Fixpoint wait_host (n : nat) : VM unit :=
  t ← gets tohost;
  if t =? 0 then mret tt else
  match n with
  | O => modify (fun s => set_host 0 0 (sent s) s)
  | S n => modify (fun s => set_host (tohost s) 0 (sent s) s);; wait_host n
  end.

Definition do_tohost (tohost_value : Z) : VM unit :=
  wait_host polls;; modify (fun s => set_host tohost_value (fromhost s) (sent s ++ [tohost_value]) s).

Definition cputchar (x : Z) : VM unit := do_tohost (Z.lor 0x0101000000000000 (u8 x)).

Fixpoint cputstring (s : list Z) : VM unit :=
  match s with
  | [] => vlift UB
  | c :: s => if c =? 0 then mret tt else cputchar c;; cputstring s
  end.

Definition terminate {A} (code : Z) : VM A := do_tohost (u64 code);; halt.
Definition wtf : VM unit := terminate 841.

Definition assert (x : bool) (text : list Z) : VM unit :=
  if x then mret tt else cputstring (bytes_of "Assertion failed: " ++ text ++ [10; 0]);; terminate 3.

(** [i] counts up to 16; the characters from the last to the first. *)
Fixpoint hex_str (n : nat) (x : Z) (str : list Z) : list Z :=
  match n with
  | O => str
  | S n => hex_str n (Z.shiftr x 4) (Z.land x 0xF + (if Z.land x 0xF <? 10 then 48 else 97 - 10) :: str)
  end.

Definition printhex (x : Z) : VM unit := cputstring (hex_str 16 x [0]).

(** ** Paging *)

(** The frame of a page the kernel accesses, and its contents. *)
Definition s_page (a : access) (va : Z) : VM Z :=
  f ← translate S_ a va; vlift (of_option f).
Definition page_at (f : Z) : VM (list Z) := m ← gets frames; vlift (of_option (m !! f)).

Definition memcpy_page (dest src : Z) : VM unit :=
  f ← s_page Read src; g ← s_page Write dest; p ← page_at f; _ ← page_at g;
  modify (fun s => set_frames (<[g := p]> (frames s)) s).

(** Not zero: the pages differ. *)
Definition memcmp_page (s1 s2 : Z) : VM bool :=
  f ← s_page Read s1; g ← s_page Read s2; p ← page_at f; q ← page_at g;
  mret (negb (bool_decide (p = q))).

(** [*p] and [p->next = x]. *)
Definition node_get (p : node_ptr) : VM freelist_t :=
  match p with
  | NULL => vlift UB
  | FNode i => l ← gets freelist_nodes; vlift (aget l i)
  | UNode i => l ← gets user_mapping; vlift (aget l i)
  end.
Definition node_set_next (p x : node_ptr) : VM unit :=
  n ← node_get p;
  match p with
  | NULL => vlift UB
  | FNode i => l ← gets freelist_nodes; l ← vlift (aset l i (Node (addr n) x)); modify (set_freelist_nodes l)
  | UNode i => l ← gets user_mapping; l ← vlift (aset l i (Node (addr n) x)); modify (set_user_mapping l)
  end.
Definition mapping_set (i : Z) (n : freelist_t) : VM unit :=
  l ← gets user_mapping; l ← vlift (aset l i n); modify (set_user_mapping l).

Definition range_text : list Z := bytes_of "addr >= (1UL << 12) && addr < ((1 << 6)-1) * (1UL << 12)".

Definition evict (a : Z) : VM unit :=
  assert ((PGSIZE <=? a) && (a <? MAX_TEST_PAGES * PGSIZE)) range_text;;
  let a := a / PGSIZE * PGSIZE in
  let i := a / PGSIZE in
  node ← node_get (UNode i);
  if addr node =? 0 then mret tt else
  pte ← pte_get user_llpt i; assert (flag pte PTE_A) (bytes_of "pt[3][addr/(1UL << 12)] & 0x040");;
  old ← gets sum; modify (set_sum true);;
  (d ← memcmp_page a (uva2kva a);
   if (d : bool) then
     pte ← pte_get user_llpt i; assert (flag pte PTE_D) (bytes_of "pt[3][addr/(1UL << 12)] & 0x080");;
     memcpy_page (uva2kva a) a
   else mret tt);;
  modify (set_sum old);;
  node ← node_get (UNode i); mapping_set i (Node 0 (next node));;
  tail ← gets freelist_tail;
  if decide (tail = NULL) then modify (set_freelist_head (UNode i));; modify (set_freelist_tail (UNode i))
  else node_set_next tail (UNode i);; modify (set_freelist_tail (UNode i)).

(** The frame of a node as an entry: [addr >> PGSHIFT << PTE_PPN_SHIFT]. *)
Definition pte_of (pa : Z) : Z := u64 (Z.shiftl (Z.shiftr pa PGSHIFT) PTE_PPN_SHIFT).

Definition handle_fault (a cause : Z) : VM unit :=
  assert ((PGSIZE <=? a) && (a <? MAX_TEST_PAGES * PGSIZE)) range_text;;
  let a := a / PGSIZE * PGSIZE in
  let i := a / PGSIZE in
  pte ← pte_get user_llpt i;
  if negb (pte =? 0) then
    if negb (flag pte PTE_A) then pte_set user_llpt i (Z.lor pte PTE_A)
    else
      assert (negb (flag pte PTE_D) && (cause =? CAUSE_STORE_PAGE_FAULT))
             (bytes_of "!(pt[3][addr/(1UL << 12)] & 0x080) && cause == 0xf");;
      pte_set user_llpt i (Z.lor pte PTE_D)
  else
    node ← gets freelist_head;
    assert (negb (bool_decide (node = NULL))) (bytes_of "node");;
    n ← node_get node; modify (set_freelist_head (next n));;
    head ← gets freelist_head; tail ← gets freelist_tail;
    (if decide (head = tail) then modify (set_freelist_tail NULL) else mret tt);;
    n ← node_get node;
    let new_pte := match pf_filter a with
                   | None => Z.lor (pte_of (addr n)) (Z.lor PTE_V (Z.lor PTE_U (Z.lor PTE_R (Z.lor PTE_W PTE_X))))
                   | Some filter_encodings => Z.lor (pte_of (addr n)) filter_encodings
                   end in
    pte_set user_llpt i (Z.lor new_pte (Z.lor PTE_A PTE_D));;
    u ← node_get (UNode i);
    assert (addr u =? 0) (bytes_of "user_mapping[addr/(1UL << 12)].addr == 0");;
    n ← node_get node; mapping_set i n;;
    old ← gets sum; modify (set_sum true);;
    memcpy_page a (uva2kva a);;
    modify (set_sum old);;
    pte_set user_llpt i new_pte.

(** ** Traps *)

(** [for (long i = 1; i < MAX_TEST_PAGES; i++) evict(i*PGSIZE)]. *)
Fixpoint evict_all (n : nat) (i : Z) : VM unit :=
  match n with O => mret tt | S n => evict (i * PGSIZE);; evict_all n (i + 1) end.

(** The text of [!"..."]. *)
Definition quoted (s : list Z) : list Z := [33; 34] ++ s ++ [34].

(** [*(int* )p]: four bytes, from the lowest. *)
Definition ldint (va : Z) : VM Z :=
  f ← s_page Read va; p ← page_at f;
  let o := va mod PGSIZE in
  vlift (b0 ← aget p o; b1 ← aget p (o + 1); b2 ← aget p (o + 2); b3 ← aget p (o + 3);
         Ok (b0 + 256 * b1 + 65536 * b2 + 16777216 * b3)).

(** The frame [pop_tf] returns to user mode with. *)
Definition handle_trap (tf : trapframe_t) : VM trapframe_t :=
  let (filtered, tf) := trap_filter tf in
  if filtered then mret tf else
  if cause tf =? CAUSE_USER_ECALL then
    n ← vlift (aget (gpr tf) 10);
    evict_all (Z.to_nat (MAX_TEST_PAGES - 1)) 1;;
    terminate (s32 n)
  else if cause tf =? CAUSE_ILLEGAL_INSTRUCTION then
    assert (epc tf mod 4 =? 0) (bytes_of "tf->epc % 4 == 0");;
    w ← ldint (epc tf);
    (if w =? fssr then terminate 1 else assert false (quoted (bytes_of "illegal instruction")));;
    mret (Trapframe (gpr tf) (sr tf) (epc tf + 4) (badvaddr tf) (cause tf))
  else
    (if (cause tf =? CAUSE_FETCH_PAGE_FAULT) || (cause tf =? CAUSE_LOAD_PAGE_FAULT) || (cause tf =? CAUSE_STORE_PAGE_FAULT)
     then handle_fault (badvaddr tf) (cause tf)
     else assert false (quoted (bytes_of "unexpected exception")));;
    mret tf.

(** Where a trap from user mode goes: to [handle_trap] when it is delegated,
    to the trap vector of machine mode, [wtf], when not. *)
Definition trap (tf : trapframe_t) : VM trapframe_t :=
  c ← gets csr;
  if Z.testbit (medeleg c) (cause tf) then handle_trap tf else wtf;; mret tf.

(** ** Boot *)

(** The address of an iteration of [coherence_torture], and whether it is an
    atomic addition of zero. *)
Definition torture_access (atomic : bool) (random : Z) : bool * Z :=
  (atomic && negb (Z.land random 1 =? 0),
   u64 (DRAM_BASE + Z.land (random mod (2 * (MAX_TEST_PAGES + 1) * PGSIZE)) (u64 (-4)))).

(** The first [n] accesses; the loop has no end. *)
Fixpoint coherence_torture (n : nat) (atomic : bool) (random : Z) : list (bool * Z) :=
  match n with O => [] | S n => torture_access atomic random :: coherence_torture n atomic (lfsr63 random) end.

(** What the hart provides: its number, what it keeps of a value written to
    [satp], whether it has protection registers, and two addresses. *)
Record hart := Hart { mhartid : Z; satp_warl : Z -> Z; has_pmp : bool; trap_entry : Z; mscratch : Z }.

Definition table_pte (k : Z) : Z := Z.lor (u64 (Z.shiftl (Z.shiftr (pt_pa + k * PGSIZE) PGSHIFT) PTE_PPN_SHIFT)) PTE_V.
Definition kernel_pte : Z :=
  Z.lor (Z.shiftl (DRAM_BASE / PGSIZE) PTE_PPN_SHIFT)
        (Z.lor PTE_V (Z.lor PTE_R (Z.lor PTE_W (Z.lor PTE_X (Z.lor PTE_A PTE_D))))).
Definition satp_value : Z :=
  Z.lor (Z.shiftr (pt_pa + l1pt * PGSIZE) PGSHIFT)
        (u64 (SATP_MODE_SV39 * Z.land SATP_MODE (u64 (Z.lnot (u64 (Z.shiftl SATP_MODE 1)))))).

Definition boot_tables : VM unit :=
  pte_set l1pt 0 (table_pte user_l2pt);;
  pte_set l1pt (PTES_PER_PT - 1) (table_pte kernel_l2pt);;
  pte_set kernel_l2pt (PTES_PER_PT - 1) kernel_pte;;
  pte_set user_l2pt 0 (table_pte user_llpt).

(** [csrw]s up to the interrupt enables; [SUM] is bit 18 of [mstatus]. *)
Definition boot_csrs (h : hart) : VM unit :=
  modify (fun s => let c := csr s in
    set_csr (Csrs (satp c) (pa2kva (trap_entry h)) (pa2kva (mscratch h))
       (Z.lor (Z.shiftl 1 CAUSE_USER_ECALL) (Z.lor (Z.shiftl 1 CAUSE_FETCH_PAGE_FAULT)
          (Z.lor (Z.shiftl 1 CAUSE_LOAD_PAGE_FAULT) (Z.shiftl 1 CAUSE_STORE_PAGE_FAULT))))
       (Z.lor MSTATUS_FS (Z.lor MSTATUS_XS MSTATUS_VS)) 0
       (if has_pmp h then Z.shiftl 1 53 - 1 else pmpaddr0 c)
       (if has_pmp h then Z.lor PMP_NAPOT 7 else pmpcfg0 c)) s);;
  modify (fun s => set_sum (Z.testbit (mstatus (csr s)) 18) s).

(** [for (long i = 0; i < MAX_TEST_PAGES; i++)]: the nodes of the free list. *)
Fixpoint boot_freelist (n : nat) (i random : Z) : VM unit :=
  match n with
  | O => mret tt
  | S n =>
      l ← gets freelist_nodes;
      l ← vlift (aset l i (Node (u64 (DRAM_BASE + (MAX_TEST_PAGES + random) * PGSIZE)) (FNode (i + 1))));
      modify (set_freelist_nodes l);;
      boot_freelist n (i + 1) (LFSR_NEXT random)
  end.

Definition vm_boot (h : hart) (ENTROPY test_addr : Z) : VM trapframe_t :=
  if 0 <? mhartid h then vlift Fuel else
  boot_tables;;
  modify (fun s => let c := csr s in
    set_csr (Csrs (satp_warl h satp_value) (stvec c) (sscratch c) (medeleg c) (mstatus c) (mie c) (pmpaddr0 c) (pmpcfg0 c)) s);;
  c ← gets csr;
  (if negb (satp c =? satp_value) then assert false (quoted (bytes_of "unsupported satp mode")) else mret tt);;
  boot_csrs h;;
  let random := 1 + ENTROPY mod MAX_TEST_PAGES in
  modify (set_freelist_head (FNode 0));; modify (set_freelist_tail (FNode (MAX_TEST_PAGES - 1)));;
  boot_freelist (Z.to_nat MAX_TEST_PAGES) 0 random;;
  node_set_next (FNode (MAX_TEST_PAGES - 1)) NULL;;
  mret (Trapframe (replicate 32 0) 0 (u64 (test_addr - DRAM_BASE)) 0 0).

(** ** The program in user mode *)

(** An access of the program: a byte it fetches or loads, or one it stores. *)
Inductive user_op := UFetch (va : Z) | ULoad (va : Z) | UStore (va b : Z).

Definition op_va (o : user_op) : Z := match o with UFetch va | ULoad va | UStore va _ => va end.
Definition op_access (o : user_op) : access := match o with UFetch _ => Fetch | ULoad _ => Read | UStore _ _ => Write end.
Definition op_cause (o : user_op) : Z :=
  match o with UFetch _ => CAUSE_FETCH_PAGE_FAULT | ULoad _ => CAUSE_LOAD_PAGE_FAULT | UStore _ _ => CAUSE_STORE_PAGE_FAULT end.

(** The access when it is translated: the byte that is read or written. *)
Definition perform (o : user_op) (f : Z) : VM Z :=
  p ← page_at f;
  let off := op_va o mod PGSIZE in
  match o with
  | UFetch _ | ULoad _ => vlift (aget p off)
  | UStore _ b => p ← vlift (aset p off b); modify (fun s => set_frames (<[f := p]> (frames s)) s);; mret b
  end.

(** A faulting access traps and is repeated when the trap has been served. *)
Fixpoint user_access (fuel : nat) (o : user_op) : VM Z :=
  f ← translate U (op_access o) (op_va o);
  match f with
  | Some f => perform o f
  | None =>
      match fuel with
      | O => vlift Fuel
      | S fuel => _ ← trap (Trapframe (replicate 32 0) 0 0 (op_va o) (op_cause o)); user_access fuel o
      end
  end.

(** A program: its accesses, then [ecall] with [n] in [a0]; the bytes it saw. *)
Fixpoint user_run (fuel : nat) (ops : list user_op) : VM (list Z) :=
  match ops with
  | [] => mret []
  | o :: ops => b ← user_access fuel o; bs ← user_run fuel ops; mret (b :: bs)
  end.
End Kernel.
End Vm.
