(* ===== verification/VmWalk.v ===== *)
(** * The address space of the test environment

    What the page tables built by [vm_boot] translate: facts on page-table
    entries as a frame number and ten flag bits, the walk for user and kernel
    addresses, and the address space after boot. *)

From S2P Require Import Prelude.
From S2P Require Import Vm.

Module VmWalk.
#[local] Ltac Zify.zify_post_hook ::= Z.to_euclidean_division_equations.
Import Vm.

(** ** Entries: [p] the frame number, [f] the flags *)

Definition mk (p f : Z) : Z := p * 1024 + f.

Lemma mk_low (p f n : Z) : 0 <= f < 1024 -> 0 <= n < 10 -> Z.testbit (mk p f) n = Z.testbit f n.
Proof.
  intros Hf Hn. rewrite <-(Z.mod_pow2_bits_low (mk p f) 10 n) by lia. unfold mk.
  change (2 ^ 10) with 1024. by rewrite Z.add_comm, Z.mod_add, Z.mod_small by lia.
Qed.

Lemma mk_high (p f n : Z) : 0 <= f < 1024 -> 10 <= n -> Z.testbit (mk p f) n = Z.testbit p (n - 10).
Proof.
  intros Hf Hn. replace n with (n - 10 + 10) at 1 by lia. rewrite <-Z.div_pow2_bits by lia.
  unfold mk. change (2 ^ 10) with 1024. by rewrite Z.add_comm, Z.div_add, Z.div_small by lia.
Qed.

Lemma mk_land (p f m : Z) : 0 <= f < 1024 -> 0 <= m < 1024 -> Z.land (mk p f) m = Z.land f m.
Proof.
  intros Hf Hm. apply Z.bits_inj'. intros n Hn. rewrite !Z.land_spec.
  destruct (decide (n < 10)); [by rewrite mk_low by lia|].
  rewrite (in_u_bits 10 m n) by (unfold in_u; lia). by rewrite !andb_false_r.
Qed.

Lemma mk_lor (p f g : Z) : 0 <= f < 1024 -> 0 <= g < 1024 -> Z.lor (mk p f) g = mk p (Z.lor f g).
Proof.
  intros Hf Hg. assert (in_u 10 (Z.lor f g)) as Hl by (apply in_u_lor; unfold in_u; lia). unfold in_u in Hl.
  apply Z.bits_inj'. intros n Hn. rewrite Z.lor_spec.
  destruct (decide (n < 10)); [by rewrite !mk_low, Z.lor_spec by lia|].
  rewrite !mk_high by lia. rewrite (in_u_bits 10 g n) by (unfold in_u; lia). by rewrite orb_false_r.
Qed.

Lemma mk_flag (p f m : Z) : 0 <= f < 1024 -> 0 <= m < 1024 -> flag (mk p f) m = flag f m.
Proof. intros Hf Hm. unfold flag. by rewrite mk_land. Qed.

Lemma mk_range (p f : Z) : 0 <= p < 2 ^ 44 -> 0 <= f < 1024 -> in_u 54 (mk p f).
Proof. unfold mk, in_u. lia. Qed.

Lemma mk_u64 (p f : Z) : 0 <= p < 2 ^ 44 -> 0 <= f < 1024 -> u64 (mk p f) = mk p f.
Proof. intros Hp Hf. apply uwrap_small. pose proof (mk_range p f Hp Hf). eapply in_u_weaken; [|done]. lia. Qed.

Lemma mk_attr (p f : Z) : 0 <= p < 2 ^ 44 -> 0 <= f < 1024 -> flag (mk p f) PTE_ATTR = false.
Proof.
  intros Hp Hf. unfold flag. replace (Z.land (mk p f) PTE_ATTR) with 0; [done|].
  symmetry. apply Z.bits_inj'. intros n Hn. rewrite Z.land_spec, Z.bits_0.
  destruct (decide (n < 54)).
  - change PTE_ATTR with (Z.shiftl 1023 54). rewrite (Z.shiftl_spec_low 1023 54 n) by lia. by rewrite andb_false_r.
  - by rewrite (in_u_bits 54 _ n) by (try lia; by apply mk_range).
Qed.

Lemma mk_ppn (p f : Z) : 0 <= p < 2 ^ 44 -> 0 <= f < 1024 -> pte_ppn (mk p f) = p.
Proof.
  intros Hp Hf. unfold pte_ppn. rewrite Z.shiftr_div_pow2 by lia. unfold mk. change (2 ^ 10) with 1024.
  rewrite Z.add_comm, Z.div_add, Z.div_small, Z.add_0_l by lia.
  change (2 ^ 44 - 1) with (Z.ones 44). rewrite Z.land_ones by lia. by apply Z.mod_small.
Qed.

Lemma mk_malformed (p f : Z) : 0 <= p < 2 ^ 44 -> 0 <= f < 1024 ->
  malformed (mk p f) = negb (flag f PTE_V) || (negb (flag f PTE_R) && flag f PTE_W).
Proof. intros Hp Hf. unfold malformed. rewrite mk_attr, !mk_flag by done. by rewrite orb_false_r. Qed.

Lemma mk_leaf (p f : Z) : 0 <= f < 1024 -> leaf (mk p f) = leaf f.
Proof. intros Hf. unfold leaf. by rewrite mk_flag. Qed.

Lemma mk_permitted (pr : priv) (a : access) (b : bool) (p f : Z) : 0 <= f < 1024 ->
  permitted pr a b (mk p f) = permitted pr a b f.
Proof. intros Hf. unfold permitted. destruct a, pr; by rewrite !mk_flag. Qed.

Definition touch_bits (a : access) : Z := Z.lor PTE_A (match a with Write => PTE_D | _ => 0 end).

Lemma mk_touch (a : access) (p f : Z) : 0 <= f < 1024 -> touch a (mk p f) = mk p (touch a f).
Proof. intros Hf. unfold touch. apply mk_lor; [done|]. by destruct a. Qed.

Lemma mk_inj (p f g : Z) : mk p f = mk p g <-> f = g.
Proof. unfold mk. lia. Qed.

(** The entry of a frame address. *)
Lemma pte_of_mk (p : Z) : 0 <= p < 2 ^ 44 -> pte_of (p * PGSIZE) = mk p 0.
Proof.
  intros Hp. unfold pte_of. rewrite Z.shiftr_div_pow2, Z.shiftl_mul_pow2 by done.
  change PGSIZE with 4096. change (2 ^ PGSHIFT) with 4096. rewrite Z.div_mul by lia.
  change (2 ^ PTE_PPN_SHIFT) with 1024. replace (p * 1024) with (mk p 0) by (unfold mk; lia). apply mk_u64; lia.
Qed.

(** ** Addresses *)

Definition top : Z := 2 ^ 64 - MEGAPAGE_SIZE.

Lemma vpn_eq (level : nat) (va : Z) : vpn level va = va / 2 ^ (12 + 9 * Z.of_nat level) mod 512.
Proof.
  unfold vpn. change 511 with (Z.ones 9). rewrite Z.land_ones, Z.shiftr_div_pow2 by lia. done.
Qed.

Lemma vpn_user (va : Z) : 0 <= va < MEGAPAGE_SIZE -> vpn 2 va = 0 /\ vpn 1 va = 0 /\ vpn 0 va = va / PGSIZE.
Proof.
  change MEGAPAGE_SIZE with 2097152. change PGSIZE with 4096. intros Hva. rewrite !vpn_eq.
  change (2 ^ (12 + 9 * Z.of_nat 2)) with 1073741824. change (2 ^ (12 + 9 * Z.of_nat 1)) with 2097152.
  change (2 ^ (12 + 9 * Z.of_nat 0)) with 4096. lia.
Qed.

Lemma vpn_kernel (off : Z) : 0 <= off < MEGAPAGE_SIZE -> vpn 2 (top + off) = 511 /\ vpn 1 (top + off) = 511.
Proof.
  unfold top. change MEGAPAGE_SIZE with 2097152. intros Hoff. rewrite !vpn_eq.
  change (2 ^ (12 + 9 * Z.of_nat 2)) with 1073741824. change (2 ^ (12 + 9 * Z.of_nat 1)) with 2097152. lia.
Qed.

Lemma canonical_user (va : Z) : 0 <= va < MEGAPAGE_SIZE -> canonical va = true.
Proof.
  change MEGAPAGE_SIZE with 2097152. intros Hva. unfold canonical. rewrite swrap_small by (unfold in_s; lia).
  rewrite uwrap_small by (unfold in_u; lia). apply Z.eqb_refl.
Qed.

Lemma canonical_kernel (off : Z) : 0 <= off < MEGAPAGE_SIZE -> canonical (top + off) = true.
Proof.
  unfold top. change MEGAPAGE_SIZE with 2097152. intros Hoff. unfold canonical.
  replace (swrap 39 (2 ^ 64 - 2097152 + off)) with (off - 2097152).
  - apply Z.eqb_eq. unfold uwrap. lia.
  - unfold swrap. lia.
Qed.

Lemma uva2kva_top (off : Z) : 0 <= off < MEGAPAGE_SIZE -> uva2kva off = top + off.
Proof. unfold uva2kva, top, uwrap. change MEGAPAGE_SIZE with 2097152. lia. Qed.

(** ** The free list *)

(** The values of [random] in the loop over the nodes. *)
Fixpoint lfsr_seq (n : nat) (r : Z) : list Z :=
  match n with O => [] | S n => r :: lfsr_seq n (LFSR_NEXT r) end.

Lemma length_lfsr_seq (n : nat) (r : Z) : length (lfsr_seq n r) = n.
Proof. revert r. induction n as [|n IH]; intros r; [done|]. cbn. by rewrite IH. Qed.

Definition lfsr_hits (r x : Z) : bool := existsb (Z.eqb (x + 1)) (lfsr_seq 63 (r + 1)).

Lemma lfsr_hits_all : allb 63 (fun r => allb 63 (lfsr_hits r)) = true.
Proof. vm_compute. reflexivity. Qed.

Lemma lfsr_hits_ok (r x : Z) : 0 <= r < Z.of_nat 63 -> 0 <= x < Z.of_nat 63 -> lfsr_hits r x = true.
Proof. intros Hr Hx. exact (allb_spec 63 _ x (allb_spec 63 _ r lfsr_hits_all Hr) Hx). Qed.

(** The period of the shift register is [MAX_TEST_PAGES]: from every seed it
    takes each of the values 1 to 63 once. *)
Lemma lfsr_period (r : Z) : 1 <= r <= 63 -> lfsr_seq 63 r ≡ₚ seqZ 1 63.
Proof.
  intros Hr. symmetry. apply NoDup_Permutation_bis.
  - apply NoDup_ListNoDup, NoDup_seqZ.
  - rewrite length_lfsr_seq, length_seqZ. lia.
  - intros x Hx. apply list_elem_of_In, elem_of_seqZ in Hx.
    pose proof (lfsr_hits_ok (r - 1) (x - 1) ltac:(lia) ltac:(lia)) as H. unfold lfsr_hits in H. rewrite !Z.sub_add in H.
    apply existsb_exists in H as (y & Hy & ->%Z.eqb_eq). done.
Qed.

(** The frame of a value of the register. *)
Definition frame (r : Z) : Z := DRAM_BASE / PGSIZE + MAX_TEST_PAGES + r.

Fixpoint nodes_from (n : nat) (i r : Z) : list freelist_t :=
  match n with O => [] | S n => Node (frame r * PGSIZE) (FNode (i + 1)) :: nodes_from n (i + 1) (LFSR_NEXT r) end.

Lemma length_nodes_from (n : nat) (i r : Z) : length (nodes_from n i r) = n.
Proof. revert i r. induction n as [|n IH]; intros i r; [done|]. cbn. by rewrite IH. Qed.

Lemma nodes_from_lookup (n : nat) (i r : Z) (j : nat) :
  nodes_from n i r !! j = (fun r => Node (frame r * PGSIZE) (FNode (i + Z.of_nat j + 1))) <$> lfsr_seq n r !! j.
Proof.
  revert i r j. induction n as [|n IH]; intros i r j; [done|]. destruct j as [|j]; cbn [nodes_from lfsr_seq lookup list_lookup].
  - cbn. by rewrite Z.add_0_r.
  - change (nodes_from n (i + 1) (LFSR_NEXT r) !! j = (fun r => Node (frame r * PGSIZE) (FNode (i + Z.of_nat (S j) + 1))) <$> lfsr_seq n (LFSR_NEXT r) !! j).
    rewrite IH. by replace (i + 1 + Z.of_nat j + 1) with (i + Z.of_nat (S j) + 1) by lia.
Qed.

Lemma LFSR_NEXT_range (r : Z) : 1 <= r <= 63 -> 1 <= LFSR_NEXT r <= 63.
Proof.
  intros Hr. assert (allb 63 (fun r => (1 <=? LFSR_NEXT (r + 1)) && (LFSR_NEXT (r + 1) <=? 63)) = true) as Hall by (vm_compute; reflexivity).
  pose proof (allb_spec 63 _ (r - 1) Hall ltac:(lia)) as H. cbv beta in H. replace (r - 1 + 1) with r in H by lia. lia.
Qed.

Lemma frame_addr (r : Z) : 1 <= r <= 63 -> u64 (DRAM_BASE + (MAX_TEST_PAGES + r) * PGSIZE) = frame r * PGSIZE.
Proof.
  intros Hr. unfold frame, uwrap. change DRAM_BASE with 0x80000000. change (DRAM_BASE / PGSIZE) with 0x80000.
  change MAX_TEST_PAGES with 63. change PGSIZE with 4096. lia.
Qed.

Lemma boot_freelist_ok (n : nat) (r : Z) (done rest : list freelist_t) (s : vm) :
  1 <= r <= 63 -> freelist_nodes s = done ++ rest -> length rest = n ->
  boot_freelist n (Z.of_nat (length done)) r s = Ok (Ret tt, set_freelist_nodes (done ++ nodes_from n (Z.of_nat (length done)) r) s).
Proof.
  revert r done rest s. induction n as [|n IH]; intros r done rest s Hr Hs Hl.
  - destruct rest; [|done]. cbn. rewrite <-Hs. by destruct s.
  - destruct rest as [|x rest]; [done|]. cbn [boot_freelist nodes_from]. unfold mbind, VM_bind, gets, vlift, modify.
    rewrite Hs, frame_addr by done. rewrite aset_in_range by (rewrite length_app; cbn; lia). cbv beta iota.
    rewrite Nat2Z.id, insert_app_r_alt, Nat.sub_diag by lia. cbn [insert list_insert].
    set (x' := Node _ _). replace (Z.of_nat (length done) + 1) with (Z.of_nat (length (done ++ [x']))) by (rewrite length_app; cbn; lia).
    rewrite (IH _ (done ++ [x']) rest); [|by apply LFSR_NEXT_range| |cbn in Hl; lia];
      rewrite <-?(assoc_L (++)); reflexivity.
Qed.

Lemma node_set_next_F (s : vm) (i : Z) (n : freelist_t) (x : node_ptr) :
  0 <= i -> freelist_nodes s !! Z.to_nat i = Some n ->
  node_set_next (FNode i) x s = Ok (Ret tt, set_freelist_nodes (alter (fun n => Node (addr n) x) (Z.to_nat i) (freelist_nodes s)) s).
Proof.
  intros Hi Hn. unfold node_set_next, node_get, mbind, VM_bind, gets, vlift, modify.
  rewrite (aget_Some _ _ _ Hi Hn). rewrite (aset_alter _ _ (fun n => Node (addr n) x) n Hi Hn). done.
Qed.

(** The nodes in the end: the last one has no successor. *)
Definition boot_nodes (r : Z) : list freelist_t :=
  alter (fun n => Node (addr n) NULL) 62%nat (nodes_from 63 0 r).

(** ** The tables of [vm_boot] *)

Section Tables.
Variable pt_pa : Z.
Hypothesis Haligned : pt_pa mod PGSIZE = 0.
Hypothesis Hrange : 0 <= pt_pa /\ pt_pa + NPT * PGSIZE <= 2 ^ 56.

(** [ll] is the last-level table of the program. *)
Definition tables (ll : list Z) : list (list Z) :=
  [ <[511%nat := table_pte pt_pa kernel_l2pt]> (<[0%nat := table_pte pt_pa user_l2pt]> (replicate 512 0));
    <[0%nat := table_pte pt_pa user_llpt]> (replicate 512 0);
    <[511%nat := kernel_pte]> (replicate 512 0); ll ].

Definition root : Z := Z.land (satp_value pt_pa) (2 ^ 44 - 1).

Definition pt_frame : Z := pt_pa / PGSIZE.

Lemma pt_pa_eq : pt_pa = pt_frame * PGSIZE /\ 0 <= pt_frame /\ pt_frame + NPT <= 2 ^ 44.
Proof. unfold pt_frame. change PGSIZE with 4096 in *. change NPT with 4 in *. lia. Qed.

Lemma shiftr_frame (k : Z) : Z.shiftr (pt_pa + k * PGSIZE) PGSHIFT = pt_frame + k.
Proof.
  destruct pt_pa_eq as (-> & _). rewrite Z.shiftr_div_pow2 by done. change (2 ^ PGSHIFT) with PGSIZE.
  rewrite <-Z.mul_add_distr_r. by apply Z.div_mul.
Qed.

Lemma table_pte_mk (k : Z) : 0 <= k < NPT -> table_pte pt_pa k = mk (pt_frame + k) PTE_V.
Proof.
  intros Hk. destruct pt_pa_eq as (_ & H0 & H1). unfold table_pte. rewrite shiftr_frame.
  rewrite Z.shiftl_mul_pow2 by done. change (2 ^ PTE_PPN_SHIFT) with 1024.
  replace ((pt_frame + k) * 1024) with (mk (pt_frame + k) 0) by (unfold mk; lia).
  rewrite mk_u64 by lia. by rewrite mk_lor.
Qed.

Lemma root_eq : root = pt_frame.
Proof.
  destruct pt_pa_eq as (_ & H0 & H1). unfold root, satp_value. rewrite shiftr_frame.
  change (2 ^ 44 - 1) with (Z.ones 44). rewrite Z.land_lor_distr_l. rewrite Z.land_ones by lia.
  replace (Z.land (u64 _) _) with 0 by reflexivity. rewrite Z.lor_0_r. unfold l1pt. change NPT with 4 in *. rewrite Z.mod_small; lia.
Qed.

Lemma table_of_frame (k : Z) : 0 <= k < NPT -> table_of pt_pa (pt_frame + k) = Some k.
Proof.
  intros Hk. unfold table_of. pose proof (shiftr_frame 0) as Hs. rewrite Z.mul_0_l, !Z.add_0_r in Hs. rewrite Hs.
  replace (pt_frame + k - pt_frame) with k by lia. by rewrite (proj2 (Z.leb_le _ _)), (proj2 (Z.ltb_lt _ _)) by lia.
Qed.

(** One level through a table entry. *)
Lemma walk_step (t : list (list Z)) (l : nat) (k k' va : Z) (row : list Z) :
  0 <= k < NPT -> 0 <= k' < NPT -> t !! Z.to_nat k = Some row -> row !! Z.to_nat (vpn (S l) va) = Some (table_pte pt_pa k') ->
  walk pt_pa t (S l) (pt_frame + k) va = walk pt_pa t l (pt_frame + k') va.
Proof.
  intros Hk Hk' Ht Hrow. destruct pt_pa_eq as (_ & H0 & H1). cbn [walk]. rewrite table_of_frame by done. cbn [mbind option_bind].
  rewrite Ht. cbn. rewrite Hrow. cbn. rewrite table_pte_mk by done.
  rewrite mk_malformed, mk_leaf, mk_ppn by (try done; lia). done.
Qed.

Lemma walk_user (ll : list Z) (va pte : Z) :
  0 <= va < MEGAPAGE_SIZE -> ll !! Z.to_nat (va / PGSIZE) = Some pte ->
  walk pt_pa (tables ll) 2 root va =
    if malformed pte then None else if leaf pte then Some (user_llpt, va / PGSIZE, 0%nat, pte) else None.
Proof.
  intros Hva Hpte. destruct (vpn_user va Hva) as (E2 & E1 & E0). rewrite root_eq, <-(Z.add_0_r pt_frame).
  erewrite (walk_step (tables ll) 1 0 user_l2pt va) by (done || (rewrite E2; reflexivity)).
  erewrite (walk_step (tables ll) 0 user_l2pt user_llpt va) by (done || (rewrite E1; reflexivity)).
  cbn [walk]. rewrite table_of_frame by done. cbn [mbind option_bind]. rewrite E0.
  change (tables ll !! Z.to_nat user_llpt) with (Some ll). cbn. rewrite Hpte. done.
Qed.

Lemma walk_kernel (ll : list Z) (off : Z) :
  0 <= off < MEGAPAGE_SIZE -> walk pt_pa (tables ll) 2 root (top + off) = Some (kernel_l2pt, 511, 1%nat, kernel_pte).
Proof.
  intros Hoff. destruct (vpn_kernel off Hoff) as (E2 & E1). rewrite root_eq, <-(Z.add_0_r pt_frame).
  erewrite (walk_step (tables ll) 1 0 kernel_l2pt) by (done || (rewrite E2; reflexivity)).
  cbn [walk]. rewrite table_of_frame by done. cbn [mbind option_bind]. rewrite E1. reflexivity.
Qed.

(** ** Translation *)

Section Translate.
Variable svadu : bool.

(** The tables are in place and switched on. *)
Definition mapped (ll : list Z) (s : vm) : Prop :=
  pt s = tables ll /\ satp (csr s) = satp_value pt_pa /\ length ll = 512%nat.

Lemma kernel_frame (off : Z) : 0 <= off < MEGAPAGE_SIZE -> frame_of 1 kernel_pte (top + off) = DRAM_BASE / PGSIZE + off / PGSIZE.
Proof.
  intros Hoff. unfold frame_of. cbv zeta. change (9 * Z.of_nat 1) with 9.
  change (Z.shiftl (Z.shiftr (pte_ppn kernel_pte) 9) 9) with 0x80000. change (DRAM_BASE / PGSIZE) with 0x80000.
  change (2 ^ 9 - 1) with (Z.ones 9). rewrite Z.land_ones, Z.shiftr_div_pow2 by done.
  replace ((top + off) / 2 ^ PGSHIFT mod 2 ^ 9) with (off / PGSIZE).
  - assert (0 <= off / PGSIZE < Z.of_nat 512) as Hr by (change PGSIZE with 4096; change MEGAPAGE_SIZE with 2097152 in *; lia).
    assert (allb 512 (fun b => Z.lor 0x80000 b =? 0x80000 + b) = true) as Hall by (vm_compute; reflexivity).
    apply Z.eqb_eq. exact (allb_spec 512 _ _ Hall Hr).
  - unfold top. change PGSIZE with 4096. change MEGAPAGE_SIZE with 2097152 in *. change (2 ^ PGSHIFT) with 4096. change (2 ^ 9) with 512. lia.
Qed.

Lemma translate_kernel (ll : list Z) (s : vm) (a : access) (off : Z) :
  mapped ll s -> 0 <= off < MEGAPAGE_SIZE ->
  translate pt_pa svadu S_ a (top + off) s = Ok (Ret (Some (DRAM_BASE / PGSIZE + off / PGSIZE)), s).
Proof.
  intros (Hpt & Hsatp & _) Hoff. unfold translate, mbind, VM_bind, gets. cbn [id]. unfold id.
  rewrite canonical_kernel, Hpt, Hsatp by done. fold root. rewrite walk_kernel by done. cbn [negb].
  replace (permitted S_ a (sum s) kernel_pte) with true by (by destruct a).
  replace (bool_decide (touch a kernel_pte = kernel_pte)) with true by (by destruct a).
  change (Z.land (pte_ppn kernel_pte) _ =? 0) with true. cbn [negb]. by rewrite kernel_frame.
Qed.

Lemma translate_absent (ll : list Z) (s : vm) (p : priv) (a : access) (va : Z) :
  mapped ll s -> 0 <= va < MEGAPAGE_SIZE -> ll !! Z.to_nat (va / PGSIZE) = Some 0 ->
  translate pt_pa svadu p a va s = Ok (Ret None, s).
Proof.
  intros (Hpt & Hsatp & _) Hva Hll. unfold translate, mbind, VM_bind, gets, id.
  rewrite canonical_user, Hpt, Hsatp by done. fold root. by rewrite (walk_user _ _ _ Hva Hll).
Qed.

Lemma pte_set_user (ll : list Z) (s : vm) (i x : Z) :
  mapped ll s -> 0 <= i < 512 ->
  pte_set user_llpt i x s = Ok (Ret tt, set_pt (tables (<[Z.to_nat i := u64 x]> ll)) s).
Proof.
  intros (Hpt & _ & Hl) Hi. unfold pte_set, mbind, VM_bind, gets, vlift, modify. rewrite Hpt.
  change (aget (tables ll) user_llpt) with (Ok ll). cbn [outcome_bind]. rewrite aset_in_range by lia.
  cbn [outcome_bind]. reflexivity.
Qed.

Lemma translate_user (ll : list Z) (s : vm) (p : priv) (a : access) (va fr fl : Z) :
  mapped ll s -> 0 <= va < MEGAPAGE_SIZE -> ll !! Z.to_nat (va / PGSIZE) = Some (mk fr fl) ->
  0 <= fr < 2 ^ 44 -> 0 <= fl < 1024 -> malformed fl = false -> leaf fl = true -> permitted p a (sum s) fl = true ->
  translate pt_pa svadu p a va s =
    if decide (touch a fl = fl) then Ok (Ret (Some fr), s)
    else if svadu then Ok (Ret (Some fr), set_pt (tables (<[Z.to_nat (va / PGSIZE) := mk fr (touch a fl)]> ll)) s)
    else Ok (Ret None, s).
Proof.
  intros Hm Hva Hll Hfr Hfl Hmal Hleaf Hperm. pose proof Hm as (Hpt & Hsatp & Hlen).
  assert (0 <= touch a fl < 1024) as Ht.
  { change (in_u 10 (touch a fl)). apply in_u_lor; [done|done|]. by destruct a. }
  unfold translate, mbind, VM_bind, gets, id.
  rewrite canonical_user, Hpt, Hsatp by done. fold root. rewrite (walk_user _ _ _ Hva Hll).
  rewrite mk_malformed, mk_leaf by done. unfold malformed in Hmal. apply orb_false_iff in Hmal as [Hmal _].
  rewrite Hmal, Hleaf. cbn [negb]. rewrite mk_permitted, Hperm, mk_ppn by done. cbn [negb].
  change (Z.land fr (2 ^ (9 * Z.of_nat 0) - 1)) with (Z.land fr 0). rewrite Z.land_0_r. cbn [Z.eqb negb].
  assert (frame_of 0 (mk fr fl) va = fr) as ->.
  { unfold frame_of. rewrite mk_ppn by done. change (9 * Z.of_nat 0) with 0. change (2 ^ 0 - 1) with 0.
    by rewrite Z.land_0_r, Z.shiftr_0_r, Z.shiftl_0_r, Z.lor_0_r. }
  rewrite mk_touch by done. destruct (decide (touch a fl = fl)) as [->|Hne]; [by rewrite bool_decide_true|].
  rewrite bool_decide_false by (by rewrite mk_inj). destruct svadu; [|done].
  rewrite (pte_set_user ll) by (try done; change PGSIZE with 4096; change MEGAPAGE_SIZE with 2097152 in *; lia).
  by rewrite mk_u64.
Qed.

(** Outside the lowermost and the uppermost megapage nothing is mapped. *)
Lemma walk_zero (t : list (list Z)) (l : nat) (k va : Z) (row : list Z) :
  0 <= k < NPT -> t !! Z.to_nat k = Some row -> row !! Z.to_nat (vpn l va) = Some 0 -> walk pt_pa t l (pt_frame + k) va = None.
Proof.
  intros Hk Ht Hrow. destruct l; cbn [walk]; rewrite table_of_frame by done; cbn [mbind option_bind]; rewrite Ht; cbn;
    by rewrite Hrow.
Qed.

Lemma replicate_lookup_other (i j : nat) (x : Z) : (j < 512)%nat -> j <> i -> <[i := x]> (replicate 512 0) !! j = Some 0.
Proof. intros Hj Hne. rewrite list_lookup_insert_ne by done. by apply lookup_replicate_2. Qed.

Lemma translate_outside (ll : list Z) (s : vm) (p : priv) (a : access) (va : Z) :
  mapped ll s -> MEGAPAGE_SIZE <= va < top -> translate pt_pa svadu p a va s = Ok (Ret None, s).
Proof.
  intros (Hpt & Hsatp & _) Hva. unfold translate, mbind, VM_bind, gets, id. rewrite Hpt, Hsatp. fold root.
  destruct (canonical va) eqn:Hcan; [|done]. cbn [negb]. replace (walk _ _ _ _ _) with (@None (Z * Z * nat * Z)); [done|].
  symmetry. rewrite root_eq, <-(Z.add_0_r pt_frame).
  pose proof (vpn_eq 2 va) as E2. pose proof (vpn_eq 1 va) as E1.
  change (2 ^ (12 + 9 * Z.of_nat 2)) with 1073741824 in E2. change (2 ^ (12 + 9 * Z.of_nat 1)) with 2097152 in E1.
  apply Z.eqb_eq in Hcan. unfold swrap, uwrap, top in *. change MEGAPAGE_SIZE with 2097152 in *.
  destruct (decide (vpn 2 va = 0)) as [H20|H20]; [|destruct (decide (vpn 2 va = 511)) as [H25|H25]].
  - erewrite (walk_step (tables ll) 1 0 user_l2pt va) by (done || (rewrite H20; reflexivity)).
    eapply walk_zero; [done|reflexivity|]. apply replicate_lookup_other; lia.
  - erewrite (walk_step (tables ll) 1 0 kernel_l2pt va) by (done || (rewrite H25; reflexivity)).
    eapply walk_zero; [done|reflexivity|]. apply replicate_lookup_other; lia.
  - eapply walk_zero; [done|reflexivity|]. rewrite list_lookup_insert_ne by lia. apply replicate_lookup_other; lia.
Qed.

Lemma translate_kernel_user (ll : list Z) (s : vm) (a : access) (off : Z) :
  mapped ll s -> 0 <= off < MEGAPAGE_SIZE -> translate pt_pa svadu U a (top + off) s = Ok (Ret None, s).
Proof.
  intros (Hpt & Hsatp & _) Hoff. unfold translate, mbind, VM_bind, gets, id.
  rewrite canonical_kernel, Hpt, Hsatp by done. fold root. rewrite walk_kernel by done. cbn [negb].
  by replace (permitted U a (sum s) kernel_pte) with false by (by destruct a).
Qed.
End Translate.

(** ** Boot *)

Lemma u64_table_pte (k : Z) : 0 <= k < NPT -> u64 (table_pte pt_pa k) = table_pte pt_pa k.
Proof. intros Hk. destruct pt_pa_eq as (_ & H0 & H1). rewrite table_pte_mk by done. apply mk_u64; [lia|done]. Qed.

Lemma boot_tables_ok (s : vm) :
  pt s = replicate 4 (replicate 512 0) -> boot_tables pt_pa s = Ok (Ret tt, set_pt (tables (replicate 512 0)) s).
Proof.
  intros Hpt. destruct s as [t um fn fh ft fr sm cs th fh' se]. cbn in Hpt. subst t.
  unfold boot_tables, pte_set, mbind, VM_bind, gets, vlift, modify.
  rewrite !u64_table_pte by done. change (u64 kernel_pte) with kernel_pte.
  unfold tables, set_pt. generalize (table_pte pt_pa user_l2pt) (table_pte pt_pa kernel_l2pt) (table_pte pt_pa user_llpt) kernel_pte.
  intros x y z w. vm_compute. reflexivity.
Qed.

Definition delegated : Z := 0xB100.

Lemma vm_boot_ok (h : hart) (polls : nat) (ENTROPY test_addr : Z) (s : vm) :
  pt s = replicate 4 (replicate 512 0) -> length (freelist_nodes s) = 63%nat ->
  mhartid h = 0 -> satp_warl h (satp_value pt_pa) = satp_value pt_pa ->
  exists c, vm_boot pt_pa polls h ENTROPY test_addr s =
      Ok (Ret (Trapframe (replicate 32 0) 0 (u64 (test_addr - DRAM_BASE)) 0 0),
          State (tables (replicate 512 0)) (user_mapping s) (boot_nodes (1 + ENTROPY mod 63)) (FNode 0) (FNode 62)
                (frames s) false c (tohost s) (fromhost s) (sent s)) /\
    satp c = satp_value pt_pa /\ medeleg c = delegated.
Proof.
  intros Hpt Hn Hh Hw. unfold vm_boot. rewrite Hh. cbn [Z.ltb Z.compare]. unfold mbind at 1, VM_bind at 1.
  rewrite boot_tables_ok by done. cbv beta iota. unfold modify, gets, boot_csrs. 
  unfold mbind, VM_bind, modify. cbn [csr set_csr satp]. rewrite Hw, Z.eqb_refl. cbn [negb].
  unfold mret, VM_ret. cbn [csr set_csr set_pt set_sum mstatus].
  change (Z.testbit _ 18) with false.
  set (s1 := set_freelist_tail _ _).
  change (Z.to_nat MAX_TEST_PAGES) with 63%nat. change MAX_TEST_PAGES with 63.
  pose proof (boot_freelist_ok 63 (1 + ENTROPY mod 63) [] (freelist_nodes s) s1 ltac:(lia) eq_refl Hn) as Hf.
  cbn [length app] in Hf. change (Z.of_nat 0) with 0 in Hf. rewrite Hf. cbv beta iota.
  assert (exists n, nodes_from 63 0 (1 + ENTROPY mod 63) !! Z.to_nat 62 = Some n) as [n Hl].
  { apply lookup_lt_is_Some_2. rewrite length_nodes_from. cbn. lia. }
  rewrite (node_set_next_F _ 62 n) by done. subst s1. eexists. split; [reflexivity|]. done.
Qed.

End Tables.

(** The addresses on a free list, from a node on. *)
Definition node_at (fn um : list freelist_t) (p : node_ptr) : option freelist_t :=
  match p with NULL => None | FNode i => fn !! Z.to_nat i | UNode i => um !! Z.to_nat i end.

Fixpoint free_list (fuel : nat) (fn um : list freelist_t) (p : node_ptr) : list Z :=
  match fuel, node_at fn um p with
  | S fuel, Some n => addr n :: free_list fuel fn um (next n)
  | _, _ => []
  end.

(** With fuel for one node more than there are: the list ends by itself. *)
Lemma boot_free_list (um : list freelist_t) (r : Z) :
  1 <= r <= 63 -> free_list 64 (boot_nodes r) um (FNode 0) = (fun r => frame r * PGSIZE) <$> lfsr_seq 63 r.
Proof.
  intros Hr.
  assert (allb 63 (fun r => bool_decide (free_list 64 (boot_nodes (r + 1)) um (FNode 0) = ((fun r => frame r * PGSIZE) <$> lfsr_seq 63 (r + 1)))) = true)
    as Hall by (vm_compute; reflexivity).
  pose proof (allb_spec 63 _ (r - 1) Hall ltac:(lia)) as H. apply bool_decide_eq_true in H. by replace (r - 1 + 1) with r in H by lia.
Qed.

(** The memory of the environment when it is entered. *)
Definition power_on (s : vm) : Prop :=
  pt s = replicate 4 (replicate 512 0) /\ user_mapping s = replicate 63 (Node 0 NULL) /\ length (freelist_nodes s) = 63%nat.

(** The page tables and the hart are what [vm_boot] counts on. *)
Definition supported (pt_pa : Z) (h : hart) : Prop :=
  pt_pa mod PGSIZE = 0 /\ (0 <= pt_pa /\ pt_pa + NPT * PGSIZE <= 2 ^ 56) /\
  mhartid h = 0 /\ satp_warl h (satp_value pt_pa) = satp_value pt_pa.

Definition booted_frames : list Z := (fun k => DRAM_BASE + (MAX_TEST_PAGES + k) * PGSIZE) <$> seqZ 1 63.

Lemma boot_frames_perm (r : Z) : 1 <= r <= 63 -> ((fun r => frame r * PGSIZE) <$> lfsr_seq 63 r) ≡ₚ booted_frames.
Proof.
  intros Hr. rewrite lfsr_period by done. unfold booted_frames. erewrite list_fmap_ext; [reflexivity|]. intros k x Hx.
  unfold frame. change DRAM_BASE with 0x80000000. change (0x80000000 / PGSIZE) with 0x80000. change PGSIZE with 4096. lia.
Qed.

(** [C23] The address space [vm_boot] hands to the test: for every placement of
    the tables, every seed and every hart with Sv39, it returns to user mode
    at the entry point of the test; the uppermost megapage is the memory from
    [DRAM_BASE] for the kernel and not accessible to the program; nothing else
    is mapped for anybody; and the free list holds each of the 63 frames above
    the image exactly once, in the order of the shift register. *)
Theorem boot_address_space (pt_pa : Z) (svadu : bool) (polls : nat) (h : hart) (ENTROPY test_addr : Z) (s : vm) :
  supported pt_pa h -> power_on s ->
  exists tf s', vm_boot pt_pa polls h ENTROPY test_addr s = Ok (Ret tf, s') /\
    epc tf = u64 (test_addr - DRAM_BASE) /\ sum s' = false /\ frames s' = frames s /\
    (forall p a va, 0 <= va < 2 ^ 64 -> translate pt_pa svadu p a va s' =
       Ok (Ret (if decide (top <= va /\ p = S_) then Some (DRAM_BASE / PGSIZE + (va - top) / PGSIZE) else None), s')) /\
    free_list 64 (freelist_nodes s') (user_mapping s') (freelist_head s') ≡ₚ booted_frames.
Proof.
  intros (Ha & Hr & Hh & Hw) (Hpt & Hum & Hfn).
  destruct (vm_boot_ok pt_pa Ha Hr h polls ENTROPY test_addr s Hpt Hfn Hh Hw) as (c & -> & Hsatp & _).
  eexists _, _. split; [reflexivity|]. do 3 (split; [reflexivity|]). set (s' := State _ _ _ _ _ _ _ _ _ _ _).
  assert (mapped pt_pa (replicate 512 0) s') as Hm by (split_and!; done). split.
  - intros p a va Hva. destruct (decide (top <= va)) as [Ht|Ht].
    + assert (exists off, va = top + off /\ 0 <= off < MEGAPAGE_SIZE) as (off & -> & Hoff) by (exists (va - top); unfold top in *; lia).
      destruct p.
      * rewrite decide_False by naive_solver. by eapply translate_kernel_user.
      * rewrite decide_True by done. replace (top + off - top) with off by lia. by eapply translate_kernel.
    + rewrite decide_False by naive_solver. destruct (decide (va < MEGAPAGE_SIZE)).
      * eapply translate_absent; [done|done|done|lia|]. apply lookup_replicate_2.
        change MEGAPAGE_SIZE with 2097152 in *. change PGSIZE with 4096. lia.
      * eapply translate_outside; [done|done|done|lia].
  - cbn [freelist_nodes user_mapping freelist_head s']. rewrite boot_free_list by lia. apply boot_frames_perm. lia.
Qed.

(** Tables in the fifth page above the image, all memory zero. *)
Definition demo_hart : hart := Hart 0 id true 0x80000100 0x80010000.
Definition demo_state (m : gmap Z (list Z)) : vm :=
  State (replicate 4 (replicate 512 0)) (replicate 63 (Node 0 NULL)) (replicate 63 (Node 0 NULL)) NULL NULL m false
        (Csrs 0 0 0 0 0 0 0 0) 0 0 [].

Lemma boot_address_space_witness :
  exists tf s', vm_boot 0x80083000 2 demo_hart 12345 0x80002000 (demo_state ∅) = Ok (Ret tf, s') /\
    epc tf = 0x2000 /\ sum s' = false /\ frames s' = ∅ /\
    (forall p a va, 0 <= va < 2 ^ 64 -> translate 0x80083000 false p a va s' =
       Ok (Ret (if decide (top <= va /\ p = S_) then Some (DRAM_BASE / PGSIZE + (va - top) / PGSIZE) else None), s')) /\
    free_list 64 (freelist_nodes s') (user_mapping s') (freelist_head s') ≡ₚ booted_frames.
Proof.
  apply (boot_address_space 0x80083000 false 2 demo_hart 12345 0x80002000 (demo_state ∅)).
  - split_and!; done.
  - split_and!; done.
Defined.
End VmWalk.
