(* ===== verification/VmSpec.v ===== *)
(** * Demand paging refines a flat memory

    A program that runs in the pages of [handle_fault] sees the memory of its
    image as one flat array of bytes, and when it ends the image holds what
    it wrote.  The invariant [paged] says, for every page of the program,
    whether it is resident, in which frame, and what its entry, its mapping
    and its image hold. *)

From S2P Require Import Prelude.
From S2P Require Import Vm VmWalk.

Module VmSpec.
Import Vm VmWalk.
#[local] Ltac Zify.zify_post_hook ::= Z.to_euclidean_division_equations.

(** ** Running one step *)

Lemma vbind {A B} (m : VM A) (f : A -> VM B) (s s' : vm) (a : A) :
  m s = Ok (Ret a, s') -> (m ≫= f) s = f a s'.
Proof. intros H. unfold mbind, VM_bind. by rewrite H. Qed.

(** Rewrite the first statement by its result, or by computation. *)
Tactic Notation "vstep" constr(H) := rewrite (vbind _ _ _ _ _ H); cbv beta.
Tactic Notation "vstep" := erewrite vbind by reflexivity; cbv beta.

Tactic Notation "vrun" tactic3(t) := erewrite vbind by t; cbv beta.

Lemma assert_true (polls : nat) (x : bool) (t : list Z) (s : vm) : x = true -> assert polls x t s = Ok (Ret tt, s).
Proof. by intros ->. Qed.

(** ** The flat memory *)

Definition page_of (M : Z -> Z) (i : Z) : list Z := (fun o => M (i * PGSIZE + o)) <$> seqZ 0 PGSIZE.

Definition flat_mem (o : user_op) (M : Z -> Z) : Z -> Z :=
  match o with UStore va b => fun x => if decide (x = va) then b else M x | _ => M end.
Definition flat_val (o : user_op) (M : Z -> Z) : Z := match o with UFetch va | ULoad va => M va | UStore _ b => b end.

Fixpoint flat_run (ops : list user_op) (M : Z -> Z) : list Z * (Z -> Z) :=
  match ops with
  | [] => ([], M)
  | o :: ops => let (vs, M') := flat_run ops (flat_mem o M) in (flat_val o M :: vs, M')
  end.

Lemma page_of_lookup (M : Z -> Z) (i o : Z) : 0 <= o < PGSIZE -> page_of M i !! Z.to_nat o = Some (M (i * PGSIZE + o)).
Proof.
  intros Ho. unfold page_of. rewrite list_lookup_fmap, lookup_seqZ_lt by (change PGSIZE with 4096 in *; lia).
  cbn. by rewrite Z2Nat.id by lia.
Qed.

Lemma length_page_of (M : Z -> Z) (i : Z) : length (page_of M i) = Z.to_nat PGSIZE.
Proof. unfold page_of. by rewrite length_fmap, length_seqZ. Qed.

Lemma page_of_store (M : Z -> Z) (i va b : Z) :
  0 <= va -> page_of (flat_mem (UStore va b) M) i =
    if decide (i = va / PGSIZE) then <[Z.to_nat (va mod PGSIZE) := b]> (page_of M i) else page_of M i.
Proof.
  intros Hva. apply list_eq. intros k. destruct (decide (k < Z.to_nat PGSIZE)%nat) as [Hk|Hk].
  - assert (k = Z.to_nat (Z.of_nat k)) as -> by lia. change PGSIZE with 4096 in *.
    destruct (decide (i = va / 4096)) as [Hi|Hi].
    + rewrite (page_of_lookup _ _ (Z.of_nat k)) by (change PGSIZE with 4096; lia). cbn [flat_mem].
      change PGSIZE with 4096. destruct (decide (i * 4096 + Z.of_nat k = va)) as [E|E].
      * replace (va mod 4096) with (Z.of_nat k) by lia. rewrite list_lookup_insert_eq; [done|].
        rewrite length_page_of. change (Z.to_nat PGSIZE) with 4096%nat. lia.
      * rewrite list_lookup_insert_ne by lia. symmetry. apply (page_of_lookup M i (Z.of_nat k)). change PGSIZE with 4096; lia.
    + rewrite !(page_of_lookup _ _ (Z.of_nat k)) by (change PGSIZE with 4096; lia). cbn [flat_mem]. change PGSIZE with 4096.
      rewrite decide_False by lia. done.
  - rewrite !lookup_ge_None_2; [done| |].
    + destruct (decide _); rewrite ?length_insert, length_page_of; lia.
    + rewrite length_page_of. lia.
Qed.

(** ** Flags of a page of the program *)

Definition flags (a d : bool) : Z := 31 + (if a then 64 else 0) + (if d then 128 else 0).

Lemma flags_range (a d : bool) : 0 <= flags a d < 1024.
Proof. by destruct a, d. Qed.

Lemma flags_ok (a d : bool) : malformed (flags a d) = false /\ leaf (flags a d) = true.
Proof. by destruct a, d. Qed.

Lemma touch_flags (x : access) (a d : bool) : touch x (flags a d) = flags true (match x with Write => true | _ => d end).
Proof. by destruct x, a, d. Qed.

(** ** Frames *)

Definition D : Z := DRAM_BASE / PGSIZE.

Section Paging.
Variables (pt_pa : Z) (svadu : bool) (polls : nat) (fssr r0 : Z).
Hypothesis Haligned : pt_pa mod PGSIZE = 0.
Hypothesis Hrange : 0 <= pt_pa /\ pt_pa + NPT * PGSIZE <= 2 ^ 56.
Hypothesis Hr0 : 1 <= r0 <= 63.

(** The frame of node [j]. *)
Definition fr (j : nat) : Z := frame (default 0 (lfsr_seq 63 r0 !! j)).

Lemma lfsr_lookup (j : nat) : (j < 63)%nat -> exists r, lfsr_seq 63 r0 !! j = Some r /\ 1 <= r <= 63.
Proof.
  intros Hj. destruct (lookup_lt_is_Some_2 (lfsr_seq 63 r0) j) as [r Hr]; [by rewrite length_lfsr_seq|].
  exists r. split; [done|]. apply list_elem_of_lookup_2 in Hr. rewrite (lfsr_period r0 Hr0) in Hr.
  apply elem_of_seqZ in Hr. lia.
Qed.

Lemma fr_range (j : nat) : (j < 63)%nat -> D + 64 <= fr j <= D + 126.
Proof.
  intros Hj. destruct (lfsr_lookup j Hj) as (r & Hr & Hb). unfold fr, frame, D. rewrite Hr. cbn [default]. change MAX_TEST_PAGES with 63. cbn [from_option id]. unfold id. lia.
Qed.

Lemma fr_inj (j k : nat) : (j < 63)%nat -> (k < 63)%nat -> fr j = fr k -> j = k.
Proof.
  intros Hj Hk. destruct (lfsr_lookup j Hj) as (r & Hr & _), (lfsr_lookup k Hk) as (r' & Hr' & _).
  unfold fr, frame. rewrite Hr, Hr'. cbn. intros E. assert (r = r') as <- by lia.
  eapply NoDup_lookup; [|done|done]. eapply NoDup_Permutation_proper; [apply (lfsr_period r0 Hr0)|apply NoDup_seqZ].
Qed.

Lemma boot_nodes_lookup (j : nat) : (j < 63)%nat ->
  boot_nodes r0 !! j = Some (Node (fr j * PGSIZE) (if decide (j = 62%nat) then NULL else FNode (Z.of_nat j + 1))).
Proof.
  intros Hj. destruct (lfsr_lookup j Hj) as (r & Hr & _). unfold boot_nodes, fr. rewrite Hr. cbn [default from_option id].
  destruct (decide (j = 62%nat)) as [->|Hne].
  - rewrite list_lookup_alter_eq, nodes_from_lookup, Hr. done.
  - rewrite list_lookup_alter_ne by done. rewrite nodes_from_lookup, Hr. cbn. by rewrite Z.add_0_l.
Qed.

(** ** The invariant *)

(** [ll] is the last-level table, [order] the resident pages in the order they
    were mapped, [cold] a page whose accessed bit may still be clear. *)
Record paged (ll : list Z) (order : list Z) (cold : Z) (out : list Z) (M : Z -> Z) (s : vm) : Prop := {
  pg_mapped : mapped pt_pa ll s;
  pg_medeleg : medeleg (csr s) = delegated;
  pg_sum : sum s = false;
  pg_nodes : freelist_nodes s = boot_nodes r0;
  pg_head : freelist_head s = FNode (Z.of_nat (length order));
  pg_tail : freelist_tail s = NULL \/ freelist_tail s = FNode 62;
  pg_um : length (user_mapping s) = 63%nat;
  pg_nodup : NoDup order;
  pg_range : Forall (fun i => 1 <= i <= 62) order;
  pg_absent : forall i, 1 <= i <= 62 -> i ∉ order ->
    ll !! Z.to_nat i = Some 0 /\ (exists n, user_mapping s !! Z.to_nat i = Some (Node 0 n)) /\ frames s !! (D + i) = Some (page_of M i);
  pg_present : forall j i, order !! j = Some i -> exists a d n p,
    ll !! Z.to_nat i = Some (mk (fr j) (flags a d)) /\ user_mapping s !! Z.to_nat i = Some (Node (fr j * PGSIZE) n) /\
    frames s !! fr j = Some (page_of M i) /\ frames s !! (D + i) = Some p /\
    (d = false -> p = page_of M i) /\ (i <> cold -> a = true);
  pg_free : forall j, (length order <= j < 63)%nat -> is_Some (frames s !! fr j);
  pg_sent : sent s = out }.

Lemma order_short (order : list Z) (i : Z) :
  NoDup order -> Forall (fun i => 1 <= i <= 62) order -> 1 <= i <= 62 -> i ∉ order -> (length order < 62)%nat.
Proof.
  intros Hnd Hr Hi Hn. assert (i :: order ⊆+ seqZ 1 62) as Hs.
  { apply NoDup_submseteq; [by constructor|]. intros x Hx. apply elem_of_seqZ. apply elem_of_cons in Hx as [->|Hx]; [lia|].
    rewrite Forall_forall in Hr. specialize (Hr x Hx). lia. }
  apply submseteq_length in Hs. rewrite length_seqZ in Hs. cbn in Hs. lia.
Qed.

Lemma order_len (order : list Z) : NoDup order -> Forall (fun i => 1 <= i <= 62) order -> (length order <= 62)%nat.
Proof.
  intros Hnd Hr. assert (order ⊆+ seqZ 1 62) as Hs.
  { apply NoDup_submseteq; [done|]. intros x Hx. apply elem_of_seqZ. rewrite Forall_forall in Hr. specialize (Hr x Hx). lia. }
  apply submseteq_length in Hs. by rewrite length_seqZ in Hs.
Qed.

(** ** The kernel's own accesses *)

Lemma s_page_kernel (ll : list Z) (s : vm) (a : access) (va : Z) :
  mapped pt_pa ll s -> 0 <= va < MEGAPAGE_SIZE -> s_page pt_pa svadu a (uva2kva va) s = Ok (Ret (D + va / PGSIZE), s).
Proof.
  intros Hm Hva. unfold s_page. rewrite uva2kva_top by done.
  vstep (translate_kernel pt_pa Haligned Hrange svadu ll s a va Hm Hva). done.
Qed.

Lemma s_page_user (ll : list Z) (s : vm) (x : access) (va f : Z) (a d : bool) :
  mapped pt_pa ll s -> sum s = true -> x <> Fetch -> 0 <= va < MEGAPAGE_SIZE -> ll !! Z.to_nat (va / PGSIZE) = Some (mk f (flags a d)) ->
  0 <= f < 2 ^ 44 -> a = true -> (x = Write -> d = true) ->
  s_page pt_pa svadu x va s = Ok (Ret f, s).
Proof.
  intros Hm Hs Hx Hva Hll Hf -> Hd. destruct (flags_ok true d) as [Hmal Hleaf]. unfold s_page.
  rewrite (vbind _ _ s s (Some f)); [done|].
  rewrite (translate_user pt_pa Haligned Hrange svadu ll s S_ x va f (flags true d)); try done; [| |].
  - rewrite touch_flags. rewrite decide_True; [done|]. destruct x; try done. by rewrite Hd.
  - apply flags_range.
  - rewrite Hs. by destruct x, d.
Qed.

Lemma page_at_ok (s : vm) (f : Z) (p : list Z) : frames s !! f = Some p -> page_at f s = Ok (Ret p, s).
Proof. intros Hf. unfold page_at, mbind, VM_bind, gets, vlift. by rewrite Hf. Qed.

Lemma memcpy_page_ok (s : vm) (dest src f g : Z) (p q : list Z) :
  s_page pt_pa svadu Read src s = Ok (Ret f, s) -> s_page pt_pa svadu Write dest s = Ok (Ret g, s) ->
  frames s !! f = Some p -> frames s !! g = Some q ->
  memcpy_page pt_pa svadu dest src s = Ok (Ret tt, set_frames (<[g := p]> (frames s)) s).
Proof.
  intros H1 H2 Hf Hg. unfold memcpy_page. vstep H1. vstep H2. vstep (page_at_ok _ _ _ Hf). vstep (page_at_ok _ _ _ Hg). done.
Qed.

Lemma memcmp_page_ok (s : vm) (s1 s2 f g : Z) (p q : list Z) :
  s_page pt_pa svadu Read s1 s = Ok (Ret f, s) -> s_page pt_pa svadu Read s2 s = Ok (Ret g, s) ->
  frames s !! f = Some p -> frames s !! g = Some q ->
  memcmp_page pt_pa svadu s1 s2 s = Ok (Ret (negb (bool_decide (p = q))), s).
Proof.
  intros H1 H2 Hf Hg. unfold memcmp_page. vstep H1. vstep H2. vstep (page_at_ok _ _ _ Hf). vstep (page_at_ok _ _ _ Hg). done.
Qed.

Lemma pte_get_user (ll : list Z) (s : vm) (i pte : Z) :
  mapped pt_pa ll s -> 0 <= i -> ll !! Z.to_nat i = Some pte -> pte_get user_llpt i s = Ok (Ret pte, s).
Proof.
  intros (Hpt & _) Hi Hll. unfold pte_get, mbind, VM_bind, gets, vlift. rewrite Hpt.
  change (aget (tables pt_pa ll) user_llpt) with (Ok ll). cbn [outcome_bind]. by rewrite (aget_Some _ _ _ Hi Hll).
Qed.

Lemma node_get_U (s : vm) (i : Z) (n : freelist_t) :
  0 <= i -> user_mapping s !! Z.to_nat i = Some n -> node_get (UNode i) s = Ok (Ret n, s).
Proof. intros Hi Hn. unfold node_get, mbind, VM_bind, gets, vlift. by rewrite (aget_Some _ _ _ Hi Hn). Qed.

Lemma node_get_F (s : vm) (i : Z) (n : freelist_t) :
  0 <= i -> freelist_nodes s !! Z.to_nat i = Some n -> node_get (FNode i) s = Ok (Ret n, s).
Proof. intros Hi Hn. unfold node_get, mbind, VM_bind, gets, vlift. by rewrite (aget_Some _ _ _ Hi Hn). Qed.

Lemma mapping_set_ok (s : vm) (i : Z) (n : freelist_t) :
  0 <= i < Z.of_nat (length (user_mapping s)) ->
  mapping_set i n s = Ok (Ret tt, set_user_mapping (<[Z.to_nat i := n]> (user_mapping s)) s).
Proof. intros Hi. unfold mapping_set, mbind, VM_bind, gets, vlift, modify. by rewrite aset_in_range. Qed.

(** ** Page faults *)

Definition no_filter : Z -> option Z := fun _ => None.

Lemma page_bounds (va : Z) : PGSIZE <= va < MAX_TEST_PAGES * PGSIZE ->
  1 <= va / PGSIZE <= 62 /\ 0 <= va < MEGAPAGE_SIZE /\ 0 <= va / PGSIZE * PGSIZE < MEGAPAGE_SIZE /\
  va / PGSIZE * PGSIZE / PGSIZE = va / PGSIZE /\ ((PGSIZE <=? va) && (va <? MAX_TEST_PAGES * PGSIZE)) = true.
Proof. change PGSIZE with 4096. change MAX_TEST_PAGES with 63. change MEGAPAGE_SIZE with 2097152. lia. Qed.

(** The state after a page has been mapped: [k] is the node that was taken. *)
Definition paged_in (ll : list Z) (i : Z) (k : nat) (s : vm) (p : list Z) : vm :=
  let n := Node (fr k * PGSIZE) (FNode (Z.of_nat k + 1)) in
  State (tables pt_pa (<[Z.to_nat i := mk (fr k) (flags false false)]> ll)) (<[Z.to_nat i := n]> (user_mapping s)) (freelist_nodes s)
        (FNode (Z.of_nat k + 1)) (if decide (FNode (Z.of_nat k + 1) = freelist_tail s) then NULL else freelist_tail s)
        (<[fr k := p]> (frames s)) (sum s) (csr s) (tohost s) (fromhost s) (sent s).

Lemma fr_44 (j : nat) : (j < 63)%nat -> 0 <= fr j < 2 ^ 44.
Proof. intros Hj. pose proof (fr_range j Hj). change D with 0x80000 in *. lia. Qed.

Lemma new_pte_mk (f : Z) : 0 <= f < 2 ^ 44 ->
  Z.lor (pte_of (f * PGSIZE)) (Z.lor PTE_V (Z.lor PTE_U (Z.lor PTE_R (Z.lor PTE_W PTE_X)))) = mk f (flags false false) /\
  Z.lor (mk f (flags false false)) (Z.lor PTE_A PTE_D) = mk f (flags true true).
Proof. intros Hf. rewrite pte_of_mk by done. split; by rewrite mk_lor. Qed.

Lemma handle_fault_in (ll : list Z) (order : list Z) (out : list Z) (M : Z -> Z) (s : vm) (va cause : Z) :
  paged ll order 0 out M s -> PGSIZE <= va < MAX_TEST_PAGES * PGSIZE -> va / PGSIZE ∉ order ->
  handle_fault pt_pa svadu polls no_filter va cause s = Ok (Ret tt, paged_in ll (va / PGSIZE) (length order) s (page_of M (va / PGSIZE))).
Proof.
  intros [Hm Hde Hsum Hfn Hhd Htl Hum Hnd Hrg Habs Hpre Hfree Hsent] Hva Hn.
  destruct (page_bounds va Hva) as (Hi & Hv & Hv' & Hdiv & Hb). set (i := va / PGSIZE) in *.
  pose proof (order_short order i Hnd Hrg Hi Hn) as Hk. set (k := length order) in *.
  destruct (Habs i Hi Hn) as (Hll & (nx & Humi) & Hfr).
  pose proof (boot_nodes_lookup k ltac:(lia)) as Hnode. rewrite decide_False in Hnode by lia.
  destruct (Hfree k ltac:(lia)) as [q Hq]. pose proof (fr_44 k ltac:(lia)) as H44. pose proof (fr_range k ltac:(lia)) as Hfrk.
  destruct (new_pte_mk (fr k) H44) as [Hpte Hptead].
  destruct s as [t um fn hd tl fm sm cs th fh se]. cbn [user_mapping freelist_nodes freelist_head freelist_tail frames sum csr tohost fromhost sent] in *.
  subst sm fn hd. pose proof Hm as (Hpt & Hsatp & Hlen). cbn in Hpt, Hsatp. subst t.
  unfold handle_fault. vrun (by apply assert_true). cbv zeta. fold i. rewrite Hdiv.
  assert (boot_nodes r0 !! Z.to_nat (Z.of_nat k) = Some (Node (fr k * PGSIZE) (FNode (Z.of_nat k + 1)))) as Hnode'
    by (by rewrite Nat2Z.id).
  vrun (by apply (pte_get_user ll); [|lia|]). cbn [Z.eqb negb]. vstep. vstep.
  vrun (by apply node_get_F; [lia|]). cbn [next]. vstep. vstep. vstep. cbn [freelist_head freelist_tail set_freelist_head].
  set (tl' := if decide (FNode (Z.of_nat k + 1) = tl) then NULL else tl).
  rewrite (vbind _ _ _ (State (tables pt_pa ll) um (boot_nodes r0) (FNode (Z.of_nat k + 1)) tl' fm false cs th fh se) tt)
    by (unfold tl'; by destruct (decide _)). cbv beta.
  vrun (by apply node_get_F; [lia|]). cbn [addr]. change (no_filter _) with (@None Z). cbv iota. rewrite Hpte, Hptead.
  vrun (by apply (pte_set_user pt_pa ll); [split_and!|lia]). rewrite mk_u64 by (done || apply flags_range).
  vrun (by apply node_get_U; [lia|]). cbn [addr]. vstep.
  vrun (by apply node_get_F; [lia|]).
  vrun (by apply mapping_set_ok; cbn; lia). vstep. vstep. cbn [user_mapping set_pt sum set_user_mapping].
  set (ll1 := <[Z.to_nat i := mk (fr k) (flags true true)]> ll).
  assert (length ll1 = 512%nat) as Hlen1 by (unfold ll1; by rewrite length_insert).
  vrun (eapply memcpy_page_ok; [apply (s_page_kernel ll1); [by split_and!|done]|
    eapply (s_page_user ll1 _ _ _ (fr k) true true); try done; rewrite Hdiv; apply list_lookup_insert_eq; lia|
    cbn [frames]; rewrite Hdiv; exact Hfr|exact Hq]).
  vstep. rewrite (pte_set_user pt_pa ll1) by (lia || by split_and!).
  rewrite mk_u64 by (done || apply flags_range). unfold ll1. rewrite list_insert_insert_eq. reflexivity.
Qed.

Lemma paged_in_paged (ll : list Z) (order : list Z) (out : list Z) (M : Z -> Z) (s : vm) (i : Z) :
  paged ll order 0 out M s -> 1 <= i <= 62 -> i ∉ order ->
  paged (<[Z.to_nat i := mk (fr (length order)) (flags false false)]> ll) (order ++ [i]) i out M (paged_in ll i (length order) s (page_of M i)).
Proof.
  intros [Hm Hde Hsum Hfn Hhd Htl Hum Hnd Hrg Habs Hpre Hfree Hsent] Hi Hn.
  pose proof (order_short order i Hnd Hrg Hi Hn) as Hk. destruct Hm as (Hpt & Hsatp & Hlen).
  constructor; cbn [paged_in csr sum freelist_nodes freelist_head freelist_tail user_mapping frames sent]; try done.
  - split_and!; [done|done|by rewrite length_insert].
  - f_equal. rewrite length_app. cbn. lia.
  - destruct (decide _); [by left|done].
  - by rewrite length_insert.
  - apply NoDup_app. split_and!; [done|set_solver|apply NoDup_singleton].
  - apply Forall_app. split; [done|by constructor].
  - intros i' Hi' Hn'. assert (i' <> i /\ i' ∉ order) as [Hne Hn''] by set_solver.
    destruct (Habs i' Hi' Hn'') as (H1 & H2 & H3). rewrite !list_lookup_insert_ne by lia.
    split_and!; [done|done|]. pose proof (fr_range (length order) ltac:(lia)). by rewrite lookup_insert_ne by lia.
  - intros j i' Hj. apply lookup_app_Some in Hj as [Hj|[Hj Hj']].
    + destruct (Hpre j i' Hj) as (a & d & n & p & H1 & H2 & H3 & H4 & H5 & H6).
      pose proof (lookup_lt_Some _ _ _ Hj) as Hlt. pose proof (Forall_lookup_1 _ _ _ _ Hrg Hj) as Hi'. cbv beta in Hi'.
      assert (i' <> i) as Hne by (intros ->; apply Hn; by eapply list_elem_of_lookup_2).
      pose proof (fr_range (length order) ltac:(lia)) as Hfr.
      assert (fr (length order) <> fr j) as Hfj by (intros E; apply fr_inj in E; lia).
      exists a, d, n, p. rewrite !list_lookup_insert_ne, !lookup_insert_ne by lia. split_and!; try done. intros _. apply H6. lia.
    + destruct (j - length order)%nat as [|j'] eqn:E; [|done]. cbn in Hj'. injection Hj' as <-.
      replace j with (length order) by lia. destruct (Habs i Hi Hn) as (_ & _ & H3).
      exists false, false, (FNode (Z.of_nat (length order) + 1)), (page_of M i).
      pose proof (fr_range (length order) ltac:(lia)) as Hfr.
      rewrite !list_lookup_insert_eq, lookup_insert_eq, lookup_insert_ne by lia. split_and!; done.
  - intros j Hj. rewrite length_app in Hj. cbn in Hj. apply lookup_insert_is_Some'. right. apply Hfree. lia.
Qed.

(** A resident page whose accessed and dirty bits are raised. *)
Lemma paged_flags (ll : list Z) (order : list Z) (cold : Z) (out : list Z) (M : Z -> Z) (s : vm) (j : nat) (i : Z) (a d a' d' : bool) :
  paged ll order cold out M s -> (cold = i \/ cold = 0) -> order !! j = Some i -> ll !! Z.to_nat i = Some (mk (fr j) (flags a d)) ->
  (d' = false -> d = false) ->
  paged (<[Z.to_nat i := mk (fr j) (flags true d')]> ll) order 0 out M
        (set_pt (tables pt_pa (<[Z.to_nat i := mk (fr j) (flags true d')]> ll)) s).
Proof.
  intros [Hm Hde Hsum Hfn Hhd Htl Hum Hnd Hrg Habs Hpre Hfree Hsent] Hc Hj Hll Hd. destruct Hm as (Hpt & Hsatp & Hlen).
  pose proof (Forall_lookup_1 _ _ _ _ Hrg Hj) as Hi. cbv beta in Hi.
  constructor; cbn [set_pt csr sum freelist_nodes freelist_head freelist_tail user_mapping frames sent]; try done.
  - split_and!; [done|done|by rewrite length_insert].
  - intros i' Hi' Hn. destruct (Habs i' Hi' Hn) as (H1 & H2 & H3).
    assert (i' <> i) by (intros ->; apply Hn; by eapply list_elem_of_lookup_2).
    rewrite list_lookup_insert_ne by lia. done.
  - intros j' i' Hj'. destruct (Hpre j' i' Hj') as (a1 & d1 & n & p & H1 & H2 & H3 & H4 & H5 & H6).
    pose proof (Forall_lookup_1 _ _ _ _ Hrg Hj') as Hi'. cbv beta in Hi'. destruct (decide (i' = i)) as [->|Hne].
    + assert (j' = j) as -> by (by eapply NoDup_lookup). exists true, d', n, p. rewrite list_lookup_insert_eq by lia.
      rewrite Hll in H1. injection H1 as H1. apply mk_inj in H1. split_and!; try done.
      intros E. apply H5. specialize (Hd E). subst d. by destruct a, a1, d1.
    + exists a1, d1, n, p. rewrite list_lookup_insert_ne by lia. split_and!; try done. intros _. apply H6. lia.
Qed.

Lemma handle_fault_bits (ll : list Z) (order : list Z) (cold : Z) (out : list Z) (M : Z -> Z) (s : vm) (va cause : Z) (j : nat) (a d : bool) :
  paged ll order cold out M s -> PGSIZE <= va < MAX_TEST_PAGES * PGSIZE -> order !! j = Some (va / PGSIZE) ->
  ll !! Z.to_nat (va / PGSIZE) = Some (mk (fr j) (flags a d)) -> (a = true -> d = false /\ cause = CAUSE_STORE_PAGE_FAULT) ->
  handle_fault pt_pa svadu polls no_filter va cause s =
    Ok (Ret tt, set_pt (tables pt_pa (<[Z.to_nat (va / PGSIZE) := mk (fr j) (flags true (if a then true else d))]> ll)) s).
Proof.
  intros Hp Hva Hj Hll Hc. destruct (page_bounds va Hva) as (Hi & Hv & Hv' & Hdiv & Hb).
  pose proof (pg_mapped _ _ _ _ _ _ Hp) as Hm. pose proof (lookup_lt_Some _ _ _ Hj) as Hlt.
  pose proof (order_len _ (pg_nodup _ _ _ _ _ _ Hp) (pg_range _ _ _ _ _ _ Hp)) as Hlen.
  pose proof (fr_range j ltac:(lia)) as Hfr. pose proof (fr_44 j ltac:(lia)) as H44. change D with 0x80000 in *.
  unfold handle_fault. vrun (by apply assert_true). cbv zeta. rewrite Hdiv.
  vrun (by apply (pte_get_user ll); [|lia|]).
  replace (mk (fr j) (flags a d) =? 0) with false by (symmetry; apply Z.eqb_neq; unfold mk, flags; destruct a, d; lia).
  cbn [negb]. rewrite !mk_flag by (done || apply flags_range). destruct a.
  - destruct (Hc eq_refl) as [-> ->]. change (negb (flag (flags true false) PTE_A)) with false. cbv iota. vstep.
    rewrite mk_lor by done. rewrite (pte_set_user pt_pa ll) by (lia || done). by rewrite mk_u64.
  - replace (flag (flags false d) PTE_A) with false by (by destruct d). cbn [negb].
    rewrite mk_lor by (done || apply flags_range). rewrite (pte_set_user pt_pa ll) by (lia || done).
    replace (Z.lor (flags false d) PTE_A) with (flags true d) by (by destruct d). rewrite mk_u64 by (done || apply flags_range). done.
Qed.

(** ** Accesses of the program *)

Definition pass : trapframe_t -> bool * trapframe_t := fun tf => (false, tf).

Definition in_pages (o : user_op) : Prop := PGSIZE <= op_va o < MAX_TEST_PAGES * PGSIZE.
Definition is_write (o : user_op) : bool := match o with UStore _ _ => true | _ => false end.

Lemma trap_fault (o : user_op) (s s' : vm) (g : list Z) (w e : Z) :
  medeleg (csr s) = delegated -> handle_fault pt_pa svadu polls no_filter (op_va o) (op_cause o) s = Ok (Ret tt, s') ->
  trap pt_pa svadu polls no_filter pass fssr (Trapframe g w e (op_va o) (op_cause o)) s = Ok (Ret (Trapframe g w e (op_va o) (op_cause o)), s').
Proof.
  intros Hd Hf. unfold trap. vstep. rewrite Hd. cbn [cause].
  replace (Z.testbit delegated (op_cause o)) with true by (by destruct o). unfold handle_trap, pass. cbn [cause badvaddr].
  replace (op_cause o =? CAUSE_USER_ECALL) with false by (by destruct o).
  replace (op_cause o =? CAUSE_ILLEGAL_INSTRUCTION) with false by (by destruct o).
  replace (_ || _ || _) with true by (by destruct o). vstep Hf. done.
Qed.

(** A store to a resident page that is dirty. *)
Lemma paged_store (ll : list Z) (order : list Z) (out : list Z) (M : Z -> Z) (s : vm) (j : nat) (va b : Z) :
  paged ll order 0 out M s -> 0 <= va -> order !! j = Some (va / PGSIZE) ->
  ll !! Z.to_nat (va / PGSIZE) = Some (mk (fr j) (flags true true)) ->
  paged ll order 0 out (flat_mem (UStore va b) M)
        (set_frames (<[fr j := <[Z.to_nat (va mod PGSIZE) := b]> (page_of M (va / PGSIZE))]> (frames s)) s).
Proof.
  intros [Hm Hde Hsum Hfn Hhd Htl Hum Hnd Hrg Habs Hpre Hfree Hsent] Hva Hj Hll.
  pose proof (order_len _ Hnd Hrg) as Hlen. pose proof (lookup_lt_Some _ _ _ Hj) as Hlt.
  pose proof (fr_range j ltac:(lia)) as Hfr.
  constructor; cbn [set_frames csr sum freelist_nodes freelist_head freelist_tail user_mapping frames sent]; try done.
  - intros i Hi Hn. destruct (Habs i Hi Hn) as (H1 & H2 & H3). split_and!; [done|done|].
    assert (i <> va / PGSIZE) by (intros ->; apply Hn; by eapply list_elem_of_lookup_2).
    rewrite page_of_store, decide_False, lookup_insert_ne by (done || lia). done.
  - intros j' i Hj'. destruct (Hpre j' i Hj') as (a & d & n & p & H1 & H2 & H3 & H4 & H5 & H6).
    pose proof (Forall_lookup_1 _ _ _ _ Hrg Hj') as Hi. cbv beta in Hi. pose proof (lookup_lt_Some _ _ _ Hj') as Hlt'.
    exists a, d, n, p. rewrite page_of_store by done. rewrite (lookup_insert_ne _ (fr j) (D + i)) by lia.
    destruct (decide (i = va / PGSIZE)) as [->|Hne].
    + assert (j' = j) as -> by (by eapply NoDup_lookup). rewrite lookup_insert_eq. split_and!; try done.
      intros ->. rewrite Hll in H1. injection H1 as H1. apply mk_inj in H1. by destruct a.
    + assert (fr j <> fr j') as Hf by (intros E; apply fr_inj in E; [|lia|lia]; congruence).
      rewrite lookup_insert_ne by done. done.
  - intros j' Hj'. apply lookup_insert_is_Some'. right. by apply Hfree.
Qed.

Lemma perform_ok (ll : list Z) (order : list Z) (out : list Z) (M : Z -> Z) (s : vm) (o : user_op) (j : nat) (d : bool) :
  paged ll order 0 out M s -> in_pages o -> order !! j = Some (op_va o / PGSIZE) ->
  ll !! Z.to_nat (op_va o / PGSIZE) = Some (mk (fr j) (flags true d)) -> (is_write o = true -> d = true) ->
  exists s', perform o (fr j) s = Ok (Ret (flat_val o M), s') /\ paged ll order 0 out (flat_mem o M) s'.
Proof.
  intros Hp Ho Hj Hll Hd. unfold in_pages in Ho. destruct (page_bounds _ Ho) as (Hi & Hv & _).
  destruct (pg_present _ _ _ _ _ _ Hp j _ Hj) as (a1 & d1 & n & p & _ & _ & Hf & _).
  assert (op_va o = op_va o / PGSIZE * PGSIZE + op_va o mod PGSIZE /\ 0 <= op_va o mod PGSIZE < PGSIZE) as [Hsplit Hm]
    by (change PGSIZE with 4096; lia).
  pose proof (page_of_lookup M (op_va o / PGSIZE) _ Hm) as Hlk. rewrite <-Hsplit in Hlk.
  unfold perform. vrun (by apply page_at_ok).
  destruct o as [va|va|va b]; cbn [op_va is_write flat_val flat_mem] in *.
  1, 2: exists s; unfold vlift; rewrite (aget_Some _ _ _ (proj1 Hm) Hlk); done.
  specialize (Hd eq_refl). subst d. eexists. split; [|by eapply paged_store; [| |done|]; [done|lia|]].
  unfold mbind, VM_bind, vlift. rewrite aset_in_range; [done|]. rewrite length_page_of. change PGSIZE with 4096 in *. lia.
Qed.

(** The faults a resident page may still cause. *)
Definition missing (o : user_op) (a d : bool) : nat := (if a then 0 else 1) + (if is_write o && negb d then 1 else 0).

Definition served (o : user_op) (fuel : nat) (out : list Z) (M : Z -> Z) (s : vm) : Prop :=
  exists s' ll' order', user_access pt_pa svadu polls no_filter pass fssr fuel o s = Ok (Ret (flat_val o M), s') /\
    paged ll' order' 0 out (flat_mem o M) s'.

Lemma paged_warm (ll : list Z) (order : list Z) (cold : Z) (out : list Z) (M : Z -> Z) (s : vm) (j : nat) (i : Z) (d : bool) :
  paged ll order cold out M s -> (cold = i \/ cold = 0) -> order !! j = Some i ->
  ll !! Z.to_nat i = Some (mk (fr j) (flags true d)) -> paged ll order 0 out M s.
Proof.
  intros Hp Hc Hj Hll. pose proof (pg_mapped _ _ _ _ _ _ Hp) as (Hpt & _).
  pose proof (paged_flags ll order cold out M s j i true d true d Hp Hc Hj Hll (fun e => e)) as H.
  rewrite list_insert_id, <-Hpt in H by done. by destruct s.
Qed.

Lemma touched (o : user_op) (a d : bool) :
  touch (op_access o) (flags a d) = flags a d <-> missing o a d = 0%nat.
Proof. destruct o, a, d; unfold missing; cbn; split; intros H; try done. Qed.

Lemma user_access_hit (fuel : nat) (o : user_op) (f : Z) (s s1 : vm) :
  translate pt_pa svadu U (op_access o) (op_va o) s = Ok (Ret (Some f), s1) ->
  user_access pt_pa svadu polls no_filter pass fssr fuel o s = perform o f s1.
Proof. intros Ht. destruct fuel; cbn [user_access]; by vstep Ht. Qed.

(** An access to a resident page is made, or faults because a bit is missing. *)
Lemma access_cases (fuel : nat) (ll : list Z) (order : list Z) (cold : Z) (out : list Z) (M : Z -> Z) (s : vm) (o : user_op) (j : nat) (a d : bool) :
  paged ll order cold out M s -> in_pages o -> (cold = op_va o / PGSIZE \/ cold = 0) -> order !! j = Some (op_va o / PGSIZE) ->
  ll !! Z.to_nat (op_va o / PGSIZE) = Some (mk (fr j) (flags a d)) ->
  served o fuel out M s \/
  (missing o a d <> 0%nat /\ translate pt_pa svadu U (op_access o) (op_va o) s = Ok (Ret None, s)).
Proof.
  intros Hp Ho Hc Hj Hll. unfold in_pages in Ho. destruct (page_bounds _ Ho) as (Hi & Hv & _).
  pose proof (pg_mapped _ _ _ _ _ _ Hp) as Hm. pose proof Hm as (_ & _ & Hlen).
  pose proof (order_len _ (pg_nodup _ _ _ _ _ _ Hp) (pg_range _ _ _ _ _ _ Hp)) as Hol. pose proof (lookup_lt_Some _ _ _ Hj) as Hlt.
  destruct (flags_ok a d) as [Hmal Hleaf].
  pose proof (translate_user pt_pa Haligned Hrange svadu ll s U (op_access o) _ (fr j) (flags a d) Hm Hv Hll
         (fr_44 j ltac:(lia)) (flags_range a d) Hmal Hleaf ltac:(by destruct o, a, d)) as Ht.
  destruct (decide (touch (op_access o) (flags a d) = flags a d)) as [Htch|Htch].
  - left. apply touched in Htch. assert (a = true /\ (is_write o = true -> d = true)) as [-> Hd] by (destruct o, a, d; done).
    destruct (perform_ok ll order out M s o j d (paged_warm _ _ _ _ _ _ _ _ _ Hp Hc Hj Hll) Ho Hj Hll Hd) as (s' & Hs' & Hp').
    exists s', ll, order. by rewrite (user_access_hit fuel o _ _ _ Ht).
  - assert (svadu = true \/ svadu = false) as [Esv|Esv] by (destruct svadu; auto).
    + left. rewrite touch_flags in Ht. set (d' := match op_access o with Write => true | _ => d end) in *.
      assert (translate pt_pa svadu U (op_access o) (op_va o) s = Ok (Ret (Some (fr j)),
        set_pt (tables pt_pa (<[Z.to_nat (op_va o / PGSIZE) := mk (fr j) (flags true d')]> ll)) s)) as Ht'
        by (rewrite Ht; revert Esv; generalize svadu as sv; by intros ? ->).
      assert (d' = false -> d = false) as Hd' by (by destruct o).
      pose proof (paged_flags ll order cold out M s j _ a d true d' Hp Hc Hj Hll Hd') as Hp1.
      destruct (perform_ok _ order out M _ o j d' Hp1 Ho Hj) as (s' & Hs' & Hp');
        [apply list_lookup_insert_eq; lia|by destruct o|].
      eexists s', _, order. rewrite (user_access_hit fuel o _ _ _ Ht'). done.
    + right. split; [by rewrite <-touched|]. rewrite Ht. revert Esv. generalize svadu as sv. by intros ? ->.
Qed.

(** It is made after the faults that are missing. *)
Lemma access_present (fuel : nat) (ll : list Z) (order : list Z) (cold : Z) (out : list Z) (M : Z -> Z) (s : vm) (o : user_op) (j : nat) (a d : bool) :
  paged ll order cold out M s -> in_pages o -> (cold = op_va o / PGSIZE \/ cold = 0) -> order !! j = Some (op_va o / PGSIZE) ->
  ll !! Z.to_nat (op_va o / PGSIZE) = Some (mk (fr j) (flags a d)) -> (missing o a d <= fuel)%nat -> served o fuel out M s.
Proof.
  revert ll cold s a d. induction fuel as [|fuel IH]; intros ll cold s a d Hp Ho Hc Hj Hll Hf.
  - by destruct (access_cases 0 ll order cold out M s o j a d Hp Ho Hc Hj Hll) as [H|[H _]]; [|lia].
  - destruct (access_cases (S fuel) ll order cold out M s o j a d Hp Ho Hc Hj Hll) as [H|[H Ht]]; [done|].
    assert (a = true -> d = false /\ op_cause o = CAUSE_STORE_PAGE_FAULT) as Hcause by (intros ->; by destruct o, d).
    pose proof (handle_fault_bits ll order cold out M s (op_va o) (op_cause o) j a d Hp Ho Hj Hll Hcause) as Hh.
    set (d' := if a then true else d) in *. assert (d' = false -> d = false) as Hd' by (unfold d'; by destruct a).
    pose proof (paged_flags ll order cold out M s j _ a d true d' Hp Hc Hj Hll Hd') as Hp1.
    pose proof (pg_mapped _ _ _ _ _ _ Hp) as (_ & _ & Hlen). unfold in_pages in Ho. destruct (page_bounds _ Ho) as (Hi & _).
    destruct (IH _ 0 _ true d' Hp1 Ho (or_intror eq_refl) Hj) as (s' & ll' & order' & Hs' & Hp').
    + apply list_lookup_insert_eq. lia.
    + unfold missing, d' in *. destruct o, a, d; cbn in *; lia.
    + exists s', ll', order'. split; [|done]. cbn [user_access]. vstep Ht.
      vstep (trap_fault o s _ (replicate 32 0) 0 0 (pg_medeleg _ _ _ _ _ _ Hp) Hh). done.
Qed.

(** Every access of the program, with at most three faults. *)
Lemma access_ok (ll : list Z) (order : list Z) (out : list Z) (M : Z -> Z) (s : vm) (o : user_op) :
  paged ll order 0 out M s -> in_pages o -> served o 3 out M s.
Proof.
  intros Hp Ho. pose proof Ho as Ho'. unfold in_pages in Ho'. destruct (page_bounds _ Ho') as (Hi & Hv & _). set (i := op_va o / PGSIZE) in *.
  destruct (decide (i ∈ order)) as [Hin|Hn].
  - apply list_elem_of_lookup_1 in Hin as [j Hj]. destruct (pg_present _ _ _ _ _ _ Hp j i Hj) as (a & d & _ & _ & Hll & _).
    eapply access_present; [done|done|by right|done|done|]. unfold missing. destruct a, (is_write o && negb d); lia.
  - pose proof (handle_fault_in ll order out M s (op_va o) (op_cause o) Hp Ho Hn) as Hh.
    pose proof (paged_in_paged ll order out M s i Hp Hi Hn) as Hp1.
    pose proof (pg_mapped _ _ _ _ _ _ Hp) as (_ & _ & Hlen). destruct (pg_absent _ _ _ _ _ _ Hp i Hi Hn) as (Hll & _).
    destruct (access_present 2 _ _ i out M _ o (length order) false false Hp1 Ho (or_introl eq_refl)) as (s' & ll' & order' & Hs' & Hp').
    + apply list_lookup_middle. done.
    + apply list_lookup_insert_eq. lia.
    + unfold missing. destruct (is_write o); cbn; lia.
    + exists s', ll', order'. split; [|done]. cbn [user_access].
      vstep (translate_absent pt_pa Haligned Hrange svadu ll s U (op_access o) _ (pg_mapped _ _ _ _ _ _ Hp) Hv Hll).
      vstep (trap_fault o s _ (replicate 32 0) 0 0 (pg_medeleg _ _ _ _ _ _ Hp) Hh). done.
Qed.

Lemma run_ok (ops : list user_op) (ll : list Z) (order : list Z) (out : list Z) (M : Z -> Z) (s : vm) :
  paged ll order 0 out M s -> Forall in_pages ops ->
  exists s' ll' order', user_run pt_pa svadu polls no_filter pass fssr 3 ops s = Ok (Ret (flat_run ops M).1, s') /\
    paged ll' order' 0 out (flat_run ops M).2 s'.
Proof.
  intros Hp Hops. revert ll order M s Hp. induction Hops as [|o ops Ho Hops IH]; intros ll order M s Hp; [by exists s, ll, order|].
  destruct (access_ok ll order out M s o Hp Ho) as (s1 & ll1 & order1 & Hs1 & Hp1).
  destruct (IH ll1 order1 _ s1 Hp1) as (s2 & ll2 & order2 & Hs2 & Hp2).
  exists s2, ll2, order2. cbn [user_run flat_run]. vstep Hs1. vstep Hs2. by destruct (flat_run ops (flat_mem o M)) as [vs M'].
Qed.

(** ** The end of the program *)

Definition valid_ptr (p : node_ptr) : Prop := match p with NULL => True | FNode i | UNode i => 0 <= i < 63 end.

(** The pages below [k] have been written back. *)
Record evicting (k : Z) (ll : list Z) (out : list Z) (M : Z -> Z) (s : vm) : Prop := {
  ev_mapped : mapped pt_pa ll s;
  ev_sum : sum s = false;
  ev_um : length (user_mapping s) = 63%nat;
  ev_fn : length (freelist_nodes s) = 63%nat;
  ev_tail : valid_ptr (freelist_tail s);
  ev_done : forall i, 1 <= i < k -> frames s !! (D + i) = Some (page_of M i);
  ev_todo : forall i, k <= i <= 62 ->
    (addr <$> user_mapping s !! Z.to_nat i = Some 0 /\ frames s !! (D + i) = Some (page_of M i)) \/
    exists j d p, (j < 63)%nat /\ ll !! Z.to_nat i = Some (mk (fr j) (flags true d)) /\
      addr <$> user_mapping s !! Z.to_nat i = Some (fr j * PGSIZE) /\
      frames s !! fr j = Some (page_of M i) /\ frames s !! (D + i) = Some p /\ (d = false -> p = page_of M i);
  ev_sent : sent s = out }.

Lemma paged_evicting (ll : list Z) (order : list Z) (out : list Z) (M : Z -> Z) (s : vm) :
  paged ll order 0 out M s -> evicting 1 ll out M s.
Proof.
  intros [Hm Hde Hsum Hfn Hhd Htl Hum Hnd Hrg Habs Hpre Hfree Hsent].
  constructor; try done.
  - rewrite Hfn. unfold boot_nodes. by rewrite length_alter, length_nodes_from.
  - destruct Htl as [->| ->]; cbn; [done|lia].
  - intros i Hi. lia.
  - intros i Hi. destruct (decide (i ∈ order)) as [Hin|Hn].
    + right. apply list_elem_of_lookup_1 in Hin as [j Hj]. destruct (Hpre j i Hj) as (a & d & n & p & H1 & H2 & H3 & H4 & H5 & H6).
      assert (a = true) as -> by (apply H6; lia). exists j, d, p. rewrite H2. split_and!; try done.
      pose proof (order_len _ Hnd Hrg). pose proof (lookup_lt_Some _ _ _ Hj). lia.
    + left. destruct (Habs i Hi Hn) as (H1 & (n & H2) & H3). by rewrite H2.
Qed.

(** Linking a node at the end of the free list changes no address. *)
Lemma node_set_next_ok (s : vm) (p x : node_ptr) :
  p <> NULL -> valid_ptr p -> length (user_mapping s) = 63%nat -> length (freelist_nodes s) = 63%nat ->
  exists um fn, node_set_next p x s = Ok (Ret tt, set_user_mapping um (set_freelist_nodes fn s)) /\
    length um = 63%nat /\ length fn = 63%nat /\ (forall i, addr <$> um !! i = addr <$> user_mapping s !! i).
Proof.
  intros Hp Hv Hum Hfn. destruct p as [|i|i]; [done| |]; cbn in Hv.
  - destruct (lookup_lt_is_Some_2 (freelist_nodes s) (Z.to_nat i)) as [n Hn]; [lia|].
    exists (user_mapping s), (alter (fun n => Node (addr n) x) (Z.to_nat i) (freelist_nodes s)).
    rewrite (node_set_next_F s i n) by (lia || done). rewrite length_alter. by destruct s.
  - destruct (lookup_lt_is_Some_2 (user_mapping s) (Z.to_nat i)) as [n Hn]; [lia|].
    exists (alter (fun n => Node (addr n) x) (Z.to_nat i) (user_mapping s)), (freelist_nodes s).
    unfold node_set_next, node_get, mbind, VM_bind, gets, vlift, modify.
    rewrite (aget_Some _ _ _ (proj1 Hv) Hn), (aset_alter _ _ (fun n => Node (addr n) x) n (proj1 Hv) Hn), length_alter.
    split_and!; [by destruct s|done|done|]. intros k. rewrite list_lookup_alter. destruct (decide _) as [->|]; [|done].
    by destruct (user_mapping s !! k).
Qed.

(** The part of [evict] between the two writes of [sstatus]. *)
Lemma write_back_ok (ll : list Z) (M : Z -> Z) (s : vm) (i : Z) (j : nat) (d : bool) (p : list Z) :
  mapped pt_pa ll s -> sum s = true -> 1 <= i <= 62 -> (j < 63)%nat -> ll !! Z.to_nat i = Some (mk (fr j) (flags true d)) ->
  frames s !! fr j = Some (page_of M i) -> frames s !! (D + i) = Some p -> (d = false -> p = page_of M i) ->
  exists m, (d ← memcmp_page pt_pa svadu (i * PGSIZE) (uva2kva (i * PGSIZE));
     if (d : bool) then
       pte ← pte_get user_llpt i; assert polls (flag pte PTE_D) (bytes_of "pt[3][addr/(1UL << 12)] & 0x080");;
       memcpy_page pt_pa svadu (uva2kva (i * PGSIZE)) (i * PGSIZE)
     else mret tt) s = Ok (Ret tt, set_frames m s) /\
    m !! (D + i) = Some (page_of M i) /\ (forall f, f <> D + i -> m !! f = frames s !! f).
Proof.
  intros Hm Hs Hi Hj Hll Hf Hp Hd. pose proof (fr_44 j Hj) as H44.
  assert (0 <= i * PGSIZE < MEGAPAGE_SIZE /\ i * PGSIZE / PGSIZE = i) as [Hv Hdiv]
    by (change MEGAPAGE_SIZE with 2097152; change PGSIZE with 4096; lia).
  assert (s_page pt_pa svadu Read (i * PGSIZE) s = Ok (Ret (fr j), s)) as Hu
    by (apply (s_page_user ll s Read _ (fr j) true d); try done; by rewrite Hdiv).
  assert (forall a, s_page pt_pa svadu a (uva2kva (i * PGSIZE)) s = Ok (Ret (D + i), s)) as Hk.
  { intros a. rewrite (s_page_kernel ll) by done. by rewrite Hdiv. }
  vstep (memcmp_page_ok s _ _ _ _ _ _ Hu (Hk Read) Hf Hp). destruct (decide (page_of M i = p)) as [E|E].
  - rewrite bool_decide_true by done. exists (frames s). subst p. by destruct s.
  - rewrite bool_decide_false by done. cbn [negb]. destruct d; [|by specialize (Hd eq_refl)].
    vrun (by apply (pte_get_user ll); [|lia|]). rewrite mk_flag by done. vstep.
    exists (<[D + i := page_of M i]> (frames s)). rewrite (memcpy_page_ok s _ _ _ _ _ _ Hu (Hk Write) Hf Hp).
    split; [done|]. split; [apply lookup_insert_eq|]. intros f Hne. by rewrite lookup_insert_ne by done.
Qed.

Lemma evict_ok (ll : list Z) (out : list Z) (M : Z -> Z) (s : vm) (i : Z) :
  evicting i ll out M s -> 1 <= i <= 62 ->
  exists s', evict pt_pa svadu polls (i * PGSIZE) s = Ok (Ret tt, s') /\ evicting (i + 1) ll out M s'.
Proof.
  intros [Hm Hsum Hum Hfn Htl Hdone Htodo Hsent] Hi.
  assert (i * PGSIZE / PGSIZE = i /\ ((PGSIZE <=? i * PGSIZE) && (i * PGSIZE <? MAX_TEST_PAGES * PGSIZE)) = true) as [Hdiv Hb]
    by (change PGSIZE with 4096; change MAX_TEST_PAGES with 63; lia).
  unfold evict. vrun (by apply assert_true). cbv zeta. rewrite !Hdiv.
  destruct (lookup_lt_is_Some_2 (user_mapping s) (Z.to_nat i)) as [n Hn]; [lia|].
  vrun (by apply node_get_U; [lia|]). destruct (Htodo i ltac:(lia)) as [[Ha Hf]|(j & d & p & Hj & Hll & Ha & Hf & Hp & Hd)].
  - rewrite Hn in Ha. injection Ha as ->. cbn [Z.eqb]. exists s. split; [done|]. constructor; try done.
    + intros i' Hi'. destruct (decide (i' = i)) as [->|]; [done|]. apply Hdone. lia.
    + intros i' Hi'. apply Htodo. lia.
  - rewrite Hn in Ha. injection Ha as Ha. pose proof (fr_range j Hj) as Hfr. rewrite Ha.
    replace (fr j * PGSIZE =? 0) with false by (symmetry; apply Z.eqb_neq; change PGSIZE with 4096; change D with 0x80000 in *; lia).
    vrun (by apply (pte_get_user ll); [|lia|]). rewrite mk_flag by (done || apply flags_range).
    replace (flag (flags true d) PTE_A) with true by (by destruct d). vstep. vstep. vstep.
    destruct (write_back_ok ll M (set_sum true s) i j d p Hm eq_refl Hi Hj Hll Hf Hp Hd) as (m & Hw & Hm1 & Hm2).
    vstep Hw. vstep. cbn [set_frames set_sum sum user_mapping]. rewrite Hsum.
    vrun (by apply node_get_U; [lia|]). vrun (by apply mapping_set_ok; cbn; lia). vstep.
    match goal with |- context [set_user_mapping ?u ?t] => set (s1 := set_user_mapping u t) end.
    change (freelist_tail s1) with (freelist_tail s).
    assert (forall um fn hd, length um = 63%nat -> length fn = 63%nat ->
      (forall k, addr <$> um !! k = addr <$> user_mapping s1 !! k) ->
      evicting (i + 1) ll out M (State (pt s) um fn hd (UNode i) m false (csr s) (tohost s) (fromhost s) (sent s))) as Hfin.
    { intros um fn hd H1 H2 H3. constructor; cbn [user_mapping freelist_nodes freelist_tail frames sum sent]; try done.
      - cbn. lia.
      - intros i' Hi'. destruct (decide (i' = i)) as [->|]; [done|]. rewrite Hm2 by lia. apply Hdone. lia.
      - intros i' Hi'. rewrite H3. cbn [s1 set_user_mapping user_mapping set_sum set_frames]. rewrite list_lookup_insert_ne by lia. rewrite (Hm2 (D + i')) by lia.
        destruct (Htodo i' ltac:(lia)) as [|(j' & d' & p' & Hj' & Hr)]; [by left|right].
        exists j', d', p'. pose proof (fr_range j' Hj'). rewrite Hm2 by lia. done. }
    destruct (decide (freelist_tail s = NULL)) as [E|E].
    + vstep. eexists. split; [reflexivity|]. by apply Hfin; [cbn; rewrite length_insert|..].
    + destruct (node_set_next_ok s1 (freelist_tail s) (UNode i) E Htl) as (um & fn & Hns & H1 & H2 & H3);
        [cbn; by rewrite length_insert|done|]. vstep Hns. eexists. split; [reflexivity|]. by apply Hfin.
Qed.

Lemma evict_all_ok (n : nat) (i : Z) (ll : list Z) (out : list Z) (M : Z -> Z) (s : vm) :
  evicting i ll out M s -> 1 <= i -> i + Z.of_nat n = 63 ->
  exists s', evict_all pt_pa svadu polls n i s = Ok (Ret tt, s') /\ evicting 63 ll out M s'.
Proof.
  revert i s. induction n as [|n IH]; intros i s He Hi Hn; [exists s; replace 63 with i by lia; done|].
  destruct (evict_ok ll out M s i He ltac:(lia)) as (s1 & Hs1 & He1).
  destruct (IH (i + 1) s1 He1 ltac:(lia) ltac:(lia)) as (s2 & Hs2 & He2). exists s2. cbn [evict_all]. by vstep Hs1.
Qed.

Lemma wait_host_ok (n : nat) (s : vm) : exists t f, wait_host n s = Ok (Ret tt, set_host t f (sent s) s).
Proof.
  revert s. induction n as [|n IH]; intros s; cbn [wait_host]; vstep; destruct (tohost s =? 0).
  1, 3: by exists (tohost s), (fromhost s); destruct s.
  - by exists 0, 0.
  - vstep. destruct (IH (set_host (tohost s) 0 (sent s) s)) as (t & f & H). exists t, f. by rewrite H.
Qed.

Lemma terminate_ok {A} (code : Z) (s : vm) :
  exists t f, @terminate polls A code s = Ok (Halt, set_host t f (sent s ++ [u64 code]) s).
Proof.
  unfold terminate, do_tohost. destruct (wait_host_ok polls s) as (t & f & H).
  exists (u64 code), f. unfold mbind, VM_bind. by rewrite H.
Qed.

(** The call that ends the program: [n] is in [a0]. *)
Lemma ecall_ok (ll : list Z) (order : list Z) (out : list Z) (M : Z -> Z) (s : vm) (tf : trapframe_t) (n : Z) :
  paged ll order 0 out M s -> cause tf = CAUSE_USER_ECALL -> gpr tf !! 10%nat = Some n ->
  exists s', trap pt_pa svadu polls no_filter pass fssr tf s = Ok (Halt, s') /\ sent s' = out ++ [u64 (s32 n)] /\
    forall i, 1 <= i <= 62 -> frames s' !! (D + i) = Some (page_of M i).
Proof.
  intros Hp Hc Hn. unfold trap. vstep. rewrite (pg_medeleg _ _ _ _ _ _ Hp), Hc.
  change (Z.testbit delegated CAUSE_USER_ECALL) with true. unfold handle_trap, pass. rewrite Hc.
  change (CAUSE_USER_ECALL =? CAUSE_USER_ECALL) with true. cbv iota.
  unfold vlift. vrun (by rewrite (aget_Some _ 10 n)).
  destruct (evict_all_ok 62 1 ll out M s (paged_evicting _ _ _ _ _ Hp) ltac:(lia) ltac:(lia)) as (s1 & Hs1 & He).
  change (Z.to_nat (MAX_TEST_PAGES - 1)) with 62%nat. vstep Hs1.
  destruct (@terminate_ok trapframe_t (s32 n) s1) as (t & f & ->). eexists. split; [reflexivity|].
  cbn [set_host sent frames]. split; [by rewrite (ev_sent _ _ _ _ _ He)|]. intros i Hi. apply (ev_done _ _ _ _ _ He). lia.
Qed.

(** ** From boot *)

(** The image of the program holds [M]; the frames above it exist. *)
Definition loaded (M : Z -> Z) (s : vm) : Prop :=
  (forall i, 1 <= i <= 62 -> frames s !! (D + i) = Some (page_of M i)) /\
  (forall f, D + 64 <= f <= D + 126 -> is_Some (frames s !! f)).

Lemma boot_paged (M : Z -> Z) (s : vm) (c : csrs) (t f : Z) :
  user_mapping s = replicate 63 (Node 0 NULL) -> loaded M s -> satp c = satp_value pt_pa -> medeleg c = delegated ->
  paged (replicate 512 0) [] 0 (sent s) M
    (State (tables pt_pa (replicate 512 0)) (user_mapping s) (boot_nodes r0) (FNode 0) (FNode 62) (frames s) false c t f (sent s)).
Proof.
  intros Hum [Hi Hf] Hsatp Hde. constructor; cbn [csr sum freelist_nodes freelist_head freelist_tail user_mapping frames sent]; try done.
  - by right.
  - by rewrite Hum.
  - constructor.
  - intros i Hi' _. split; [apply lookup_replicate_2; lia|]. split; [|by apply Hi].
    exists NULL. rewrite Hum. apply lookup_replicate_2. lia.
  - intros j Hj. apply Hf. pose proof (fr_range j). cbn in Hj. lia.
Qed.
End Paging.

(** [C26] Demand paging is invisible to the program: for every placement of
    the tables, every seed, and harts that update the accessed and dirty bits
    or fault for them, [vm_boot] followed by any accesses of the program to
    its pages and the call that ends it behaves as one flat memory that holds
    the image.  Every byte read is the one the flat memory has, every access
    is made after at most three page faults, no assertion of the kernel
    fails; the result code is the only value sent to the host, and in the end
    the image holds what the program wrote. *)
Theorem vm_refines (pt_pa : Z) (svadu : bool) (polls : nat) (fssr : Z) (h : hart) (ENTROPY test_addr : Z)
    (s : vm) (M : Z -> Z) (ops : list user_op) (tf : trapframe_t) (n : Z) :
  supported pt_pa h -> power_on s -> loaded M s -> Forall in_pages ops ->
  cause tf = CAUSE_USER_ECALL -> gpr tf !! 10%nat = Some n ->
  exists tf0 s1 s2 s3,
    vm_boot pt_pa polls h ENTROPY test_addr s = Ok (Ret tf0, s1) /\
    user_run pt_pa svadu polls no_filter pass fssr 3 ops s1 = Ok (Ret (flat_run ops M).1, s2) /\
    trap pt_pa svadu polls no_filter pass fssr tf s2 = Ok (Halt, s3) /\
    sent s3 = sent s ++ [u64 (s32 n)] /\
    (forall i, 1 <= i <= 62 -> frames s3 !! (D + i) = Some (page_of (flat_run ops M).2 i)).
Proof.
  intros (Ha & Hr & Hh & Hw) (Hpt & Hum & Hfn) Hl Hops Hc Hn.
  destruct (vm_boot_ok pt_pa Ha Hr h polls ENTROPY test_addr s Hpt Hfn Hh Hw) as (c & Hb & Hsatp & Hde).
  assert (1 <= 1 + ENTROPY mod 63 <= 63) as Hr0 by lia. set (r0 := 1 + ENTROPY mod 63) in *.
  pose proof (boot_paged pt_pa r0 Ha Hr0 M s c (tohost s) (fromhost s) Hum Hl Hsatp Hde) as Hp.
  destruct (run_ok pt_pa svadu polls fssr r0 Ha Hr Hr0 ops _ _ _ _ _ Hp Hops) as (s2 & ll & order & Hrun & Hp2).
  destruct (ecall_ok pt_pa svadu polls fssr r0 Ha Hr Hr0 ll order (sent s) _ s2 tf n Hp2 Hc Hn) as (s3 & He & Hs & Hf).
  eexists _, _, s2, s3. split; [exact Hb|]. done.
Qed.

(** An image in memory. *)
Definition image (M : Z -> Z) : gmap Z (list Z) := list_to_map ((fun i => (D + i, page_of M i)) <$> seqZ 1 126).

Lemma image_lookup (M : Z -> Z) (i : Z) : 1 <= i <= 126 -> image M !! (D + i) = Some (page_of M i).
Proof.
  intros Hi. apply elem_of_list_to_map_1.
  - rewrite <-list_fmap_compose. apply NoDup_fmap_2_strong; [|apply NoDup_seqZ]. intros x y _ _ E. cbn in E. lia.
  - apply list_elem_of_fmap. exists i. split; [done|]. apply elem_of_seqZ. lia.
Qed.

Lemma image_loaded (M : Z -> Z) : loaded M (demo_state (image M)).
Proof.
  split; [intros i Hi; apply image_lookup; lia|]. intros f Hf. exists (page_of M (f - D)).
  replace f with (D + (f - D)) at 1 by lia. apply image_lookup. lia.
Qed.

(** A program that loads a byte, changes it, and reads it back. *)
Definition demo_ops : list user_op := [UFetch 0x2000; ULoad 0x3005; UStore 0x3005 77; ULoad 0x3005].
Definition demo_ecall : trapframe_t := Trapframe (<[10%nat := 1]> (replicate 32 0)) 0 0x2004 0 CAUSE_USER_ECALL.

Lemma vm_refines_witness :
  (flat_run demo_ops (fun x => x mod 251)).1 = [0x2000 mod 251; 0x3005 mod 251; 77; 77] /\
  exists tf0 s1 s2 s3,
    vm_boot 0x80083000 2 demo_hart 12345 0x80002000 (demo_state (image (fun x => x mod 251))) = Ok (Ret tf0, s1) /\
    user_run 0x80083000 false 2 no_filter pass 0x301073 3 demo_ops s1 = Ok (Ret (flat_run demo_ops (fun x => x mod 251)).1, s2) /\
    trap 0x80083000 false 2 no_filter pass 0x301073 demo_ecall s2 = Ok (Halt, s3) /\
    sent s3 = [] ++ [1] /\
    (forall i, 1 <= i <= 62 -> frames s3 !! (D + i) = Some (page_of (flat_run demo_ops (fun x => x mod 251)).2 i)).
Proof.
  split; [reflexivity|].
  apply (vm_refines 0x80083000 false 2 0x301073 demo_hart 12345 0x80002000 (demo_state (image (fun x => x mod 251)))
           (fun x => x mod 251) demo_ops demo_ecall 1).
  - split_and!; done.
  - split_and!; done.
  - apply image_loaded.
  - repeat constructor; unfold in_pages; cbn; done.
  - done.
  - done.
Defined.

(** ** What eviction leaves on the free list

    [evict] clears [user_mapping[i].addr] before it links that very node, so
    the frame is lost and the entry it puts on the list has address 0; and the
    node keeps the [next] pointer it was copied with, so the list goes back
    into itself.  Here 61 nodes are free when page 3 is evicted. *)
Definition evicted : outcome (res unit * vm) :=
  (_ ← vm_boot 0x80083000 2 demo_hart 12345 0x80002000;
   _ ← user_run 0x80083000 false 2 no_filter pass 0x301073 3 demo_ops;
   evict 0x80083000 false 2 0x3000) (demo_state (list_to_map ((fun i => (D + i, replicate 4096 7)) <$> seqZ 1 126))).

Example evict_spoils_list :
  match evicted with
  | Ok (Ret _, s) =>
      let l := free_list 200 (freelist_nodes s) (user_mapping s) (freelist_head s) in
      l !! 61%nat = Some 0 /\ l !! 62%nat = l !! 0%nat /\ length l = 200%nat
  | _ => False
  end.
Proof. vm_compute. split_and!; reflexivity. Qed.
End VmSpec.
