(* ===== verification/Mt.v ===== *)
(** * The multi-core kernels (riscv-tests/mt)

    Five versions of the addition of two vectors and thirteen of the
    multiplication of two matrices, each written for [ncores] cores of which
    this is core [coreid].

    A core gets the shared arrays and returns the one it writes; [run_all]
    lets the cores work one after the other, in any order.  The calls of
    [barrier] inside some versions change no data (it is Module [Barrier]).
    The elements of the vectors are [double]s: their type and addition are
    parameters.  The elements of the matrices are [int]s, added and multiplied
    modulo 2^32 as the target does.  A loop index that
    overflows is undefined. *)

From S2P Require Import Prelude.

Module Mt.

(** [for (i = lo; i < hi; i = inc(i)) body]; the fuel is the distance. *)
Fixpoint for_loop {S : Type} (fuel : nat) (i hi : Z) (inc : Z -> outcome Z) (body : Z -> S -> outcome S) (s : S) : outcome S :=
  if i <? hi then
    match fuel with
    | O => Fuel
    | S fuel => s ← body i s; i ← inc i; for_loop fuel i hi inc body s
    end
  else Ok s.

(** The index is an [int], or a [size_t]. *)
Definition for_int {S : Type} (lo hi step : Z) (body : Z -> S -> outcome S) (s : S) : outcome S :=
  for_loop (Z.to_nat (hi - lo)) lo hi (fun i => sint (i + step)) body s.
Definition for_size {S : Type} (lo hi step : Z) (body : Z -> S -> outcome S) (s : S) : outcome S :=
  for_loop (Z.to_nat (hi - lo)) lo hi (fun i => Ok (u64 (i + step))) body s.

(** ** vvadd0.c to vvadd4.c *)

Section Vvadd.
Context {T : Type} (add : T -> T -> T) (coreid ncores n : Z) (x y : list T).

(** [z[i] = x[i] + y[i]]. *)
Definition add_at (i : Z) (z : list T) : outcome (list T) :=
  a ← aget x i; b ← aget y i; aset z i (add a b).

(** [n / ncores] on [size_t]. *)
Definition share : outcome Z := if ncores =? 0 then UB else Ok (n / ncores).

Definition vvadd0 (z : list T) : outcome (list T) :=
  q ← share;
  if q =? 0 then UB else
  let leftover := n mod q in
  z ← for_size (u64 (coreid * q)) (u64 ((coreid + 1) * q)) 1 add_at z;
  for_size (u64 (n - leftover + coreid)) n ncores add_at z.

Definition vvadd1 (z : list T) : outcome (list T) :=
  for_size (coreid * 4) n (8 * ncores) (fun i z =>
    z ← add_at i z; z ← add_at (i + 1) z; z ← add_at (i + 2) z; z ← add_at (i + 3) z;
    z ← add_at (i + ncores * 4) z; z ← add_at (i + ncores * 4 + 1) z;
    z ← add_at (i + ncores * 4 + 2) z; add_at (i + ncores * 4 + 3) z) z.

Definition vvadd2 (z : list T) : outcome (list T) :=
  for_size coreid n (2 * ncores) (fun i z => z ← add_at i z; add_at (i + ncores) z) z.

(** [*to++ = *from1++ + *from2++], [k] times; the three pointers are at [p]. *)
Fixpoint duff_stmts (k : nat) (p : Z) (z : list T) : outcome (list T * Z) :=
  match k with O => Ok (z, p) | S k => z ← add_at p z; duff_stmts k (p + 1) z end.

(** The rest of the [do] loop from a case label on: [k] statements, then
    eight at a time [while (--c > 0)]. *)
Fixpoint duff (fuel k : nat) (c p : Z) (z : list T) : outcome (list T) :=
  '(z, p) ← duff_stmts k p z;
  let c := u64 (c - 1) in
  if 0 <? c then match fuel with O => Fuel | S fuel => duff fuel 8 c p z end else Ok z.

Definition vvadd3 (z : list T) : outcome (list T) :=
  count ← share;
  let c := u64 (count + 7) / 8 in
  let label := count mod 8 in
  duff (Z.to_nat n) (if label =? 0 then 8 else Z.to_nat label) c (u64 (coreid * count)) z.

Definition vvadd4 (z : list T) : outcome (list T) := for_size coreid n ncores add_at z.
End Vvadd.

(** ** The matrix products *)

Section Matmul.
Context (coreid ncores lda : Z) (A B : list Z).

(** [C[p] += e] and [C[p] += a * b] on [int]. *)
Definition incr (p e : Z) (C : list Z) : outcome (list Z) := c ← aget C p; aset C p (s32 (c + e)).
Definition mac (p a b : Z) (C : list Z) : outcome (list Z) := incr p (s32 (a * b)) C.
(** [acc += a * b] for a local [acc]. *)
Definition macr (acc a b : Z) : Z := s32 (acc + s32 (a * b)).

Definition ad_matmul (C : list Z) : outcome (list Z) :=
  q ← sdiv lda ncores;
  for_int (coreid * q) ((coreid + 1) * q) 1 (fun j C =>
    let j32 := Z.shiftl j 5 in
    for_int 0 32 2 (fun k C =>
      Aj32k ← aget A (k + j32); Aj32k2 ← aget A (k + 1 + j32);
      let Bk32 := Z.shiftl k 5 in
      let Bk322 := Bk32 + 32 in
      for_int 0 32 4 (fun i C =>
        b ← aget B (Bk32 + i); C ← mac (j32 + i) Aj32k b C;
        b ← aget B (Bk322 + i); C ← mac (j32 + i) Aj32k2 b C;
        b ← aget B (Bk32 + (i + 1)); C ← mac (j32 + (i + 1)) Aj32k b C;
        b ← aget B (Bk322 + (i + 1)); C ← mac (j32 + (i + 1)) Aj32k2 b C;
        b ← aget B (Bk32 + (i + 2)); C ← mac (j32 + (i + 2)) Aj32k b C;
        b ← aget B (Bk322 + (i + 2)); C ← mac (j32 + (i + 2)) Aj32k2 b C;
        b ← aget B (Bk32 + (i + 3)); C ← mac (j32 + (i + 3)) Aj32k b C;
        b ← aget B (Bk322 + (i + 3)); mac (j32 + (i + 3)) Aj32k2 b C) C) C) C.

Definition an_matmul (C : list Z) : outcome (list Z) :=
  limit ← sdiv lda ncores;
  let kblock := 1 in let iblock := 1 in let jblock := 1 in
  for_int (coreid * limit) ((coreid + 1) * limit) jblock (fun j C =>
    for_int 0 lda kblock (fun k C =>
      let r := j * lda + k in
      tempA1 ← aget A r;
      for_int 0 lda iblock (fun i C =>
        let tempB1 := k * lda + i in
        b ← aget B tempB1; mac (i + j * lda) tempA1 b C) C) C) C.

Definition ap_matmul (C : list Z) : outcome (list Z) :=
  block ← sdiv lda ncores;
  let start := block * coreid in
  for_int start (start + block) 1 (fun j C =>
    for_int 0 lda 1 (fun k C =>
      for_int 0 lda 1 (fun i C =>
        a ← aget A (j * lda + k); b ← aget B (k * lda + i); mac (i + j * lda) a b C) C) C) C.

Definition aq_matmul (C : list Z) : outcome (list Z) :=
  for_int coreid lda (ncores * 2) (fun i C =>
    for_int 0 lda 1 (fun j C =>
      for_int 0 lda 1 (fun k C =>
        A12 ← aget A (j * lda + k); B1 ← aget B (k * lda + i); B2 ← aget B (k * lda + i + ncores);
        C ← mac (i + j * lda) A12 B1 C; mac (i + ncores + j * lda) A12 B2 C) C) C) C.

(** [B_t] is not initialised. *)
Definition ar_matmul (B_t C : list Z) : outcome (list Z) :=
  B_t ← for_int 0 lda 1 (fun x B_t => for_int 0 lda 1 (fun y B_t =>
          b ← aget B (x * lda + y); aset B_t (y * lda + x) b) B_t) B_t;
  q ← sdiv lda ncores;
  for_int (coreid * q) (Z.min ((coreid + 1) * q) lda) 1 (fun i C =>
    let ALoc := i * lda in
    for_int 0 lda 1 (fun j C =>
      let BLoc := j * lda in
      let CLoc := i * lda + j in
      for_int 0 lda 1 (fun k C =>
        a ← aget A (ALoc + k); b ← aget B_t (BLoc + k); mac CLoc a b C) C) C) C.

Definition bs_matmul (C : list Z) : outcome (list Z) :=
  for_int coreid lda (4 * ncores) (fun j C =>
    let a := j * lda in
    let a1 := (j + 1 * ncores) * lda in
    let a2 := (j + 2 * ncores) * lda in
    let a3 := (j + 3 * ncores) * lda in
    for_int 0 lda 1 (fun k C =>
      let b := k * lda in
      for_int 0 lda 1 (fun i C =>
        c ← aget B (b + i);
        e ← aget A (a + k); C ← mac (i + a) e c C;
        e ← aget A (a1 + k); C ← mac (i + a1) e c C;
        e ← aget A (a2 + k); C ← mac (i + a2) e c C;
        e ← aget A (a3 + k); mac (i + a3) e c C) C) C) C.

Definition ds_matmul (C : list Z) : outcome (list Z) :=
  for_int (coreid * 4) lda (4 * ncores) (fun j C =>
    let a := j * lda in
    let a1 := (j + 1) * lda in
    let a2 := (j + 2) * lda in
    let a3 := (j + 3) * lda in
    for_int 0 lda 2 (fun k C =>
      let b := k * lda in
      let b1 := (k + 1) * lda in
      for_int 0 lda 1 (fun i C =>
        c ← aget B (b + i); c1 ← aget B (b1 + i);
        e ← aget A (a + k); C ← mac (i + a) e c C;
        e ← aget A (a1 + k); C ← mac (i + a1) e c C;
        e ← aget A (a2 + k); C ← mac (i + a2) e c C;
        e ← aget A (a3 + k); C ← mac (i + a3) e c C;
        e ← aget A (a + k + 1); C ← mac (i + a) e c1 C;
        e ← aget A (a1 + k + 1); C ← mac (i + a1) e c1 C;
        e ← aget A (a2 + k + 1); C ← mac (i + a2) e c1 C;
        e ← aget A (a3 + k + 1); mac (i + a3) e c1 C) C) C) C.

(** [sum = A[r] * e0; sum += A[r + 1] * e1; ...; C[p] += sum]. *)
Definition cg_cell (r p e0 e1 e2 e3 : Z) (C : list Z) : outcome (list Z) :=
  a ← aget A r; let sum := s32 (a * e0) in
  a ← aget A (r + 1); let sum := macr sum a e1 in
  a ← aget A (r + 2); let sum := macr sum a e2 in
  a ← aget A (r + 3); let sum := macr sum a e3 in
  incr p sum C.

Definition cg_matmul (C : list Z) : outcome (list Z) :=
  for_int 0 lda 2 (fun i C =>
    for_int 0 lda 4 (fun k C =>
      d0 ← aget B (k * lda + i); c0 ← aget B (k * lda + i + 1);
      d1 ← aget B ((k + 1) * lda + i); c1 ← aget B ((k + 1) * lda + i + 1);
      d2 ← aget B ((k + 2) * lda + i); c2 ← aget B ((k + 2) * lda + i + 1);
      d3 ← aget B ((k + 3) * lda + i); c3 ← aget B ((k + 3) * lda + i + 1);
      q ← sdiv lda ncores;
      for_int (coreid * q) ((coreid + 1) * q) 4 (fun j C =>
        C ← cg_cell (j * lda + k) (j * lda + i) d0 d1 d2 d3 C;
        C ← cg_cell (j * lda + k) (j * lda + i + 1) c0 c1 c2 c3 C;
        C ← cg_cell ((j + 1) * lda + k) ((j + 1) * lda + i) d0 d1 d2 d3 C;
        C ← cg_cell ((j + 1) * lda + k) ((j + 1) * lda + i + 1) c0 c1 c2 c3 C;
        C ← cg_cell ((j + 2) * lda + k) ((j + 2) * lda + i) d0 d1 d2 d3 C;
        C ← cg_cell ((j + 2) * lda + k) ((j + 2) * lda + i + 1) c0 c1 c2 c3 C;
        C ← cg_cell ((j + 3) * lda + k) ((j + 3) * lda + i) d0 d1 d2 d3 C;
        cg_cell ((j + 3) * lda + k) ((j + 3) * lda + i + 1) c0 c1 c2 c3 C) C) C) C.

(** ** Products in registers *)

Definition cs_matmul (C : list Z) : outcome (list Z) :=
  for_int coreid lda (2 * ncores) (fun j C =>
    for_int 0 lda 1 (fun i C =>
      '(c1, c2) ← for_int 0 lda 1 (fun k '(c1, c2) =>
        a ← aget A (j * lda + k); b ← aget B (k * lda + i); let c1 := macr c1 a b in
        a ← aget A ((j + ncores) * lda + k); b ← aget B (k * lda + i); let c2 := macr c2 a b in
        Ok (c1, c2)) (0, 0);
      C ← aset C (i + j * lda) c1; aset C (i + (j + ncores) * lda) c2) C) C.

Definition do_matmul (C : list Z) : outcome (list Z) :=
  q ← sdiv 32 ncores;
  let j_start := coreid * q in
  let j_end := (coreid + 1) * q in
  for_int 0 32 1 (fun i C =>
    let B_i := i in
    for_int j_start j_end 1 (fun j C =>
      let A_j := j * 32 in
      acc_temp ← for_int 0 32 1 (fun k acc_temp =>
        a ← aget A (A_j + k); b ← aget B (B_i + k * 32); Ok (macr acc_temp a b)) 0;
      aset C (i + j * 32) acc_temp) C) C.

Definition bb_matmul (C : list Z) : outcome (list Z) :=
  for_int 0 lda 2 (fun i C =>
    q ← sdiv lda ncores;
    for_int (coreid * q) ((coreid + 1) * q) 4 (fun j C =>
      '(c00, c01, c10, c11, c20, c21, c30, c31) ← for_int 0 lda 1 (fun k '(c00, c01, c10, c11, c20, c21, c30, c31) =>
        a0 ← aget A (j * lda + k + 0 * lda); a1 ← aget A (j * lda + k + 1 * lda);
        a2 ← aget A (j * lda + k + 2 * lda); a3 ← aget A (j * lda + k + 3 * lda);
        b0 ← aget B (k * lda + i + 0); b1 ← aget B (k * lda + i + 1);
        Ok (macr c00 a0 b0, macr c01 a0 b1, macr c10 a1 b0, macr c11 a1 b1,
            macr c20 a2 b0, macr c21 a2 b1, macr c30 a3 b0, macr c31 a3 b1)) (0, 0, 0, 0, 0, 0, 0, 0);
      C ← aset C (i + j * lda + 0 + 0 * lda) c00; C ← aset C (i + j * lda + 1 + 0 * lda) c01;
      C ← aset C (i + j * lda + 0 + 1 * lda) c10; C ← aset C (i + j * lda + 1 + 1 * lda) c11;
      C ← aset C (i + j * lda + 0 + 2 * lda) c20; C ← aset C (i + j * lda + 1 + 2 * lda) c21;
      C ← aset C (i + j * lda + 0 + 3 * lda) c30; aset C (i + j * lda + 1 + 3 * lda) c31) C) C.

(** The body of the loop over [k] of ai_matmul.c and ci_matmul.c. *)
Definition row4 (j i k : Z) (c : Z * Z * Z * Z) : outcome (Z * Z * Z * Z) :=
  let '(Cval0, Cval1, Cval2, Cval3) := c in
  a ← aget A (j * lda + k); b ← aget B (k * lda + i); let Cval0 := macr Cval0 a b in
  a ← aget A (j * lda + k); b ← aget B (k * lda + i + 1); let Cval1 := macr Cval1 a b in
  a ← aget A (j * lda + k); b ← aget B (k * lda + i + 2); let Cval2 := macr Cval2 a b in
  a ← aget A (j * lda + k); b ← aget B (k * lda + i + 3); let Cval3 := macr Cval3 a b in
  Ok (Cval0, Cval1, Cval2, Cval3).

Definition store4 (j i : Z) (c : Z * Z * Z * Z) (C : list Z) : outcome (list Z) :=
  let '(Cval0, Cval1, Cval2, Cval3) := c in
  C ← aset C (j * lda + i) Cval0; C ← aset C (j * lda + i + 1) Cval1;
  C ← aset C (j * lda + i + 2) Cval2; aset C (j * lda + i + 3) Cval3.

Definition ai_matmul (C : list Z) : outcome (list Z) :=
  start ← sdiv (coreid * lda) ncores; q ← sdiv lda ncores;
  for_int start (start + q) 1 (fun j C =>
    for_int 0 lda 4 (fun i C =>
      c ← for_int 0 lda 1 (row4 j i) (0, 0, 0, 0);
      store4 j i c C) C) C.

(** [for (k = lo; k >= 0; k--)]. *)
Fixpoint for_down {S : Type} (n : nat) (body : Z -> S -> outcome S) (s : S) : outcome S :=
  match n with O => Ok s | S n => s ← body (Z.of_nat n) s; for_down n body s end.

Definition ci_matmul (C : list Z) : outcome (list Z) :=
  start ← sdiv (coreid * lda) ncores; q ← sdiv lda ncores;
  for_int start (start + q) 1 (fun j C =>
    for_int 0 lda 4 (fun i C =>
      c ← (if coreid =? 0 then for_int 0 lda 1 (row4 j i) (0, 0, 0, 0)
           else for_down (Z.to_nat lda) (row4 j i) (0, 0, 0, 0));
      store4 j i c C) C) C.
End Matmul.

(** ** All cores *)

(** The cores in the order they run. *)
Fixpoint run_all {S : Type} (f : Z -> S -> outcome S) (order : list Z) (s : S) : outcome S :=
  match order with [] => Ok s | c :: order => s ← f c s; run_all f order s end.

Inductive vvadd_version := V0 | V1 | V2 | V3 | V4.
Definition vvadd {T : Type} (v : vvadd_version) (add : T -> T -> T) (coreid ncores n : Z) : list T -> list T -> list T -> outcome (list T) :=
  match v with V0 => vvadd0 | V1 => vvadd1 | V2 => vvadd2 | V3 => vvadd3 | V4 => vvadd4 end add coreid ncores n.

(** What [B_t] of ar_matmul.c holds at first does not matter. *)
Inductive matmul_version := Ad | Ai | An | Ap | Aq | Ar (B_t : list Z) | Bb | Bs | Cg | Ci | Cs | Do | Ds.
Definition matmul (v : matmul_version) (coreid ncores lda : Z) (A B C : list Z) : outcome (list Z) :=
  match v with
  | Ad => ad_matmul coreid ncores lda A B C
  | Ai => ai_matmul coreid ncores lda A B C
  | An => an_matmul coreid ncores lda A B C
  | Ap => ap_matmul coreid ncores lda A B C
  | Aq => aq_matmul coreid ncores lda A B C
  | Ar B_t => ar_matmul coreid ncores lda A B B_t C
  | Bb => bb_matmul coreid ncores lda A B C
  | Bs => bs_matmul coreid ncores lda A B C
  | Cg => cg_matmul coreid ncores lda A B C
  | Ci => ci_matmul coreid ncores lda A B C
  | Cs => cs_matmul coreid ncores lda A B C
  | Do => do_matmul coreid ncores A B C
  | Ds => ds_matmul coreid ncores lda A B C
  end.

(** The reference: element [i] of row [j] of the product. *)
Fixpoint dot (n : nat) (f : Z -> Z) : Z := match n with O => 0 | S n => dot n f + f (Z.of_nat n) end.
Definition at_ (l : list Z) (i : Z) : Z := default 0 (l !! Z.to_nat i).
Definition product (lda : Z) (A B : list Z) (j i : Z) : Z :=
  s32 (dot (Z.to_nat lda) (fun k => at_ A (j * lda + k) * at_ B (k * lda + i))).

(** Small runs of every version. *)
Example vvadd_demo :
  forallb (fun v => bool_decide (run_all (fun c => vvadd v Z.add c 2 16 (seqZ 0 16) (seqZ 5 16)) [1; 0] (replicate 16 0)
                                 = Ok (zip_with Z.add (seqZ 0 16) (seqZ 5 16)))) [V0; V1; V2; V3; V4] = true.
Proof. vm_compute. reflexivity. Qed.

Example matmul_demo :
  let A := (fun i => i mod 7 - 3) <$> seqZ 0 64 in
  let B := (fun i => i mod 5 - 2) <$> seqZ 0 64 in
  let P := (fun x => product 8 A B (x / 8) (x mod 8)) <$> seqZ 0 64 in
  forallb (fun v => bool_decide (run_all (fun c => matmul v c 2 8 A B) [1; 0] (replicate 64 0) = Ok P))
    [Ai; An; Ap; Aq; Ar (replicate 1024 9); Bb; Bs; Cg; Ci; Cs; Ds] = true.
Proof. vm_compute. reflexivity. Qed.
End Mt.
