(* ===== verification/MtSpec.v ===== *)
(** * The multi-core kernels are correct on any number of cores

    Every version of the vector sum and of the matrix product, run by all
    cores in any order, gives the reference result: each core computes the
    elements it owns, writes no other, and every element has one owner. *)

From S2P Require Import Prelude.
From S2P Require Import Mt.

Module MtSpec.
Import Mt.

(** ** Loops *)

(** [I i s] before the iteration with index [i]. *)
Lemma for_loop_inv {S} (I : Z -> S -> Prop) (lo hi step : Z) (inc : Z -> outcome Z) (body : Z -> S -> outcome S) (fuel : nat) (i : Z) (s : S) :
  0 < step -> lo <= i -> (step | i - lo) -> (Z.to_nat (hi - i) <= fuel)%nat ->
  (forall i, lo <= i < hi -> inc i = Ok (i + step)) ->
  (forall i s, lo <= i < hi -> (step | i - lo) -> I i s -> owp (body i s) (I (i + step))) ->
  I i s ->
  owp (for_loop fuel i hi inc body s) (fun s' => exists i', hi <= i' /\ (i' = i \/ i' < hi + step) /\ (step | i' - lo) /\ I i' s').
Proof.
  intros Hst. revert i s. induction fuel as [|fuel IH]; intros i s Hlo Hdv Hf Hinc Hb HI; cbn [for_loop]; zcase (i <? hi).
  - lia.
  - red. exists i. split_and!; try done. by left.
  - apply owp_bind. eapply owp_mono; [by apply Hb|]. intros s' HI'. rewrite Hinc by lia. cbn [mbind outcome_bind].
    eapply owp_mono; [apply IH; try done; [lia| |lia]|].
    + replace (i + step - lo) with (i - lo + step) by lia. apply Z.divide_add_r; [done|apply Z.divide_refl].
    + intros s'' (i' & H1 & H2 & H3 & H4). exists i'. split_and!; try done. right. lia.
  - red. exists i. split_and!; try done. by left.
Qed.

Lemma for_int_inv {S} (I : Z -> S -> Prop) (lo hi step : Z) (body : Z -> S -> outcome S) (s : S) :
  0 < step -> 0 <= lo -> hi + step <= 2 ^ 31 -> I lo s ->
  (forall i s, lo <= i < hi -> (step | i - lo) -> I i s -> owp (body i s) (I (i + step))) ->
  owp (for_int lo hi step body s) (fun s' => exists i, hi <= i /\ (i = lo \/ i < hi + step) /\ (step | i - lo) /\ I i s').
Proof.
  intros Hst Hlo Hhi HI Hb. unfold for_int. apply for_loop_inv with (lo := lo); try done.
  - rewrite Z.sub_diag. apply Z.divide_0_r.
  - intros i Hi. apply sint_ok. unfold in_s. lia.
Qed.

Lemma for_size_inv {S} (I : Z -> S -> Prop) (lo hi step : Z) (body : Z -> S -> outcome S) (s : S) :
  0 < step -> 0 <= lo -> hi + step <= 2 ^ 64 -> I lo s ->
  (forall i s, lo <= i < hi -> (step | i - lo) -> I i s -> owp (body i s) (I (i + step))) ->
  owp (for_size lo hi step body s) (fun s' => exists i, hi <= i /\ (i = lo \/ i < hi + step) /\ (step | i - lo) /\ I i s').
Proof.
  intros Hst Hlo Hhi HI Hb. unfold for_size. apply for_loop_inv with (lo := lo); try done.
  - rewrite Z.sub_diag. apply Z.divide_0_r.
  - intros i Hi. f_equal. apply uwrap_small. unfold in_u. lia.
Qed.

(** Four statements followed by another. *)
Lemma owp_seq4 {S} (s : S) (m1 m2 m3 m4 f : S -> outcome S) (R Q : S -> Prop) :
  owp (s ← m1 s; s ← m2 s; s ← m3 s; m4 s) R -> (forall s, R s -> owp (f s) Q) ->
  owp (s ← m1 s; s ← m2 s; s ← m3 s; s ← m4 s; f s) Q.
Proof.
  intros H HR. unfold owp, mbind, outcome_bind in *. destruct (m1 s); try done. destruct (m2 _); try done.
  destruct (m3 _); try done. destruct (m4 _); try done. by apply HR.
Qed.

(** ** Vectors *)

(** A stretch of sums from [lo] on. *)
Definition stretch (lo hi t : Z) : bool := (lo <=? t) && (t <? hi).

Lemma stretch_next (lo i t : Z) : lo <= i -> stretch lo i t || (t =? i) = stretch lo (i + 1) t.
Proof. intros Hi. unfold stretch. apply eq_bool_prop_intro. rewrite orb_True, !andb_True, !Is_true_true, !Z.leb_le, !Z.ltb_lt, Z.eqb_eq. lia. Qed.

Lemma stretch_core (q c t : Z) : 0 < q -> stretch (c * q) ((c + 1) * q) t = (t / q =? c).
Proof.
  intros Hq. unfold stretch. apply eq_bool_prop_intro. rewrite andb_True, !Is_true_true, Z.leb_le, Z.ltb_lt, Z.eqb_eq.
  pose proof (Z.div_mod t q ltac:(lia)). pose proof (Z.mod_pos_bound t q Hq). split; [|intros <-; nia].
  intros Hb. symmetry. apply Z.div_unique with (r := t - c * q); lia.
Qed.

Section Vvadd.
Context {T : Type} (add : T -> T -> T) (ncores n : Z) (x y : list T).
Hypothesis Hnc : 0 < ncores.
Hypothesis Hx : length x = Z.to_nat n.
Hypothesis Hy : length y = Z.to_nat n.
Hypothesis Hn : 0 <= n.
Hypothesis Hbig : (n + 8 * ncores + 1) * 8 <= 2 ^ 63.

Definition sum_at (t : nat) : option T := a ← x !! t; b ← y !! t; Some (add a b).

(** [z'] is [z] with the sums at the indices of [P]. *)
Definition wrote (P : Z -> bool) (z z' : list T) : Prop :=
  length z = Z.to_nat n /\ length z' = Z.to_nat n /\
  forall t, 0 <= t < n -> z' !! Z.to_nat t = if P t then sum_at (Z.to_nat t) else z !! Z.to_nat t.

Lemma wrote_ext (P Q : Z -> bool) (z z' : list T) : (forall t, 0 <= t < n -> P t = Q t) -> wrote P z z' -> wrote Q z z'.
Proof. intros HPQ (H1 & H2 & H3). split_and!; try done. intros t Ht. rewrite <-HPQ by done. by apply H3. Qed.

Lemma add_at_ok (P : Z -> bool) (i : Z) (z z' : list T) :
  0 <= i < n -> wrote P z z' -> owp (add_at add x y i z') (wrote (fun t => P t || (t =? i)) z).
Proof.
  intros Hi (H1 & H2 & H3). unfold add_at.
  destruct (aget_in_range x i) as (a & Ha & ->); [lia|]. destruct (aget_in_range y i) as (b & Hb & ->); [lia|].
  cbn [mbind outcome_bind]. rewrite aset_in_range by lia. red. split_and!; [done|by rewrite length_insert|].
  intros t Ht. destruct (decide (t = i)) as [->|Hne].
  - rewrite Z.eqb_refl, orb_true_r, list_lookup_insert_eq by lia. unfold sum_at. rewrite Ha, Hb. done.
  - rewrite (proj2 (Z.eqb_neq _ _)), orb_false_r, list_lookup_insert_ne by lia. by apply H3.
Qed.

Lemma wrote_nil (z : list T) : length z = Z.to_nat n -> wrote (fun _ => false) z z.
Proof. intros Hz. split_and!; done. Qed.

(** *** Cyclic distribution *)

(** [u] is dealt to core [c], before round [i]. *)
Definition dealt (c i u : Z) : bool := (u mod ncores =? c) && (u <? i).

Lemma dealt_next (c i u : Z) : 0 <= c < ncores -> (ncores | i - c) -> dealt c (i + ncores) u = dealt c i u || (u =? i).
Proof.
  intros Hc [k Hk]. unfold dealt. destruct (u mod ncores =? c) eqn:E.
  - apply Z.eqb_eq in E. pose proof (Z.div_mod u ncores ltac:(lia)) as Hdm. cbn [andb].
    assert (i = c + ncores * k) as -> by lia. rewrite E in Hdm. set (q := u / ncores) in *.
    apply eq_bool_prop_intro. rewrite orb_True, !Is_true_true, !Z.ltb_lt, Z.eqb_eq.
    split; [intros H; assert (q <= k) by nia; destruct (decide (q = k)); [right|left]; nia|intros [H|H]; nia].
  - apply Z.eqb_neq in E. cbn [andb orb]. symmetry. apply Z.eqb_neq. intros ->. apply E.
    replace i with (c + k * ncores) by lia. rewrite Z.mod_add by lia. apply Z.mod_small. lia.
Qed.

Lemma dealt_all (c hi u : Z) : u < hi -> dealt c hi u = (u mod ncores =? c).
Proof. intros Hu. unfold dealt. rewrite (proj2 (Z.ltb_lt _ _)) by done. apply andb_true_r. Qed.

Lemma dealt_none (c u : Z) : 0 <= c < ncores -> 0 <= u -> dealt c c u = false.
Proof.
  intros Hc Hu. unfold dealt. zcase (u <? c); [|apply andb_false_r]. rewrite Z.mod_small by lia.
  rewrite (proj2 (Z.eqb_neq _ _)) by lia. done.
Qed.

(** The elements of core [c]. *)
Definition owns (v : vvadd_version) (c t : Z) : bool :=
  let q := n / ncores in
  match v with
  | V0 => if t <? ncores * q then t / q =? c else t - ncores * q =? c
  | V1 => t / 4 mod ncores =? c
  | V2 | V4 => t mod ncores =? c
  | V3 => t / q =? c
  end.

(** When the version computes every element. *)
Definition fits (v : vvadd_version) : Prop :=
  match v with
  | V0 => n mod ncores < n / ncores
  | V1 => (8 * ncores | n)
  | V2 => (2 * ncores | n)
  | V3 => (ncores | n) /\ 0 < n
  | V4 => True
  end.

Lemma vvadd4_core (c : Z) (z : list T) : 0 <= c < ncores -> length z = Z.to_nat n ->
  owp (vvadd4 add c ncores n x y z) (wrote (owns V4 c) z).
Proof.
  intros Hc Hz. unfold vvadd4.
  eapply owp_mono; [apply (for_size_inv (fun i => wrote (dealt c i) z)); [lia|lia|lia| |]|].
  - eapply wrote_ext; [|by apply wrote_nil]. intros t Ht. symmetry. apply dealt_none; lia.
  - intros i z' Hi Hd Hw. eapply owp_mono; [apply add_at_ok; [lia|done]|]. intros z''. apply wrote_ext.
    intros t Ht. symmetry. by apply dealt_next.
  - intros z' (i & Hi & _ & _ & Hw). eapply wrote_ext; [|done]. intros t Ht. apply dealt_all. lia.
Qed.

Lemma vvadd2_core (c : Z) (z : list T) : 0 <= c < ncores -> fits V2 -> length z = Z.to_nat n ->
  owp (vvadd2 add c ncores n x y z) (wrote (owns V2 c) z).
Proof.
  intros Hc [m Hm] Hz. unfold vvadd2.
  eapply owp_mono; [apply (for_size_inv (fun i => wrote (dealt c i) z)); [lia|lia|lia| |]|].
  - eapply wrote_ext; [|by apply wrote_nil]. intros t Ht. symmetry. apply dealt_none; lia.
  - intros i z' Hi [k Hk] Hw. apply owp_bind. eapply owp_mono; [apply add_at_ok; [lia|done]|]. cbv beta. intros z1 Hw1.
    assert (k < m) by nia. assert (ncores * (k + 1) <= ncores * m) by nia. assert (i + ncores < n) by lia. eapply owp_mono; [apply add_at_ok; [lia|exact Hw1]|]. intros z2. apply wrote_ext. cbv beta.
    intros t Ht. replace (i + 2 * ncores) with (i + ncores + ncores) by lia.
    rewrite !dealt_next; try done; [exists (2 * k)|exists (2 * k + 1)]; lia.
  - intros z' (i & Hi & _ & _ & Hw). eapply wrote_ext; [|done]. intros t Ht. apply dealt_all. lia.
Qed.

(** Four sums in a row. *)
Lemma group_of_four (P : Z -> bool) (i t : Z) : i mod 4 = 0 ->
  (((P t || (t =? i)) || (t =? i + 1)) || (t =? i + 2)) || (t =? i + 3) = P t || (t / 4 =? i / 4).
Proof.
  intros Hm. destruct (P t); [done|]. cbn [orb]. apply eq_bool_prop_intro. rewrite !orb_True, !Is_true_true, !Z.eqb_eq.
  assert (t = 4 * (t / 4) + t mod 4 /\ 0 <= t mod 4 < 4) as [E1 E2] by (split; [apply Z.div_mod; lia|apply Z.mod_pos_bound; lia]).
  assert (i = 4 * (i / 4)) as E3 by (pose proof (Z.div_mod i 4); lia). lia.
Qed.

Lemma add4_ok (P : Z -> bool) (i : Z) (z z' : list T) :
  0 <= i -> i + 3 < n -> wrote P z z' -> i mod 4 = 0 ->
  owp (z ← add_at add x y i z'; z ← add_at add x y (i + 1) z; z ← add_at add x y (i + 2) z; add_at add x y (i + 3) z)
      (wrote (fun t => P t || (t / 4 =? i / 4)) z).
Proof.
  intros Hi Hi3 Hw Hm.
  do 3 (apply owp_bind; eapply owp_mono; [apply add_at_ok; [lia|eassumption]|]; cbv beta; clear z' Hw; intros z' Hw).
  eapply owp_mono; [apply add_at_ok; [lia|eassumption]|]. intros z''. apply wrote_ext. intros t _. by apply group_of_four.
Qed.

Lemma vvadd1_core (c : Z) (z : list T) : 0 <= c < ncores -> fits V1 -> length z = Z.to_nat n ->
  owp (vvadd1 add c ncores n x y z) (wrote (owns V1 c) z).
Proof.
  intros Hc [m Hm] Hz. unfold vvadd1.
  eapply owp_mono; [apply (for_size_inv (fun i => wrote (fun t => dealt c (i / 4) (t / 4)) z)); [lia|lia|lia| |]|].
  - eapply wrote_ext; [|by apply wrote_nil]. intros t Ht. symmetry. rewrite Z.div_mul by lia. apply dealt_none; [done|]. apply Z.div_pos; lia.
  - intros i z' Hi [k Hk] Hw. assert (i = 4 * (c + 2 * ncores * k)) as Hi4 by lia.
    assert (i / 4 = c + 2 * ncores * k /\ (i + ncores * 4) / 4 = c + 2 * ncores * k + ncores /\ (i + 8 * ncores) / 4 = c + 2 * ncores * k + ncores + ncores) as (D1 & D2 & D3).
    { rewrite Hi4. split_and!; [|replace (_ + ncores * 4) with (4 * (c + 2 * ncores * k + ncores)) by lia|
        replace (_ + 8 * ncores) with (4 * (c + 2 * ncores * k + ncores + ncores)) by lia]; rewrite Z.mul_comm; apply Z.div_mul; lia. }
    assert (k < m) by nia. assert (ncores * (k + 1) <= ncores * m) by nia. assert (i + ncores * 4 + 3 < n) by lia.
    pose proof (add4_ok (fun t => dealt c (i / 4) (t / 4)) i z z' ltac:(lia) ltac:(lia) Hw ltac:(rewrite Hi4, Z.mul_comm; by apply Z.mod_mul)) as Hfour.
    eapply owp_seq4; [exact Hfour|]. intros z1 Hw1. cbv beta in Hw1.
    eapply owp_mono; [apply add4_ok; [lia|lia|exact Hw1|]|].
    + replace (i + ncores * 4) with ((c + 2 * ncores * k + ncores) * 4) by lia. by apply Z.mod_mul.
    + intros z2. apply wrote_ext. cbv beta. intros t Ht. rewrite D1, D2, D3.
      rewrite !dealt_next; try done; [exists (2 * k)|exists (2 * k + 1)]; lia.
  - intros z' (i & Hi & _ & [k Hk] & Hw). eapply wrote_ext; [|done]. intros t Ht. apply dealt_all.
    assert (i = (c + 2 * ncores * k) * 4) as -> by lia. rewrite Z.div_mul by lia. apply Z.div_lt_upper_bound; lia.
Qed.

(** *** Contiguous shares *)

Lemma share_ok : share ncores n = Ok (n / ncores).
Proof. unfold share. by rewrite (proj2 (Z.eqb_neq _ _)) by lia. Qed.

Lemma vvadd0_core (c : Z) (z : list T) : 0 <= c < ncores -> fits V0 -> length z = Z.to_nat n ->
  owp (vvadd0 add c ncores n x y z) (wrote (owns V0 c) z).
Proof.
  intros Hc Hf Hz. cbn in Hf. unfold vvadd0. rewrite share_ok. cbn [mbind outcome_bind].
  pose proof (Z.div_mod n ncores ltac:(lia)) as Hdm. pose proof (Z.mod_pos_bound n ncores Hnc) as Hr.
  set (q := n / ncores) in *. set (r := n mod ncores) in *. assert (0 < q) as Hq by lia.
  assert (0 <= c * q /\ (c + 1) * q <= ncores * q) as [Hlo Hhi] by nia.
  rewrite (proj2 (Z.eqb_neq q 0)) by lia. cbv zeta.
  assert (n mod q = r) as -> by (rewrite Hdm, Z.add_comm, Z.mod_add by lia; apply Z.mod_small; lia).
  rewrite !uwrap_small by (unfold in_u; lia). apply owp_bind.
  eapply owp_mono; [apply (for_size_inv (fun i => wrote (stretch (c * q) i) z)); [lia|lia|lia| |]|].
  - eapply wrote_ext; [|by apply wrote_nil]. intros t Ht. unfold stretch. symmetry. apply andb_false_iff.
    rewrite Z.leb_gt, Z.ltb_ge. lia.
  - intros i z' Hi _ Hw. eapply owp_mono; [apply add_at_ok; [lia|done]|]. intros z''. apply wrote_ext. intros t Ht. apply stretch_next. lia.
  - intros z' (i & Hi & Hi2 & _ & Hw). assert (i = (c + 1) * q) as -> by nia.
    eapply owp_mono; [apply (for_size_inv (fun i => wrote (fun t => stretch (c * q) ((c + 1) * q) t || ((t =? n - r + c) && (t <? i))) z)); [lia|lia|lia| |]|].
    + eapply wrote_ext; [|done]. intros t Ht. cbv beta. zcase (t =? n - r + c); [|by rewrite orb_false_r].
      rewrite (proj2 (Z.ltb_ge _ _)) by lia. by rewrite orb_false_r.
    + intros i z1 Hi' [k Hk] Hw1. eapply owp_mono; [apply add_at_ok; [lia|exact Hw1]|]. intros z2. apply wrote_ext. intros t Ht. cbv beta.
      assert (k = 0) as -> by nia. assert (i = n - r + c) as -> by lia.
      destruct (stretch _ _ t); [done|]. cbn [orb]. apply eq_bool_prop_intro.
      rewrite orb_True, !andb_True, !Is_true_true, !Z.ltb_lt, !Z.eqb_eq. lia.
    + intros z1 (i & Hi' & _ & _ & Hw1). eapply wrote_ext; [|exact Hw1]. intros t Ht. cbv beta. rewrite stretch_core by done.
      rewrite (proj2 (Z.ltb_lt t i)) by lia. rewrite andb_true_r. unfold owns. fold q. cbv zeta.
      assert (n - r = ncores * q) as -> by lia. zcase (t <? ncores * q).
      * rewrite (proj2 (Z.eqb_neq t (ncores * q + c))) by lia. apply orb_false_r.
      * assert (q * ncores <= t) by lia. assert (ncores <= t / q) by (apply Z.div_le_lower_bound; lia).
        rewrite (proj2 (Z.eqb_neq (t / q) c)) by lia. cbn [orb]. apply eq_bool_prop_intro. rewrite !Is_true_true, !Z.eqb_eq. lia.
Qed.

Lemma duff_stmts_ok (k : nat) (lo p : Z) (z z' : list T) :
  0 <= lo <= p -> p + Z.of_nat k <= n -> wrote (stretch lo p) z z' ->
  owp (duff_stmts add x y k p z') (fun r => wrote (stretch lo (p + Z.of_nat k)) z r.1 /\ r.2 = p + Z.of_nat k).
Proof.
  revert p z'. induction k as [|k IH]; intros p z' Hp Hk Hw; cbn [duff_stmts].
  - red. cbn [fst snd]. rewrite Z.add_0_r. done.
  - apply owp_bind. eapply owp_mono; [apply add_at_ok; [lia|done]|]. intros z1 Hw1.
    eapply owp_mono; [apply IH; [lia|lia|]|].
    + eapply wrote_ext; [|exact Hw1]. intros t Ht. apply stretch_next. lia.
    + intros r. by replace (p + 1 + Z.of_nat k) with (p + Z.of_nat (S k)) by lia.
Qed.

(** [k] statements and [c - 1] rounds of eight. *)
Lemma duff_ok (fuel k : nat) (lo c p : Z) (z z' : list T) :
  0 <= lo <= p -> 1 <= c -> (Z.to_nat (c - 1) <= fuel)%nat -> p + Z.of_nat k + 8 * (c - 1) <= n -> wrote (stretch lo p) z z' ->
  owp (duff add x y fuel k c p z') (wrote (stretch lo (p + Z.of_nat k + 8 * (c - 1))) z).
Proof.
  revert k c p z'. induction fuel as [|fuel IH]; intros k c p z' Hp Hc Hf Hn' Hw; cbn [duff]; apply owp_bind;
    (eapply owp_mono; [by apply duff_stmts_ok; [|lia|]|]); intros [z1 p1] [Hw1 Hp1]; cbn [fst snd] in Hw1, Hp1; subst p1; cbv zeta;
    rewrite uwrap_small by (unfold in_u; lia); zcase (0 <? c - 1).
  - lia.
  - red. by replace (p + Z.of_nat k + 8 * (c - 1)) with (p + Z.of_nat k) by lia.
  - eapply owp_mono; [apply IH; [lia|lia|lia|lia|done]|]. intros z2.
    by replace (p + Z.of_nat k + Z.of_nat 8 + 8 * (c - 1 - 1)) with (p + Z.of_nat k + 8 * (c - 1)) by lia.
  - red. by replace (p + Z.of_nat k + 8 * (c - 1)) with (p + Z.of_nat k) by lia.
Qed.

Lemma vvadd3_core (c : Z) (z : list T) : 0 <= c < ncores -> fits V3 -> length z = Z.to_nat n ->
  owp (vvadd3 add c ncores n x y z) (wrote (owns V3 c) z).
Proof.
  intros Hc [[q Hq] Hpos] Hz. unfold vvadd3. rewrite share_ok. cbn [mbind outcome_bind].
  assert (n / ncores = q) as Hdiv by (rewrite Hq; apply Z.div_mul; lia). assert (0 < q) by nia. unfold owns. rewrite Hdiv. cbv zeta.
  assert (c * q + q <= n) by nia. assert (q <= n) by nia. assert (0 <= c * q) by nia.
  rewrite (uwrap_small 64 (q + 7)), (uwrap_small 64 (c * q)) by (unfold in_u; lia).
  set (k := if q mod 8 =? 0 then 8%nat else Z.to_nat (q mod 8)). set (r := (q + 7) / 8).
  assert (Z.of_nat k + 8 * (r - 1) = q /\ 1 <= r <= q) as [Hk Hr].
  { unfold k, r. pose proof (Z.div_mod q 8 ltac:(lia)). pose proof (Z.mod_pos_bound q 8 ltac:(lia)).
    pose proof (Z.div_mod (q + 7) 8 ltac:(lia)). pose proof (Z.mod_pos_bound (q + 7) 8 ltac:(lia)).
    zcase (q mod 8 =? 0); lia. }
  eapply owp_mono; [apply (duff_ok _ _ (c * q) r (c * q) z z); [nia|lia|lia|lia|]|].
  - eapply wrote_ext; [|by apply wrote_nil]. intros t Ht. unfold stretch. symmetry. apply andb_false_iff. rewrite Z.leb_gt, Z.ltb_ge. lia.
  - intros z'. apply wrote_ext. intros t Ht. rewrite <-stretch_core by done. f_equal. lia.
Qed.

Lemma vvadd_core (v : vvadd_version) (c : Z) (z : list T) : 0 <= c < ncores -> fits v -> length z = Z.to_nat n ->
  owp (vvadd v add c ncores n x y z) (wrote (owns v c) z).
Proof. intros Hc Hf Hz. destruct v; [by apply vvadd0_core|by apply vvadd1_core|by apply vvadd2_core|by apply vvadd3_core|by apply vvadd4_core]. Qed.

Lemma vvadd_run (v : vvadd_version) (order : list Z) (z : list T) :
  fits v -> Forall (fun c => 0 <= c < ncores) order -> length z = Z.to_nat n ->
  owp (run_all (fun c => vvadd v add c ncores n x y) order z) (wrote (fun t => existsb (fun c => owns v c t) order) z).
Proof.
  intros Hf Ho. revert z. induction Ho as [|c order Hc Ho IH]; intros z Hz; cbn [run_all]; [by apply wrote_nil|].
  apply owp_bind. eapply owp_mono; [by apply vvadd_core|]. intros z1 (_ & Hl1 & H1).
  eapply owp_mono; [by apply IH|]. intros z2 (_ & Hl2 & H2). split_and!; [done|done|].
  intros t Ht. rewrite H2 by done. cbn [existsb]. destruct (existsb _ order); [by rewrite orb_true_r|]. rewrite orb_false_r. by apply H1.
Qed.

(** Every element has an owner. *)
Lemma owner (v : vvadd_version) (t : Z) : fits v -> 0 <= t < n -> exists c, 0 <= c < ncores /\ owns v c t = true.
Proof.
  intros Hf Ht. pose proof (Z.div_mod n ncores ltac:(lia)) as Hdm. pose proof (Z.mod_pos_bound n ncores Hnc) as Hr.
  destruct v; cbn in Hf; unfold owns; cbv zeta.
  - zcase (t <? ncores * (n / ncores)).
    + exists (t / (n / ncores)). rewrite Z.eqb_refl. split; [|done]. split; [apply Z.div_pos; lia|apply Z.div_lt_upper_bound; lia].
    + exists (t - ncores * (n / ncores)). rewrite Z.eqb_refl. split; [lia|done].
  - exists (t / 4 mod ncores). rewrite Z.eqb_refl. split; [by apply Z.mod_pos_bound|done].
  - exists (t mod ncores). rewrite Z.eqb_refl. split; [by apply Z.mod_pos_bound|done].
  - destruct Hf as [[q Hq] Hpos]. assert (n / ncores = q) as -> by (rewrite Hq; apply Z.div_mul; lia). assert (0 < q) by nia.
    exists (t / q). rewrite Z.eqb_refl. split; [|done]. split; [apply Z.div_pos; lia|apply Z.div_lt_upper_bound; lia].
  - exists (t mod ncores). rewrite Z.eqb_refl. split; [by apply Z.mod_pos_bound|done].
Qed.

(** All cores, in any order. *)
Lemma vvadd_all (v : vvadd_version) (order : list Z) (z : list T) :
  fits v -> order ≡ₚ seqZ 0 ncores -> length z = Z.to_nat n ->
  run_all (fun c => vvadd v add c ncores n x y) order z = Ok (zip_with add x y).
Proof.
  intros Hf Ho Hz. assert (Forall (fun c => 0 <= c < ncores) order) as Hfo.
  { apply Forall_forall. intros c Hc. rewrite Ho in Hc. apply elem_of_seqZ in Hc. lia. }
  pose proof (vvadd_run v order z Hf Hfo Hz) as H1. apply owp_ok in H1 as (z' & -> & _ & Hl & H1). f_equal. apply list_eq. intros k.
  destruct (decide (k < Z.to_nat n)%nat) as [Hk|Hk].
  - pose proof (H1 (Z.of_nat k) ltac:(lia)) as H2. rewrite Nat2Z.id in H2. rewrite H2, lookup_zip_with.
    replace (existsb _ order) with true; [done|]. symmetry. apply existsb_exists.
    destruct (owner v (Z.of_nat k) Hf ltac:(lia)) as (c & Hc & Hown). exists c. split; [|done].
    apply list_elem_of_In. rewrite Ho. apply elem_of_seqZ. lia.
  - rewrite !lookup_ge_None_2; [done| |lia]. rewrite length_zip_with. lia.
Qed.
End Vvadd.

(** [C36] Every version of the vector sum gives [x + y] on any number of cores,
    for every order in which they run, when the length suits it: V4 always; V1
    and V2 when the length is a multiple of what the cores do per round; V3
    when the cores share it evenly; V0 when what is left over after equal
    shares is less than a share. *)
Theorem vvadd_correct {T : Type} (v : vvadd_version) (add : T -> T -> T) (ncores n : Z) (x y z : list T) (order : list Z) :
  0 < ncores -> (n + 8 * ncores + 1) * 8 <= 2 ^ 63 -> 0 <= n ->
  length x = Z.to_nat n -> length y = Z.to_nat n -> length z = Z.to_nat n ->
  fits ncores n v -> order ≡ₚ seqZ 0 ncores ->
  run_all (fun c => vvadd v add c ncores n x y) order z = Ok (zip_with add x y).
Proof. intros H1 H2 H3 H4 H5 H6 H7 H8. by apply vvadd_all. Qed.

(** Three cores on seven elements. *)
Lemma vvadd_correct_witness :
  run_all (fun c => vvadd V0 Z.add c 3 7 (seqZ 0 7) (seqZ 5 7)) [2; 0; 1] (replicate 7 0) = Ok [5; 7; 9; 11; 13; 15; 17].
Proof.
  apply (vvadd_correct V0 Z.add 3 7 (seqZ 0 7) (seqZ 5 7) (replicate 7 0) [2; 0; 1]); try done; try lia.
  change (seqZ 0 3) with [0; 1; 2]. solve_Permutation.
Defined.

(** Where the length does not suit, elements are missed or read outside the
    arrays. *)
Example vvadd0_misses :
  run_all (fun c => vvadd V0 Z.add c 4 10 (replicate 10 1) (replicate 10 1)) [0; 1; 2; 3] (replicate 10 0) = Ok [2; 2; 2; 2; 2; 2; 2; 2; 0; 0].
Proof. reflexivity. Qed.
Example vvadd2_overruns :
  run_all (fun c => vvadd V2 Z.add c 2 6 (replicate 6 1) (replicate 6 1)) [0; 1] (replicate 6 0) = UB.
Proof. reflexivity. Qed.
End MtSpec.
