(* ===== verification/MatmulSpec.v ===== *)
(** * Every matrix product of riscv-tests/mt is the product

    A statement of a kernel adds something to every element of the result
    ([adds]) or stores the final value in some of them ([puts]); both compose
    along sequences and loops.  What a loop nest adds is brought to the form
    of the reference by sums over its indices. *)

From S2P Require Import Prelude.
From S2P Require Import Mt MtSpec.

Module MatmulSpec.
Import Mt MtSpec.

Lemma owp_eq {V : Type} (o : outcome V) (v : V) : owp o (fun w => w = v) -> o = Ok v.
Proof. unfold owp. destruct o; [by intros ->|done|done]. Qed.

(** ** Sums *)

Lemma dot_ext (n : nat) (f g : Z -> Z) : (forall k, 0 <= k < Z.of_nat n -> f k = g k) -> dot n f = dot n g.
Proof.
  induction n as [|n IH]; intros H; [done|]. cbn [dot]. rewrite (H (Z.of_nat n)) by lia. rewrite IH; [done|]. intros k Hk. apply H. lia.
Qed.

Lemma dot_zero (n : nat) : dot n (fun _ => 0) = 0.
Proof. induction n as [|n IH]; [done|]. cbn [dot]. by rewrite IH. Qed.

Lemma dot_add (n : nat) (f g : Z -> Z) : dot n (fun k => f k + g k) = dot n f + dot n g.
Proof. induction n as [|n IH]; [done|]. cbn [dot]. rewrite IH. lia. Qed.

Lemma dot_if (b : bool) (n : nat) (f : Z -> Z) : dot n (fun k => if b then f k else 0) = if b then dot n f else 0.
Proof. destruct b; [done|]. apply dot_zero. Qed.

Lemma dot_app (m n : nat) (f : Z -> Z) : dot (m + n) f = dot m f + dot n (fun k => f (Z.of_nat m + k)).
Proof.
  induction n as [|n IH]; [rewrite Nat.add_0_r; cbn [dot]; lia|]. rewrite Nat.add_succ_r. cbn [dot]. rewrite IH, Nat2Z.inj_add. lia.
Qed.

(** Unrolling by [u]. *)
Lemma dot_unroll (u n : nat) (f : Z -> Z) : dot (n * u) f = dot n (fun t => dot u (fun s => f (t * Z.of_nat u + s))).
Proof.
  induction n as [|n IH]; [done|]. replace (S n * u)%nat with (n * u + u)%nat by lia. rewrite dot_app, IH. cbn [dot].
  by rewrite Nat2Z.inj_mul.
Qed.

(** One index out of many. *)
Lemma dot_pick (n : nat) (c : Z) (f : Z -> Z) :
  dot n (fun k => if k =? c then f k else 0) = if (0 <=? c) && (c <? Z.of_nat n) then f c else 0.
Proof.
  induction n as [|n IH].
  - cbn [dot]. zcase (0 <=? c); cbn [andb]; [|done]. zcase (c <? Z.of_nat 0); [lia|done].
  - cbn [dot]. rewrite IH. zcase (Z.of_nat n =? c).
    + subst c. rewrite Z.ltb_irrefl, andb_false_r. rewrite (proj2 (Z.leb_le _ _)), (proj2 (Z.ltb_lt _ _)) by lia. done.
    + rewrite Z.add_0_r. assert ((c <? Z.of_nat n) = (c <? Z.of_nat (S n))) as ->; [|done].
      apply eq_bool_prop_intro. rewrite !Is_true_true, !Z.ltb_lt. lia.
Qed.

(** ** Loops and registers *)

Lemma sdiv_ok (q nc : Z) : 0 < nc -> 0 <= q < 2 ^ 31 -> sdiv (q * nc) nc = Ok q.
Proof.
  intros Hnc Hq. unfold sdiv. rewrite (proj2 (Z.eqb_neq _ _)) by lia. rewrite Z.quot_mul by lia. apply sint_ok. unfold in_s. lia.
Qed.

Lemma macr_wrap (z a b : Z) : macr (s32 z) a b = s32 (z + a * b).
Proof. unfold macr. by rewrite swrap_add_r, swrap_add_l by lia. Qed.

Lemma for_exact {S} (I : Z -> S -> Prop) (hi : Z) (body : Z -> S -> outcome S) (s : S) :
  0 <= hi -> hi + 1 <= 2 ^ 31 -> I 0 s -> (forall i s, 0 <= i < hi -> I i s -> owp (body i s) (I (i + 1))) ->
  owp (for_int 0 hi 1 body s) (I hi).
Proof.
  intros H0 H1 HI Hb. eapply owp_mono; [apply (for_int_inv I); [lia|lia|lia|done|]|].
  - intros i s' Hi _. by apply Hb.
  - intros s' (i & Hi & Hi2 & _ & HI'). by replace hi with i by lia.
Qed.

Section Matrix.
Context (lda : Z) (A B : list Z).
Abbreviation N := (lda * lda).
Hypothesis Hlda : 0 < lda <= 2 ^ 15.
Hypothesis HA : Z.of_nat (length A) = N.
Hypothesis HB : Z.of_nat (length B) = N.

(** Row and column of an element, and the terms of its product. *)
Definition row (x : Z) : Z := x / lda.
Definition col (x : Z) : Z := x mod lda.
Definition term (x k : Z) : Z := at_ A (row x * lda + k) * at_ B (k * lda + col x).
Definition total (x : Z) : Z := dot (Z.to_nat lda) (term x).

Lemma row_col (x : Z) : 0 <= x < N -> x = row x * lda + col x /\ 0 <= row x < lda /\ 0 <= col x < lda.
Proof.
  intros Hx. unfold row, col. pose proof (Z.div_mod x lda ltac:(lia)). pose proof (Z.mod_pos_bound x lda ltac:(lia)).
  split; [lia|]. split; [|lia]. split; [apply Z.div_pos; lia|apply Z.div_lt_upper_bound; lia].
Qed.

Lemma cell_eq (x i j : Z) : 0 <= x < N -> 0 <= i < lda -> (x =? i + j * lda) = (row x =? j) && (col x =? i).
Proof.
  intros Hx Hi. destruct (row_col x Hx) as (Hrc & Hr & Hc). apply eq_bool_prop_intro.
  rewrite andb_True, !Is_true_true, !Z.eqb_eq. split; [intros E|intros [<- <-]; lia].
  assert (row x = j) by (unfold row; rewrite E, Z.div_add, Z.div_small by lia; lia). split; [done|]. subst j. lia.
Qed.

Definition in_matrix (j i : Z) : Prop := 0 <= j < lda /\ 0 <= i < lda.

Lemma index_range (j i : Z) : in_matrix j i -> 0 <= i + j * lda < N.
Proof. intros [Hj Hi]. nia. Qed.

Lemma aget_at (l : list Z) (p : Z) : 0 <= p < Z.of_nat (length l) -> aget l p = Ok (at_ l p).
Proof. intros Hp. destruct (aget_in_range l p Hp) as (v & Hv & ->). unfold at_. by rewrite Hv. Qed.

(** ** Statements that add *)

Definition ints (C : list Z) : Prop := Z.of_nat (length C) = N /\ Forall (in_s 32) C.

Lemma at_in (C : list Z) (p : Z) : ints C -> 0 <= p < N -> in_s 32 (at_ C p).
Proof.
  intros [Hl Hf] Hp. destruct (aget_in_range C p) as (v & Hv & _); [lia|]. unfold at_. rewrite Hv.
  exact (Forall_lookup_1 _ _ _ _ Hf Hv).
Qed.

Lemma aset_at (C : list Z) (p v : Z) : ints C -> 0 <= p < N -> in_s 32 v ->
  owp (aset C p v) (fun C' => ints C' /\ forall x, 0 <= x < N -> at_ C' x = if x =? p then v else at_ C x).
Proof.
  intros [Hl Hf] Hp Hv. rewrite aset_in_range by lia. red. split.
  - split; [by rewrite length_insert|]. by apply Forall_insert.
  - intros x Hx. unfold at_. zcase (x =? p).
    + subst x. rewrite list_lookup_insert_eq by lia. done.
    + by rewrite list_lookup_insert_ne by lia.
Qed.

Definition adds (m : list Z -> outcome (list Z)) (S : Z -> Z) : Prop :=
  forall C, ints C -> owp (m C) (fun C' => ints C' /\ forall x, 0 <= x < N -> at_ C' x = s32 (at_ C x + S x)).

Lemma adds_ext (m : list Z -> outcome (list Z)) (S S' : Z -> Z) :
  (forall x, 0 <= x < N -> S x = S' x) -> adds m S -> adds m S'.
Proof.
  intros HS Hm C HC. eapply owp_mono; [by apply Hm|]. intros C' [HC' H]. split; [done|]. intros x Hx. rewrite <-HS by done. by apply H.
Qed.

Lemma adds_mod (m : list Z -> outcome (list Z)) (S S' : Z -> Z) :
  (forall x, 0 <= x < N -> s32 (S x) = s32 (S' x)) -> adds m S -> adds m S'.
Proof.
  intros HS Hm C HC. eapply owp_mono; [by apply Hm|]. intros C' [HC' H]. split; [done|]. intros x Hx. rewrite H by done.
  rewrite <-(swrap_add_r 32 _ (S x)), <-(swrap_add_r 32 _ (S' x)) by lia. by rewrite HS.
Qed.

Lemma adds_bind (m1 m2 : list Z -> outcome (list Z)) (S1 S2 : Z -> Z) :
  adds m1 S1 -> adds m2 S2 -> adds (fun C => m1 C ≫= m2) (fun x => S1 x + S2 x).
Proof.
  intros H1 H2 C HC. apply owp_bind. eapply owp_mono; [by apply H1|]. intros C1 [HC1 E1].
  eapply owp_mono; [by apply H2|]. intros C2 [HC2 E2]. split; [done|]. intros x Hx. rewrite E2, E1 by done.
  rewrite swrap_add_l by lia. f_equal. lia.
Qed.

Lemma adds_load (l : list Z) (p : Z) (m : Z -> list Z -> outcome (list Z)) (S : Z -> Z) :
  0 <= p < Z.of_nat (length l) -> adds (m (at_ l p)) S -> adds (fun C => v ← aget l p; m v C) S.
Proof. intros Hp Hm C HC. rewrite (aget_at l p Hp). by apply Hm. Qed.

Lemma adds_incr (p e : Z) : 0 <= p < N -> adds (incr p e) (fun x => if x =? p then e else 0).
Proof.
  intros Hp C HC. unfold incr. rewrite aget_at by (destruct HC; lia). cbn [mbind outcome_bind].
  eapply owp_mono; [apply aset_at; [done|done|apply swrap_range; lia]|]. intros C' [HC' E]. split; [done|].
  intros x Hx. rewrite E by done. zcase (x =? p); [by subst|]. rewrite Z.add_0_r. symmetry. apply swrap_small; [lia|by apply at_in].
Qed.

(** Term [k] of row [j] and column [i]. *)
Definition T (j i k x : Z) : Z := if (row x =? j) && (col x =? i) then term x k else 0.

Lemma adds_mac (j i k p a b : Z) :
  p = i + j * lda -> a = at_ A (j * lda + k) -> b = at_ B (k * lda + i) -> in_matrix j i -> adds (mac p a b) (T j i k).
Proof.
  intros -> -> -> Hji C HC. eapply owp_mono; [apply adds_incr; [by apply index_range|done]|].
  intros C' [HC' E]. split; [done|]. intros x Hx. rewrite E by done. destruct Hji as [Hj Hi]. rewrite cell_eq by done. unfold T.
  destruct (row x =? j) eqn:E1; cbn [andb]; [|done]. destruct (col x =? i) eqn:E2; [|done].
  apply Z.eqb_eq in E1, E2. subst j i. unfold term. by rewrite swrap_add_r by lia.
Qed.

(** A loop of [m] iterations. *)
Lemma adds_for (lo hi step m : Z) (body : Z -> list Z -> outcome (list Z)) (S : Z -> Z -> Z) :
  0 < step -> 0 <= lo -> hi + step <= 2 ^ 31 -> 0 <= m -> hi <= lo + m * step < hi + step ->
  (forall i, lo <= i < hi -> (step | i - lo) -> adds (body i) (S i)) ->
  adds (for_int lo hi step body) (fun x => dot (Z.to_nat m) (fun t => S (lo + t * step) x)).
Proof.
  intros Hst Hlo Hhi Hm Hmb Hb C HC.
  eapply owp_mono; [apply (for_int_inv (fun i C' => ints C' /\ forall x, 0 <= x < N ->
    at_ C' x = s32 (at_ C x + dot (Z.to_nat ((i - lo) / step)) (fun t => S (lo + t * step) x)))); [done|lia|lia| |]|].
  - split; [done|]. intros x Hx. rewrite Z.sub_diag, Z.div_0_l by lia. cbn [dot Z.to_nat]. rewrite Z.add_0_r.
    symmetry. apply swrap_small; [lia|by apply at_in].
  - intros i C1 Hi Hd [HC1 E1]. eapply owp_mono; [by apply (Hb i)|]. intros C2 [HC2 E2]. split; [done|].
    intros x Hx. rewrite E2, E1 by done. rewrite swrap_add_l by lia. f_equal. destruct Hd as [k Hk].
    assert (0 <= k) by nia. assert (i = lo + k * step) as -> by lia.
    replace ((lo + k * step - lo) / step) with k by (replace (lo + k * step - lo) with (k * step) by lia; symmetry; apply Z.div_mul; lia).
    replace ((lo + k * step + step - lo) / step) with (k + 1) by (replace (lo + k * step + step - lo) with ((k + 1) * step) by lia; symmetry; apply Z.div_mul; lia).
    replace (Z.to_nat (k + 1)) with (Datatypes.S (Z.to_nat k)) by lia. cbn [dot]. rewrite Z2Nat.id by lia. lia.
  - intros C' (i & Hi & Hi2 & [k Hk] & HC' & E). assert (k = m) as ->.
    { destruct Hi2 as [->|Hi2]; [assert (k = 0) as -> by nia; nia|]. assert (m <= k \/ k < m) as [Hle|Hlt] by lia; nia. }
    split; [done|]. intros x Hx. rewrite E by done. rewrite Hk, Z.div_mul by lia. done.
Qed.

(** By ones, and unrolled by [u]. *)
Lemma adds_for_u (u : nat) (lo hi step : Z) (body : Z -> list Z -> outcome (list Z)) (S : Z -> Z -> Z) :
  step = Z.of_nat u -> 0 < step -> 0 <= lo <= hi -> hi + step <= 2 ^ 31 -> (step | hi - lo) ->
  (forall i, lo <= i < hi -> (step | i - lo) -> adds (body i) (fun x => dot u (fun s => S (i + s) x))) ->
  adds (for_int lo hi step body) (fun x => dot (Z.to_nat (hi - lo)) (fun t => S (lo + t) x)).
Proof.
  intros -> Hu Hlo Hhi [m Hm] Hb. assert (0 <= m) by nia. eapply adds_ext; [|apply (adds_for lo hi _ m); [lia|lia|lia|lia|nia|exact Hb]].
  intros x Hx. cbv beta. replace (Z.to_nat (hi - lo)) with (Z.to_nat m * u)%nat by (rewrite Hm, Z2Nat.inj_mul, Nat2Z.id by lia; done).
  rewrite dot_unroll. apply dot_ext. intros t _. apply dot_ext. intros k _. by rewrite Z.add_assoc.
Qed.

Lemma adds_for1 (lo hi : Z) (body : Z -> list Z -> outcome (list Z)) (S : Z -> Z -> Z) :
  0 <= lo <= hi -> hi + 1 <= 2 ^ 31 -> (forall i, lo <= i < hi -> adds (body i) (S i)) ->
  adds (for_int lo hi 1 body) (fun x => dot (Z.to_nat (hi - lo)) (fun t => S (lo + t) x)).
Proof.
  intros Hlo Hhi Hb. apply (adds_for_u 1); [done|done|done|done|apply Z.divide_1_l|]. intros i Hi _.
  eapply adds_ext; [|by apply Hb]. intros x Hx. cbn [dot]. change (Z.of_nat 0) with 0. by rewrite Z.add_0_r.
Qed.

(** ** Sums over columns, terms and rows *)

Definition D (j k x : Z) : Z := if row x =? j then term x k else 0.
Definition R (j x : Z) : Z := if row x =? j then total x else 0.

Lemma sum_cols (j k x : Z) : 0 <= x < N -> dot (Z.to_nat (lda - 0)) (fun i => T j (0 + i) k x) = D j k x.
Proof.
  intros Hx. destruct (row_col x Hx) as (_ & _ & Hc). rewrite Z.sub_0_r.
  rewrite (dot_ext _ _ (fun i => if i =? col x then D j k x else 0)).
  - rewrite dot_pick. by rewrite (proj2 (Z.leb_le _ _)), (proj2 (Z.ltb_lt _ _)) by lia.
  - intros i _. rewrite Z.add_0_l. unfold T, D. rewrite (Z.eqb_sym i). by destruct (row x =? j), (col x =? i).
Qed.

Lemma sum_terms (j x : Z) : dot (Z.to_nat (lda - 0)) (fun k => D j (0 + k) x) = R j x.
Proof. unfold D, R, total. rewrite Z.sub_0_r. destruct (row x =? j); [|apply dot_zero]. apply dot_ext. intros k _. by rewrite Z.add_0_l. Qed.

Lemma sum_block (lo hi r V : Z) : dot (Z.to_nat (hi - lo)) (fun t => if r =? lo + t then V else 0) = if (lo <=? r) && (r <? hi) then V else 0.
Proof.
  rewrite (dot_ext _ _ (fun t => if t =? r - lo then V else 0)).
  - rewrite dot_pick. assert ((0 <=? r - lo) && (r - lo <? Z.of_nat (Z.to_nat (hi - lo))) = (lo <=? r) && (r <? hi)) as ->; [|done].
    apply eq_bool_prop_intro. rewrite !andb_True, !Is_true_true, !Z.leb_le, !Z.ltb_lt. lia.
  - intros t Ht. assert ((r =? lo + t) = (t =? r - lo)) as ->; [|done]. apply eq_bool_prop_intro. rewrite !Is_true_true, !Z.eqb_eq. lia.
Qed.

Lemma sum_cyclic (nc c m r V : Z) : 0 < nc -> 0 <= c < nc -> 0 <= m -> 0 <= r < m * nc ->
  dot (Z.to_nat m) (fun t => if r =? c + t * nc then V else 0) = if r mod nc =? c then V else 0.
Proof.
  intros Hnc Hc Hm Hr. pose proof (Z.div_mod r nc ltac:(lia)) as Hdm. pose proof (Z.mod_pos_bound r nc Hnc) as Hb.
  rewrite (dot_ext _ _ (fun t => if t =? r / nc then (if r mod nc =? c then V else 0) else 0)).
  - rewrite dot_pick. rewrite (proj2 (Z.leb_le 0 (r / nc))), (proj2 (Z.ltb_lt (r / nc) _)); [done| |].
    + rewrite Z2Nat.id by lia. apply Z.div_lt_upper_bound; lia.
    + apply Z.div_pos; lia.
  - intros t Ht. zcase (t =? r / nc).
    + subst t. assert ((r =? c + r / nc * nc) = (r mod nc =? c)) as ->; [|done]. apply eq_bool_prop_intro. rewrite !Is_true_true, !Z.eqb_eq. lia.
    + assert (r <> c + t * nc); [|by rewrite (proj2 (Z.eqb_neq _ _))]. intros ->. apply E. rewrite Z.div_add, Z.div_small by lia. lia.
Qed.

Lemma sum_four (r g V : Z) : dot 4 (fun s => if r =? g * 4 + s then V else 0) = if r / 4 =? g then V else 0.
Proof.
  pose proof (Z.div_mod r 4 ltac:(lia)). pose proof (Z.mod_pos_bound r 4 ltac:(lia)). cbn [dot].
  change (Z.of_nat 0) with 0. change (Z.of_nat 1) with 1. change (Z.of_nat 2) with 2. change (Z.of_nat 3) with 3.
  zcases; lia.
Qed.

(** ** Loop nests *)

Fixpoint lsum {X : Type} (L : list X) (f : X -> Z) : Z := match L with [] => 0 | p :: L => f p + lsum L f end.

Lemma dot_lsum {X : Type} (n : nat) (L : list X) (f : Z -> X -> Z) : dot n (fun t => lsum L (f t)) = lsum L (fun p => dot n (fun t => f t p)).
Proof. induction L as [|p L IH]; cbn [lsum]; [apply dot_zero|]. by rewrite dot_add, IH. Qed.

Lemma lsum_ext {X : Type} (L : list X) (f g : X -> Z) : (forall p, f p = g p) -> lsum L f = lsum L g.
Proof. intros H. induction L as [|p L IH]; [done|]. cbn. by rewrite H, IH. Qed.

(** The loop over the columns, for some rows and terms ([L]). *)
Lemma adds_cols (u : nat) (L : list (Z * Z)) (step : Z) (body : Z -> list Z -> outcome (list Z)) :
  step = Z.of_nat u -> 0 < step -> (step | lda) -> lda + step <= 2 ^ 31 ->
  (forall i, 0 <= i < lda -> (step | i) -> adds (body i) (fun x => dot u (fun s => lsum L (fun p => T p.1 (i + s) p.2 x)))) ->
  adds (for_int 0 lda step body) (fun x => lsum L (fun p => D p.1 p.2 x)).
Proof.
  intros Hu Hst Hdv Hb Hbody. eapply adds_ext; [|apply (adds_for_u u 0 lda step body (fun i x => lsum L (fun p => T p.1 i p.2 x)));
    [done|done|lia|done|by rewrite Z.sub_0_r|intros i Hi; rewrite Z.sub_0_r; by apply Hbody]].
  intros x Hx. cbv beta. rewrite dot_lsum. apply lsum_ext. intros p. by apply sum_cols.
Qed.

(** The loop over the terms, for some rows. *)
Lemma adds_terms (u : nat) (L : list Z) (step : Z) (body : Z -> list Z -> outcome (list Z)) :
  step = Z.of_nat u -> 0 < step -> (step | lda) -> lda + step <= 2 ^ 31 ->
  (forall k, 0 <= k < lda -> (step | k) -> adds (body k) (fun x => dot u (fun s => lsum L (fun j => D j (k + s) x)))) ->
  adds (for_int 0 lda step body) (fun x => lsum L (fun j => R j x)).
Proof.
  intros Hu Hst Hdv Hb Hbody. eapply adds_ext; [|apply (adds_for_u u 0 lda step body (fun k x => lsum L (fun j => D j k x)));
    [done|done|lia|done|by rewrite Z.sub_0_r|intros i Hi; rewrite Z.sub_0_r; by apply Hbody]].
  intros x Hx. cbv beta. rewrite dot_lsum. apply lsum_ext. intros p. by apply sum_terms.
Qed.

(** The loop over a block of rows. *)
Definition block (lo hi x : Z) : bool := (lo <=? row x) && (row x <? hi).

Lemma adds_rows (u : nat) (lo hi step : Z) (body : Z -> list Z -> outcome (list Z)) :
  step = Z.of_nat u -> 0 < step -> 0 <= lo <= hi -> hi + step <= 2 ^ 31 -> (step | hi - lo) ->
  (forall j, lo <= j < hi -> (step | j - lo) -> adds (body j) (fun x => dot u (fun s => R (j + s) x))) ->
  adds (for_int lo hi step body) (fun x => if block lo hi x then total x else 0).
Proof.
  intros Hu Hst Hlo Hhi Hdv Hbody. eapply adds_ext; [|by apply (adds_for_u u lo hi step body R)].
  intros x Hx. cbv beta. unfold R. apply sum_block.
Qed.

(** The loop over the terms of some cells, and over the rows of some columns. *)
Definition E (j i x : Z) : Z := if (row x =? j) && (col x =? i) then total x else 0.
Definition W (i x : Z) : Z := if col x =? i then total x else 0.

Lemma sum_cell (j i x : Z) : dot (Z.to_nat (lda - 0)) (fun k => T j i (0 + k) x) = E j i x.
Proof. unfold T, E, total. rewrite Z.sub_0_r. destruct (_ && _); [|apply dot_zero]. apply dot_ext. intros k _. by rewrite Z.add_0_l. Qed.

Lemma sum_down (i x : Z) : 0 <= x < N -> dot (Z.to_nat (lda - 0)) (fun j => E (0 + j) i x) = W i x.
Proof.
  intros Hx. destruct (row_col x Hx) as (_ & Hr & _). unfold W. rewrite (dot_ext _ _ (fun j => if row x =? 0 + j then (if col x =? i then total x else 0) else 0)).
  - rewrite sum_block. by rewrite (proj2 (Z.leb_le _ _)), (proj2 (Z.ltb_lt _ _)) by lia.
  - intros j _. unfold E. by destruct (row x =? 0 + j).
Qed.

Lemma sum_across (j x : Z) : 0 <= x < N -> dot (Z.to_nat (lda - 0)) (fun i => E j (0 + i) x) = R j x.
Proof.
  intros Hx. destruct (row_col x Hx) as (_ & _ & Hr). unfold R. rewrite (dot_ext _ _ (fun i => if col x =? 0 + i then (if row x =? j then total x else 0) else 0)).
  - rewrite sum_block. by rewrite (proj2 (Z.leb_le _ _)), (proj2 (Z.ltb_lt _ _)) by lia.
  - intros i _. unfold E. by destruct (row x =? j), (col x =? 0 + i).
Qed.

Lemma adds_cell (u : nat) (L : list (Z * Z)) (step : Z) (body : Z -> list Z -> outcome (list Z)) :
  step = Z.of_nat u -> 0 < step -> (step | lda) -> lda + step <= 2 ^ 31 ->
  (forall k, 0 <= k < lda -> (step | k) -> adds (body k) (fun x => dot u (fun s => lsum L (fun p => T p.1 p.2 (k + s) x)))) ->
  adds (for_int 0 lda step body) (fun x => lsum L (fun p => E p.1 p.2 x)).
Proof.
  intros Hu Hst Hdv Hb Hbody. eapply adds_ext; [|apply (adds_for_u u 0 lda step body (fun k x => lsum L (fun p => T p.1 p.2 k x)));
    [done|done|lia|done|by rewrite Z.sub_0_r|intros i Hi; rewrite Z.sub_0_r; by apply Hbody]].
  intros x Hx. cbv beta. rewrite dot_lsum. apply lsum_ext. intros p. apply sum_cell.
Qed.

Lemma adds_down (u : nat) (L : list Z) (step : Z) (body : Z -> list Z -> outcome (list Z)) :
  step = Z.of_nat u -> 0 < step -> (step | lda) -> lda + step <= 2 ^ 31 ->
  (forall j, 0 <= j < lda -> (step | j) -> adds (body j) (fun x => dot u (fun s => lsum L (fun i => E (j + s) i x)))) ->
  adds (for_int 0 lda step body) (fun x => lsum L (fun i => W i x)).
Proof.
  intros Hu Hst Hdv Hb Hbody. eapply adds_ext; [|apply (adds_for_u u 0 lda step body (fun j x => lsum L (fun i => E j i x)));
    [done|done|lia|done|by rewrite Z.sub_0_r|intros i Hi; rewrite Z.sub_0_r; by apply Hbody]].
  intros x Hx. cbv beta. rewrite dot_lsum. apply lsum_ext. intros p. by apply sum_down.
Qed.

(** A core that computes its elements, on a result that is still zero there. *)
Definition computes (own : Z -> bool) (m : list Z -> outcome (list Z)) : Prop :=
  forall C, ints C -> (forall x, 0 <= x < N -> own x = true -> at_ C x = 0) ->
    owp (m C) (fun C' => ints C' /\ forall x, 0 <= x < N -> at_ C' x = if own x then s32 (total x) else at_ C x).

Lemma adds_computes (own : Z -> bool) (m : list Z -> outcome (list Z)) :
  adds m (fun x => if own x then total x else 0) -> computes own m.
Proof.
  intros Hm C HC Hz. eapply owp_mono; [by apply Hm|]. intros C' [HC' E]. split; [done|]. intros x Hx. rewrite E by done.
  destruct (own x) eqn:Eo; [by rewrite (Hz x Hx Eo)|]. rewrite Z.add_0_r. apply swrap_small; [lia|by apply at_in].
Qed.

Lemma adds_pure {V : Type} (o : outcome V) (v : V) (m : V -> list Z -> outcome (list Z)) (S : Z -> Z) :
  o = Ok v -> adds (m v) S -> adds (fun C => v ← o; m v C) S.
Proof. intros ->. done. Qed.

Lemma in_rows (j k p : Z) : p = j * lda + k -> 0 <= j < lda -> 0 <= k < lda -> 0 <= p < N.
Proof. intros -> Hj Hk. nia. Qed.

(** Load of element [k] of row [j]; one term; a single column or term. *)
Ltac ld j k := eapply adds_load; [rewrite ?HA, ?HB; apply (in_rows j k); lia|].
Ltac term_ j i k := apply (adds_mac j i k); [lia|f_equal; lia|f_equal; lia|split; lia].
Ltac sums := intros x Hx; cbn [dot lsum fst snd]; change (Z.of_nat 0) with 0; change (Z.of_nat 1) with 1; change (Z.of_nat 2) with 2;
  change (Z.of_nat 3) with 3; unfold R, W; rewrite ?Z.mul_0_l, ?Z.mul_1_l, ?Z.add_0_r; try lia.

Section Core.
Variables (c nc q : Z).
Hypothesis Hc : 0 <= c < nc.
Hypothesis Hq : lda = q * nc.

Lemma q_range : 0 < q <= lda /\ nc <= lda /\ 0 <= c * q /\ (c + 1) * q <= lda.
Proof. assert (0 < q) by nia. split_and!; nia. Qed.

Definition rows_of (x : Z) : bool := block (c * q) ((c + 1) * q) x.

Lemma ap_adds : adds (ap_matmul c nc lda A B) (fun x => if rows_of x then total x else 0).
Proof.
  destruct q_range as (Hq1 & Hnc & Hlo & Hhi). unfold ap_matmul. eapply adds_pure; [rewrite Hq; apply sdiv_ok; lia|]. cbv zeta.
  unfold rows_of. replace (c * q) with (q * c) by lia. replace ((c + 1) * q) with (q * c + q) by lia.
  apply (adds_rows 1); [done|done|lia|lia|apply Z.divide_1_l|]. intros j Hj _.
  eapply adds_ext; [|apply (adds_terms 1 [j]); [done|done|apply Z.divide_1_l|lia|]]; [sums|]. intros k Hk _.
  eapply adds_ext; [|apply (adds_cols 1 [(j, k)]); [done|done|apply Z.divide_1_l|lia|]]; [sums|]. intros i Hi _.
  eapply adds_ext; [|ld j k; ld k i; term_ j i k]. sums.
Qed.

Lemma an_adds : adds (an_matmul c nc lda A B) (fun x => if rows_of x then total x else 0).
Proof.
  destruct q_range as (Hq1 & Hnc & Hlo & Hhi). unfold an_matmul. eapply adds_pure; [rewrite Hq; apply sdiv_ok; lia|]. cbv zeta.
  apply (adds_rows 1); [done|done|lia|lia|apply Z.divide_1_l|]. intros j Hj _.
  eapply adds_ext; [|apply (adds_terms 1 [j]); [done|done|apply Z.divide_1_l|lia|]]; [sums|]. intros k Hk _. ld j k.
  eapply adds_ext; [|apply (adds_cols 1 [(j, k)]); [done|done|apply Z.divide_1_l|lia|]]; [sums|]. intros i Hi _.
  eapply adds_ext; [|ld k i; term_ j i k]. sums.
Qed.

Lemma ad_adds : lda = 32 -> adds (ad_matmul c nc lda A B) (fun x => if rows_of x then total x else 0).
Proof.
  intros E32. destruct q_range as (Hq1 & Hnc & Hlo & Hhi). unfold ad_matmul. eapply adds_pure; [rewrite Hq; apply sdiv_ok; lia|]. cbv zeta.
  apply (adds_rows 1); [done|done|lia|lia|apply Z.divide_1_l|]. intros j Hj _.
  assert (Z.shiftl j 5 = j * lda) as Ej by (rewrite Z.shiftl_mul_pow2 by lia; lia). rewrite <-E32.
  eapply adds_ext; [|apply (adds_terms 2 [j]); [done|done|exists 16; lia|lia|]]; [sums|]. intros k Hk [k' Ek].
  assert (Z.shiftl k 5 = k * lda) as Ek5 by (rewrite Z.shiftl_mul_pow2 by lia; lia). ld j k. ld j (k + 1).
  eapply adds_ext; [|apply (adds_cols 4 [(j, k); (j, k + 1)]); [done|done|exists 8; lia|lia|]]; [sums|]. intros i Hi [i' Ei].
  eapply adds_ext; [|
    ld k i; eapply adds_bind; [term_ j i k|]; ld (k + 1) i; eapply adds_bind; [term_ j i (k + 1)|];
    ld k (i + 1); eapply adds_bind; [term_ j (i + 1) k|]; ld (k + 1) (i + 1); eapply adds_bind; [term_ j (i + 1) (k + 1)|];
    ld k (i + 2); eapply adds_bind; [term_ j (i + 2) k|]; ld (k + 1) (i + 2); eapply adds_bind; [term_ j (i + 2) (k + 1)|];
    ld k (i + 3); eapply adds_bind; [term_ j (i + 3) k|]; ld (k + 1) (i + 3); term_ j (i + 3) (k + 1)]. sums.
Qed.

(** *** cg_matmul.c: the rows innermost *)

Definition G (i k x : Z) : Z := if rows_of x && (col x =? i) then term x k else 0.
Definition H (i x : Z) : Z := if rows_of x && (col x =? i) then total x else 0.

Lemma cg_cell_adds (j i k r p e0 e1 e2 e3 : Z) :
  r = j * lda + k -> p = j * lda + i -> e0 = at_ B (k * lda + i) -> e1 = at_ B ((k + 1) * lda + i) ->
  e2 = at_ B ((k + 2) * lda + i) -> e3 = at_ B ((k + 3) * lda + i) -> 0 <= k -> k + 3 < lda -> in_matrix j i ->
  adds (cg_cell A r p e0 e1 e2 e3) (fun x => T j i k x + T j i (k + 1) x + T j i (k + 2) x + T j i (k + 3) x).
Proof.
  intros -> -> -> -> -> -> Hk Hk3 Hji. pose proof Hji as [Hj Hi]. unfold cg_cell. ld j k. ld j (k + 1). ld j (k + 2). ld j (k + 3).
  eapply adds_mod; [|apply adds_incr; rewrite Z.add_comm; by apply index_range].
  intros x Hx. cbv beta. rewrite Z.add_comm, cell_eq by done. unfold T. rewrite !macr_wrap.
  destruct (row x =? j) eqn:E1; cbn [andb]; [|done]. destruct (col x =? i) eqn:E2; [|done]. apply Z.eqb_eq in E1, E2. subst j i.
  rewrite swrap_swrap by lia. f_equal. unfold term. rewrite !Z.add_assoc. lia.
Qed.

Lemma cg_adds (m : Z) : q = m * 4 -> adds (cg_matmul c nc lda A B) (fun x => if rows_of x then total x else 0).
Proof.
  intros Hm. destruct q_range as (Hq1 & Hnc & Hlo & Hhi). unfold cg_matmul.
  eapply adds_ext; [|apply (adds_for_u 2 0 lda 2 _ H); [done|done|lia|lia|exists (m * 2 * nc); lia|]].
  { intros x Hx. cbv beta. destruct (row_col x Hx) as (_ & _ & Hcx). unfold H.
    rewrite (dot_ext _ _ (fun t => if col x =? 0 + t then (if rows_of x then total x else 0) else 0)).
    - rewrite sum_block. by rewrite (proj2 (Z.leb_le _ _)), (proj2 (Z.ltb_lt _ _)) by lia.
    - intros t _. by destruct (rows_of x), (col x =? 0 + t). }
  intros i Hi [i' Ei]. assert (i + 1 < lda) by lia.
  eapply adds_ext; [|apply (adds_for_u 4 0 lda 4 _ (fun k x => lsum [i; i + 1] (fun i => G i k x))); [done|done|lia|lia|exists (m * nc); lia|]].
  { intros x Hx. cbv beta. rewrite dot_lsum. cbn [lsum dot]. change (Z.of_nat 0) with 0. change (Z.of_nat 1) with 1. rewrite !Z.add_0_r.
    assert (forall i, dot (Z.to_nat (lda - 0)) (fun t => G i (0 + t) x) = H i x) as HG.
    { intros i0. unfold G, H, total. rewrite Z.sub_0_r. destruct (_ && _); [|apply dot_zero]. apply dot_ext. intros k _. by rewrite Z.add_0_l. }
    rewrite !HG. lia. }
  intros k Hk [k' Ek]. assert (k + 3 < lda) by lia.
  ld k i. ld k (i + 1). ld (k + 1) i. ld (k + 1) (i + 1). ld (k + 2) i. ld (k + 2) (i + 1). ld (k + 3) i. ld (k + 3) (i + 1).
  eapply adds_pure; [rewrite Hq; apply sdiv_ok; lia|].
  set (cells := [(i, k); (i, k + 1); (i, k + 2); (i, k + 3); (i + 1, k); (i + 1, k + 1); (i + 1, k + 2); (i + 1, k + 3)]).
  eapply adds_ext; [|apply (adds_for_u 4 (c * q) ((c + 1) * q) 4 _ (fun j x => lsum cells (fun p => T j p.1 p.2 x))); [done|done|lia|lia|exists m; lia|]].
  { intros x Hx. cbv beta. rewrite dot_lsum.
    assert (forall i k, dot (Z.to_nat ((c + 1) * q - c * q)) (fun t => T (c * q + t) i k x) = G i k x) as HT.
    { intros i0 k0. unfold G, T, rows_of, block. rewrite (dot_ext _ _ (fun t => if row x =? c * q + t then (if col x =? i0 then term x k0 else 0) else 0)).
      - rewrite sum_block. by destruct (_ && _).
      - intros t _. by destruct (row x =? c * q + t). }
    cbn [cells lsum fst snd]. rewrite !HT. cbn [dot lsum]. change (Z.of_nat 0) with 0. change (Z.of_nat 1) with 1. change (Z.of_nat 2) with 2.
    change (Z.of_nat 3) with 3. rewrite !Z.add_0_r. lia. }
  intros j Hj [j' Ej]. assert (j + 3 < (c + 1) * q) by lia.
  eapply adds_ext; [|
    eapply adds_bind; [apply (cg_cell_adds j i k); try done; try lia; try (f_equal; lia); split; lia|];
    eapply adds_bind; [apply (cg_cell_adds j (i + 1) k); try done; try lia; try (f_equal; lia); split; lia|];
    eapply adds_bind; [apply (cg_cell_adds (j + 1) i k); try done; try lia; try (f_equal; lia); split; lia|];
    eapply adds_bind; [apply (cg_cell_adds (j + 1) (i + 1) k); try done; try lia; try (f_equal; lia); split; lia|];
    eapply adds_bind; [apply (cg_cell_adds (j + 2) i k); try done; try lia; try (f_equal; lia); split; lia|];
    eapply adds_bind; [apply (cg_cell_adds (j + 2) (i + 1) k); try done; try lia; try (f_equal; lia); split; lia|];
    eapply adds_bind; [apply (cg_cell_adds (j + 3) i k); try done; try lia; try (f_equal; lia); split; lia|];
    apply (cg_cell_adds (j + 3) (i + 1) k); try done; try lia; try (f_equal; lia); split; lia].
  unfold cells. sums.
Qed.

(** *** ar_matmul.c: the second matrix transposed *)

(** The columns below [x] of [B], and those above [y] of column [x], are in
    the rows of [Bt]. *)
Definition transposed (x y : Z) (Bt : list Z) : Prop :=
  length Bt = 1024%nat /\
  forall x' y', 0 <= x' < lda -> 0 <= y' < lda -> x' < x \/ (x' = x /\ y' < y) -> at_ Bt (y' * lda + x') = at_ B (x' * lda + y').

Lemma transpose_ok (Bt : list Z) : length Bt = 1024%nat -> lda <= 32 ->
  owp (for_int 0 lda 1 (fun x Bt => for_int 0 lda 1 (fun y Bt => b ← aget B (x * lda + y); aset Bt (y * lda + x) b) Bt) Bt) (transposed lda 0).
Proof.
  intros Hl H32. eapply owp_mono; [apply (for_int_inv (fun x => transposed x 0)); [lia|lia|lia| |]|].
  - split; [done|]. intros x' y' Hx' Hy' Hlt. lia.
  - intros x Bt1 Hx _ HB1. eapply owp_mono; [apply (for_int_inv (transposed x)); [lia|lia|lia|done|]|].
    + intros y Bt2 Hy _ [Hl2 HB2]. rewrite aget_at by (rewrite HB; apply (in_rows x y); lia). cbn [mbind outcome_bind].
      assert (0 <= y * lda + x < 1024) as Hp by nia. rewrite aset_in_range by lia. red. split; [by rewrite length_insert|].
      intros x' y' Hx' Hy' Hlt. unfold at_ at 1. destruct (decide (x' = x /\ y' = y)) as [[-> ->]|Hne].
      * by rewrite list_lookup_insert_eq by lia.
      * rewrite list_lookup_insert_ne; [apply HB2; [done|done|lia]|]. intros Ep.
        destruct (Z.div_mod_unique lda y' y x' x) as [-> ->]; [lia|lia|lia|]. by apply Hne.
    + intros Bt2 (y & Hy & Hy2 & _ & Hl2 & HB2). split; [done|]. intros x' y' Hx' Hy' Hlt. apply HB2; lia.
  - intros Bt1 (x & Hx & Hx2 & _ & HB1). assert (x = lda) as -> by lia. done.
Qed.

Lemma ar_adds (Bt : list Z) : length Bt = 1024%nat -> lda <= 32 -> adds (ar_matmul c nc lda A B Bt) (fun x => if rows_of x then total x else 0).
Proof.
  intros Hl H32. destruct q_range as (Hq1 & Hnc & Hlo & Hhi). unfold ar_matmul.
  pose proof (transpose_ok Bt Hl H32) as Ht. apply owp_ok in Ht as (Bt' & Ht & Hl' & HBt). eapply adds_pure; [exact Ht|].
  eapply adds_pure; [rewrite Hq; apply sdiv_ok; lia|]. rewrite Z.min_l by lia.
  apply (adds_rows 1); [done|done|lia|lia|apply Z.divide_1_l|]. intros i Hi _. cbv zeta.
  eapply adds_ext; [|apply (adds_for1 0 lda _ (E i)); [lia|lia|]].
  { intros x Hx. cbv beta. rewrite sum_across by done. cbn [dot]. change (Z.of_nat 0) with 0. rewrite Z.add_0_r. lia. }
  intros j Hj. eapply adds_ext; [|apply (adds_cell 1 [(i, j)]); [done|done|apply Z.divide_1_l|lia|]]; [sums|]. intros k Hk _.
  eapply adds_ext; [|ld i k; eapply adds_load; [rewrite Hl'; nia|]; apply (adds_mac i j k); [lia|f_equal; lia|apply HBt; lia|split; lia]]. sums.
Qed.
End Core.

(** *** Rows dealt to the cores *)

Section Cyclic.
Variables (c nc : Z).
Hypothesis Hc : 0 <= c < nc.

Lemma adds_cyclic (sel : Z -> Z) (u : nat) (m step : Z) (body : Z -> list Z -> outcome (list Z)) :
  (forall x, 0 <= x < N -> 0 <= sel x < lda) ->
  step = Z.of_nat u * nc -> (0 < u)%nat -> lda = m * step -> 0 <= m ->
  (forall j, c <= j < lda -> (step | j - c) -> adds (body j) (fun x => dot u (fun s => if sel x =? j + s * nc then total x else 0))) ->
  adds (for_int c lda step body) (fun x => if sel x mod nc =? c then total x else 0).
Proof.
  intros Hsel Hst Hu Hm Hm0 Hb. assert (1 <= Z.of_nat u) by lia. assert (nc <= step) by nia. assert (1 <= m) by nia. assert (step <= lda) by nia.
  eapply adds_ext; [|apply (adds_for c lda step m body); [lia|lia|lia|lia|lia|exact Hb]].
  intros x Hx. specialize (Hsel x Hx). cbv beta.
  rewrite <-(sum_cyclic nc c (m * Z.of_nat u)); [|lia|lia|nia|nia]. replace (Z.to_nat (m * Z.of_nat u)) with (Z.to_nat m * u)%nat by lia.
  rewrite dot_unroll. apply dot_ext. intros t _. apply dot_ext. intros s _.
  by replace (c + t * step + s * nc) with (c + (t * Z.of_nat u + s) * nc) by lia.
Qed.

Lemma row_range (x : Z) : 0 <= x < N -> 0 <= row x < lda.
Proof. intros Hx. by destruct (row_col x Hx) as (_ & ? & _). Qed.
Lemma col_range (x : Z) : 0 <= x < N -> 0 <= col x < lda.
Proof. intros Hx. by destruct (row_col x Hx) as (_ & _ & ?). Qed.

Lemma bs_adds (m : Z) : lda = m * (4 * nc) -> 0 <= m -> adds (bs_matmul c nc lda A B) (fun x => if row x mod nc =? c then total x else 0).
Proof.
  intros Hm Hm0. unfold bs_matmul. apply (adds_cyclic row 4 m); [apply row_range|done|lia|done|done|]. intros j Hj [t Et]. cbv zeta.
  assert (t < m) by nia. assert (nc * (t + 1) <= nc * m) by nia.
  eapply adds_ext; [|apply (adds_terms 1 [j; j + 1 * nc; j + 2 * nc; j + 3 * nc]); [done|done|apply Z.divide_1_l|lia|]]; [sums|].
  intros k Hk _.
  eapply adds_ext; [|apply (adds_cols 1 [(j, k); (j + 1 * nc, k); (j + 2 * nc, k); (j + 3 * nc, k)]); [done|done|apply Z.divide_1_l|lia|]]; [sums|].
  intros i Hi _.
  eapply adds_ext; [|ld k i; ld j k; eapply adds_bind; [term_ j i k|]; ld (j + 1 * nc) k; eapply adds_bind; [term_ (j + 1 * nc) i k|];
    ld (j + 2 * nc) k; eapply adds_bind; [term_ (j + 2 * nc) i k|]; ld (j + 3 * nc) k; term_ (j + 3 * nc) i k]. sums.
Qed.

Lemma ds_adds (m : Z) : lda = m * (4 * nc) -> 0 <= m -> adds (ds_matmul c nc lda A B) (fun x => if row x / 4 mod nc =? c then total x else 0).
Proof.
  intros Hm Hm0. unfold ds_matmul. assert (1 <= m) by nia. assert (4 * nc <= lda) by nia.
  eapply adds_ext; [|apply (adds_for (c * 4) lda (4 * nc) m _ (fun j x => dot 4 (fun s => R (j + s) x))); [lia|lia|lia|lia|lia|]].
  - intros x Hx. destruct (row_col x Hx) as (_ & Hr & _). cbv beta.
    rewrite <-(sum_cyclic nc c m); [|lia|lia|lia|split; [apply Z.div_pos; lia|apply Z.div_lt_upper_bound; lia]].
    apply dot_ext. intros t _. rewrite <-sum_four. apply dot_ext. intros s _. unfold R.
    by replace (c * 4 + t * (4 * nc) + s) with ((c + t * nc) * 4 + s) by lia.
  - intros j Hj [t Et]. cbv zeta. assert (t < m) by nia. assert (nc * (t + 1) <= nc * m) by nia.
    eapply adds_ext; [|apply (adds_terms 2 [j; j + 1; j + 2; j + 3]); [done|done|exists (m * 2 * nc); lia|lia|]]; [sums|].
    intros k Hk [k' Ek].
    assert (k + 1 < lda) by lia.
    eapply adds_ext; [|apply (adds_cols 1 [(j, k); (j + 1, k); (j + 2, k); (j + 3, k); (j, k + 1); (j + 1, k + 1); (j + 2, k + 1); (j + 3, k + 1)]);
      [done|done|apply Z.divide_1_l|lia|]]; [sums|].
    intros i Hi _.
    eapply adds_ext; [|ld k i; ld (k + 1) i; ld j k; eapply adds_bind; [term_ j i k|]; ld (j + 1) k; eapply adds_bind; [term_ (j + 1) i k|];
      ld (j + 2) k; eapply adds_bind; [term_ (j + 2) i k|]; ld (j + 3) k; eapply adds_bind; [term_ (j + 3) i k|];
      ld j (k + 1); eapply adds_bind; [term_ j i (k + 1)|]; ld (j + 1) (k + 1); eapply adds_bind; [term_ (j + 1) i (k + 1)|];
      ld (j + 2) (k + 1); eapply adds_bind; [term_ (j + 2) i (k + 1)|]; ld (j + 3) (k + 1); term_ (j + 3) i (k + 1)]. sums.
Qed.

(** *** The terms of a cell innermost *)

Lemma aq_adds (m : Z) : lda = m * (nc * 2) -> 0 <= m -> adds (aq_matmul c nc lda A B) (fun x => if col x mod nc =? c then total x else 0).
Proof.
  intros Hm Hm0. unfold aq_matmul. apply (adds_cyclic col 2 m); [apply col_range|lia|lia|done|done|]. intros i Hi [t Et].
  assert (t < m) by nia. assert (nc * (t + 1) <= nc * m) by nia.
  eapply adds_ext; [|apply (adds_down 1 [i; i + nc]); [done|done|apply Z.divide_1_l|lia|]]; [sums|]. intros j Hj _.
  eapply adds_ext; [|apply (adds_cell 1 [(j, i); (j, i + nc)]); [done|done|apply Z.divide_1_l|lia|]]; [sums|]. intros k Hk _.
  eapply adds_ext; [|ld j k; ld k i; ld k (i + nc); eapply adds_bind; [term_ j i k|term_ j (i + nc) k]]. sums.
Qed.
End Cyclic.

(** ** Statements that store final values *)

Definition puts (Q : Z -> bool) (m : list Z -> outcome (list Z)) : Prop :=
  forall C, ints C -> owp (m C) (fun C' => ints C' /\ forall x, 0 <= x < N -> at_ C' x = if Q x then s32 (total x) else at_ C x).

Lemma puts_computes (own : Z -> bool) (m : list Z -> outcome (list Z)) : puts own m -> computes own m.
Proof. intros Hm C HC _. by apply Hm. Qed.

Lemma puts_ext (Q Q' : Z -> bool) (m : list Z -> outcome (list Z)) : (forall x, 0 <= x < N -> Q x = Q' x) -> puts Q m -> puts Q' m.
Proof.
  intros HQ Hm C HC. eapply owp_mono; [by apply Hm|]. intros C' [HC' H']. split; [done|]. intros x Hx. rewrite <-HQ by done. by apply H'.
Qed.

Lemma puts_bind (Q1 Q2 : Z -> bool) (m1 m2 : list Z -> outcome (list Z)) :
  puts Q1 m1 -> puts Q2 m2 -> puts (fun x => Q1 x || Q2 x) (fun C => m1 C ≫= m2).
Proof.
  intros H1 H2 C HC. apply owp_bind. eapply owp_mono; [by apply H1|]. intros C1 [HC1 E1].
  eapply owp_mono; [by apply H2|]. intros C2 [HC2 E2]. split; [done|]. intros x Hx. rewrite E2, E1 by done.
  destruct (Q2 x); [by rewrite orb_true_r|]. by rewrite orb_false_r.
Qed.

Lemma puts_pure {V : Type} (o : outcome V) (v : V) (m : V -> list Z -> outcome (list Z)) (Q : Z -> bool) :
  o = Ok v -> puts Q (m v) -> puts Q (fun C => v ← o; m v C).
Proof. intros ->. done. Qed.

Lemma puts_for (lo hi step : Z) (Qi : Z -> Z -> bool) (Q : Z -> bool) (body : Z -> list Z -> outcome (list Z)) :
  0 < step -> 0 <= lo -> hi + step <= 2 ^ 31 ->
  (forall x, 0 <= x < N -> Q x = true <-> exists i, lo <= i < hi /\ (step | i - lo) /\ Qi i x = true) ->
  (forall i, lo <= i < hi -> (step | i - lo) -> puts (Qi i) (body i)) ->
  puts Q (for_int lo hi step body).
Proof.
  intros Hst Hlo Hhi HQ Hb C HC.
  set (D i x := exists i', lo <= i' < Z.min i hi /\ (step | i' - lo) /\ Qi i' x = true).
  eapply owp_mono; [apply (for_int_inv (fun i C' => ints C' /\ forall x, 0 <= x < N ->
    (D i x -> at_ C' x = s32 (total x)) /\ (~ D i x -> at_ C' x = at_ C x))); [done|done|done| |]|].
  - split; [done|]. intros x Hx. split; [|done]. intros (i' & Hi' & _). lia.
  - intros i C1 Hi Hd [HC1 E1]. eapply owp_mono; [by apply Hb|]. intros C2 [HC2 E2]. split; [done|]. intros x Hx.
    destruct (E1 x Hx) as [E3 E4]. rewrite E2 by done. destruct (Qi i x) eqn:Eq.
    + split; [done|]. intros Hn. destruct Hn. exists i. split_and!; try done; lia.
    + assert (D (i + step) x <-> D i x) as HD; [|by rewrite !HD].
      split; intros (i' & Hi' & Hd' & Hq'); exists i'; (split; [|done]); [|lia]. split; [lia|].
      assert (i' <> i) by congruence. destruct Hd as [k Hk], Hd' as [k' Hk'].
      assert (k' <> k) by nia. assert (i' < i + step) by lia. assert (k' < k) by nia. assert (i' < i) by nia. lia.
  - intros C' (i & Hi & _ & _ & HC' & E'). split; [done|]. intros x Hx. destruct (E' x Hx) as [E3 E4].
    assert (D i x <-> Q x = true) as HD.
    { rewrite (HQ x Hx). unfold D. rewrite Z.min_r by lia. done. }
    destruct (Q x); [by apply E3, HD|]. apply E4. by rewrite HD.
Qed.

(** The value of a cell, and the store that ends its computation. *)
Definition cell (n j i : Z) : Z := dot (Z.to_nat n) (fun k => at_ A (j * lda + k) * at_ B (k * lda + i)).

Lemma cell_next (k j i : Z) : 0 <= k -> cell (k + 1) j i = cell k j i + at_ A (j * lda + k) * at_ B (k * lda + i).
Proof. intros Hk. unfold cell. replace (Z.to_nat (k + 1)) with (S (Z.to_nat k)) by lia. cbn [dot]. by rewrite Z2Nat.id by lia. Qed.

Lemma cell_zero (j i : Z) : cell 0 j i = 0.
Proof. done. Qed.
Lemma cell_total (x : Z) : cell lda (row x) (col x) = total x.
Proof. done. Qed.

Definition at_cell (j i x : Z) : bool := (row x =? j) && (col x =? i).

Lemma puts_set (j i p v : Z) : p = i + j * lda -> v = s32 (cell lda j i) -> in_matrix j i -> puts (at_cell j i) (fun C => aset C p v).
Proof.
  intros -> -> Hji C HC. eapply owp_mono; [apply aset_at; [done|by apply index_range|apply swrap_range; lia]|].
  intros C' [HC' E']. split; [done|]. intros x Hx. rewrite E' by done. destruct Hji as [Hj Hi]. rewrite cell_eq by done. unfold at_cell.
  destruct (_ && _) eqn:Ec; [|done]. apply andb_true_iff in Ec as [Ej Ei]. apply Z.eqb_eq in Ej, Ei. by subst j i.
Qed.

(** A sum in a register, one term on. *)
Lemma macr_cell (k j i a b : Z) : 0 <= k -> a = at_ A (j * lda + k) -> b = at_ B (k * lda + i) -> macr (s32 (cell k j i)) a b = s32 (cell (k + 1) j i).
Proof. intros Hk -> ->. by rewrite macr_wrap, cell_next. Qed.

Lemma owp_load {V : Type} (l : list Z) (p : Z) (f : Z -> outcome V) (Q : V -> Prop) :
  0 <= p < Z.of_nat (length l) -> owp (f (at_ l p)) Q -> owp (v ← aget l p; f v) Q.
Proof. intros Hp. by rewrite (aget_at l p Hp). Qed.

Section CoreRegs.
Variables (c nc q : Z).
Hypothesis Hc : 0 <= c < nc.
Hypothesis Hq : lda = q * nc.

Ltac ldr j k := apply owp_load; [rewrite ?HA, ?HB; apply (in_rows j k); lia|].

Lemma cs_puts (m : Z) : lda = m * (2 * nc) -> 0 <= m -> puts (fun x => row x mod nc =? c) (cs_matmul c nc lda A B).
Proof.
  intros Hm Hm0. destruct (q_range c nc q Hc Hq) as (Hq1 & Hnc & _). assert (1 <= m) by nia. assert (2 * nc <= lda) by nia.
  unfold cs_matmul. apply (puts_for _ _ _ (fun j x => (row x =? j) || (row x =? j + nc))); [lia|lia|lia| |].
  - intros x Hx. destruct (row_col x Hx) as (_ & Hr & _). pose proof (Z.div_mod (row x) nc ltac:(lia)) as Hdm. rewrite Z.eqb_eq. split.
    + intros E0. set (t := row x / nc) in *. pose proof (Z.div_mod t 2 ltac:(lia)). pose proof (Z.mod_pos_bound t 2 ltac:(lia)).
      assert (0 <= t) by (apply Z.div_pos; lia). assert (t < m * 2) by (apply (Z.mul_lt_mono_pos_r nc); lia).
      set (h := t / 2) in *. assert (0 <= h < m) by lia. assert (0 <= h * nc) by (apply Z.mul_nonneg_nonneg; lia).
      assert ((h + 1) * nc <= m * nc) by (apply Z.mul_le_mono_nonneg_r; lia).
      exists (c + h * (2 * nc)). split; [lia|]. split; [exists h; lia|]. rewrite orb_true_iff, !Z.eqb_eq.
      assert (t mod 2 = 0 \/ t mod 2 = 1) as [E2|E2] by lia; [left|right].
      * assert (nc * t = nc * (2 * h)) by (f_equal; lia). lia.
      * assert (nc * t = nc * (2 * h + 1)) by (f_equal; lia). lia.
    + intros (j & Hj & [k Hk] & Hb). rewrite orb_true_iff, !Z.eqb_eq in Hb.
      assert (exists u, row x = c + u * nc) as [u ->] by (destruct Hb as [->| ->]; [exists (2 * k)|exists (2 * k + 1)]; lia).
      rewrite Z.mod_add by lia. apply Z.mod_small. lia.
  - intros j Hj [k0 Ej]. assert (k0 < m) by (apply (Z.mul_lt_mono_pos_r (2 * nc)); lia). assert (nc * (k0 + 1) <= nc * m) by (apply Z.mul_le_mono_nonneg_l; lia).
    apply (puts_for _ _ _ (fun i x => at_cell j i x || at_cell (j + nc) i x)); [lia|lia|lia| |].
    + intros x Hx. destruct (row_col x Hx) as (_ & Hr & Hcx). unfold at_cell. split.
      * intros Hb. exists (col x). rewrite Z.eqb_refl, !andb_true_r. split_and!; [lia|lia|apply Z.divide_1_l|done].
      * intros (i & _ & _ & Hb). destruct (row x =? j), (row x =? j + nc), (col x =? i); done.
    + intros i Hi _. eapply puts_pure.
      { apply (owp_eq _ (s32 (cell lda j i), s32 (cell lda (j + nc) i))).
        apply (for_exact (fun k s => s = (s32 (cell k j i), s32 (cell k (j + nc) i)))); [lia|lia|done|].
        intros k s Hk ->. ldr j k. ldr k i. ldr (j + nc) k. ldr k i. red. f_equal; apply macr_cell; done || lia. }
      cbv beta iota. apply puts_bind; apply puts_set; done || (split; lia).
Qed.

(** Indices of a range, in groups of [u]. *)
Definition within (lo u r : Z) : bool := (lo <=? r) && (r <? lo + u).

Lemma within_true (lo u r : Z) : within lo u r = true <-> lo <= r < lo + u.
Proof. unfold within. rewrite andb_true_iff, Z.leb_le, Z.ltb_lt. done. Qed.

Lemma in_groups (u lo hi r : Z) : 0 < u -> (u | hi - lo) ->
  lo <= r < hi <-> exists i, lo <= i < hi /\ (u | i - lo) /\ within i u r = true.
Proof.
  intros Hu [m Hm]. setoid_rewrite within_true. split.
  - intros Hr. pose proof (Z.div_mod (r - lo) u ltac:(lia)) as Hd. pose proof (Z.mod_pos_bound (r - lo) u Hu).
    set (g := (r - lo) / u) in *. assert (0 <= g) by (apply Z.div_pos; lia). assert (0 <= g * u) by (apply Z.mul_nonneg_nonneg; lia).
    exists (lo + g * u). split; [lia|]. split; [exists g; lia|lia].
  - intros (i & Hi & [k Hk] & Hr). assert (k < m) by (apply (Z.mul_lt_mono_pos_r u); lia).
    assert ((k + 1) * u <= m * u) by (apply Z.mul_le_mono_nonneg_r; lia). lia.
Qed.

Lemma block_true (lo hi x : Z) : block lo hi x = true <-> lo <= row x < hi.
Proof. unfold block. by rewrite andb_true_iff, Z.leb_le, Z.ltb_lt. Qed.

(** A loop over columns, and one over the rows of the core, in groups. *)
Lemma puts_col_groups (u : Z) (P : Z -> bool) (body : Z -> list Z -> outcome (list Z)) :
  0 < u <= 2 ^ 15 -> (u | lda) ->
  (forall i, 0 <= i < lda -> (u | i) -> puts (fun x => P x && within i u (col x)) (body i)) ->
  puts P (for_int 0 lda u body).
Proof.
  intros Hu Hd Hb. apply (puts_for _ _ _ (fun i x => P x && within i u (col x))); [lia|lia|lia| |].
  - intros x Hx. destruct (row_col x Hx) as (_ & _ & Hcx). destruct (P x); cbn [andb]; [|naive_solver].
    pose proof (in_groups u 0 lda (col x) ltac:(lia)) as Hg. rewrite Z.sub_0_r in Hg. rewrite <-(Hg Hd). naive_solver.
  - intros i Hi Hdi. rewrite Z.sub_0_r in Hdi. by apply Hb.
Qed.

Lemma puts_row_groups (u lo hi : Z) (P : Z -> bool) (body : Z -> list Z -> outcome (list Z)) :
  0 < u <= 2 ^ 15 -> 0 <= lo -> hi <= lda -> (u | hi - lo) ->
  (forall j, lo <= j < hi -> (u | j - lo) -> puts (fun x => P x && within j u (row x)) (body j)) ->
  puts (fun x => block lo hi x && P x) (for_int lo hi u body).
Proof.
  intros Hu Hlo Hhi Hd Hb. apply (puts_for _ _ _ (fun j x => P x && within j u (row x))); [lia|lia|lia| |done].
  intros x Hx. rewrite andb_true_iff, block_true. destruct (P x); cbn [andb]; [|naive_solver].
  rewrite <-(in_groups u lo hi (row x) ltac:(lia) Hd). naive_solver.
Qed.

(** Cases of what is stored in a group of cells. *)
Ltac cells := let x := fresh "x" in let Hx := fresh "Hx" in intros x Hx; unfold at_cell; apply eq_bool_prop_intro;
  rewrite ?orb_True, ?andb_True, ?orb_True, ?andb_True, ?Is_true_true, ?within_true, ?Z.eqb_eq; lia.

Lemma do_puts : lda = 32 -> puts (rows_of c q) (do_matmul c nc A B).
Proof.
  intros E32. destruct (q_range c nc q Hc Hq) as (Hq1 & Hnc & Hlo & Hhi). unfold do_matmul. rewrite <-E32.
  eapply puts_pure; [rewrite Hq; apply sdiv_ok; lia|]. cbv zeta.
  apply (puts_col_groups 1); [lia|apply Z.divide_1_l|]. intros i Hi _.
  eapply puts_ext; [|apply (puts_row_groups 1 _ _ (fun x => within i 1 (col x))); [lia|lia|lia|apply Z.divide_1_l|]]; [done|]. intros j Hj _.
  eapply puts_pure.
  { apply (owp_eq _ (s32 (cell lda j i))). apply (for_exact (fun k s => s = s32 (cell k j i))); [lia|lia|done|].
    intros k s Hk ->. ldr j k. ldr k i. red. apply macr_cell; [lia|done|f_equal; lia]. }
  eapply puts_ext; [|apply (puts_set j i); [lia|done|split; lia]]. cells.
Qed.

Lemma row4_sum (j i : Z) (k : Z) (s : Z * Z * Z * Z) : 0 <= j < lda -> 0 <= i -> i + 3 < lda -> 0 <= k < lda ->
  row4 lda A B j i k s = let '(s0, s1, s2, s3) := s in let a := at_ A (j * lda + k) in
    Ok (macr s0 a (at_ B (k * lda + i)), macr s1 a (at_ B (k * lda + i + 1)), macr s2 a (at_ B (k * lda + i + 2)), macr s3 a (at_ B (k * lda + i + 3))).
Proof.
  intros Hj Hi Hi3 Hk. destruct s as [[[s0 s1] s2] s3]. apply owp_eq. unfold row4.
  ldr j k. ldr k i. ldr j k. ldr k (i + 1). ldr j k. ldr k (i + 2). ldr j k. ldr k (i + 3). done.
Qed.

Definition cells4 (k j i : Z) : Z * Z * Z * Z := (s32 (cell k j i), s32 (cell k j (i + 1)), s32 (cell k j (i + 2)), s32 (cell k j (i + 3))).

Lemma row4_up (j i : Z) : 0 <= j < lda -> 0 <= i -> i + 3 < lda -> for_int 0 lda 1 (row4 lda A B j i) (0, 0, 0, 0) = Ok (cells4 lda j i).
Proof.
  intros Hj Hi Hi3. apply owp_eq. apply (for_exact (fun k s => s = cells4 k j i)); [lia|lia|done|].
  intros k s Hk ->. rewrite row4_sum by done. red. unfold cells4. cbv zeta.
  f_equal; [f_equal; [f_equal|]|]; apply macr_cell; lia || done || (f_equal; lia).
Qed.

Lemma store4_puts (j i : Z) : 0 <= j < lda -> 0 <= i -> i + 3 < lda ->
  puts (fun x => (row x =? j) && within i 4 (col x)) (fun C => store4 lda j i (cells4 lda j i) C).
Proof.
  intros Hj Hi Hi3. unfold store4, cells4.
  eapply puts_ext; [|apply puts_bind; [apply (puts_set j i); [lia|done|split; lia]|];
    apply puts_bind; [apply (puts_set j (i + 1)); [lia|done|split; lia]|];
    apply puts_bind; [apply (puts_set j (i + 2)); [lia|done|split; lia]|apply (puts_set j (i + 3)); [lia|done|split; lia]]]. cells.
Qed.

(** The terms from the last to the first. *)
Definition rest4 (n j i : Z) : Z * Z * Z * Z :=
  let d i := s32 (cell lda j i - cell n j i) in (d i, d (i + 1), d (i + 2), d (i + 3)).

Lemma macr_rest (n j i a b : Z) : 0 <= n -> a = at_ A (j * lda + n) -> b = at_ B (n * lda + i) ->
  macr (s32 (cell lda j i - cell (n + 1) j i)) a b = s32 (cell lda j i - cell n j i).
Proof. intros Hn -> ->. rewrite macr_wrap, cell_next by done. f_equal. lia. Qed.

Lemma row4_down (n : nat) (j i : Z) : 0 <= j < lda -> 0 <= i -> i + 3 < lda -> Z.of_nat n <= lda ->
  for_down n (row4 lda A B j i) (rest4 (Z.of_nat n) j i) = Ok (cells4 lda j i).
Proof.
  intros Hj Hi Hi3. induction n as [|n IH]; intros Hn.
  - cbn [for_down]. unfold rest4, cells4, cell at 2 4 6 8. cbn [Z.to_nat Z.of_nat dot]. by rewrite !Z.sub_0_r.
  - cbn [for_down]. rewrite row4_sum by lia. cbn [mbind outcome_bind rest4]. cbv zeta. rewrite <-(IH ltac:(lia)). f_equal.
    unfold rest4. rewrite Nat2Z.inj_succ. unfold Z.succ.
    f_equal; [f_equal; [f_equal|]|]; apply macr_rest; lia || done || (f_equal; lia).
Qed.

Lemma ci_loop (body : Z -> Z -> list Z -> outcome (list Z)) :
  (4 | lda) ->
  (forall j i, c * q <= j < (c + 1) * q -> 0 <= i < lda -> (4 | i) -> puts (fun x => (row x =? j) && within i 4 (col x)) (body j i)) ->
  puts (rows_of c q) (fun C => for_int (c * q) (c * q + q) 1 (fun j C => for_int 0 lda 4 (body j) C) C).
Proof.
  intros Hd Hb. destruct (q_range c nc q Hc Hq) as (Hq1 & Hnc & Hlo & Hhi).
  eapply puts_ext; [|apply (puts_row_groups 1 _ _ (fun _ => true)); [lia|lia|lia|apply Z.divide_1_l|]].
  - intros x Hx. cbv beta. rewrite andb_true_r. unfold rows_of. f_equal; lia.
  - intros j Hj _. cbn [andb]. eapply puts_ext; [|apply (puts_col_groups 4 (fun x => row x =? j)); [lia|done|]]; [cells|].
    intros i Hi Hdi. apply Hb; [lia|done|done].
Qed.

Lemma ai_puts : (4 | lda) -> puts (rows_of c q) (ai_matmul c nc lda A B).
Proof.
  intros Hd. destruct (q_range c nc q Hc Hq) as (Hq1 & Hnc & Hlo & Hhi). unfold ai_matmul.
  eapply puts_pure; [rewrite Hq, Z.mul_assoc; apply sdiv_ok; lia|]. eapply puts_pure; [rewrite Hq; apply sdiv_ok; lia|].
  apply ci_loop; [done|]. intros j i Hj Hi [i' Ei]. destruct Hd as [l El].
  eapply puts_pure; [apply row4_up; lia|]. apply store4_puts; lia.
Qed.

Lemma ci_puts : (4 | lda) -> puts (rows_of c q) (ci_matmul c nc lda A B).
Proof.
  intros Hd. destruct (q_range c nc q Hc Hq) as (Hq1 & Hnc & Hlo & Hhi). unfold ci_matmul.
  eapply puts_pure; [rewrite Hq, Z.mul_assoc; apply sdiv_ok; lia|]. eapply puts_pure; [rewrite Hq; apply sdiv_ok; lia|].
  apply ci_loop; [done|]. intros j i Hj Hi [i' Ei]. destruct Hd as [l El].
  eapply puts_pure; [|apply store4_puts; lia]. destruct (c =? 0); [apply row4_up; lia|].
  pose proof (row4_down (Z.to_nat lda) j i ltac:(lia) ltac:(lia) ltac:(lia) ltac:(lia)) as Hdn.
  unfold rest4 in Hdn. rewrite Z2Nat.id, !Z.sub_diag in Hdn by lia. exact Hdn.
Qed.

Lemma bb_puts (m : Z) : q = m * 4 -> puts (rows_of c q) (bb_matmul c nc lda A B).
Proof.
  intros Hm. destruct (q_range c nc q Hc Hq) as (Hq1 & Hnc & Hlo & Hhi). unfold bb_matmul.
  apply (puts_col_groups 2); [lia|exists (m * 2 * nc); lia|]. intros i Hi [i' Ei]. assert (i + 1 < lda) by lia.
  eapply puts_pure; [rewrite Hq; apply sdiv_ok; lia|].
  eapply puts_ext; [|apply (puts_row_groups 4 _ _ (fun x => within i 2 (col x))); [lia|lia|lia|exists m; lia|]]; [done|].
  intros j Hj [j' Ej]. assert (j + 3 < (c + 1) * q) by lia.
  set (regs k := (s32 (cell k j i), s32 (cell k j (i + 1)), s32 (cell k (j + 1) i), s32 (cell k (j + 1) (i + 1)),
                  s32 (cell k (j + 2) i), s32 (cell k (j + 2) (i + 1)), s32 (cell k (j + 3) i), s32 (cell k (j + 3) (i + 1)))).
  eapply puts_pure.
  { apply (owp_eq _ (regs lda)). apply (for_exact (fun k s => s = regs k)); [lia|lia|done|].
    intros k s Hk ->. unfold regs. ldr j k. ldr (j + 1) k. ldr (j + 2) k. ldr (j + 3) k. ldr k i. ldr k (i + 1). red.
    repeat f_equal; apply macr_cell; lia || (f_equal; lia). }
  unfold regs. cbv beta iota.
  eapply puts_ext; [|
    apply puts_bind; [apply (puts_set j i); [lia|done|split; lia]|]; apply puts_bind; [apply (puts_set j (i + 1)); [lia|done|split; lia]|];
    apply puts_bind; [apply (puts_set (j + 1) i); [lia|done|split; lia]|]; apply puts_bind; [apply (puts_set (j + 1) (i + 1)); [lia|done|split; lia]|];
    apply puts_bind; [apply (puts_set (j + 2) i); [lia|done|split; lia]|]; apply puts_bind; [apply (puts_set (j + 2) (i + 1)); [lia|done|split; lia]|];
    apply puts_bind; [apply (puts_set (j + 3) i); [lia|done|split; lia]|]; apply (puts_set (j + 3) (i + 1)); [lia|done|split; lia]]. cells.
Qed.
End CoreRegs.

(** ** All versions, all cores *)

(** The core that computes element [x]. *)
Definition owner_of (v : matmul_version) (nc x : Z) : Z :=
  match v with
  | Aq => col x mod nc
  | Bs | Cs => row x mod nc
  | Ds => row x / 4 mod nc
  | _ => row x / (lda / nc)
  end.

(** The sizes a version is written for. *)
Definition suits (v : matmul_version) (nc : Z) : Prop :=
  match v with
  | An | Ap => (nc | lda)
  | Ad | Do => (nc | lda) /\ lda = 32
  | Ai | Ci => (nc | lda) /\ (4 | lda)
  | Ar B_t => (nc | lda) /\ lda <= 32 /\ length B_t = 1024%nat
  | Aq | Cs => (2 * nc | lda)
  | Bb | Cg | Bs | Ds => (4 * nc | lda)
  end.

Lemma rows_owner (c nc q x : Z) : 0 < nc -> lda = q * nc -> rows_of c q x = (row x / (lda / nc) =? c).
Proof.
  intros Hnc Hq. assert (0 < q) by nia. rewrite Hq at 1. rewrite Z.div_mul by lia. unfold rows_of, block. by apply stretch_core.
Qed.

Lemma computes_ext (Q Q' : Z -> bool) (m : list Z -> outcome (list Z)) : (forall x, Q x = Q' x) -> computes Q m -> computes Q' m.
Proof.
  intros HQ Hm C HC Hz. eapply owp_mono; [apply Hm; [done|]|].
  - intros x Hx Hown. apply Hz; [done|]. by rewrite <-HQ.
  - intros C' [HC' H']. split; [done|]. intros x Hx. rewrite <-HQ. by apply H'.
Qed.

Lemma matmul_core (v : matmul_version) (c nc : Z) : 0 <= c < nc -> suits v nc ->
  computes (fun x => owner_of v nc x =? c) (matmul v c nc lda A B).
Proof.
  intros Hc Hs. assert (forall q m, lda = q * nc -> computes (rows_of c q) m -> computes (fun x => row x / (lda / nc) =? c) m) as Hrows.
  { intros q m Hq Hm. eapply computes_ext; [|exact Hm]. intros x. apply rows_owner; [lia|done]. }
  assert (forall m u, 0 < u -> lda = m * (u * nc) -> 0 <= m) as Hpos by (intros m u Hu Hm; assert (0 < u * nc) as H by (apply Z.mul_pos_pos; lia); clear - Hm Hlda H; nia).
  destruct v; cbn [matmul suits owner_of] in *.
  - destruct Hs as [[q Hq] H32]. apply (Hrows q); [done|]. apply adds_computes. by apply ad_adds.
  - destruct Hs as [[q Hq] H4]. apply (Hrows q); [done|]. apply puts_computes. by apply ai_puts.
  - destruct Hs as [q Hq]. apply (Hrows q); [done|]. apply adds_computes. by apply an_adds.
  - destruct Hs as [q Hq]. apply (Hrows q); [done|]. apply adds_computes. by apply ap_adds.
  - destruct Hs as [m Hm]. apply adds_computes. apply (aq_adds c nc Hc m); [lia|]. apply (Hpos m 2); lia.
  - destruct Hs as ([q Hq] & H32 & Hl). apply (Hrows q); [done|]. apply adds_computes. by apply ar_adds.
  - destruct Hs as [m Hm]. apply (Hrows (m * 4)); [lia|]. apply puts_computes. apply (bb_puts c nc (m * 4) Hc ltac:(lia) m). lia.
  - destruct Hs as [m Hm]. apply adds_computes. apply (bs_adds c nc Hc m); [done|]. apply (Hpos m 4); lia.
  - destruct Hs as [m Hm]. apply (Hrows (m * 4)); [lia|]. apply adds_computes. apply (cg_adds c nc (m * 4) Hc ltac:(lia) m). lia.
  - destruct Hs as [[q Hq] H4]. apply (Hrows q); [done|]. apply puts_computes. by apply ci_puts.
  - destruct Hs as [m Hm]. apply puts_computes. apply (cs_puts c nc (m * 2) Hc ltac:(lia) m); [done|]. apply (Hpos m 2); lia.
  - destruct Hs as [[q Hq] H32]. apply (Hrows q); [done|]. apply puts_computes. by apply do_puts.
  - destruct Hs as [m Hm]. apply adds_computes. apply (ds_adds c nc Hc m); [done|]. apply (Hpos m 4); lia.
Qed.

(** Cores that compute what they own, one after the other. *)
Section Cores.
Context (nc : Z) (own : Z -> Z) (f : Z -> list Z -> outcome (list Z)).
Hypothesis Hf : forall c, 0 <= c < nc -> computes (fun x => own x =? c) (f c).

Lemma cores_run (order : list Z) (C : list Z) :
  NoDup order -> Forall (fun c => 0 <= c < nc) order -> ints C ->
  (forall x, 0 <= x < N -> own x ∈ order -> at_ C x = 0) ->
  owp (run_all f order C) (fun C' => ints C' /\
    forall x, 0 <= x < N -> at_ C' x = if decide (own x ∈ order) then s32 (total x) else at_ C x).
Proof.
  revert C. induction order as [|c order IH]; intros C Hnd Ho HC Hz; cbn [run_all].
  - red. split; [done|]. intros x Hx. rewrite decide_False by set_solver. done.
  - apply NoDup_cons in Hnd as [Hn Hnd]. apply Forall_cons in Ho as [Hc Ho].
    apply owp_bind. eapply owp_mono; [apply Hf; [exact Hc|done|]|].
    + intros x Hx Hown. apply Hz; [done|]. apply Z.eqb_eq in Hown. rewrite Hown. set_solver.
    + intros C1 [HC1 E1]. eapply owp_mono; [apply IH; [done|done|done|]|].
      * intros x Hx Hin. rewrite E1 by done. rewrite (proj2 (Z.eqb_neq _ _)) by (intros Hcx; by rewrite Hcx in Hin). apply Hz; [done|set_solver].
      * intros C2 [HC2 E2]. split; [done|]. intros x Hx. rewrite E2, E1 by done. zcase (own x =? c).
        -- rewrite (decide_True (P := own x ∈ c :: order)) by set_solver. by destruct (decide _).
        -- destruct (decide (own x ∈ order)); [rewrite decide_True by set_solver|rewrite decide_False by set_solver]; done.
Qed.

(** All of them, on a result that starts at zero. *)
Lemma cores_all (order : list Z) :
  (forall x, 0 <= x < N -> 0 <= own x < nc) -> order ≡ₚ seqZ 0 nc ->
  run_all f order (replicate (Z.to_nat N) 0) = Ok ((fun x => product lda A B (x / lda) (x mod lda)) <$> seqZ 0 N).
Proof.
  intros Hown Ho.
  assert (NoDup order) as Hnd by (rewrite Ho; apply NoDup_seqZ).
  assert (Forall (fun c => 0 <= c < nc) order) as Hfo.
  { apply Forall_forall. intros c Hc. rewrite Ho in Hc. apply elem_of_seqZ in Hc. lia. }
  assert (ints (replicate (Z.to_nat N) 0)) as HC.
  { split; [rewrite length_replicate; nia|]. apply Forall_replicate. done. }
  assert (forall x, 0 <= x < N -> at_ (replicate (Z.to_nat N) 0) x = 0) as Hz.
  { intros x Hx. unfold at_. rewrite lookup_replicate_2 by lia. done. }
  pose proof (cores_run order _ Hnd Hfo HC (fun x Hx _ => Hz x Hx)) as Hrun.
  apply owp_ok in Hrun as (C' & -> & [Hl' _] & E'). f_equal. apply list_eq. intros k.
  destruct (decide (Z.of_nat k < N)) as [Hk|Hk].
  - rewrite list_lookup_fmap, lookup_seqZ_lt by lia. cbn [fmap option_fmap option_map]. rewrite Z.add_0_l.
    specialize (E' (Z.of_nat k) ltac:(lia)). rewrite decide_True in E'.
    + destruct (lookup_lt_is_Some_2 C' k) as [y Hy]; [lia|]. unfold at_ in E'. rewrite Nat2Z.id, Hy in E'. rewrite Hy. f_equal. exact E'.
    + rewrite Ho. apply elem_of_seqZ. pose proof (Hown (Z.of_nat k) ltac:(lia)). lia.
  - rewrite !lookup_ge_None_2; [done| |lia]. rewrite length_fmap, length_seqZ. lia.
Qed.
End Cores.

(** Every element has an owner. *)
Lemma owner_of_range (v : matmul_version) (nc x : Z) : 0 < nc -> suits v nc -> 0 <= x < N -> 0 <= owner_of v nc x < nc.
Proof.
  intros Hnc Hs Hx. destruct (row_col x Hx) as (_ & Hr & Hcx).
  assert (forall q, lda = q * nc -> 0 <= row x / (lda / nc) < nc) as Hrows.
  { intros q Hq. assert (0 < q) by nia. rewrite Hq, Z.div_mul by lia. split; [apply Z.div_pos; lia|apply Z.div_lt_upper_bound; lia]. }
  destruct v; cbn [suits owner_of] in *; try (by apply Z.mod_pos_bound);
    try (destruct Hs as [[q Hq] _]; by apply (Hrows q)); try (destruct Hs as [m Hm]; apply (Hrows (m * 4)); lia);
    destruct Hs as [q Hq]; by apply (Hrows q).
Qed.

Lemma matmul_all (v : matmul_version) (nc : Z) (order : list Z) :
  0 < nc -> suits v nc -> order ≡ₚ seqZ 0 nc ->
  run_all (fun c => matmul v c nc lda A B) order (replicate (Z.to_nat N) 0)
    = Ok ((fun x => product lda A B (x / lda) (x mod lda)) <$> seqZ 0 N).
Proof.
  intros Hnc Hs Ho. apply (cores_all nc (owner_of v nc)); [|by intros x; apply owner_of_range|done].
  intros c Hc. by apply matmul_core.
Qed.
End Matrix.

(** [C11] The thirteen optimised matrix products, with their blocking, their
    unrolling, their registers and their distribution of rows or columns, are
    equivalent to the reference product: run in any order by the cores, whose
    number divides the size the way the version is written for ([suits]: the
    rows, pairs or groups of four rows come out even, and some versions want 32
    rows), on a result that starts at zero, each leaves the product of the two
    matrices modulo 2^32.  Otherwise rows are left out: no version uses the
    remainder of the division. *)
Theorem matmul_correct (v : matmul_version) (lda nc : Z) (A B : list Z) (order : list Z) :
  0 < lda <= 2 ^ 15 -> Z.of_nat (length A) = lda * lda -> Z.of_nat (length B) = lda * lda ->
  0 < nc -> suits lda v nc -> order ≡ₚ seqZ 0 nc ->
  run_all (fun c => matmul v c nc lda A B) order (replicate (Z.to_nat (lda * lda)) 0)
    = Ok ((fun x => product lda A B (x / lda) (x mod lda)) <$> seqZ 0 (lda * lda)).
Proof. intros H1 H2 H3 H4 H5 H6. by apply matmul_all. Qed.

(** Two cores, 8 by 8. *)
Lemma matmul_correct_witness :
  run_all (fun c => matmul Cg c 2 8 (seqZ 0 64) (seqZ 3 64)) [1; 0] (replicate (Z.to_nat (8 * 8)) 0)
    = Ok ((fun x => product 8 (seqZ 0 64) (seqZ 3 64) (x / 8) (x mod 8)) <$> seqZ 0 (8 * 8)).
Proof.
  apply (matmul_correct Cg 8 2 (seqZ 0 64) (seqZ 3 64) [1; 0]); try done.
  - exists 1. lia.
  - change (seqZ 0 2) with [0; 1]. solve_Permutation.
Defined.
End MatmulSpec.
