(* ===== verification/MtBlock.v ===== *)
(** * The blocked matrix products of riscv-tests/mt

    More versions of [matmul], which keep a group of elements of the result in
    registers, add several terms to each and store the group.  The registers
    of a group ([temp0], [temp1], ..., or [c1], [c2], ...) are a list; the
    unrolled statements on them are written once, for the list.  [A] and [B] are
    not written, so it does not matter when their elements are loaded, and a
    product does not depend on the order of its factors. *)

From S2P Require Import Prelude.
From S2P Require Import Mt.

Module MtBlock.
Import Mt.

(** ** Statements on groups *)

(** [p, p + 1, ..., p + n - 1]. *)
Definition cols (p n : Z) : list Z := (fun s => p + s) <$> seqZ 0 n.

(** [c1 = C[p1]; c2 = C[p2]; ...]. *)
Fixpoint loads (C : list Z) (ps : list Z) : outcome (list Z) :=
  match ps with
  | [] => Ok []
  | p :: ps => c ← aget C p; r ← loads C ps; Ok (c :: r)
  end.

(** [C[p1] = c1; C[p2] = c2; ...]. *)
Fixpoint stores (ps r : list Z) (C : list Z) : outcome (list Z) :=
  match ps, r with
  | p :: ps, c :: r => C ← aset C p c; stores ps r C
  | _, _ => Ok C
  end.

(** [C[p1] += c1; C[p2] += c2; ...]. *)
Fixpoint incs (ps r : list Z) (C : list Z) : outcome (list Z) :=
  match ps, r with
  | p :: ps, c :: r => C ← incr p c C; incs ps r C
  | _, _ => Ok C
  end.

(** [X[p1] * Y[q1] + X[p2] * Y[q2] + ...], from [acc] on. *)
Fixpoint products (X Y : list Z) (acc : Z) (l : list (Z * Z)) : outcome Z :=
  match l with
  | [] => Ok acc
  | (p, q) :: l => a ← aget X p; b ← aget Y q; products X Y (macr acc a b) l
  end.

(** [c1 += X[..] * Y[..] + ...; c2 += X[..] * Y[..] + ...; ...]. *)
Fixpoint terms (X Y : list Z) (pss : list (list (Z * Z))) (r : list Z) : outcome (list Z) :=
  match pss, r with
  | ps :: pss, c :: r => v ← products X Y 0 ps; r ← terms X Y pss r; Ok (s32 (c + v) :: r)
  | _, _ => Ok r
  end.

(** [c1 += X[p] * Y[q]; c2 += X[p] * Y[q + 1]; ...]. *)
Definition row_terms (X Y : list Z) (p q n : Z) (r : list Z) : outcome (list Z) :=
  terms X Y ((fun q => [(p, q)]) <$> cols q n) r.

(** [C[p1] += X[..] * Y[..]; C[p2] += X[..] * Y[..]; ...]. *)
Fixpoint macs (X Y : list Z) (l : list (Z * (Z * Z))) (C : list Z) : outcome (list Z) :=
  match l with
  | [] => Ok C
  | (p, (a, b)) :: l => a ← aget X a; b ← aget Y b; C ← mac p a b C; macs X Y l C
  end.

(** [for (i = hi; i >= lo; i -= step) body]. *)
Fixpoint down_loop {S : Type} (fuel : nat) (i lo step : Z) (body : Z -> S -> outcome S) (s : S) : outcome S :=
  if lo <=? i then
    match fuel with
    | O => Fuel
    | Datatypes.S fuel => s ← body i s; i ← sint (i - step); down_loop fuel i lo step body s
    end
  else Ok s.
Definition for_downto {S : Type} (hi lo step : Z) (body : Z -> S -> outcome S) (s : S) : outcome S :=
  down_loop (Z.to_nat (hi - lo + 1)) hi lo step body s.

(** [if (coreid == 0) first; if (coreid == 1 || ncores == 1) second]. *)
Definition two_cores (coreid ncores : Z) (first second : list Z -> outcome (list Z)) (C : list Z) : outcome (list Z) :=
  C ← (if coreid =? 0 then first C else Ok C);
  if (coreid =? 1) || (ncores =? 1) then second C else Ok C.

Section Kernels.
Context (coreid ncores lda : Z) (A B : list Z).

(** The same text as cg_matmul.c. *)
Definition ag_matmul (C : list Z) : outcome (list Z) := cg_matmul coreid ncores lda A B C.

Definition ak_matmul (C : list Z) : outcome (list Z) :=
  let bsize := 16 in
  for_int (bsize * coreid) lda (bsize * ncores) (fun jj C =>
    for_int 0 lda bsize (fun ii C =>
      for_int jj (Z.min lda (jj + bsize)) 1 (fun j C =>
        for_int ii (Z.min lda (ii + bsize)) 8 (fun i C =>
          c ← loads C (cols (i + j * lda) 8);
          c ← for_int 0 lda 4 (fun k c => for_int 0 4 1 (fun x c =>
                row_terms A B (j * lda + k + x) ((k + x) * lda + i) 8 c) c) c;
          stores (cols (i + j * lda) 8) c C) C) C) C) C.

(** [c1] and [c2] are in row [j], [c3] and [c4] in the next one, and so on. *)
Definition ck_cells (i j : Z) : list Z :=
  [i + j * lda; i + j * lda + 1; i + (j + 1) * lda; i + (j + 1) * lda + 1;
   i + (j + 2) * lda; i + (j + 2) * lda + 1; i + (j + 3) * lda; i + (j + 3) * lda + 1].
Definition ck_terms (i j k : Z) : list (list (Z * Z)) :=
  [[(j * lda + k, k * lda + i)]; [(j * lda + k, k * lda + i + 1)];
   [((j + 1) * lda + k, k * lda + i)]; [((j + 1) * lda + k, k * lda + i + 1)];
   [((j + 2) * lda + k, k * lda + i)]; [((j + 2) * lda + k, k * lda + i + 1)];
   [((j + 3) * lda + k, k * lda + i)]; [((j + 3) * lda + k, k * lda + i + 1)]].

(** [for (ii = start; ii != start || first; ii = (bsize + ii) % lda)]. *)
Fixpoint ring (fuel : nat) (start ii : Z) (first : bool) (body : Z -> list Z -> outcome (list Z)) (C : list Z) : outcome (list Z) :=
  if negb (ii =? start) || first then
    match fuel with
    | O => Fuel
    | S fuel => C ← body ii C; if lda =? 0 then UB else ring fuel start (Z.rem (16 + ii) lda) false body C
    end
  else Ok C.

Definition ck_matmul (C : list Z) : outcome (list Z) :=
  let bsize := 16 in
  let start := bsize * coreid in
  for_int start lda (bsize * ncores) (fun jj C =>
    ring (Z.to_nat lda) start start true (fun ii C =>
      for_int jj (Z.min lda (jj + bsize)) 4 (fun j C =>
        for_int ii (Z.min lda (ii + bsize)) 2 (fun i C =>
          c ← loads C (ck_cells i j);
          c ← for_int 0 lda 8 (fun k c => for_int 0 8 1 (fun x c => terms A B (ck_terms i j (k + x)) c) c) c;
          stores (ck_cells i j) c C) C) C) C) C.

(** The rows from [jlo] to [jhi], sixteen terms at a time. *)
Definition bk_half (jlo jhi : Z) (C : list Z) : outcome (list Z) :=
  for_int 0 32 16 (fun kk C =>
    for_int jlo jhi 1 (fun j C =>
      for_int 0 32 8 (fun i C =>
        temp ← loads C (cols (i + j * 32) 8);
        temp ← for_int kk (Z.min (kk + 16) 32) 1 (fun k temp => row_terms A B (j * 32 + k) (k * 32 + i) 8 temp) temp;
        stores (cols (i + j * 32) 8) temp C) C) C) C.

Definition bk_matmul (C : list Z) : outcome (list Z) :=
  if 1 <? coreid then Ok C else two_cores coreid ncores (bk_half 0 16) (bk_half 16 32) C.

Definition dv_matmul (C : list Z) : outcome (list Z) :=
  if 1 <? coreid then Ok C else
  C ← (if negb (coreid =? 0) || (ncores =? 1) then bk_half 0 16 C else Ok C);
  if coreid =? 0 then bk_half 16 32 C else Ok C.

(** *** Halves of the columns, in sixteen registers *)

Definition row16 (off j : Z) (C : list Z) : outcome (list Z) :=
  temp ← loads C (cols (off + j * lda) 16);
  temp ← for_int 0 32 1 (fun k temp => row_terms A B (j * lda + k) (off + k * lda) 16 temp) temp;
  stores (cols (off + j * lda) 16) temp C.

Definition al_matmul (C : list Z) : outcome (list Z) :=
  if 1 <? coreid then Ok C else two_cores coreid ncores (for_int 0 32 1 (row16 0)) (for_int 0 32 1 (row16 16)) C.

Definition cl_core1 (C : list Z) : outcome (list Z) := C ← for_int 16 32 1 (row16 16) C; for_int 0 16 1 (row16 16) C.
Definition cl_matmul (C : list Z) : outcome (list Z) :=
  if 1 <? coreid then Ok C else two_cores coreid ncores (for_int 0 32 1 (row16 0)) cl_core1 C.

Definition df_core0 (C : list Z) : outcome (list Z) := C ← for_int 0 16 1 (row16 0) C; for_int 16 32 1 (row16 0) C.
Definition df_core1 (C : list Z) : outcome (list Z) := C ← for_int 16 32 1 (row16 16) C; for_int 0 16 1 (row16 16) C.
Definition df_matmul (C : list Z) : outcome (list Z) := two_cores coreid ncores df_core0 df_core1 C.

(** The registers start at zero. *)
Definition bf_row16 (off j : Z) (C : list Z) : outcome (list Z) :=
  temp ← for_int 0 32 1 (fun k temp => row_terms A B (j * lda + k) (off + k * lda) 16 temp) (replicate 16 0);
  stores (cols (off + j * lda) 16) temp C.
Definition bf_matmul (C : list Z) : outcome (list Z) :=
  two_cores coreid ncores (for_int 0 32 1 (bf_row16 0)) (for_int 0 32 1 (bf_row16 16)) C.

(** *** Eight elements of a row, numbered through *)

(** The body of the loop over [j], on the arrays it reads. *)
Definition ay_body (X Y : list Z) (j : Z) (C : list Z) : outcome (list Z) :=
  let jToRow := Z.shiftl (Z.shiftr j 5) 5 in
  let jToCol := Z.rem j 32 in
  tempC ← for_int 0 lda 2 (fun i tempC =>
    tempC ← row_terms X Y (i + jToRow) (jToCol + Z.shiftl i 5) 8 tempC;
    row_terms X Y (i + 1 + jToRow) (jToCol + Z.shiftl (i + 1) 5) 8 tempC) (replicate 8 0);
  stores (cols j 8) tempC C.

Definition ay_loop (X Y : list Z) (C : list Z) : outcome (list Z) :=
  let start := Z.shiftl coreid 9 in
  let end_ := Z.shiftl (if ncores =? 1 then 2 else coreid + 1) 9 in
  let jStride := 8 in
  for_int start end_ jStride (ay_body X Y) C.

Definition ay_matmul (C : list Z) : outcome (list Z) := if 1 <? coreid then Ok C else ay_loop A B C.

(** [iToRow] is [i << 5], and 32 more for the second half. *)
Definition az_body (j : Z) (C : list Z) : outcome (list Z) :=
  let jToRow := Z.shiftl (Z.shiftr j 5) 5 in
  let jToCol := Z.rem j 32 in
  tempC ← for_int 0 lda 2 (fun i tempC =>
    let iToRow := Z.shiftl i 5 in
    tempC ← row_terms A B (i + jToRow) (jToCol + iToRow) 8 tempC;
    let iToRow := iToRow + 32 in
    row_terms A B (i + 1 + jToRow) (jToCol + iToRow) 8 tempC) (replicate 8 0);
  stores (cols j 8) tempC C.
Definition az_matmul (C : list Z) : outcome (list Z) :=
  if 1 <? coreid then Ok C else
  let start := Z.shiftl coreid 9 in
  let end_ := Z.shiftl (if ncores =? 1 then 2 else coreid + 1) 9 in
  for_int start end_ 8 az_body C.

(** [for (i = 0; i < 1024; i++) { A1[i] = A[i]; B1[i] = B[i]; }]. *)
Definition cy_copy (A1 B1 : list Z) : outcome (list Z * list Z) :=
  for_int 0 1024 1 (fun i '(A1, B1) =>
    a ← aget A i; A1 ← aset A1 i a; b ← aget B i; B1 ← aset B1 i b; Ok (A1, B1)) (A1, B1).

(** [A1] and [B1] are static; only core 1 uses them. *)
Definition cy_matmul (A1 B1 C : list Z) : outcome (list Z) :=
  if 1 <? coreid then Ok C else
  if coreid =? 0 then ay_loop A B C
  else '(A1, B1) ← cy_copy A1 B1; ay_loop A1 B1 C.

(** *** Two terms at a time, upwards and downwards *)

Definition bh_core0 (C : list Z) : outcome (list Z) :=
  for_int 0 2 1 (fun m C =>
    for_int 0 (Z.quot lda 2) 1 (fun j C =>
      for_int 0 lda 8 (fun i C =>
        tempC ← loads C (cols (i + j * lda) 8);
        let iB0 := Z.quot (m * lda * lda) 2 + i in
        let iB1 := iB0 + lda in
        '(tempC, _, _) ← for_int (Z.quot (m * lda) 2) (Z.quot ((m + 1) * lda) 2) 2 (fun k '(tempC, iB0, iB1) =>
          tempC ← terms A B ((fun s => [(j * lda + k, iB0 + s); (j * lda + k + 1, iB1 + s)]) <$> seqZ 0 8) tempC;
          Ok (tempC, iB0 + 2 * lda, iB1 + 2 * lda)) (tempC, iB0, iB1);
        stores (cols (i + j * lda) 8) tempC C) C) C) C.

Definition bh_core1 (C : list Z) : outcome (list Z) :=
  for_downto 2 1 1 (fun m C =>
    for_downto (lda - 1) (Z.quot lda 2) 1 (fun j C =>
      for_downto (lda - 1) 0 8 (fun i C =>
        tempC ← loads C ((fun s => i + j * lda - s) <$> seqZ 0 8);
        tempC ← for_downto (Z.quot (m * lda) 2 - 1) (Z.quot ((m - 1) * lda) 2) 2 (fun k tempC =>
          terms A B ((fun s => [(j * lda + k, k * lda + i - s); (j * lda + k - 1, (k - 1) * lda + i - s)]) <$> seqZ 0 8) tempC) tempC;
        stores ((fun s => i + j * lda - s) <$> seqZ 0 8) tempC C) C) C) C.

Definition bh_matmul (C : list Z) : outcome (list Z) :=
  if 1 <? coreid then Ok C else two_cores coreid ncores bh_core0 bh_core1 C.

(** The same statements as bh_matmul.c. *)
Definition bj_matmul (C : list Z) : outcome (list Z) := bh_matmul C.

(** *** Tiles of eight terms by eight columns *)

(** [TempA[t] = A[j*lda+t+8*m]]; for every [t] and [s]: [C[s+8*n+j*lda] +=
    TempA[t] * B[(t+8*m)*lda+s+8*n]]. *)
Definition cv_tile (j m n : Z) (C : list Z) : outcome (list Z) :=
  macs A B (t ← seqZ 0 8; s ← seqZ 0 8; [(s + 8 * n + j * lda, (j * lda + t + 8 * m, (t + 8 * m) * lda + s + 8 * n))]) C.
Definition cv_core1 (C : list Z) : outcome (list Z) :=
  for_int 16 32 1 (fun j C => for_int 0 4 1 (fun m C => for_int 0 4 1 (fun n C => cv_tile j m n C) C) C) C.
Definition cv_core0 (C : list Z) : outcome (list Z) :=
  for_int 0 16 1 (fun j C => for_int 0 4 1 (fun m C => for_int 0 4 1 (fun n C => cv_tile j m n C) C) C) C.
Definition cv_matmul (C : list Z) : outcome (list Z) :=
  C ← (if (coreid =? 1) || (ncores =? 1) then cv_core1 C else Ok C);
  if coreid =? 0 then cv_core0 C else Ok C.

(** The eight sums first, then [C[s+8*n+j*lda] += TempC[s]]. *)
Definition av_tile (j m n : Z) (C : list Z) : outcome (list Z) :=
  TempC ← terms A B ((fun s => (fun t => (j * lda + t + 8 * m, (t + 8 * m) * lda + s + 8 * n)) <$> seqZ 0 8) <$> seqZ 0 8) (replicate 8 0);
  incs ((fun s => s + 8 * n + j * lda) <$> seqZ 0 8) TempC C.
Definition av_core1 (C : list Z) : outcome (list Z) :=
  for_int 16 32 1 (fun j C => for_int 0 4 1 (fun m C => for_int 0 4 1 (fun n C => av_tile j m n C) C) C) C.
Definition av_core0 (C : list Z) : outcome (list Z) :=
  for_int 0 16 1 (fun j C => for_int 0 4 1 (fun m C => for_int 0 4 1 (fun n C => av_tile j m n C) C) C) C.
Definition av_matmul (C : list Z) : outcome (list Z) :=
  C ← (if (coreid =? 1) || (ncores =? 1) then av_core1 C else Ok C);
  if coreid =? 0 then av_core0 C else Ok C.

(** *** The second matrix transposed *)

Definition at_transpose (bTrans : list Z) : outcome (list Z) :=
  for_int 0 32 1 (fun counti bTrans => for_int 0 32 1 (fun countj bTrans =>
    b ← aget B (countj + counti * lda); aset bTrans (counti + countj * lda) b) bTrans) bTrans.

(** [bTrans] is not initialised. *)
Definition at_matmul (bTrans C : list Z) : outcome (list Z) :=
  bTrans ← at_transpose bTrans;
  let BLOCKSIZE := 8 in
  for_int 0 lda 1 (fun j C =>
    let jFlag := j * lda in
    start ← sdiv (coreid * lda) ncores; end_ ← sdiv ((coreid + 1) * lda) ncores;
    for_int start end_ BLOCKSIZE (fun i C =>
      for_int i (i + BLOCKSIZE) 1 (fun iTemp C =>
        let iFlag := iTemp * lda in
        let cLoc := jFlag + iTemp in
        for_int 0 lda 16 (fun k C => macs A bTrans ((fun t => (cLoc, (jFlag + k + t, iFlag + k + t))) <$> seqZ 0 16) C) C) C) C) C.

(** Row [i] of the transposed matrix, and the sum of a row with it, eight terms
    at a time. *)
Definition bo_column (i : Z) (B_trans : list Z) : outcome (list Z) :=
  for_int 0 32 1 (fun z B_trans => b ← aget B (i + z * 32); aset B_trans (i * 32 + z) b) B_trans.
Definition bo_sum (A_j B_i : Z) (B_trans : list Z) : outcome Z :=
  for_int 0 32 8 (fun k acc_temp => products A B_trans acc_temp ((fun t => (A_j + k + t, B_i + k + t)) <$> seqZ 0 8)) 0.
Definition bo_half (lo hi : Z) (B_trans C : list Z) : outcome (list Z * list Z) :=
  for_int 0 32 1 (fun i '(B_trans, C) =>
    let B_i := i * 32 in
    B_trans ← bo_column i B_trans;
    C ← for_int lo hi 2 (fun j C =>
      let A_j := j * lda in
      acc_temp0 ← bo_sum A_j B_i B_trans;
      let A_j := A_j + 32 in
      acc_temp1 ← bo_sum A_j B_i B_trans;
      C ← aset C (i + j * lda) acc_temp0; aset C (i + (j + 1) * lda) acc_temp1) C;
    Ok (B_trans, C)) (B_trans, C).

(** [B_trans] is not initialised. *)
Definition bo_matmul (B_trans C : list Z) : outcome (list Z) :=
  '(B_trans, C) ← (if coreid =? 0 then bo_half 0 16 B_trans C else Ok (B_trans, C));
  '(_, C) ← (if (coreid =? 1) || (ncores =? 1) then bo_half 16 32 B_trans C else Ok (B_trans, C));
  Ok C.

(** Two by two elements at a time; [tB] is a core's own.  The calls of
    [barrier] in br_matmul.c and dr_matmul.c, one per pair of rows and one per
    tile, are left out: a core reads its own [tB] and writes its own columns. *)
Definition br_transpose (startInd endInd : Z) (tB : list Z) : outcome (list Z) :=
  for_int 0 lda 2 (fun i tB => for_int startInd endInd 2 (fun j tB =>
    b ← aget B (i * lda + j); tB ← aset tB (j * lda + i) b;
    b ← aget B (i * lda + j + 1); tB ← aset tB ((j + 1) * lda + i) b;
    b ← aget B ((i + 1) * lda + j); tB ← aset tB (j * lda + i + 1) b;
    b ← aget B ((i + 1) * lda + j + 1); aset tB ((j + 1) * lda + i + 1) b) tB) tB.

(** Two rows of [w] elements, four terms at a time. *)
Definition br_tile (w : Z) (tB : list Z) (j k2 i : Z) (C : list Z) : outcome (list Z) :=
  let ps := ((fun s => j * lda + i + s) <$> seqZ 0 w) ++ ((fun s => (j + 1) * lda + i + s) <$> seqZ 0 w) in
  tmpC ← loads C ps;
  tmpC ← for_int k2 (k2 + 32) 4 (fun k tmpC => for_int 0 4 1 (fun t tmpC =>
           terms A tB (((fun s => [(j * lda + k + t, (i + s) * lda + k + t)]) <$> seqZ 0 w) ++
                       ((fun s => [((j + 1) * lda + k + t, (i + s) * lda + k + t)]) <$> seqZ 0 w)) tmpC) tmpC) tmpC;
  stores ps tmpC C.
Definition br_product (w : Z) (tB : list Z) (C : list Z) : outcome (list Z) :=
  let jBLOCK := 32 in
  let iBLOCK := 16 in
  let kBLOCK := 32 in
  q ← sdiv lda ncores;
  let startInd := coreid * q in
  let endInd := (coreid + 1) * q in
  tB ← br_transpose startInd endInd tB;
  for_int 0 lda jBLOCK (fun j2 C =>
    for_int startInd endInd iBLOCK (fun i2 C =>
      for_int j2 (j2 + jBLOCK) 2 (fun j C =>
        for_int 0 lda kBLOCK (fun k2 C =>
          for_int i2 (i2 + iBLOCK) w (fun i C => br_tile w tB j k2 i C) C) C) C) C) C.
Definition br_matmul (tB C : list Z) : outcome (list Z) := br_product 4 tB C.
Definition dr_matmul (tB C : list Z) : outcome (list Z) := br_product 8 tB C.

(** *** Four by four elements *)

Definition bm_cells (i j : Z) : list Z := a ← [i; i + 1; i + 2; i + 3]; b ← [j; j + 1; j + 2; j + 3]; [b + a * lda].
Definition bm_terms (i j k : Z) : list (list (Z * Z)) :=
  a ← [i; i + 1; i + 2; i + 3]; b ← [j; j + 1; j + 2; j + 3]; [[(k + a * lda, b + k * lda)]].
Definition bm_rows (lo hi : Z) (C : list Z) : outcome (list Z) :=
  for_int lo hi 4 (fun i C =>
    for_int 0 lda 4 (fun j C =>
      temp ← loads C (bm_cells i j);
      temp ← for_int 0 lda 1 (fun k temp => terms A B (bm_terms i j k) temp) temp;
      stores (bm_cells i j) temp C) C) C.
Definition bm_matmul (C : list Z) : outcome (list Z) :=
  space ← sdiv lda ncores;
  let max := space * coreid + space in
  if negb (coreid =? ncores - 1) then bm_rows (space * coreid) (Z.quot max 4 * 4) C
  else bm_rows (space * coreid) (Z.quot lda 4 * 4) C.

(** *** Two by eight elements, for two cores only *)

(** [c[ri][rj]] is element [i + ri] of row [j + rj]; the terms from [kk] on. *)
Definition bc_tile (kk j i : Z) (C : list Z) : outcome (list Z) :=
  let ps := (ri ← seqZ 0 8; rj ← [0; 1]; [j * 32 + (i + ri + rj * 32)]) in
  c ← loads C ps;
  c ← for_int kk (Z.min 32 (kk + 16)) 1 (fun k c =>
        terms A B (ri ← seqZ 0 8; rj ← [0; 1]; [[(j * 32 + (rj * 32 + k), i + (k * 32 + ri))]]) c) c;
  stores ps c C.
Definition bc_block (start end_ klo khi : Z) (C : list Z) : outcome (list Z) :=
  for_int start end_ 16 (fun jj C =>
    for_int klo khi 16 (fun kk C =>
      for_int jj (Z.min end_ (jj + 16)) 2 (fun j C =>
        for_int 0 32 8 (fun i C => bc_tile kk j i C) C) C) C) C.

(** The plain loops, for any other number of cores or size. *)
Definition naive (C : list Z) : outcome (list Z) :=
  for_int 0 lda 1 (fun i C => for_int 0 lda 1 (fun j C => for_int 0 lda 1 (fun k C =>
    a ← aget A (j * lda + k); b ← aget B (k * lda + i); mac (i + j * lda) a b C) C) C) C.

Definition bc_matmul (C : list Z) : outcome (list Z) :=
  let start := coreid * 16 in
  let end_ := if coreid =? 1 then 32 else (coreid + 1) * 16 in
  if (ncores =? 2) && (lda =? 32) then bc_block start end_ 0 32 C
  else if 0 <? coreid then Ok C else naive C.

Definition dc_matmul (C : list Z) : outcome (list Z) :=
  let start := coreid * 16 in
  let end_ := if coreid =? 1 then 32 else (coreid + 1) * 16 in
  if (ncores =? 2) && (lda =? 32) then
    C ← bc_block start end_ (if coreid =? 0 then 0 else 16) (if coreid =? 0 then 16 else 32) C;
    bc_block start end_ (if negb (coreid =? 0) then 0 else 16) (if negb (coreid =? 0) then 16 else 32) C
  else if 0 <? coreid then Ok C else naive C.

(** *** Rows in local arrays *)

(** [T[p] += element * B[..] + element2 * B[..] + element3 * B[..] + element4 * B[..]]. *)
Definition add_products (p : Z) (l : list (Z * Z)) (T : list Z) : outcome (list Z) :=
  c ← aget T p; v ← products A B 0 l; aset T p (s32 (c + v)).

(** The four statements on one of the two arrays, for columns [j] to [j + 3]. *)
Definition am_stmts (row i j : Z) (T : list Z) : outcome (list Z) :=
  for_int 0 4 1 (fun s T => add_products (j + s) ((fun t => (row + i + t, (i + t) * 32 + j + s)) <$> seqZ 0 4) T) T.

Definition am_matmul (C : list Z) : outcome (list Z) :=
  start ← sdiv (coreid * 32) ncores; end_ ← sdiv (32 * (1 + coreid)) ncores;
  '(_, _, C) ← for_size (u64 start) (u64 end_) 2 (fun l '(temp_mat, temp_mat2, C) =>
    let row := l * 32 in
    let row2 := (l + 1) * 32 in
    '(temp_mat, temp_mat2) ← for_size 0 (u64 lda) 4 (fun i '(temp_mat, temp_mat2) =>
      for_size 0 32 4 (fun j '(temp_mat, temp_mat2) =>
        temp_mat ← am_stmts row i j temp_mat; temp_mat2 ← am_stmts row2 i j temp_mat2;
        Ok (temp_mat, temp_mat2)) (temp_mat, temp_mat2)) (temp_mat, temp_mat2);
    for_size 0 32 1 (fun k '(temp_mat, temp_mat2, C) =>
      v ← aget temp_mat k; C ← aset C (row + k) v;
      v ← aget temp_mat2 k; C ← aset C (row2 + k) v;
      temp_mat ← aset temp_mat k 0; temp_mat2 ← aset temp_mat2 k 0;
      Ok (temp_mat, temp_mat2, C)) (temp_mat, temp_mat2, C)) (replicate 32 0, replicate 32 0, C);
  Ok C.

(** The same text as am_matmul.c. *)
Definition du_matmul (C : list Z) : outcome (list Z) := am_matmul C.
End Kernels.

(** ** All versions *)

(** The arrays that a version finds uninitialised are among its arguments. *)
Inductive block_version :=
  Ag | Ak | Al | Am | At (bTrans : list Z) | Av | Ay | Az | Bc | Bf | Bh | Bj | Bk | Bm | Bo (B_trans : list Z) | Br (tB : list Z)
| Ck | Cl | Cv | Cy (A1 B1 : list Z) | Dc | Df | Dr (tB : list Z) | Du | Dv.

Definition block_matmul (v : block_version) (coreid ncores lda : Z) (A B C : list Z) : outcome (list Z) :=
  match v with
  | Ag => ag_matmul coreid ncores lda A B C
  | Ak => ak_matmul coreid ncores lda A B C
  | Al => al_matmul coreid ncores lda A B C
  | Am => am_matmul coreid ncores lda A B C
  | At bTrans => at_matmul coreid ncores lda A B bTrans C
  | Av => av_matmul coreid ncores lda A B C
  | Ay => ay_matmul coreid ncores lda A B C
  | Az => az_matmul coreid ncores lda A B C
  | Bc => bc_matmul coreid ncores lda A B C
  | Bf => bf_matmul coreid ncores lda A B C
  | Bh => bh_matmul coreid ncores lda A B C
  | Bj => bj_matmul coreid ncores lda A B C
  | Bk => bk_matmul coreid ncores A B C
  | Bm => bm_matmul coreid ncores lda A B C
  | Bo B_trans => bo_matmul coreid ncores lda A B B_trans C
  | Br tB => br_matmul coreid ncores lda A B tB C
  | Ck => ck_matmul coreid ncores lda A B C
  | Cl => cl_matmul coreid ncores lda A B C
  | Cv => cv_matmul coreid ncores lda A B C
  | Cy A1 B1 => cy_matmul coreid ncores lda A B A1 B1 C
  | Dc => dc_matmul coreid ncores lda A B C
  | Df => df_matmul coreid ncores lda A B C
  | Dr tB => dr_matmul coreid ncores lda A B tB C
  | Du => du_matmul coreid ncores lda A B C
  | Dv => dv_matmul coreid ncores A B C
  end.
End MtBlock.
