(* ===== verification/MtBlockSpec.v ===== *)
(** * The blocked matrix products are the product

    For the 32 by 32 matrices the kernels are written for.  A statement or
    loop [m] with [upd P lo hi m] adds the terms from [lo] to [hi] to the
    elements of [P]; groups of registers have this form ([tile_adds]), and
    loops over rows, over columns and over terms combine it, upwards or
    downwards. *)

From S2P Require Import Prelude.
From S2P Require Import Mt MtSpec MatmulSpec MtBlock.

Module MtBlockSpec.
Import Mt MtSpec MatmulSpec MtBlock.

(** ** Loops that count down *)

Lemma down_loop_inv {S} (I : Z -> S -> Prop) (hi lo step : Z) (body : Z -> S -> outcome S) (fuel : nat) (i : Z) (s : S) :
  0 < step -> lo - step <= i <= hi -> hi < 2 ^ 31 -> - 2 ^ 31 <= lo - step -> (step | hi - i) -> (Z.to_nat (i - lo + 1) <= fuel)%nat ->
  (forall i s, lo <= i <= hi -> (step | hi - i) -> I i s -> owp (body i s) (I (i - step))) ->
  I i s ->
  owp (down_loop fuel i lo step body s) (fun s' => exists i', lo - step <= i' < lo /\ (step | hi - i') /\ I i' s').
Proof.
  intros Hst. revert i s. induction fuel as [|fuel IH]; intros i s Hi Hhi Hlo Hd Hf Hb HI; cbn [down_loop]; zcase (lo <=? i).
  - lia.
  - red. exists i. split_and!; [lia|lia|done|done].
  - apply owp_bind. eapply owp_mono; [by apply Hb; [lia| |]|]. intros s' HI'. rewrite sint_ok by (unfold in_s; lia).
    cbn [mbind outcome_bind]. apply IH; try done; [lia| |lia].
    replace (hi - (i - step)) with (hi - i + step) by lia. apply Z.divide_add_r; [done|apply Z.divide_refl].
  - red. exists i. split_and!; [lia|lia|done|done].
Qed.

(** A whole number of steps. *)
Lemma for_downto_inv {S} (I : Z -> S -> Prop) (hi lo step : Z) (body : Z -> S -> outcome S) (s : S) :
  0 < step -> lo <= hi + 1 -> hi < 2 ^ 31 -> - 2 ^ 31 <= lo - step -> (step | hi + 1 - lo) ->
  (forall i s, lo <= i <= hi -> (step | hi - i) -> I i s -> owp (body i s) (I (i - step))) ->
  I hi s -> owp (for_downto hi lo step body s) (I (lo - 1)).
Proof.
  intros Hst Hle Hhi Hlo [m Hm] Hb HI. unfold for_downto.
  eapply owp_mono; [apply (down_loop_inv I hi lo step); [done|lia|done|done|rewrite Z.sub_diag; apply Z.divide_0_r|lia|done|done]|].
  intros s' (i & Hi & [k Hk] & HI'). replace (lo - 1) with i; [done|].
  assert (m * step <= k * step < (m + 1) * step) as [H1 H2] by lia. assert (m <= k) by nia. assert (k < m + 1) by nia.
  assert (k = m) as -> by lia. lia.
Qed.

(** Each register gets its own terms. *)
Lemma terms_group (X Y : list Z) (h : Z * Z -> list (Z * Z)) (g v : Z * Z -> Z) (l : list (Z * Z)) :
  (forall o, o ∈ l -> products X Y 0 (h o) = Ok (v o)) -> terms X Y (h <$> l) (g <$> l) = Ok ((fun o => s32 (g o + v o)) <$> l).
Proof.
  induction l as [|o l IH]; intros Hv; [done|]. cbn [fmap list_fmap terms]. rewrite Hv by set_solver. cbn [mbind outcome_bind].
  change (list_fmap _ _ h l) with (h <$> l). change (list_fmap _ _ g l) with (g <$> l). rewrite IH by set_solver. done.
Qed.

Lemma size32 : 0 < 32 <= 2 ^ 15.
Proof. lia. Qed.

Section Block.
Context (A B : list Z).
Hypothesis HA : Z.of_nat (length A) = 1024.
Hypothesis HB : Z.of_nat (length B) = 1024.

Abbreviation row := (row 32).
Abbreviation col := (col 32).
Abbreviation cell := (cell 32 A B).
Abbreviation total := (total 32 A B).
Abbreviation adds := (adds 32).
Abbreviation puts := (puts 32 A B).
Abbreviation computes := (computes 32 A B).
Abbreviation ints := (ints 32).

(** The terms from [lo] to [hi] of an element. *)
Definition seg (lo hi x : Z) : Z := cell hi (row x) (col x) - cell lo (row x) (col x).

Definition upd (P : Z -> bool) (lo hi : Z) (m : list Z -> outcome (list Z)) : Prop := adds m (fun x => if P x then seg lo hi x else 0).

Lemma total_seg (x : Z) : total x = seg 0 32 x.
Proof. unfold seg. rewrite (cell_zero 32 A B), Z.sub_0_r. symmetry. apply cell_total. Qed.

Lemma upd_computes (P : Z -> bool) (m : list Z -> outcome (list Z)) : upd P 0 32 m -> computes P m.
Proof. intros Hm. apply adds_computes. eapply adds_ext; [|exact Hm]. intros x Hx. cbv beta. by rewrite total_seg. Qed.

Lemma upd_ext (P P' : Z -> bool) (lo hi : Z) (m : list Z -> outcome (list Z)) :
  (forall x, 0 <= x < 1024 -> P x = P' x) -> upd P lo hi m -> upd P' lo hi m.
Proof. intros HP. apply adds_ext. intros x Hx. by rewrite HP. Qed.

Lemma upd_pure {V : Type} (o : outcome V) (v : V) (m : V -> list Z -> outcome (list Z)) (P : Z -> bool) (lo hi : Z) :
  o = Ok v -> upd P lo hi (m v) -> upd P lo hi (fun C => v ← o; m v C).
Proof. intros ->. done. Qed.

(** More terms of the same elements; more elements. *)
Lemma upd_seq (P : Z -> bool) (lo mid hi : Z) (m1 m2 : list Z -> outcome (list Z)) :
  upd P lo mid m1 -> upd P mid hi m2 -> upd P lo hi (fun C => m1 C ≫= m2).
Proof. intros H1 H2. eapply adds_ext; [|apply (adds_bind 32 A B); [exact H1|exact H2]]. intros x Hx. cbv beta. unfold seg. destruct (P x); lia. Qed.

Lemma upd_join (P1 P2 P : Z -> bool) (lo hi : Z) (m1 m2 : list Z -> outcome (list Z)) :
  (forall x, 0 <= x < 1024 -> P x = P1 x || P2 x) -> (forall x, 0 <= x < 1024 -> P1 x && P2 x = false) ->
  upd P1 lo hi m1 -> upd P2 lo hi m2 -> upd P lo hi (fun C => m1 C ≫= m2).
Proof.
  intros HP Hd H1 H2. eapply adds_ext; [|apply (adds_bind 32 A B); [exact H1|exact H2]]. intros x Hx. cbv beta. rewrite HP by done.
  specialize (Hd x Hx). destruct (P1 x), (P2 x); cbn [orb andb] in *; try done; lia.
Qed.

(** A loop that brings the sum from [I lo] to [I hi]. *)
Lemma adds_steps (I S : Z -> Z -> Z) (lo hi step : Z) (body : Z -> list Z -> outcome (list Z)) :
  0 < step -> 0 <= lo <= hi -> hi + step <= 2 ^ 31 -> (step | hi - lo) -> (forall x, 0 <= x < 1024 -> I lo x = 0) ->
  (forall i x, lo <= i < hi -> 0 <= x < 1024 -> I (i + step) x = I i x + S i x) ->
  (forall i, lo <= i < hi -> (step | i - lo) -> adds (body i) (S i)) -> adds (for_int lo hi step body) (I hi).
Proof.
  intros Hst Hlo Hhi [m Hm] HI0 HIS Hb C HC.
  eapply owp_mono; [apply (for_int_inv (fun i C' => ints C' /\ forall x, 0 <= x < 1024 -> at_ C' x = s32 (at_ C x + I i x))); [done|lia|lia| |]|].
  - split; [done|]. intros x Hx. rewrite HI0, Z.add_0_r by done. symmetry. apply swrap_small; [lia|by apply (at_in 32 A B)].
  - intros i C1 Hi Hd [HC1 E1]. eapply owp_mono; [by apply (Hb i)|]. intros C2 [HC2 E2]. split; [done|]. intros x Hx.
    rewrite E2, E1 by done. rewrite swrap_add_l by lia. f_equal. rewrite HIS by done. lia.
  - intros C' (i & Hi & Hi2 & [k Hk] & HC' & E'). replace hi with i; [done|]. destruct Hi2 as [->|Hi2]; [lia|].
    assert (m * step <= k * step < (m + 1) * step) as [H1 H2] by lia. assert (m <= k) by nia. assert (k < m + 1) by nia. assert (k = m) as -> by lia. lia.
Qed.

Lemma adds_steps_down (I S : Z -> Z -> Z) (hi lo step : Z) (body : Z -> list Z -> outcome (list Z)) :
  0 < step -> 0 <= lo <= hi + 1 -> hi < 2 ^ 15 -> step <= 2 ^ 15 -> (step | hi + 1 - lo) -> (forall x, 0 <= x < 1024 -> I hi x = 0) ->
  (forall i x, lo <= i <= hi -> 0 <= x < 1024 -> I (i - step) x = I i x + S i x) ->
  (forall i, lo <= i <= hi -> (step | hi - i) -> adds (body i) (S i)) -> adds (for_downto hi lo step body) (I (lo - 1)).
Proof.
  intros Hst Hlo Hhi Hs Hm HI0 HIS Hb C HC.
  apply (for_downto_inv (fun i C' => ints C' /\ forall x, 0 <= x < 1024 -> at_ C' x = s32 (at_ C x + I i x))); [done|lia|lia|lia|done| |].
  - intros i C1 Hi Hd [HC1 E1]. eapply owp_mono; [by apply (Hb i)|]. intros C2 [HC2 E2]. split; [done|]. intros x Hx.
    rewrite E2, E1 by done. rewrite swrap_add_l by lia. f_equal. rewrite HIS by done. lia.
  - split; [done|]. intros x Hx. rewrite HI0, Z.add_0_r by done. symmetry. apply swrap_small; [lia|by apply (at_in 32 A B)].
Qed.

Lemma within_next (lo i w r : Z) (V : Z) (P : bool) : lo <= i -> 0 < w ->
  (if P && within lo (i + w - lo) r then V else 0) = (if P && within lo (i - lo) r then V else 0) + (if P && within i w r then V else 0).
Proof.
  intros Hi Hw. destruct P; cbn [andb]; [|done]. destruct (within lo (i + w - lo) r) eqn:E1, (within lo (i - lo) r) eqn:E2, (within i w r) eqn:E3;
    rewrite ?within_true, <-?not_true_iff_false, ?within_true in *; lia.
Qed.

Lemma within_empty (lo r : Z) : within lo 0 r = false.
Proof. unfold within. apply andb_false_iff. rewrite Z.leb_gt, Z.ltb_ge. lia. Qed.

(** Loops over groups of rows or columns ([sel]), and over terms. *)
Lemma upd_for (sel : Z -> Z) (P : Z -> bool) (lo hi : Z) (from to_ w : Z) (body : Z -> list Z -> outcome (list Z)) :
  0 < w -> 0 <= from <= to_ -> to_ + w <= 2 ^ 31 -> (w | to_ - from) ->
  (forall i, from <= i < to_ -> (w | i - from) -> upd (fun x => P x && within i w (sel x)) lo hi (body i)) ->
  upd (fun x => P x && within from (to_ - from) (sel x)) lo hi (for_int from to_ w body).
Proof.
  intros Hw Hf Ht Hd Hb. apply (adds_steps (fun i x => if P x && within from (i - from) (sel x) then seg lo hi x else 0)
    (fun i x => if P x && within i w (sel x) then seg lo hi x else 0)); [done|done|done|done| | |done].
  - intros x Hx. by rewrite Z.sub_diag, within_empty, andb_false_r.
  - intros i x Hi Hx. apply within_next; lia.
Qed.

Lemma upd_down (sel : Z -> Z) (P : Z -> bool) (lo hi : Z) (from to_ w : Z) (body : Z -> list Z -> outcome (list Z)) :
  0 < w <= 2 ^ 15 -> 0 <= to_ <= from + 1 -> from < 2 ^ 15 -> (w | from + 1 - to_) ->
  (forall i, to_ <= i <= from -> (w | from - i) -> upd (fun x => P x && within (i - w + 1) w (sel x)) lo hi (body i)) ->
  upd (fun x => P x && within to_ (from + 1 - to_) (sel x)) lo hi (for_downto from to_ w body).
Proof.
  intros Hw Hf Ht Hd Hb.
  eapply adds_ext; [|apply (adds_steps_down (fun i x => if P x && within (i + 1) (from - i) (sel x) then seg lo hi x else 0)
    (fun i x => if P x && within (i - w + 1) w (sel x) then seg lo hi x else 0)); [lia|lia|lia|lia|done| | |done]].
  - intros x Hx. cbv beta. by replace (to_ - 1 + 1) with to_ by lia; replace (from - (to_ - 1)) with (from + 1 - to_) by lia.
  - intros x Hx. by rewrite Z.sub_diag, within_empty, andb_false_r.
  - intros i x Hi Hx. destruct (P x); cbn [andb]; [|done].
    destruct (within (i - w + 1) (from - (i - w)) (sel x)) eqn:E1, (within (i + 1) (from - i) (sel x)) eqn:E2, (within (i - w + 1) w (sel x)) eqn:E3;
      rewrite ?within_true, <-?not_true_iff_false, ?within_true in *; lia.
Qed.

Lemma upd_for_terms (P : Z -> bool) (lo hi w : Z) (body : Z -> list Z -> outcome (list Z)) :
  0 < w -> 0 <= lo <= hi -> hi + w <= 2 ^ 31 -> (w | hi - lo) ->
  (forall k, lo <= k < hi -> (w | k - lo) -> upd P k (k + w) (body k)) -> upd P lo hi (for_int lo hi w body).
Proof.
  intros Hw Hf Ht Hd Hb. apply (adds_steps (fun i x => if P x then seg lo i x else 0) (fun i x => if P x then seg i (i + w) x else 0)); [done|done|done|done| | |done].
  - intros x Hx. unfold seg. destruct (P x); lia.
  - intros i x Hi Hx. unfold seg. destruct (P x); lia.
Qed.

(** ** Groups of registers *)

(** The offsets of the elements of a group cover [u] rows and [w] columns. *)
Definition rect (u w : Z) (os : list (Z * Z)) : bool :=
  bool_decide (NoDup os) && forallb (fun '(a, b) => (0 <=? a) && (a <? u) && (0 <=? b) && (b <? w)) os &&
  forallb (fun a => forallb (fun b => bool_decide ((a, b) ∈ os)) (seqZ 0 w)) (seqZ 0 u).

Lemma rect_spec (u w : Z) (os : list (Z * Z)) : rect u w os = true ->
  NoDup os /\ forall a b, (a, b) ∈ os <-> 0 <= a < u /\ 0 <= b < w.
Proof.
  unfold rect. rewrite !andb_true_iff, bool_decide_eq_true, !forallb_forall. intros [[Hnd Hin] Hall]. split; [done|]. intros a b. split.
  - intros Hab. specialize (Hin (a, b)). rewrite <-list_elem_of_In in Hin. specialize (Hin Hab). cbv beta iota in Hin.
    rewrite !andb_true_iff, !Z.leb_le, !Z.ltb_lt in Hin. lia.
  - intros [Ha Hb]. specialize (Hall a). rewrite <-list_elem_of_In, elem_of_seqZ in Hall. specialize (Hall ltac:(lia)).
    rewrite forallb_forall in Hall. specialize (Hall b). rewrite <-list_elem_of_In, elem_of_seqZ in Hall. specialize (Hall ltac:(lia)).
    by rewrite bool_decide_eq_true in Hall.
Qed.

Section Group.
Context (u w j i : Z) (os : list (Z * Z)).
Hypothesis Hos : rect u w os = true.
Hypothesis Hj : 0 <= j /\ j + u <= 32.
Hypothesis Hi : 0 <= i /\ i + w <= 32.

Definition pos (o : Z * Z) : Z := i + o.2 + (j + o.1) * 32.
Definition inside (x : Z) : bool := within j u (row x) && within i w (col x).
Definition offset (x : Z) : Z * Z := (row x - j, col x - i).

Lemma group_range (o : Z * Z) : o ∈ os -> 0 <= j + o.1 < 32 /\ 0 <= i + o.2 < 32.
Proof. destruct o as [a b]. intros Ho. apply (rect_spec u w os Hos) in Ho. simpl. lia. Qed.

Lemma pos_range (o : Z * Z) : o ∈ os -> 0 <= pos o < 1024.
Proof. intros Ho. pose proof (group_range o Ho). unfold pos. lia. Qed.

Lemma pos_eq (o : Z * Z) (x : Z) : o ∈ os -> 0 <= x < 1024 -> x = pos o <-> offset x = o.
Proof.
  intros Ho Hx. pose proof (group_range o Ho) as Hr. destruct o as [a b]. cbn [fst snd] in Hr. unfold pos, offset, MatmulSpec.row, MatmulSpec.col. cbn [fst snd].
  pose proof (Z.div_mod x 32 ltac:(lia)). pose proof (Z.mod_pos_bound x 32 ltac:(lia)). split.
  - intros E. assert (x / 32 = j + a) as -> by lia. assert (x mod 32 = i + b) as -> by lia. f_equal; lia.
  - intros E. injection E. lia.
Qed.

Lemma inside_offset (x : Z) : 0 <= x < 1024 -> inside x = true <-> offset x ∈ os.
Proof.
  intros Hx. unfold inside, offset. rewrite andb_true_iff, !within_true, (proj2 (rect_spec u w os Hos)). lia.
Qed.

Lemma loads_group (C : list Z) (l : list (Z * Z)) : l ⊆ os -> ints C -> loads C (pos <$> l) = Ok ((fun o => at_ C (pos o)) <$> l).
Proof.
  intros Hl [HC _]. induction l as [|o l IH]; [done|]. cbn [fmap list_fmap loads].
  rewrite (aget_at C (pos o)) by (pose proof (pos_range o ltac:(set_solver)); lia). cbn [mbind outcome_bind].
  change (list_fmap _ _ pos l) with (pos <$> l). rewrite IH by set_solver. done.
Qed.

Lemma stores_group (g : Z * Z -> Z) (C : list Z) (l : list (Z * Z)) : l ⊆ os -> NoDup l -> (forall o, in_s 32 (g o)) -> ints C ->
  owp (stores (pos <$> l) (g <$> l) C) (fun C' => ints C' /\
    forall x, 0 <= x < 1024 -> at_ C' x = if decide (offset x ∈ l) then g (offset x) else at_ C x).
Proof.
  intros Hl Hnd Hg. revert C. induction l as [|o l IH]; intros C HC.
  - red. split; [done|]. intros x Hx. by rewrite decide_False by set_solver.
  - apply NoDup_cons in Hnd as [Hn Hnd]. cbn [fmap list_fmap stores]. apply owp_bind.
    eapply owp_mono; [apply (aset_at 32 A B size32); [done|apply pos_range; set_solver|done]|]. intros C1 [HC1 E1].
    eapply owp_mono; [apply IH; [set_solver|done|done]|]. intros C2 [HC2 E2]. split; [done|]. intros x Hx. rewrite E2, E1 by done.
    pose proof (pos_eq o x ltac:(set_solver) Hx) as Hpo. destruct (decide (offset x ∈ l)) as [Hin|Hin].
    + by rewrite decide_True by set_solver.
    + destruct (Z.eqb_spec x (pos o)) as [Ex|Ex].
      * apply Hpo in Ex. rewrite decide_True by (rewrite Ex; set_solver). by rewrite Ex.
      * rewrite decide_False; [done|]. intros [Ho|Ho]%elem_of_cons; [|done]. by apply Ex, Hpo.
Qed.

Lemma incs_group (g : Z * Z -> Z) (C : list Z) (l : list (Z * Z)) : l ⊆ os -> NoDup l -> ints C ->
  owp (incs (pos <$> l) (g <$> l) C) (fun C' => ints C' /\
    forall x, 0 <= x < 1024 -> at_ C' x = if decide (offset x ∈ l) then s32 (at_ C x + g (offset x)) else at_ C x).
Proof.
  intros Hl Hnd. revert C. induction l as [|o l IH]; intros C HC.
  - red. split; [done|]. intros x Hx. by rewrite decide_False by set_solver.
  - apply NoDup_cons in Hnd as [Hn Hnd]. cbn [fmap list_fmap incs]. apply owp_bind.
    eapply owp_mono; [apply (adds_incr 32 A B size32); [apply pos_range; set_solver|done]|]. intros C1 [HC1 E1].
    eapply owp_mono; [apply IH; [set_solver|done|done]|]. intros C2 [HC2 E2]. split; [done|]. intros x Hx. rewrite E2, E1 by done.
    pose proof (pos_eq o x ltac:(set_solver) Hx) as Hpo. destruct (decide (offset x ∈ l)) as [Hin|Hin].
    + rewrite decide_True by set_solver. destruct (Z.eqb_spec x (pos o)) as [Ex|Ex]; [apply Hpo in Ex; rewrite Ex in Hin; done|].
      rewrite Z.add_0_r. f_equal. f_equal. apply swrap_small; [lia|by apply (at_in 32 A B)].
    + destruct (Z.eqb_spec x (pos o)) as [Ex|Ex].
      * apply Hpo in Ex. rewrite decide_True by (rewrite Ex; set_solver). by rewrite Ex.
      * rewrite decide_False; [|intros [Ho|Ho]%elem_of_cons; [by apply Ex, Hpo|done]]. rewrite Z.add_0_r. apply swrap_small; [lia|by apply (at_in 32 A B)].
Qed.

(** What the terms from [lo] to [hi] add to an element of the group. *)
Definition oseg (lo hi : Z) (o : Z * Z) : Z := cell hi (j + o.1) (i + o.2) - cell lo (j + o.1) (i + o.2).

Lemma oseg_offset (lo hi x : Z) : oseg lo hi (offset x) = seg lo hi x.
Proof. unfold oseg, seg, offset. cbn [fst snd]. by replace (j + (row x - j)) with (row x) by lia; replace (i + (col x - i)) with (col x) by lia. Qed.

(** Code on the registers that adds the terms from [lo] to [hi]. *)
Definition acc (lo hi : Z) (f : list Z -> outcome (list Z)) : Prop :=
  forall g : Z * Z -> Z, f ((fun o => s32 (g o)) <$> os) = Ok ((fun o => s32 (g o + oseg lo hi o)) <$> os).

Lemma acc_seq (lo mid hi : Z) (f1 f2 : list Z -> outcome (list Z)) : acc lo mid f1 -> acc mid hi f2 -> acc lo hi (fun r => f1 r ≫= f2).
Proof.
  intros H1 H2 g. rewrite H1. cbn [mbind outcome_bind]. rewrite (H2 (fun o => g o + oseg lo mid o)). f_equal.
  apply list_fmap_ext. intros k o _. f_equal. unfold oseg. lia.
Qed.

Lemma acc_refl (lo : Z) (g : Z * Z -> Z) : (fun o => s32 (g o)) <$> os = (fun o => s32 (g o + oseg lo lo o)) <$> os.
Proof. apply list_fmap_ext. intros k o _. unfold oseg. f_equal. lia. Qed.

Lemma acc_for (lo hi step : Z) (body : Z -> list Z -> outcome (list Z)) :
  0 < step -> 0 <= lo <= hi -> hi + step <= 2 ^ 31 -> (step | hi - lo) ->
  (forall k, lo <= k < hi -> (step | k - lo) -> acc k (k + step) (body k)) -> acc lo hi (fun r => for_int lo hi step body r).
Proof.
  intros Hst Hlo Hhi [m Hm] Hb g. apply owp_eq.
  eapply owp_mono; [apply (for_int_inv (fun k r => r = (fun o => s32 (g o + oseg lo k o)) <$> os)); [done|lia|lia|apply acc_refl|]|].
  - intros k r Hk Hd ->. rewrite (Hb k Hk Hd (fun o => g o + oseg lo k o)). red. apply list_fmap_ext. intros n o _. f_equal. unfold oseg. lia.
  - intros r (k & Hk & Hk2 & [t Ht] & ->). replace hi with k; [done|]. destruct Hk2 as [->|Hk2]; [lia|].
    assert (m * step <= t * step < (m + 1) * step) as [H1 H2] by lia. assert (m <= t) by nia. assert (t < m + 1) by nia. assert (t = m) as -> by lia. lia.
Qed.

(** Unrolled by a loop of its own. *)
Lemma acc_for_off (lo n : Z) (body : Z -> list Z -> outcome (list Z)) :
  0 <= n <= 2 ^ 15 -> (forall x, 0 <= x < n -> acc (lo + x) (lo + x + 1) (body x)) -> acc lo (lo + n) (fun r => for_int 0 n 1 body r).
Proof.
  intros Hn Hb g. apply owp_eq. eapply owp_mono; [apply (for_exact (fun k r => r = (fun o => s32 (g o + oseg lo (lo + k) o)) <$> os)); [lia|lia| |]|].
  - rewrite Z.add_0_r. apply acc_refl.
  - intros k r Hk ->. rewrite (Hb k Hk (fun o => g o + oseg lo (lo + k) o)). red. rewrite Z.add_assoc. apply list_fmap_ext. intros m o _. f_equal. unfold oseg. lia.
  - done.
Qed.

Lemma acc_down (from to_ step : Z) (body : Z -> list Z -> outcome (list Z)) :
  0 < step <= 2 ^ 15 -> 0 <= to_ <= from + 1 -> from < 2 ^ 15 -> (step | from + 1 - to_) ->
  (forall k, to_ <= k <= from -> (step | from - k) -> acc (k - step + 1) (k + 1) (body k)) -> acc to_ (from + 1) (fun r => for_downto from to_ step body r).
Proof.
  intros Hst Hf Ht Hd Hb g. apply owp_eq.
  eapply owp_mono; [apply (for_downto_inv (fun k r => r = (fun o => s32 (g o + oseg (k + 1) (from + 1) o)) <$> os)); [lia|lia|lia|lia|done| |apply acc_refl]|].
  - intros k r Hk Hdk ->. rewrite (Hb k Hk Hdk (fun o => g o + oseg (k + 1) (from + 1) o)). red. apply list_fmap_ext. intros m o _. f_equal. unfold oseg.
    replace (k - step + 1) with (k - step + 1) by lia. lia.
  - intros r ->. by replace (to_ - 1 + 1) with to_ by lia.
Qed.

Lemma acc_terms (X Y : list Z) (h : Z * Z -> list (Z * Z)) (lo hi : Z) :
  (forall o, o ∈ os -> products X Y 0 (h o) = Ok (s32 (oseg lo hi o))) -> acc lo hi (terms X Y (h <$> os)).
Proof.
  intros Hv g. rewrite (terms_group X Y h _ _ os Hv). f_equal. apply list_fmap_ext. intros k o _. by rewrite swrap_add_l, swrap_add_r by lia.
Qed.

(** Loaded, updated and stored; from zero and stored; from zero and added. *)
Lemma tile_adds (ps : list Z) (lo hi : Z) (f : list Z -> outcome (list Z)) : ps = pos <$> os -> acc lo hi f ->
  upd inside lo hi (fun C => r ← loads C ps; r ← f r; stores ps r C).
Proof.
  intros -> Hf C HC. rewrite loads_group by done. cbn [mbind outcome_bind].
  assert ((fun o => at_ C (pos o)) <$> os = (fun o => s32 (at_ C (pos o))) <$> os) as ->.
  { apply list_fmap_ext. intros k o Ho. symmetry. apply swrap_small; [lia|]. apply (at_in 32 A B); [done|]. apply pos_range.
    by eapply list_elem_of_lookup_2. }
  rewrite (Hf (fun o => at_ C (pos o))). cbn [mbind outcome_bind].
  eapply owp_mono; [apply stores_group; [done|apply (rect_spec u w os Hos)|intros o; apply swrap_range; lia|done]|].
  intros C' [HC' E']. split; [done|]. intros x Hx. rewrite E' by done. pose proof (inside_offset x Hx) as Hin.
  destruct (decide (offset x ∈ os)) as [Ho|Ho].
  - rewrite (proj2 Hin Ho), oseg_offset. by rewrite <-(proj2 (pos_eq (offset x) x Ho Hx) eq_refl).
  - destruct (inside x); [by destruct Ho; apply Hin|]. rewrite Z.add_0_r. symmetry. apply swrap_small; [lia|by apply (at_in 32 A B)].
Qed.

Lemma zeros (n : nat) : n = length os -> replicate n 0 = (fun o => s32 ((fun _ => 0) o)) <$> os.
Proof. intros ->. clear. induction os as [|o l IH]; [done|]. cbn [length replicate fmap list_fmap]. f_equal. exact IH. Qed.

Lemma tile_puts (n : nat) (ps : list Z) (f : list Z -> outcome (list Z)) : ps = pos <$> os -> n = length os -> acc 0 32 f ->
  puts inside (fun C => r ← f (replicate n 0); stores ps r C).
Proof.
  intros -> Hn Hf C HC. rewrite (zeros n Hn), (Hf (fun _ => 0)). cbn [mbind outcome_bind].
  eapply owp_mono; [apply stores_group; [done|apply (rect_spec u w os Hos)|intros o; apply swrap_range; lia|done]|].
  intros C' [HC' E']. split; [done|]. intros x Hx. rewrite E' by done. pose proof (inside_offset x Hx) as Hin.
  destruct (decide (offset x ∈ os)) as [Ho|Ho].
  - by rewrite (proj2 Hin Ho), oseg_offset, total_seg.
  - destruct (inside x); [by destruct Ho; apply Hin|done].
Qed.

Lemma tile_incs (n : nat) (ps : list Z) (lo hi : Z) (f : list Z -> outcome (list Z)) : ps = pos <$> os -> n = length os -> acc lo hi f ->
  upd inside lo hi (fun C => r ← f (replicate n 0); incs ps r C).
Proof.
  intros -> Hn Hf C HC. rewrite (zeros n Hn), (Hf (fun _ => 0)). cbn [mbind outcome_bind].
  eapply owp_mono; [apply incs_group; [done|apply (rect_spec u w os Hos)|done]|].
  intros C' [HC' E']. split; [done|]. intros x Hx. rewrite E' by done. pose proof (inside_offset x Hx) as Hin.
  destruct (decide (offset x ∈ os)) as [Ho|Ho].
  - rewrite (proj2 Hin Ho), oseg_offset. by rewrite swrap_add_r by lia.
  - destruct (inside x); [by destruct Ho; apply Hin|]. rewrite Z.add_0_r. symmetry. apply swrap_small; [lia|by apply (at_in 32 A B)].
Qed.
End Group.

(** ** Terms *)

(** [X[p] * Y[q]] is term [k] of row [j] and column [i]. *)
Definition term_of (X Y : list Z) (j i k : Z) (pq : Z * Z) : Prop :=
  0 <= k /\ 0 <= pq.1 < Z.of_nat (length X) /\ 0 <= pq.2 < Z.of_nat (length Y) /\
  at_ X pq.1 = at_ A (j * 32 + k) /\ at_ Y pq.2 = at_ B (k * 32 + i).

Lemma term_at (j i k p q : Z) : p = j * 32 + k -> q = k * 32 + i -> 0 <= j < 32 -> 0 <= i < 32 -> 0 <= k < 32 -> term_of A B j i k (p, q).
Proof. intros -> -> Hj Hi Hk. red. cbn [fst snd]. rewrite HA, HB. split_and!; done || lia. Qed.

Lemma products_step (X Y : list Z) (j i k z p q : Z) (l : list (Z * Z)) : term_of X Y j i k (p, q) ->
  products X Y (s32 z) ((p, q) :: l) = products X Y (s32 (z + (cell (k + 1) j i - cell k j i))) l.
Proof.
  intros (Hk & Hp & Hq & Ea & Eb). cbn [fst snd] in *. cbn [products]. rewrite (aget_at X p Hp), (aget_at Y q Hq). cbn [mbind outcome_bind].
  rewrite macr_wrap, Ea, Eb, cell_next by done. do 2 f_equal. lia.
Qed.

Lemma products_one (X Y : list Z) (j i k : Z) (pq : Z * Z) : term_of X Y j i k pq ->
  products X Y 0 [pq] = Ok (s32 (cell (k + 1) j i - cell k j i)).
Proof. intros Ht. destruct pq as [p q]. change 0 with (s32 0) at 1. by rewrite (products_step X Y j i k) by done. Qed.

Lemma products_up (X Y : list Z) (j i k z : Z) (n : nat) (f : Z -> Z * Z) (t : Z) :
  (forall s, t <= s < t + Z.of_nat n -> term_of X Y j i (k + s) (f s)) ->
  products X Y (s32 z) (f <$> seqZ t (Z.of_nat n)) = Ok (s32 (z + (cell (k + (t + Z.of_nat n)) j i - cell (k + t) j i))).
Proof.
  revert z t. induction n as [|n IH]; intros z t Hf.
  - rewrite seqZ_nil by lia. cbn [fmap list_fmap products]. do 2 f_equal. rewrite Z.add_0_r. lia.
  - rewrite seqZ_cons by lia. cbn [fmap list_fmap]. destruct (f t) as [p q] eqn:Ef.
    rewrite (products_step X Y j i (k + t)) by (rewrite <-Ef; apply Hf; lia).
    replace (Z.pred (Z.of_nat (S n))) with (Z.of_nat n) by lia. change (list_fmap _ _ f ?l) with (f <$> l). rewrite IH by (intros s Hs; apply Hf; lia).
    do 2 f_equal. replace (k + (Z.succ t + Z.of_nat n)) with (k + (t + Z.of_nat (S n))) by lia. replace (k + Z.succ t) with (k + t + 1) by lia. lia.
Qed.

(** One term of every element of a group. *)
Lemma acc_group (X Y : list Z) (u w j i k : Z) (os : list (Z * Z)) (pss : list (list (Z * Z))) (h : Z * Z -> Z * Z) :
  rect u w os = true -> pss = (fun o => [h o]) <$> os ->
  (forall a b, 0 <= a < u -> 0 <= b < w -> term_of X Y (j + a) (i + b) k (h (a, b))) -> acc j i os k (k + 1) (terms X Y pss).
Proof.
  intros Hos -> Ht. apply acc_terms. intros [a b] Ho. apply (rect_spec u w os Hos) in Ho as [Ha Hb].
  unfold oseg. cbn [fst snd]. apply products_one. by apply Ht.
Qed.

(** Consecutive elements of one row. *)
Definition row_os (w : Z) : list (Z * Z) := (fun s => (0, s)) <$> seqZ 0 w.

Lemma acc_row (X Y : list Z) (w j i k p q : Z) :
  (forall s, 0 <= s < w -> term_of X Y j (i + s) k (p, q + s)) -> acc j i (row_os w) k (k + 1) (row_terms X Y p q w).
Proof.
  intros Ht. unfold row_terms. replace ((fun q => [(p, q)]) <$> cols q w) with ((fun o : Z * Z => [(p, q + o.2)]) <$> row_os w).
  - apply acc_terms. intros [a s] Ho. unfold oseg. cbn [fst snd]. unfold row_os in Ho. apply list_elem_of_fmap in Ho as (s' & [= -> ->] & Hs).
    apply elem_of_seqZ in Hs. rewrite Z.add_0_r. apply products_one. apply Ht. lia.
  - unfold cols, row_os. rewrite <-!list_fmap_compose. done.
Qed.

Lemma pos_row (w j i p : Z) : p = i + j * 32 -> cols p w = pos j i <$> row_os w.
Proof. intros ->. unfold cols, row_os. rewrite <-list_fmap_compose. apply list_fmap_ext. intros k s _. unfold compose, pos. cbn [fst snd]. lia. Qed.

Lemma rc (x : Z) : 0 <= x < 1024 -> 0 <= row x < 32 /\ 0 <= col x < 32.
Proof. intros Hx. apply (row_col 32 A B size32 x Hx). Qed.

(** ** Rows and columns in parts *)

Lemma puts_sel (sel : Z -> Z) (P : Z -> bool) (from to_ w : Z) (body : Z -> list Z -> outcome (list Z)) :
  0 < w -> 0 <= from <= to_ -> to_ + w <= 2 ^ 31 -> (w | to_ - from) ->
  (forall i, from <= i < to_ -> (w | i - from) -> puts (fun x => P x && within i w (sel x)) (body i)) ->
  puts (fun x => P x && within from (to_ - from) (sel x)) (for_int from to_ w body).
Proof.
  intros Hw Hf Ht Hd Hb. apply (puts_for 32 A B _ _ _ (fun i x => P x && within i w (sel x))); [lia|lia|lia| |done].
  intros x Hx. destruct (P x); cbn [andb]; [|naive_solver]. rewrite within_true, <-(in_groups A B w from to_ (sel x) Hw Hd). lia.
Qed.

Lemma computes_none (P : Z -> bool) : (forall x, 0 <= x < 1024 -> P x = false) -> computes P (fun C => Ok C).
Proof. intros HP C HC _. red. split; [done|]. intros x Hx. by rewrite HP. Qed.

Lemma computes_join (P1 P2 P : Z -> bool) (m1 m2 : list Z -> outcome (list Z)) :
  (forall x, 0 <= x < 1024 -> P x = P1 x || P2 x) -> (forall x, 0 <= x < 1024 -> P1 x && P2 x = false) ->
  computes P1 m1 -> computes P2 m2 -> computes P (fun C => m1 C ≫= m2).
Proof.
  intros HP Hd H1 H2 C HC Hz. apply owp_bind. eapply owp_mono; [apply H1; [done|]|].
  { intros x Hx Hp. apply Hz; [done|]. by rewrite HP, Hp. }
  intros C1 [HC1 E1]. eapply owp_mono; [apply H2; [done|]|].
  { intros x Hx Hp. rewrite E1 by done. specialize (Hd x Hx). rewrite Hp, andb_true_r in Hd. rewrite Hd. apply Hz; [done|]. rewrite HP, Hp by done. apply orb_true_r. }
  intros C2 [HC2 E2]. split; [done|]. intros x Hx. rewrite E2, E1, HP by done. specialize (Hd x Hx).
  destruct (P1 x), (P2 x); cbn [andb orb] in *; [discriminate Hd|reflexivity..].
Qed.

Lemma computes_pure {V : Type} (o : outcome V) (v : V) (m : V -> list Z -> outcome (list Z)) (P : Z -> bool) :
  o = Ok v -> computes P (m v) -> computes P (fun C => v ← o; m v C).
Proof. intros ->. done. Qed.

(** Two parts, each done or left out. *)
Lemma parts (b1 b2 : bool) (P Q : Z -> bool) (m1 m2 : list Z -> outcome (list Z)) :
  computes P m1 -> computes (fun x => negb (P x)) m2 -> (forall x, 0 <= x < 1024 -> Q x = if P x then b1 else b2) ->
  computes Q (fun C => C ← (if b1 then m1 C else Ok C); if b2 then m2 C else Ok C).
Proof.
  intros H1 H2 HQ.
  apply (computes_join (fun x => b1 && P x) (fun x => b2 && negb (P x)) Q (fun C => if b1 then m1 C else Ok C) (fun C => if b2 then m2 C else Ok C)).
  - intros x Hx. rewrite HQ by done. by destruct b1, b2, (P x).
  - intros x Hx. by destruct b1, b2, (P x).
  - destruct b1; [done|]. by apply computes_none.
  - destruct b2; [done|]. by apply computes_none.
Qed.

(** The owner of a half; the halves, in the two orders. *)
Definition half (sel : Z -> Z) (x : Z) : Z := if sel x <? 16 then 0 else 1.
Definition half_owner (nc h : Z) : Z := if nc =? 1 then 0 else h.

Lemma half_two (sel : Z -> Z) (c nc x : Z) : 0 <= c < nc ->
  (half_owner nc (half sel x) =? c) = if sel x <? 16 then c =? 0 else (c =? 1) || (nc =? 1).
Proof.
  intros Hc. unfold half_owner, half. destruct (sel x <? 16), (Z.eqb_spec nc 1) as [Hn|Hn]; apply eq_bool_prop_intro;
    rewrite ?orb_false_r, ?orb_true_r, ?Is_true_true, ?Z.eqb_eq; intuition lia.
Qed.

Lemma two_cores_computes (sel : Z -> Z) (c nc : Z) (m1 m2 : list Z -> outcome (list Z)) : 0 <= c < nc ->
  computes (fun x => sel x <? 16) m1 -> computes (fun x => negb (sel x <? 16)) m2 ->
  computes (fun x => half_owner nc (half sel x) =? c) (two_cores c nc m1 m2).
Proof.
  intros Hc H1 H2. unfold two_cores. apply (parts _ _ (fun x => sel x <? 16)); [done|done|]. intros x Hx. by apply half_two.
Qed.

Lemma cores_two (sel : Z -> Z) (c nc : Z) (m1 m2 : list Z -> outcome (list Z)) : 0 <= c < nc ->
  computes (fun x => sel x <? 16) m1 -> computes (fun x => negb (sel x <? 16)) m2 ->
  computes (fun x => half_owner nc (half sel x) =? c)
    (fun C => C ← (if (c =? 1) || (nc =? 1) then m2 C else Ok C); if c =? 0 then m1 C else Ok C).
Proof.
  intros Hc H1 H2. apply (parts _ _ (fun x => negb (sel x <? 16))); [done| |].
  - eapply computes_ext; [|exact H1]. intros x. by rewrite negb_involutive.
  - intros x Hx. rewrite (half_two sel c nc x Hc). by destruct (sel x <? 16).
Qed.

(** Other cores return. *)
Lemma idle (P : Z -> bool) (c : Z) (m : list Z -> outcome (list Z)) :
  (1 < c -> forall x, 0 <= x < 1024 -> P x = false) -> (c <= 1 -> computes P m) -> computes P (fun C => if 1 <? c then Ok C else m C).
Proof. intros HP Hm. destruct (Z.ltb_spec 1 c); [by apply computes_none, HP|]. by apply Hm. Qed.

Lemma half_idle (sel : Z -> Z) (c nc : Z) : 1 < c -> forall x, 0 <= x < 1024 -> (half_owner nc (half sel x) =? c) = false.
Proof. intros Hc x Hx. apply Z.eqb_neq. unfold half_owner, half. destruct (nc =? 1), (sel x <? 16); lia. Qed.
(** Equal sets of elements; a register group; a term. *)
Ltac elements := let x := fresh "x" in let Hx := fresh "Hx" in intros x Hx; pose proof (rc x Hx);
  unfold inside; apply eq_bool_prop_intro;
  rewrite ?negb_True, ?orb_True, ?andb_True, ?orb_True, ?andb_True, ?Is_true_true, ?within_true, ?Z.ltb_lt; lia.
Ltac trm := cbn [fst snd]; apply term_at; lia.
Ltac same_list := lazymatch goal with
  | |- _ :: _ = _ :: _ => apply f_equal2; same_list
  | |- (_, _) = (_, _) => apply f_equal2; lia
  | |- [] = [] => reflexivity
  | |- _ => lia
  end.
Ltac lists := cbn [mbind list_bind app fmap list_fmap]; unfold pos; cbn [fst snd]; same_list.

(** ** Halves of the columns: al, cl, df and bf *)

Lemma row16_acc (off j : Z) : 0 <= off -> off + 16 <= 32 -> 0 <= j < 32 ->
  acc j off (row_os 16) 0 32 (fun temp => for_int 0 32 1 (fun k temp => row_terms A B (j * 32 + k) (off + k * 32) 16 temp) temp).
Proof.
  intros Ho Ho2 Hj. apply acc_for; [lia|lia|lia|apply Z.divide_1_l|]. intros k Hk _. apply acc_row. intros s Hs. trm.
Qed.

Lemma row16_upd (off j : Z) : 0 <= off -> off + 16 <= 32 -> 0 <= j < 32 ->
  upd (fun x => within off 16 (col x) && within j 1 (row x)) 0 32 (row16 32 A B off j).
Proof.
  intros Ho Ho2 Hj. eapply upd_ext; [|apply (tile_adds 1 16 j off (row_os 16)); [done|lia|lia|by apply pos_row|by apply row16_acc]]. elements.
Qed.

Lemma rows16_upd (off lo hi : Z) : 0 <= off -> off + 16 <= 32 -> 0 <= lo <= hi -> hi <= 32 ->
  upd (fun x => within off 16 (col x) && within lo (hi - lo) (row x)) 0 32 (for_int lo hi 1 (row16 32 A B off)).
Proof.
  intros Ho Ho2 Hlo Hhi. apply upd_for; [lia|lia|lia|apply Z.divide_1_l|]. intros j Hj _. apply row16_upd; lia.
Qed.

Lemma cols_left (m : list Z -> outcome (list Z)) : upd (fun x => within 0 16 (col x) && within 0 32 (row x)) 0 32 m -> computes (fun x => col x <? 16) m.
Proof. intros Hm. apply upd_computes. eapply upd_ext; [|exact Hm]. elements. Qed.
Lemma cols_right (m : list Z -> outcome (list Z)) : upd (fun x => within 16 16 (col x) && within 0 32 (row x)) 0 32 m -> computes (fun x => negb (col x <? 16)) m.
Proof. intros Hm. apply upd_computes. eapply upd_ext; [|exact Hm]. elements. Qed.

(** The rows of the second half first, or last. *)
Lemma rows_up (off : Z) : 0 <= off -> off + 16 <= 32 ->
  upd (fun x => within off 16 (col x) && within 0 32 (row x)) 0 32 (fun C => C ← for_int 0 16 1 (row16 32 A B off) C; for_int 16 32 1 (row16 32 A B off) C).
Proof. intros Ho Ho2. eapply upd_join; [| |apply rows16_upd; lia|apply rows16_upd; lia]; elements. Qed.

Lemma rows_down (off : Z) : 0 <= off -> off + 16 <= 32 ->
  upd (fun x => within off 16 (col x) && within 0 32 (row x)) 0 32 (fun C => C ← for_int 16 32 1 (row16 32 A B off) C; for_int 0 16 1 (row16 32 A B off) C).
Proof. intros Ho Ho2. eapply upd_join; [| |apply rows16_upd; lia|apply rows16_upd; lia]; elements. Qed.

Section Core.
Context (c nc : Z) (Hc : 0 <= c < nc).

Lemma al_computes : computes (fun x => half_owner nc (half col x) =? c) (al_matmul c nc 32 A B).
Proof.
  apply idle; [apply half_idle|]. intros _. apply two_cores_computes; [done|apply cols_left|apply cols_right]; apply rows16_upd; lia.
Qed.

Lemma cl_computes : computes (fun x => half_owner nc (half col x) =? c) (cl_matmul c nc 32 A B).
Proof.
  apply idle; [apply half_idle|]. intros _. apply two_cores_computes; [done|apply cols_left, rows16_upd; lia|apply cols_right, rows_down; lia].
Qed.

Lemma df_computes : computes (fun x => half_owner nc (half col x) =? c) (df_matmul c nc 32 A B).
Proof. unfold df_matmul. apply two_cores_computes; [done|apply cols_left, rows_up; lia|apply cols_right, rows_down; lia]. Qed.

Lemma bf_puts (off : Z) : 0 <= off -> off + 16 <= 32 ->
  puts (fun x => within off 16 (col x) && within 0 32 (row x)) (for_int 0 32 1 (bf_row16 32 A B off)).
Proof.
  intros Ho Ho2. apply (puts_sel row); [lia|lia|lia|apply Z.divide_1_l|]. intros j Hj _.
  eapply puts_ext; [|apply (tile_puts 1 16 j off (row_os 16)); [done|lia|lia|by apply pos_row|done|apply row16_acc; lia]]. elements.
Qed.

Lemma bf_computes : computes (fun x => half_owner nc (half col x) =? c) (bf_matmul c nc 32 A B).
Proof.
  apply two_cores_computes; [done| |]; apply puts_computes.
  - eapply puts_ext; [|apply (bf_puts 0); lia]. elements.
  - eapply puts_ext; [|apply (bf_puts 16); lia]. elements.
Qed.

(** *** bk and dv: halves of the rows *)

Lemma upd_rows (lo hi : Z) (from to_ w : Z) (body : Z -> list Z -> outcome (list Z)) :
  0 < w -> 0 <= from <= to_ -> to_ + w <= 2 ^ 31 -> (w | to_ - from) ->
  (forall j, from <= j < to_ -> (w | j - from) -> upd (fun x => within j w (row x)) lo hi (body j)) ->
  upd (fun x => within from (to_ - from) (row x)) lo hi (for_int from to_ w body).
Proof. intros Hw Hf Ht Hd Hb. apply (upd_for row (fun _ => true)); done. Qed.

Lemma upd_cols (P : Z -> bool) (lo hi w : Z) (body : Z -> list Z -> outcome (list Z)) :
  0 < w <= 32 -> (w | 32) -> (forall i, 0 <= i -> i + w <= 32 -> upd (fun x => P x && within i w (col x)) lo hi (body i)) ->
  upd P lo hi (for_int 0 32 w body).
Proof.
  intros Hw Hd Hb. eapply upd_ext; [|apply (upd_for col P); [lia|lia|lia|done|]].
  - intros x Hx. pose proof (rc x Hx). cbv beta. rewrite (proj2 (within_true _ _ _)); [apply andb_true_r|lia].
  - intros i Hi [k Hk]. destruct Hd as [m Hm]. apply Hb; [lia|]. assert (k < m) by nia. nia.
Qed.

Lemma bk_upd (jlo jhi : Z) : 0 <= jlo <= jhi -> jhi <= 32 -> upd (fun x => within jlo (jhi - jlo) (row x)) 0 32 (bk_half A B jlo jhi).
Proof.
  intros Hj Hj2. apply (upd_for_terms _ 0 32 16); [lia|lia|lia|by exists 2|]. intros kk Hkk [t Et]. rewrite (Z.min_l (kk + 16) 32) by lia.
  apply upd_rows; [lia|lia|lia|apply Z.divide_1_l|]. intros j Hjr _. apply upd_cols; [lia|by exists 4|]. intros i Hi Hi2.
  eapply upd_ext; [|apply (tile_adds 1 8 j i (row_os 8)); [done|lia|lia|by apply pos_row|]]; [elements|].
  apply acc_for; [lia|lia|lia|apply Z.divide_1_l|]. intros k Hk _. apply acc_row. intros s Hs. trm.
Qed.

Lemma rows_top (m : list Z -> outcome (list Z)) : upd (fun x => within 0 16 (row x)) 0 32 m -> computes (fun x => row x <? 16) m.
Proof. intros Hm. apply upd_computes. eapply upd_ext; [|exact Hm]. elements. Qed.
Lemma rows_bottom (m : list Z -> outcome (list Z)) : upd (fun x => within 16 16 (row x)) 0 32 m -> computes (fun x => negb (row x <? 16)) m.
Proof. intros Hm. apply upd_computes. eapply upd_ext; [|exact Hm]. elements. Qed.

Lemma bk_computes : computes (fun x => half_owner nc (half row x) =? c) (bk_matmul c nc A B).
Proof.
  apply idle; [apply half_idle|]. intros _. apply two_cores_computes; [done|apply rows_top, (bk_upd 0 16); lia|apply rows_bottom, (bk_upd 16 32); lia].
Qed.

Lemma dv_computes : computes (fun x => half_owner nc (1 - half row x) =? c) (dv_matmul c nc A B).
Proof.
  apply idle.
  - intros H1 x Hx. apply Z.eqb_neq. unfold half_owner, half. destruct (nc =? 1), (row x <? 16); lia.
  - intros H1. apply (parts _ _ (fun x => row x <? 16)); [apply rows_top, (bk_upd 0 16); lia|apply rows_bottom, (bk_upd 16 32); lia|].
    intros x Hx. unfold half_owner, half. destruct (row x <? 16), (Z.eqb_spec nc 1) as [Hn|Hn]; apply eq_bool_prop_intro;
      rewrite ?orb_false_r, ?orb_true_r, ?negb_True, ?Is_true_true, ?Z.eqb_eq; intuition lia.
Qed.

(** *** ak and ck: blocks of sixteen rows, dealt to the cores *)

Lemma upd_cyclic (body : Z -> list Z -> outcome (list Z)) : nc <= 2 ^ 15 ->
  (forall jj, 0 <= jj -> jj + 16 <= 32 -> c <= 1 -> upd (fun x => within jj 16 (row x)) 0 32 (body jj)) ->
  upd (fun x => (row x / 16) mod nc =? c) 0 32 (for_int (16 * c) 32 (16 * nc) body).
Proof.
  intros Hnc Hb. set (m := if 2 <=? c then 0 else if nc =? 1 then 2 else 1).
  assert ((2 <= c /\ m = 0) \/ (c = 0 /\ nc = 1 /\ m = 2) \/ (c <= 1 /\ 2 <= nc /\ m = 1)) as Hm.
  { unfold m. destruct (Z.leb_spec 2 c); [lia|]. destruct (Z.eqb_spec nc 1); lia. }
  eapply adds_ext; [|apply (adds_for 32 A B (16 * c) 32 (16 * nc) m body (fun jj x => if within jj 16 (row x) then seg 0 32 x else 0)); [lia|lia|lia|lia|lia|]].
  - intros x Hx. pose proof (rc x Hx) as [Hr _]. cbv beta.
    assert (exists h, row x / 16 = h /\ 16 * h <= row x < 16 * h + 16 /\ 0 <= h <= 1) as (h & -> & Hrh & Hh).
    { exists (row x / 16). pose proof (Z.div_mod (row x) 16 ltac:(lia)). pose proof (Z.mod_pos_bound (row x) 16 ltac:(lia)). lia. }
    destruct Hm as [[H2 ->]|[(-> & -> & ->)|(H1 & H2 & ->)]];
      [change (Z.to_nat 0) with 0%nat|change (Z.to_nat 2) with 2%nat|change (Z.to_nat 1) with 1%nat]; cbn [dot].
    + rewrite Z.mod_small by lia. by rewrite (proj2 (Z.eqb_neq _ _)) by lia.
    + rewrite Z.mod_1_r. cbn [Z.eqb]. change (Z.of_nat 0) with 0. change (Z.of_nat 1) with 1.
      destruct (within (16 * 0 + 0 * (16 * 1)) 16 (row x)) eqn:E1, (within (16 * 0 + 1 * (16 * 1)) 16 (row x)) eqn:E2;
        rewrite ?within_true, <-?not_true_iff_false, ?within_true in *; lia.
    + rewrite Z.mod_small by lia. change (Z.of_nat 0) with 0. destruct (within _ _ _) eqn:E1, (Z.eqb_spec h c); rewrite ?within_true, <-?not_true_iff_false, ?within_true in *; lia.
  - intros jj Hjj [t Et]. apply Hb; [lia| |lia]. nia.
Qed.

Lemma ak_computes : nc <= 2 ^ 15 -> computes (fun x => (row x / 16) mod nc =? c) (ak_matmul c nc 32 A B).
Proof.
  intros Hnc. apply upd_computes, upd_cyclic; [done|]. intros jj Hjj Hjj2 _. apply upd_cols; [lia|by exists 2|]. intros ii Hii Hii2.
  rewrite (Z.min_r 32 (jj + 16)), (Z.min_r 32 (ii + 16)) by lia.
  eapply upd_ext; [|apply (upd_for row (fun x => within ii 16 (col x)) 0 32 jj (jj + 16) 1); [lia|lia|lia|apply Z.divide_1_l|]]; [elements|].
  intros j Hj _. eapply upd_ext; [|apply (upd_for col (fun x => within j 1 (row x)) 0 32 ii (ii + 16) 8); [lia|lia|lia|exists 2; lia|]]; [elements|].
  intros i Hi [t Et]. eapply upd_ext; [|apply (tile_adds 1 8 j i (row_os 8)); [done|lia|lia|by apply pos_row|]]; [elements|].
  apply acc_for; [lia|lia|lia|by exists 8|]. intros k Hk [k' Ek]. apply acc_for_off; [lia|]. intros y Hy. apply acc_row. intros s Hs. trm.
Qed.

(** Two blocks of columns, the core's own first. *)
Lemma ring_two (fuel : nat) (a b : Z) (body : Z -> list Z -> outcome (list Z)) (C : list Z) :
  Z.rem (16 + a) 32 = b -> Z.rem (16 + b) 32 = a -> b <> a ->
  ring 32 (S (S (S fuel))) a a true body C = (C ← body a C; body b C).
Proof.
  intros Ha Hb Hab. cbn [ring]. rewrite orb_true_r. destruct (body a C) as [C1| |]; [|done|done]. cbn [mbind outcome_bind].
  change (32 =? 0) with false. cbv iota. rewrite Ha, Hb, Z.eqb_refl, (proj2 (Z.eqb_neq b a)) by done. cbn [negb orb]. by destruct (body b C1).
Qed.

Lemma ring_upd (P : Z -> bool) (body : Z -> list Z -> outcome (list Z)) : c <= 1 ->
  (forall ii, 0 <= ii -> ii + 16 <= 32 -> upd (fun x => P x && within ii 16 (col x)) 0 32 (body ii)) ->
  upd P 0 32 (ring 32 (Z.to_nat 32) (16 * c) (16 * c) true body).
Proof.
  intros H1 Hb. change (Z.to_nat 32) with (S (S (S 29))).
  assert (upd P 0 32 (fun C => body (16 * c) C ≫= body (16 - 16 * c))) as H2.
  { eapply upd_join; [| |apply (Hb (16 * c)); lia|apply (Hb (16 - 16 * c)); lia].
    - intros x Hx. pose proof (rc x Hx). cbv beta. destruct (P x); [|done]. symmetry. cbn [andb].
      apply orb_true_iff. rewrite !within_true. lia.
    - intros x Hx. cbv beta. destruct (P x); [|done]. cbn [andb]. apply not_true_iff_false. rewrite andb_true_iff, !within_true. lia. }
  intros C HC. rewrite (ring_two _ (16 * c) (16 - 16 * c)); [by apply H2|..]; assert (c = 0 \/ c = 1) as [->| ->] by lia; done.
Qed.

Definition ck_os : list (Z * Z) := a ← [0; 1; 2; 3]; b ← [0; 1]; [(a, b)].

Lemma ck_computes : nc <= 2 ^ 15 -> computes (fun x => (row x / 16) mod nc =? c) (ck_matmul c nc 32 A B).
Proof.
  intros Hnc. apply upd_computes, upd_cyclic; [done|]. intros jj Hjj Hjj2 Hcjj. apply ring_upd; [lia|]. intros ii Hii Hii2.
  rewrite (Z.min_r 32 (jj + 16)), (Z.min_r 32 (ii + 16)) by lia.
  eapply upd_ext; [|apply (upd_for row (fun x => within ii 16 (col x)) 0 32 jj (jj + 16) 4); [lia|lia|lia|exists 4; lia|]]; [elements|].
  intros j Hj [u Eu]. eapply upd_ext; [|apply (upd_for col (fun x => within j 4 (row x)) 0 32 ii (ii + 16) 2); [lia|lia|lia|exists 8; lia|]]; [elements|].
  intros i Hi [t Et]. eapply upd_ext; [|apply (tile_adds 4 2 j i ck_os); [done|lia|lia|unfold ck_cells, ck_os; lists|]]; [elements|].
  apply acc_for; [lia|lia|lia|by exists 4|]. intros k Hk [k' Ek]. apply acc_for_off; [lia|]. intros y Hy.
  apply (acc_group A B 4 2 _ _ _ _ _ (fun o => ((j + o.1) * 32 + (k + y), (k + y) * 32 + i + o.2))); [done|unfold ck_terms, ck_os; lists|].
  intros a b Ha Hb. trm.
Qed.
(** *** bm and ag: shares of the rows *)

Definition bm_os : list (Z * Z) := a ← [0; 1; 2; 3]; b ← [0; 1; 2; 3]; [(a, b)].

Lemma bm_upd (lo hi : Z) : 0 <= lo <= hi -> hi <= 32 -> (4 | hi - lo) -> upd (fun x => within lo (hi - lo) (row x)) 0 32 (bm_rows 32 A B lo hi).
Proof.
  intros Hlo Hhi Hd. apply upd_rows; [lia|lia|lia|done|]. intros i Hi [u Eu]. destruct Hd as [v Ev]. apply upd_cols; [lia|by exists 8|]. intros j Hj Hj2.
  eapply upd_ext; [|apply (tile_adds 4 4 i j bm_os); [done|lia|lia|unfold bm_cells, bm_os; lists|]]; [elements|].
  apply acc_for; [lia|lia|lia|apply Z.divide_1_l|]. intros k Hk _.
  apply (acc_group A B 4 4 _ _ _ _ _ (fun o => (k + (i + o.1) * 32, j + o.2 + k * 32))); [done|unfold bm_terms, bm_os; lists|].
  intros a b Ha Hb. trm.
Qed.

Lemma share_owner (q r : Z) : 32 = q * nc -> within (c * q) q r = (r / (32 / nc) =? c).
Proof.
  intros Hq. assert (0 < q) by nia. rewrite Hq, Z.div_mul by lia. rewrite <-stretch_core by done. unfold stretch, within. do 2 f_equal. lia.
Qed.

Lemma share (u : Z) : 0 < u -> (u * nc | 32) -> exists m, 32 = m * u * nc /\ 0 < m * u <= 32 /\ 0 <= c * (m * u) /\ c * (m * u) + m * u <= 32.
Proof.
  intros Hu [m Hm]. exists m. assert (0 < u * nc) by (apply Z.mul_pos_pos; lia). assert (0 < m) by nia. assert (0 < m * u) by (apply Z.mul_pos_pos; lia).
  assert ((c + 1) * (m * u) <= nc * (m * u)) by (apply Z.mul_le_mono_nonneg_r; lia). assert (1 * (m * u) <= nc * (m * u)) by (apply Z.mul_le_mono_nonneg_r; lia).
  split; [lia|]. split; [lia|]. split; [apply Z.mul_nonneg_nonneg; lia|lia].
Qed.

Lemma bm_computes : (4 * nc | 32) -> computes (fun x => row x / (32 / nc) =? c) (bm_matmul c nc 32 A B).
Proof.
  intros Hd. destruct (share 4 ltac:(lia) Hd) as (m & Hq & Hm & Hlo & Hhi). apply upd_computes.
  eapply upd_ext; [intros x Hx; by apply (share_owner (m * 4))|]. unfold bm_matmul.
  eapply upd_pure; [rewrite Hq at 1; apply sdiv_ok; lia|]. cbv zeta. replace (m * 4 * c) with (c * (m * 4)) by lia.
  assert (upd (fun x => within (c * (m * 4)) (m * 4) (row x)) 0 32 (bm_rows 32 A B (c * (m * 4)) (c * (m * 4) + m * 4))) as Hu.
  { eapply upd_ext; [|apply bm_upd; [lia|lia|exists m; lia]]. intros x Hx. cbv beta. f_equal. lia. }
  destruct (Z.eqb_spec c (nc - 1)) as [E1|E1]; cbn [negb].
  - replace (Z.quot 32 4 * 4) with (c * (m * 4) + m * 4); [done|]. change (Z.quot 32 4 * 4) with 32. rewrite E1 at 1. lia.
  - replace (Z.quot (c * (m * 4) + m * 4) 4 * 4) with (c * (m * 4) + m * 4); [done|].
    replace (c * (m * 4) + m * 4) with ((c * m + m) * 4) by lia. by rewrite Z.quot_mul by lia.
Qed.

Lemma ag_computes : (4 * nc | 32) -> computes (fun x => row x / (32 / nc) =? c) (ag_matmul c nc 32 A B).
Proof.
  intros Hd. destruct (share 4 ltac:(lia) Hd) as (m & Hq & Hm & Hlo & Hhi). apply adds_computes.
  eapply adds_ext; [|exact (cg_adds 32 A B size32 HA HB c nc (m * 4) Hc Hq m eq_refl)].
  intros x Hx. cbv beta. by rewrite (rows_owner 32 A B size32 c nc (m * 4) x ltac:(lia) Hq).
Qed.

(** *** bc and dc: two by eight elements *)

Definition bc_os : list (Z * Z) := ri ← seqZ 0 8; rj ← [0; 1]; [(rj, ri)].

Lemma bc_tile_upd (kk j i : Z) : 0 <= kk -> kk + 16 <= 32 -> 0 <= j -> j + 2 <= 32 -> 0 <= i -> i + 8 <= 32 ->
  upd (inside 2 8 j i) kk (kk + 16) (bc_tile A B kk j i).
Proof.
  intros Hk Hk2 Hj Hj2 Hi Hi2. unfold bc_tile. rewrite (Z.min_r 32 (kk + 16)) by lia.
  apply (tile_adds 2 8 j i bc_os); [done|lia|lia|unfold bc_os; change (seqZ 0 8) with [0; 1; 2; 3; 4; 5; 6; 7]; lists|].
  apply acc_for; [lia|lia|lia|apply Z.divide_1_l|]. intros k Hkk _.
  apply (acc_group A B 2 8 _ _ _ _ _ (fun o => (j * 32 + (o.1 * 32 + k), i + (k * 32 + o.2))));
    [done|unfold bc_os; change (seqZ 0 8) with [0; 1; 2; 3; 4; 5; 6; 7]; lists|].
  intros a b Ha Hb. trm.
Qed.

Lemma bc_upd (start end_ klo khi : Z) : 0 <= start <= end_ -> end_ <= 32 -> (16 | end_ - start) -> 0 <= klo <= khi -> khi <= 32 -> (16 | khi - klo) ->
  upd (fun x => within start (end_ - start) (row x)) klo khi (bc_block A B start end_ klo khi).
Proof.
  intros Hs He Hd Hk Hk2 Hdk. apply upd_rows; [lia|lia|lia|done|]. intros jj Hjj [t Et]. destruct Hd as [u Eu]. assert (jj + 16 <= end_) by lia.
  apply upd_for_terms; [lia|lia|lia|done|]. intros kk Hkk [v Ev]. destruct Hdk as [n En]. assert (kk + 16 <= khi) by lia.
  rewrite (Z.min_r end_ (jj + 16)) by lia.
  eapply upd_ext; [|apply (upd_rows _ _ jj (jj + 16) 2); [lia|lia|lia|exists 8; lia|]]; [elements|]. intros j Hj [w Ew].
  apply upd_cols; [lia|by exists 4|]. intros i Hi Hi2. eapply upd_ext; [|apply bc_tile_upd; lia]. elements.
Qed.

(** The plain loops. *)
Lemma seg_term (k x : Z) : 0 <= k -> seg k (k + 1) x = term 32 A B x k.
Proof. intros Hk. unfold seg. rewrite cell_next by done. unfold term. lia. Qed.

Lemma dot_seg (n : nat) (k x : Z) : dot n (fun t => seg (k + t) (k + t + 1) x) = seg k (k + Z.of_nat n) x.
Proof.
  unfold seg. induction n as [|n IH]; cbn [dot]; [rewrite Z.add_0_r; lia|]. rewrite IH. replace (k + Z.of_nat (S n)) with (k + Z.of_nat n + 1) by lia. lia.
Qed.

Lemma naive_upd : upd (fun _ => true) 0 32 (naive 32 A B).
Proof.
  apply upd_cols; [lia|apply Z.divide_1_l|]. intros i Hi Hi2.
  eapply upd_ext; [|apply (upd_for row (fun x => within i 1 (col x)) 0 32 0 32 1); [lia|lia|lia|apply Z.divide_1_l|]]; [elements|]. intros j Hj _.
  apply upd_for_terms; [lia|lia|lia|apply Z.divide_1_l|]. intros k Hk _.
  eapply adds_load; [rewrite HA; lia|]. eapply adds_load; [rewrite HB; lia|].
  eapply adds_ext; [|apply (adds_mac 32 A B size32 j i k); [lia|done|done|split; lia]].
  intros x Hx. cbv beta. unfold T. rewrite seg_term by lia. unfold within.
  destruct (Z.eqb_spec (row x) j), (Z.eqb_spec (col x) i), (Z.leb_spec i (col x)), (Z.ltb_spec (col x) (i + 1)), (Z.leb_spec j (row x)), (Z.ltb_spec (row x) (j + 1));
    cbn [andb]; lia || reflexivity.
Qed.

Definition pair_owner (nc x : Z) : Z := if nc =? 2 then half row x else 0.

Lemma others_computes : nc <> 2 -> computes (fun x => pair_owner nc x =? c) (fun C => if 0 <? c then Ok C else naive 32 A B C).
Proof.
  intros Hn. unfold pair_owner. rewrite (proj2 (Z.eqb_neq nc 2)) by done. destruct (Z.ltb_spec 0 c) as [H0|H0].
  - apply computes_none. intros x Hx. apply Z.eqb_neq. lia.
  - apply upd_computes. eapply upd_ext; [|apply naive_upd]. intros x Hx. symmetry. apply Z.eqb_eq. lia.
Qed.

Lemma pair_rows (m : list Z -> outcome (list Z)) : nc = 2 -> upd (fun x => within (c * 16) 16 (row x)) 0 32 m -> computes (fun x => pair_owner nc x =? c) m.
Proof.
  intros Hn Hm. apply upd_computes. eapply upd_ext; [|exact Hm]. intros x Hx. pose proof (rc x Hx). cbv beta. unfold pair_owner, half. rewrite Hn, Z.eqb_refl.
  apply eq_bool_prop_intro. rewrite !Is_true_true, within_true, Z.eqb_eq. destruct (Z.ltb_spec (row x) 16); lia.
Qed.

Lemma bc_end : nc = 2 -> (if c =? 1 then 32 else (c + 1) * 16) = c * 16 + 16.
Proof. intros Hn. destruct (Z.eqb_spec c 1); lia. Qed.

Lemma bc_computes : computes (fun x => pair_owner nc x =? c) (bc_matmul c nc 32 A B).
Proof.
  unfold bc_matmul. cbv zeta. rewrite andb_true_r. destruct (Z.eqb_spec nc 2) as [Hn|Hn]; [|by apply others_computes].
  apply pair_rows; [done|]. rewrite (bc_end Hn). eapply upd_ext; [|apply bc_upd; [lia|lia|exists 1; lia|lia|lia|by exists 2]].
  intros x Hx. cbv beta. f_equal. lia.
Qed.

Lemma dc_computes : computes (fun x => pair_owner nc x =? c) (dc_matmul c nc 32 A B).
Proof.
  unfold dc_matmul. cbv zeta. rewrite andb_true_r. destruct (Z.eqb_spec nc 2) as [Hn|Hn]; [|by apply others_computes].
  apply pair_rows; [done|]. rewrite (bc_end Hn).
  assert (forall klo, (klo = 0 \/ klo = 16) -> upd (fun x => within (c * 16) 16 (row x)) klo (klo + 16) (bc_block A B (c * 16) (c * 16 + 16) klo (klo + 16))) as Hb.
  { intros klo Hk. eapply upd_ext; [|apply bc_upd; [lia|lia|exists 1; lia|lia|lia|exists 1; lia]]. intros x Hx. cbv beta. f_equal. lia. }
  pose proof (Hb 0 ltac:(lia)) as H0. pose proof (Hb 16 ltac:(lia)) as H1. change (0 + 16) with 16 in H0. change (16 + 16) with 32 in H1.
  destruct (c =? 0); cbn [negb]; [eapply upd_seq; [exact H0|exact H1]|].
  eapply adds_ext; [|apply (adds_bind 32 A B); [exact H1|exact H0]]. intros x Hx. cbv beta. unfold seg. destruct (within _ _ _); lia.
Qed.

(** *** ay, az and cy: eight elements, numbered through *)

(** The same elements in another array. *)
Definition copy_of (X Y : list Z) : Prop := length X = 1024%nat /\ forall p, 0 <= p < 1024 -> at_ X p = at_ Y p.

Lemma term_copy (X Y : list Z) (j i k p q : Z) : copy_of X A -> copy_of Y B ->
  p = j * 32 + k -> q = k * 32 + i -> 0 <= j < 32 -> 0 <= i < 32 -> 0 <= k < 32 -> term_of X Y j i k (p, q).
Proof. intros [Hl HX] [Hl' HY] -> -> Hj Hi Hk. red. cbn [fst snd]. rewrite Hl, Hl'. split_and!; try lia; [apply HX|apply HY]; lia. Qed.

Lemma copy_refl (X : list Z) : Z.of_nat (length X) = 1024 -> copy_of X X.
Proof. intros Hl. split; [lia|done]. Qed.

Lemma group8 (j : Z) : 0 <= j -> j + 8 <= 1024 -> (8 | j) -> let r := Z.shiftr j 5 in let i := Z.rem j 32 in
  Z.shiftl r 5 = r * 32 /\ j = i + r * 32 /\ 0 <= r < 32 /\ 0 <= i /\ i + 8 <= 32 /\
  forall x, 0 <= x < 1024 -> inside 1 8 r i x = within j 8 x.
Proof.
  intros Hj Hj2 [t Et]. cbv zeta. rewrite Z.shiftl_mul_pow2, Z.shiftr_div_pow2, Z.rem_mod_nonneg by lia. change (2 ^ 5) with 32.
  pose proof (Z.div_mod j 32 ltac:(lia)). pose proof (Z.mod_pos_bound j 32 ltac:(lia)). split_and!; try lia.
  intros x Hx. pose proof (row_col 32 A B size32 x Hx). unfold inside. apply eq_bool_prop_intro. rewrite andb_True, !Is_true_true, !within_true. lia.
Qed.

Lemma ay_body_puts (X Y : list Z) (j : Z) : copy_of X A -> copy_of Y B -> 0 <= j -> j + 8 <= 1024 -> (8 | j) -> puts (within j 8) (ay_body 32 X Y j).
Proof.
  intros HX HY Hj Hj2 Hd. destruct (group8 j Hj Hj2 Hd) as (Es & Ej & Hr & Hi & Hi2 & Hin). unfold ay_body. cbv zeta.
  eapply puts_ext; [exact Hin|]. apply (tile_puts 1 8 _ _ (row_os 8)); [done|lia|lia|by apply pos_row|done|].
  apply acc_for; [lia|lia|lia|by exists 16|]. intros i Hi' [t Et]. rewrite Es, !Z.shiftl_mul_pow2 by lia. change (2 ^ 5) with 32.
  replace (i + 2) with (i + 1 + 1) by lia. apply (acc_seq _ _ _ i (i + 1) (i + 1 + 1)); apply acc_row; intros s Hs; apply term_copy; done || lia.
Qed.

Lemma az_body_puts (j : Z) : 0 <= j -> j + 8 <= 1024 -> (8 | j) -> puts (within j 8) (az_body 32 A B j).
Proof.
  intros Hj Hj2 Hd. destruct (group8 j Hj Hj2 Hd) as (Es & Ej & Hr & Hi & Hi2 & Hin). unfold az_body. cbv zeta.
  eapply puts_ext; [exact Hin|]. apply (tile_puts 1 8 _ _ (row_os 8)); [done|lia|lia|by apply pos_row|done|].
  apply acc_for; [lia|lia|lia|by exists 16|]. intros i Hi' [t Et]. rewrite Es, !Z.shiftl_mul_pow2 by lia. change (2 ^ 5) with 32.
  replace (i + 2) with (i + 1 + 1) by lia. apply (acc_seq _ _ _ i (i + 1) (i + 1 + 1)); apply acc_row; intros s Hs; trm.
Qed.

Lemma numbered (body : Z -> list Z -> outcome (list Z)) : c <= 1 ->
  (forall j, 0 <= j -> j + 8 <= 1024 -> (8 | j) -> puts (within j 8) (body j)) ->
  computes (fun x => half_owner nc (half row x) =? c)
    (fun C => for_int (Z.shiftl c 9) (Z.shiftl (if nc =? 1 then 2 else c + 1) 9) 8 body C).
Proof.
  intros H1 Hb. rewrite !Z.shiftl_mul_pow2 by lia. change (2 ^ 9) with 512. set (n := if nc =? 1 then 2 else c + 1).
  assert ((nc = 1 /\ n = 2) \/ (nc <> 1 /\ n = c + 1)) as Hn by (unfold n; destruct (Z.eqb_spec nc 1); lia).
  apply puts_computes. eapply puts_ext; [|apply (puts_sel (fun x => x) (fun _ => true) (c * 512) (n * 512) 8); [lia|lia|lia|exists ((n - c) * 64); lia|]].
  - intros x Hx. pose proof (row_col 32 A B size32 x Hx). cbv beta. cbn [andb]. unfold half_owner, half.
    apply eq_bool_prop_intro. rewrite !Is_true_true, within_true, Z.eqb_eq. destruct (Z.eqb_spec nc 1), (Z.ltb_spec (row x) 16); lia.
  - intros j Hj [t Et]. cbn [andb]. apply Hb; [lia|lia|]. exists (t + c * 64). lia.
Qed.

Lemma ay_computes : computes (fun x => half_owner nc (half row x) =? c) (ay_matmul c nc 32 A B).
Proof.
  apply idle; [apply half_idle|]. intros H1. apply numbered; [done|]. intros j Hj Hj2 Hd. apply ay_body_puts; try done; by apply copy_refl.
Qed.

Lemma az_computes : computes (fun x => half_owner nc (half row x) =? c) (az_matmul c nc 32 A B).
Proof. apply idle; [apply half_idle|]. intros H1. apply numbered; [done|apply az_body_puts]. Qed.

Lemma copy_up_to (X X1 : list Z) (i : Z) : Z.of_nat (length X) = 1024 -> length X1 = 1024%nat -> 0 <= i < 1024 -> (forall p, 0 <= p < i -> at_ X1 p = at_ X p) ->
  aset X1 i (at_ X i) = Ok (<[Z.to_nat i := at_ X i]> X1) /\ length (<[Z.to_nat i := at_ X i]> X1) = 1024%nat /\
  forall p, 0 <= p < i + 1 -> at_ (<[Z.to_nat i := at_ X i]> X1) p = at_ X p.
Proof.
  intros HX H1 Hi Hp. split; [by rewrite aset_in_range by lia|]. split; [by rewrite length_insert|]. intros p Hpi. unfold at_ at 1.
  destruct (Z.eqb_spec p i) as [->|Hne]; [by rewrite list_lookup_insert_eq by lia|]. rewrite list_lookup_insert_ne by lia. apply Hp. lia.
Qed.

Lemma cy_copy_ok (A1 B1 : list Z) : length A1 = 1024%nat -> length B1 = 1024%nat -> owp (cy_copy A B A1 B1) (fun '(X, Y) => copy_of X A /\ copy_of Y B).
Proof.
  intros H1 H2. unfold cy_copy.
  eapply owp_mono; [apply (for_exact (fun i '(X, Y) => length X = 1024%nat /\ length Y = 1024%nat /\
    forall p, 0 <= p < i -> at_ X p = at_ A p /\ at_ Y p = at_ B p)); [lia|lia| |]|].
  - split_and!; try done; lia.
  - intros i [X Y] Hi (HX & HY & Hp). rewrite (aget_at A i), (aget_at B i) by lia. cbn [mbind outcome_bind].
    destruct (copy_up_to A X i HA HX Hi ltac:(intros p Hpi; by apply Hp)) as (E1 & L1 & P1).
    destruct (copy_up_to B Y i HB HY Hi ltac:(intros p Hpi; by apply Hp)) as (E2 & L2 & P2).
    rewrite E1. cbn [mbind outcome_bind]. rewrite E2. red. split_and!; [done|done|]. intros p Hpi. split; [by apply P1|by apply P2].
  - intros [X Y] (HX & HY & Hp). split; split; try done; intros p Hpi; by apply Hp.
Qed.

Lemma cy_computes (A1 B1 : list Z) : length A1 = 1024%nat -> length B1 = 1024%nat ->
  computes (fun x => half_owner nc (half row x) =? c) (cy_matmul c nc 32 A B A1 B1).
Proof.
  intros HA1 HB1. apply idle; [apply half_idle|]. intros H1. destruct (c =? 0).
  - apply numbered; [done|]. intros j Hj Hj2 Hd. apply ay_body_puts; try done; by apply copy_refl.
  - pose proof (cy_copy_ok A1 B1 HA1 HB1) as Hcp. apply owp_ok in Hcp as ([X Y] & E1 & HX & HY). rewrite E1.
    apply numbered; [done|]. intros j Hj Hj2 Hd. by apply ay_body_puts.
Qed.

(** *** cv, av and bh: loops that count groups *)

Lemma upd_terms_by (w : Z) (P : Z -> bool) (lo hi : Z) (body : Z -> list Z -> outcome (list Z)) :
  0 <= lo <= hi -> hi < 2 ^ 15 -> (forall m, lo <= m < hi -> upd P (w * m) (w * (m + 1)) (body m)) -> upd P (w * lo) (w * hi) (for_int lo hi 1 body).
Proof.
  intros Hlo Hhi Hb. apply (adds_steps (fun m x => if P x then seg (w * lo) (w * m) x else 0) (fun m x => if P x then seg (w * m) (w * (m + 1)) x else 0));
    [lia|lia|lia|apply Z.divide_1_l| | |].
  - intros x Hx. unfold seg. destruct (P x); lia.
  - intros i x Hi Hx. unfold seg. destruct (P x); lia.
  - intros i Hi _. by apply Hb.
Qed.

Lemma upd_cols_by (w n : Z) (P : Z -> bool) (lo hi : Z) (body : Z -> list Z -> outcome (list Z)) :
  0 < w -> 0 <= n -> w * n = 32 -> (forall i, 0 <= i < n -> upd (fun x => P x && within (w * i) w (col x)) lo hi (body i)) -> upd P lo hi (for_int 0 n 1 body).
Proof.
  intros Hw Hn E32 Hb. assert (n <= 32) by nia.
  eapply adds_ext; [|apply (adds_steps (fun m x => if P x && within (w * 0) (w * m - w * 0) (col x) then seg lo hi x else 0)
    (fun m x => if P x && within (w * m) w (col x) then seg lo hi x else 0)); [lia|lia|lia|apply Z.divide_1_l| | |]].
  - intros x Hx. pose proof (rc x Hx). cbv beta. rewrite (proj2 (within_true _ _ _)), andb_true_r by lia. done.
  - intros x Hx. by rewrite Z.sub_diag, within_empty, andb_false_r.
  - intros i x Hi Hx. replace (w * (i + 1)) with (w * i + w) by lia. apply within_next; nia.
  - intros i Hi _. by apply Hb.
Qed.

(** A row in tiles of eight terms by eight columns. *)
Lemma tiles_upd (tile : Z -> Z -> Z -> list Z -> outcome (list Z)) (lo hi : Z) : 0 <= lo <= hi -> hi <= 32 ->
  (forall j m n, 0 <= j < 32 -> 0 <= m < 4 -> 0 <= n < 4 -> upd (inside 1 8 j (8 * n)) (8 * m) (8 * (m + 1)) (tile j m n)) ->
  upd (fun x => within lo (hi - lo) (row x)) 0 32
    (for_int lo hi 1 (fun j C => for_int 0 4 1 (fun m C => for_int 0 4 1 (fun n C => tile j m n C) C) C)).
Proof.
  intros Hlo Hhi Ht. apply upd_rows; [lia|lia|lia|apply Z.divide_1_l|]. intros j Hj _.
  apply (upd_terms_by 8 _ 0 4); [lia|lia|]. intros m Hm. apply (upd_cols_by 8); [lia|lia|lia|]. intros n Hn. apply Ht; lia.
Qed.

(** Statements on the result, one after the other. *)
Lemma macs_app (X Y : list Z) (l1 l2 : list (Z * (Z * Z))) (C : list Z) : macs X Y (l1 ++ l2) C = (C ← macs X Y l1 C; macs X Y l2 C).
Proof.
  revert C. induction l1 as [|[p [a b]] l1 IH]; intros C; [done|]. cbn [app macs]. destruct (aget X a); [|done|done]. destruct (aget Y b); [|done|done].
  cbn [mbind outcome_bind]. destruct (mac p _ _ C); [|done|done]. apply IH.
Qed.

Lemma macs_over (X Y : list Z) (n : nat) (f : Z -> list (Z * (Z * Z))) (S : Z -> Z -> Z) :
  (forall t, 0 <= t < Z.of_nat n -> adds (macs X Y (f t)) (S t)) -> adds (macs X Y (t ← seqZ 0 (Z.of_nat n); f t)) (fun x => dot n (fun t => S t x)).
Proof.
  induction n as [|n IH]; intros Hf.
  - intros C HC. red. split; [done|]. intros x Hx. cbn [dot]. rewrite Z.add_0_r. symmetry. apply swrap_small; [lia|by apply (at_in 32 A B)].
  - rewrite Nat2Z.inj_succ. unfold Z.succ. rewrite seqZ_app, bind_app by lia. cbn [dot].
    intros C HC. rewrite macs_app. revert C HC. apply (adds_bind 32 A B).
    + apply IH. intros t Ht. apply Hf. lia.
    + change (seqZ (0 + Z.of_nat n) 1) with [0 + Z.of_nat n]. rewrite Z.add_0_l. cbn [mbind list_bind]. rewrite app_nil_r. apply Hf. lia.
Qed.

Lemma macs_one (X Y : list Z) (j i k p a b : Z) : p = i + j * 32 -> term_of X Y j i k (a, b) -> 0 <= j < 32 -> 0 <= i < 32 ->
  adds (macs X Y [(p, (a, b))]) (T 32 A B j i k).
Proof.
  intros Ep (Hk & Ha & Hb & Ea & Eb) Hj Hi. cbn [fst snd] in *. cbn [macs].
  eapply adds_load; [done|]. eapply adds_load; [done|]. rewrite Ea, Eb. eapply adds_ext; [intros x Hx; apply Z.add_0_r|].
  apply (adds_bind 32 A B _ (fun C => Ok C)); [by apply (adds_mac 32 A B size32)|].
  intros C HC. red. split; [done|]. intros x Hx. rewrite Z.add_0_r. symmetry. apply swrap_small; [lia|by apply (at_in 32 A B)].
Qed.

Lemma cv_tile_upd (j m n : Z) : 0 <= j < 32 -> 0 <= m < 4 -> 0 <= n < 4 -> upd (inside 1 8 j (8 * n)) (8 * m) (8 * (m + 1)) (cv_tile 32 A B j m n).
Proof.
  intros Hj Hm Hn. unfold cv_tile.
  eapply adds_ext; [|apply (macs_over A B 8 _ (fun t x => dot 8 (fun s => T 32 A B j (8 * n + s) (8 * m + t) x)))].
  - intros x Hx. cbv beta. rewrite (dot_ext 8 _ (fun t => if inside 1 8 j (8 * n) x then seg (8 * m + t) (8 * m + t + 1) x else 0)).
    + rewrite dot_if, dot_seg. by replace (8 * m + Z.of_nat 8) with (8 * (m + 1)) by lia.
    + intros t Ht. pose proof (sum_block A B (8 * n) (8 * n + 8) (col x) (if row x =? j then term 32 A B x (8 * m + t) else 0)) as Hs.
      replace (8 * n + 8 - 8 * n) with 8 in Hs by lia. change (Z.to_nat 8) with 8%nat in Hs.
      rewrite (dot_ext 8 _ (fun s => if col x =? 8 * n + s then if row x =? j then term 32 A B x (8 * m + t) else 0 else 0)).
      * rewrite Hs, seg_term by lia. unfold inside, within. destruct (Z.eqb_spec (row x) j), (Z.leb_spec j (row x)), (Z.ltb_spec (row x) (j + 1)); cbn [andb]; lia || by destruct (_ && _).
      * intros s _. unfold T. by destruct (row x =? j), (col x =? 8 * n + s).
  - intros t Ht. apply (macs_over A B 8). intros s Hs. apply macs_one; [lia|trm|lia|lia].
Qed.

Lemma cv_computes : computes (fun x => half_owner nc (half row x) =? c) (cv_matmul c nc 32 A B).
Proof.
  apply cores_two; [done|apply rows_top, (tiles_upd (cv_tile 32 A B) 0 16)|apply rows_bottom, (tiles_upd (cv_tile 32 A B) 16 32)]; try lia; apply cv_tile_upd.
Qed.

Lemma av_tile_upd (j m n : Z) : 0 <= j < 32 -> 0 <= m < 4 -> 0 <= n < 4 -> upd (inside 1 8 j (8 * n)) (8 * m) (8 * (m + 1)) (av_tile 32 A B j m n).
Proof.
  intros Hj Hm Hn. unfold av_tile. apply (tile_incs 1 8 j (8 * n) (row_os 8)); [done|lia|lia| |done|].
  - unfold row_os. rewrite <-list_fmap_compose. apply list_fmap_ext. intros k s _. unfold compose, pos. cbn [fst snd]. lia.
  - set (h := fun o : Z * Z => (fun t => (j * 32 + t + 8 * m, (t + 8 * m) * 32 + o.2 + 8 * n)) <$> seqZ 0 8).
    replace ((fun s => (fun t => (j * 32 + t + 8 * m, (t + 8 * m) * 32 + s + 8 * n)) <$> seqZ 0 8) <$> seqZ 0 8) with (h <$> row_os 8) by done.
    apply acc_terms. intros [a s] Ho. apply (proj2 (rect_spec 1 8 (row_os 8) eq_refl)) in Ho as [Ha Hs]. unfold h, oseg. cbn [fst snd].
    change 0 with (s32 0) at 1. change (seqZ 0 8) with (seqZ 0 (Z.of_nat 8)). rewrite (products_up A B (j + a) (8 * n + s) (8 * m)) by (intros t Ht; trm).
    rewrite Z.add_0_l, Z.add_0_r. by replace (8 * m + (0 + Z.of_nat 8)) with (8 * (m + 1)) by lia.
Qed.

Lemma av_computes : computes (fun x => half_owner nc (half row x) =? c) (av_matmul c nc 32 A B).
Proof.
  apply cores_two; [done|apply rows_top, (tiles_upd (av_tile 32 A B) 0 16)|apply rows_bottom, (tiles_upd (av_tile 32 A B) 16 32)]; try lia; apply av_tile_upd.
Qed.

(** *** at: the second matrix transposed *)

(** The elements of [B] in [W] have been stored in [tB]. *)
Definition transposed_on (W : Z -> Z -> Prop) (tB : list Z) : Prop :=
  1024 <= Z.of_nat (length tB) /\ forall k i, 0 <= k < 32 -> 0 <= i < 32 -> W k i -> at_ tB (i * 32 + k) = at_ B (k * 32 + i).

Lemma transposed_weaken (W W' : Z -> Z -> Prop) (tB : list Z) :
  (forall k i, 0 <= k < 32 -> 0 <= i < 32 -> W' k i -> W k i) -> transposed_on W tB -> transposed_on W' tB.
Proof. intros HW [Hl Ht]. split; [done|]. intros k i Hk Hi Hw. apply Ht; [done|done|]. by apply HW. Qed.

Lemma transpose_set (W : Z -> Z -> Prop) (tB : list Z) (k i p q : Z) : transposed_on W tB -> p = k * 32 + i -> q = i * 32 + k -> 0 <= k < 32 -> 0 <= i < 32 ->
  owp (b ← aget B p; aset tB q b) (transposed_on (fun k' i' => W k' i' \/ (k' = k /\ i' = i))).
Proof.
  intros [Hl Ht] -> -> Hk Hi. rewrite (aget_at B (k * 32 + i)) by lia. cbn [mbind outcome_bind]. rewrite aset_in_range by lia.
  split; [by rewrite length_insert|]. intros k' i' Hk' Hi' HW. unfold at_ at 1. destruct (decide (k' = k /\ i' = i)) as [[-> ->]|Hne].
  - by rewrite list_lookup_insert_eq by lia.
  - rewrite list_lookup_insert_ne by lia. apply Ht; [done|done|]. destruct HW as [HW|HW]; done.
Qed.

Lemma transpose_step {V : Type} (W : Z -> Z -> Prop) (tB : list Z) (k i p q : Z) (f : list Z -> outcome V) (Q : V -> Prop) :
  transposed_on W tB -> p = k * 32 + i -> q = i * 32 + k -> 0 <= k < 32 -> 0 <= i < 32 ->
  (forall tB', transposed_on (fun k' i' => W k' i' \/ (k' = k /\ i' = i)) tB' -> owp (f tB') Q) ->
  owp (b ← aget B p; tB' ← aset tB q b; f tB') Q.
Proof.
  intros HW Ep Eq Hk Hi Hf. pose proof (transpose_set W tB k i p q HW Ep Eq Hk Hi) as Hs. destruct (aget B p); [|done|done]. cbn [mbind outcome_bind] in *.
  apply owp_bind. eapply owp_mono; [exact Hs|exact Hf].
Qed.

Lemma term_transposed (W : Z -> Z -> Prop) (tB : list Z) (j i k p q : Z) : transposed_on W tB -> W k i ->
  p = j * 32 + k -> q = i * 32 + k -> 0 <= j < 32 -> 0 <= i < 32 -> 0 <= k < 32 -> term_of A tB j i k (p, q).
Proof. intros [Hl Ht] HW -> -> Hj Hi Hk. red. cbn [fst snd]. rewrite HA. split_and!; try lia. by apply Ht. Qed.

Ltac weak H := eapply transposed_weaken; [|exact H]; intros; cbv beta in *; lia.

Lemma at_transpose_ok (bTrans : list Z) : length bTrans = 1024%nat -> owp (at_transpose 32 B bTrans) (transposed_on (fun _ _ => True)).
Proof.
  intros Hl. unfold at_transpose. eapply owp_mono; [apply (for_exact (fun k => transposed_on (fun k' _ => k' < k))); [lia|lia| |]|].
  - split; [lia|]. intros k i Hk Hi HW. lia.
  - intros k t1 Hk H1. eapply owp_mono; [apply (for_exact (fun i => transposed_on (fun k' i' => k' < k \/ (k' = k /\ i' < i)))); [lia|lia|weak H1|]|].
    + intros i t2 Hi H2. eapply owp_mono; [eapply (transpose_set _ t2 k i); [exact H2|lia|lia|done|done]|]. intros t3 H3. weak H3.
    + intros t2 H2. weak H2.
  - intros t1 H1. weak H1.
Qed.

Lemma share_cols (q : Z) (m : list Z -> outcome (list Z)) : 32 = q * nc ->
  upd (fun x => within (c * q) q (col x)) 0 32 m -> computes (fun x => col x / (32 / nc) =? c) m.
Proof. intros Hq Hm. apply upd_computes. eapply upd_ext; [|exact Hm]. intros x Hx. by apply share_owner. Qed.

Lemma at_cell_upd (tB : list Z) (j i k : Z) : transposed_on (fun _ _ => True) tB -> 0 <= j < 32 -> 0 <= i < 32 -> 0 <= k -> k + 16 <= 32 ->
  upd (inside 1 1 j i) k (k + 16) (macs A tB ((fun t => (j * 32 + i, (j * 32 + k + t, i * 32 + k + t))) <$> seqZ 0 16)).
Proof.
  intros Ht Hj Hi Hk Hk2.
  replace ((fun t => (j * 32 + i, (j * 32 + k + t, i * 32 + k + t))) <$> seqZ 0 16) with (t ← seqZ 0 (Z.of_nat 16); [(j * 32 + i, (j * 32 + k + t, i * 32 + k + t))]) by done.
  eapply adds_ext; [|apply (macs_over A tB 16 _ (fun t => T 32 A B j i (k + t)))].
  - intros x Hx. cbv beta. rewrite (dot_ext 16 _ (fun t => if inside 1 1 j i x then seg (k + t) (k + t + 1) x else 0)).
    + by rewrite dot_if, dot_seg.
    + intros t Hb. unfold T, inside, within. rewrite seg_term by lia.
      destruct (Z.eqb_spec (row x) j), (Z.eqb_spec (col x) i), (Z.leb_spec i (col x)), (Z.ltb_spec (col x) (i + 1)), (Z.leb_spec j (row x)), (Z.ltb_spec (row x) (j + 1));
        cbn [andb]; lia || reflexivity.
  - intros t Hb. apply macs_one; [lia| |lia|lia]. apply (term_transposed (fun _ _ => True)); try done; lia.
Qed.

Lemma at_computes (bTrans : list Z) : (8 * nc | 32) -> length bTrans = 1024%nat -> computes (fun x => col x / (32 / nc) =? c) (at_matmul c nc 32 A B bTrans).
Proof.
  intros Hd Hl. destruct (share 8 ltac:(lia) Hd) as (m & Hq & Hm & Hlo & Hhi). apply (share_cols (m * 8)); [done|].
  pose proof (at_transpose_ok bTrans Hl) as Ht. apply owp_ok in Ht as (tB & Et & Ht). unfold at_matmul. rewrite Et. cbn [mbind outcome_bind]. cbv zeta.
  eapply upd_ext; [|apply (upd_for row (fun x => within (c * (m * 8)) (m * 8) (col x)) 0 32 0 32 1); [lia|lia|lia|apply Z.divide_1_l|]]; [elements|].
  intros j Hj _. eapply upd_pure; [rewrite Hq at 1; rewrite Z.mul_assoc; apply sdiv_ok; lia|].
  eapply upd_pure; [rewrite Hq at 1; rewrite Z.mul_assoc; apply sdiv_ok; lia|].
  eapply upd_ext; [|apply (upd_for col (fun x => within j 1 (row x)) 0 32 (c * (m * 8)) ((c + 1) * (m * 8)) 8); [lia|lia|lia|exists m; lia|]]; [elements|].
  intros i Hi [t Ei]. assert (i + 8 <= 32) by nia.
  eapply upd_ext; [|apply (upd_for col (fun x => within j 1 (row x)) 0 32 i (i + 8) 1); [lia|lia|lia|apply Z.divide_1_l|]]; [elements|].
  intros iT HiT _. apply upd_for_terms; [lia|lia|lia|by exists 2|]. intros k Hk [k' Ek]. eapply upd_ext; [|apply at_cell_upd; [done|lia|lia|lia|lia]]. done.
Qed.

(** *** bo: one column transposed at a time *)

Lemma bo_column_ok (i : Z) (bt : list Z) : 0 <= i < 32 -> 1024 <= Z.of_nat (length bt) -> owp (bo_column B i bt) (transposed_on (fun _ i' => i' = i)).
Proof.
  intros Hi Hl. unfold bo_column. eapply owp_mono; [apply (for_exact (fun z => transposed_on (fun k' i' => i' = i /\ k' < z))); [lia|lia| |]|].
  - split; [lia|]. intros k i' Hk Hi' HW. lia.
  - intros z t1 Hz T1. eapply owp_mono; [eapply (transpose_set _ t1 z i); [exact T1|lia|lia|done|done]|]. intros t2 T2. weak T2.
  - intros t1 T1. weak T1.
Qed.

Lemma bo_sum_ok (j i a b : Z) (bt : list Z) : a = j * 32 -> b = i * 32 -> 0 <= j < 32 -> 0 <= i < 32 -> transposed_on (fun _ i' => i' = i) bt ->
  bo_sum A a b bt = Ok (s32 (cell 32 j i)).
Proof.
  intros -> -> Hj Hi Ht. apply owp_eq. unfold bo_sum.
  eapply owp_mono; [apply (for_int_inv (fun k s => s = s32 (cell k j i))); [lia|lia|lia|by rewrite cell_zero|]|].
  - intros k s Hk [n En] ->. change (seqZ 0 8) with (seqZ 0 (Z.of_nat 8)).
    rewrite (products_up A bt j i k) by (intros t Ht'; eapply term_transposed; [exact Ht|reflexivity|lia..]). red. f_equal.
    rewrite !Z.add_0_l, Z.add_0_r. change (Z.of_nat 8) with 8. lia.
  - intros s (k & Hk & Hk2 & [n En] & ->). by assert (k = 32) as -> by lia.
Qed.

Lemma bo_half_ok (lo hi : Z) (bt C : list Z) : 0 <= lo <= hi -> hi <= 32 -> (2 | hi - lo) -> 1024 <= Z.of_nat (length bt) -> ints C ->
  owp (bo_half 32 A B lo hi bt C) (fun '(bt', C') => 1024 <= Z.of_nat (length bt') /\ ints C' /\
    forall x, 0 <= x < 1024 -> at_ C' x = if within lo (hi - lo) (row x) then s32 (total x) else at_ C x).
Proof.
  intros Hlo Hhi Hd Hl HC. unfold bo_half.
  eapply owp_mono; [apply (for_exact (fun i '(bt', C') => 1024 <= Z.of_nat (length bt') /\ ints C' /\
    forall x, 0 <= x < 1024 -> at_ C' x = if within lo (hi - lo) (row x) && within 0 i (col x) then s32 (total x) else at_ C x)); [lia|lia| |]|].
  - split_and!; [done|done|]. intros x Hx. by rewrite within_empty, andb_false_r.
  - intros i [t1 D] Hi (L1 & HD & ED). cbv zeta. apply owp_bind. eapply owp_mono; [by apply bo_column_ok|]. intros t2 T2. apply owp_bind.
    assert (puts (fun x => within i 1 (col x) && within lo (hi - lo) (row x)) (for_int lo hi 2 (fun j C =>
      acc_temp0 ← bo_sum A (j * 32) (i * 32) t2; acc_temp1 ← bo_sum A (j * 32 + 32) (i * 32) t2;
      C ← aset C (i + j * 32) acc_temp0; aset C (i + (j + 1) * 32) acc_temp1))) as Hp.
    { apply (puts_sel row); [lia|lia|lia|done|]. intros j Hj [n En]. destruct Hd as [d Ed]. assert (j + 1 < 32) by lia.
      eapply puts_pure; [apply (bo_sum_ok j i); done || lia|]. eapply puts_pure; [apply (bo_sum_ok (j + 1) i); done || lia|].
      eapply puts_ext; [|apply puts_bind; [apply (puts_set 32 A B size32 j i); [done|done|split; lia]|apply (puts_set 32 A B size32 (j + 1) i); [done|done|split; lia]]].
      intros x Hx. unfold at_cell. apply eq_bool_prop_intro. rewrite orb_True, !andb_True, !Is_true_true, !within_true, !Z.eqb_eq. lia. }
    eapply owp_mono; [by apply Hp|]. intros D' [HD' ED']. split_and!; [apply T2|done|]. intros x Hx. rewrite ED', ED by done. unfold within.
    destruct (Z.leb_spec i (col x)), (Z.ltb_spec (col x) (i + 1)), (Z.leb_spec 0 (col x)), (Z.ltb_spec (col x) (0 + (i + 1))), (Z.ltb_spec (col x) (0 + i));
      rewrite ?andb_true_r, ?andb_false_r; cbn [andb]; try lia; reflexivity.
  - intros [t1 D] (L1 & HD & ED). split_and!; [done|done|]. intros x Hx. pose proof (rc x Hx). rewrite ED, (proj2 (within_true 0 32 (col x))), andb_true_r by (done || lia). done.
Qed.

Lemma bo_if (b : bool) (lo hi : Z) (bt C : list Z) : 0 <= lo <= hi -> hi <= 32 -> (2 | hi - lo) -> 1024 <= Z.of_nat (length bt) -> ints C ->
  owp (if b then bo_half 32 A B lo hi bt C else Ok (bt, C)) (fun '(bt', C') => 1024 <= Z.of_nat (length bt') /\ ints C' /\
    forall x, 0 <= x < 1024 -> at_ C' x = if b && within lo (hi - lo) (row x) then s32 (total x) else at_ C x).
Proof. intros Hlo Hhi Hd Hl HC. destruct b; [by apply bo_half_ok|]. red. by split_and!. Qed.

Lemma bo_computes (bt : list Z) : length bt = 1024%nat -> computes (fun x => half_owner nc (half row x) =? c) (bo_matmul c nc 32 A B bt).
Proof.
  intros Hl. apply puts_computes. intros C HC. unfold bo_matmul. apply owp_bind.
  eapply owp_mono; [apply (bo_if (c =? 0) 0 16 bt C); [lia|lia|by exists 8|lia|done]|]. intros [t1 D] (L1 & HD & ED). apply owp_bind.
  eapply owp_mono; [apply (bo_if ((c =? 1) || (nc =? 1)) 16 32 t1 D); [lia|lia|by exists 8|lia|done]|]. intros [t2 D'] (L2 & HD' & ED').
  red. split; [done|]. intros x Hx. pose proof (rc x Hx). rewrite ED', ED, (half_two row c nc x Hc) by done. unfold within.
  destruct (Z.ltb_spec (row x) 16), (Z.leb_spec 16 (row x)), (Z.ltb_spec (row x) (16 + (32 - 16))), (Z.leb_spec 0 (row x)), (Z.ltb_spec (row x) (0 + (16 - 0)));
    rewrite ?andb_true_r, ?andb_false_r; cbn [andb]; try lia; reflexivity.
Qed.

(** *** br and dr: a share of the columns transposed *)

Lemma br_transpose_ok (lo hi : Z) (tB : list Z) : 0 <= lo <= hi -> hi <= 32 -> (2 | hi - lo) -> 1024 <= Z.of_nat (length tB) ->
  owp (br_transpose 32 B lo hi tB) (transposed_on (fun _ i => lo <= i < hi)).
Proof.
  intros Hlo Hhi Hd Hl. unfold br_transpose.
  eapply owp_mono; [apply (for_int_inv (fun k => transposed_on (fun k' i' => lo <= i' < hi /\ k' < k))); [lia|lia|lia| |]|].
  - split; [lia|]. intros k i Hk Hi HW. lia.
  - intros k t1 Hk [k2 Ek] H1.
    eapply owp_mono; [apply (for_int_inv (fun i => transposed_on (fun k' i' => lo <= i' < hi /\ (k' < k \/ (k' < k + 2 /\ i' < i))))); [lia|lia|lia|weak H1|]|].
    + intros i t2 Hi [i2 Ei] H2. destruct Hd as [d Ed]. assert (i + 1 < 32) by lia. assert (k + 1 < 32) by lia.
      eapply (transpose_step _ t2 k i); [exact H2|lia..|]. intros t3 T3.
      eapply (transpose_step _ t3 k (i + 1)); [exact T3|lia..|]. intros t4 T4.
      eapply (transpose_step _ t4 (k + 1) i); [exact T4|lia..|]. intros t5 T5.
      eapply owp_mono; [eapply (transpose_set _ t5 (k + 1) (i + 1)); [exact T5|lia..]|]. intros t6 T6. weak T6.
    + intros t2 (i & Hi & _ & _ & H2). weak H2.
  - intros t1 (k & Hk & _ & _ & H1). weak H1.
Qed.

Definition br_os (w : Z) : list (Z * Z) := ((fun s => (0, s)) <$> seqZ 0 w) ++ ((fun s => (1, s)) <$> seqZ 0 w).

Lemma br_tile_upd (w lo hi : Z) (tB : list Z) (j i : Z) : rect 2 w (br_os w) = true -> transposed_on (fun _ i => lo <= i < hi) tB ->
  0 <= j -> j + 2 <= 32 -> 0 <= lo <= i -> i + w <= hi -> hi <= 32 ->
  upd (inside 2 w j i) 0 32 (br_tile 32 A w tB j 0 i).
Proof.
  intros Hos Ht Hj Hj2 Hi Hi2 Hhi. unfold br_tile. cbv zeta. apply (tile_adds 2 w j i (br_os w)); [done|lia|lia| |].
  - unfold br_os. rewrite fmap_app, <-!list_fmap_compose. f_equal; apply list_fmap_ext; intros k s _; unfold compose, pos; cbn [fst snd]; lia.
  - apply acc_for; [lia|lia|lia|by exists 8|]. intros k Hk [k' Ek]. apply acc_for_off; [lia|]. intros t Htt.
    apply (acc_group A tB 2 w _ _ _ _ _ (fun o => ((j + o.1) * 32 + k + t, (i + o.2) * 32 + k + t))); [done| |].
    + unfold br_os. rewrite fmap_app, <-!list_fmap_compose. f_equal; apply list_fmap_ext; intros m s _; unfold compose; cbn [fst snd]; by rewrite ?Z.add_0_r.
    + intros a b Ha Hb. cbn [fst snd]. eapply term_transposed; [exact Ht|cbv beta; lia|lia..].
Qed.

Lemma br_computes (w : Z) (tB : list Z) : rect 2 w (br_os w) = true -> 0 < w <= 16 -> (w | 16) -> (16 * nc | 32) -> length tB = 4096%nat ->
  computes (fun x => col x / (32 / nc) =? c) (br_product c nc 32 A B w tB).
Proof.
  intros Hos Hw Hdw Hd Hl. destruct (share 16 ltac:(lia) Hd) as (m & Hq & Hm & Hlo & Hhi). apply (share_cols (m * 16)); [done|]. unfold br_product. cbv zeta.
  eapply upd_pure; [rewrite Hq at 1; apply sdiv_ok; lia|].
  pose proof (br_transpose_ok (c * (m * 16)) ((c + 1) * (m * 16)) tB ltac:(lia) ltac:(lia) ltac:(exists (m * 8); lia) ltac:(lia)) as Ht.
  apply owp_ok in Ht as (tB' & Et & Ht). eapply upd_pure; [exact Et|].
  eapply upd_ext; [|apply (upd_for row (fun x => within (c * (m * 16)) (m * 16) (col x)) 0 32 0 32 32); [lia|lia|lia|by exists 1|]]; [elements|].
  intros j2 Hj2 [y Ey]. assert (j2 = 0) as -> by lia. change (0 + 32) with 32.
  eapply upd_ext; [|apply (upd_for col (fun x => within 0 32 (row x)) 0 32 (c * (m * 16)) ((c + 1) * (m * 16)) 16); [lia|lia|lia|exists m; lia|]]; [elements|].
  intros i2 Hi2 [z Ez]. assert (i2 + 16 <= (c + 1) * (m * 16)) by nia.
  eapply upd_ext; [|apply (upd_for row (fun x => within i2 16 (col x)) 0 32 0 32 2); [lia|lia|lia|by exists 16|]]; [elements|].
  intros j Hj [v Ev]. apply upd_for_terms; [lia|lia|lia|by exists 1|]. intros k2 Hk2 [n En]. assert (k2 = 0) as -> by lia. change (0 + 32) with 32.
  eapply upd_ext; [|apply (upd_for col (fun x => within j 2 (row x)) 0 32 i2 (i2 + 16) w); [lia|lia|lia|by replace (i2 + 16 - i2) with 16 by lia|]]; [elements|].
  intros i Hi [s Es]. destruct Hdw as [g Eg].
  assert (s < g) by (apply (Z.mul_lt_mono_pos_r w); lia). assert ((s + 1) * w <= g * w) by (apply Z.mul_le_mono_nonneg_r; lia). assert (i + w <= i2 + 16) by lia. eapply upd_ext; [|eapply br_tile_upd; [done|exact Ht|lia..]]. elements.
Qed.

(** *** bh and bj: two terms at a time *)

Lemma products_two (X Y : list Z) (j i k l : Z) (p q : Z * Z) : term_of X Y j i k p -> term_of X Y j i l q ->
  products X Y 0 [p; q] = Ok (s32 (cell (k + 1) j i - cell k j i + (cell (l + 1) j i - cell l j i))).
Proof.
  intros Hp Hq. destruct p as [p1 p2], q as [q1 q2]. change 0 with (s32 0) at 1.
  rewrite (products_step X Y j i k), (products_step X Y j i l) by done. by rewrite Z.add_0_l.
Qed.

Lemma bh_up_acc (i j lo hi : Z) : 0 <= i -> i + 8 <= 32 -> 0 <= j < 32 -> 0 <= lo <= hi -> hi <= 32 -> (2 | hi - lo) ->
  acc j i (row_os 8) lo hi (fun tempC =>
    '(tempC, _, _) ← for_int lo hi 2 (fun k '(tempC, iB0, iB1) =>
        tempC ← terms A B ((fun s => [(j * 32 + k, iB0 + s); (j * 32 + k + 1, iB1 + s)]) <$> seqZ 0 8) tempC;
        Ok (tempC, iB0 + 2 * 32, iB1 + 2 * 32)) (tempC, lo * 32 + i, lo * 32 + i + 32);
    Ok tempC).
Proof.
  intros Hi Hi2 Hj Hlo Hhi [m Hm] g. apply owp_eq, owp_bind.
  eapply owp_mono; [apply (for_int_inv (fun k '(r, b0, b1) => r = (fun o => s32 (g o + oseg j i lo k o)) <$> row_os 8 /\ b0 = k * 32 + i /\ b1 = k * 32 + i + 32));
    [lia|lia|lia|split; [apply acc_refl|done]|]|].
  - intros k [[r b0] b1] Hk [t Et] (-> & -> & ->). assert (k + 1 < hi) by lia.
    replace ((fun s => [(j * 32 + k, k * 32 + i + s); (j * 32 + k + 1, k * 32 + i + 32 + s)]) <$> seqZ 0 8)
      with ((fun o : Z * Z => [(j * 32 + k, k * 32 + i + o.2); (j * 32 + k + 1, k * 32 + i + 32 + o.2)]) <$> row_os 8) by done.
    rewrite (acc_terms j i (row_os 8) A B _ k (k + 2)).
    + red. split; [|lia]. apply list_fmap_ext. intros n o _. f_equal. unfold oseg. lia.
    + intros [a s] Ho. apply (proj2 (rect_spec 1 8 (row_os 8) eq_refl)) in Ho as [Ha Hs]. unfold oseg. cbn [fst snd].
      rewrite (products_two A B (j + a) (i + s) k (k + 1)) by trm. do 2 f_equal. replace (k + 2) with (k + 1 + 1) by lia. lia.
  - intros [[r b0] b1] (k & Hk & Hk2 & [t Et] & -> & _). red. assert (k = hi) as -> by lia. done.
Qed.

Lemma quot_half (m : Z) : Z.quot (m * 32) 2 = 16 * m.
Proof. replace (m * 32) with (16 * m * 2) by lia. apply Z.quot_mul. lia. Qed.

Lemma bh_core0_upd : upd (fun x => within 0 16 (row x)) 0 32 (bh_core0 32 A B).
Proof.
  apply (upd_terms_by 16 _ 0 2); [lia|lia|]. intros m Hm. change (Z.quot 32 2) with 16.
  apply (upd_rows _ _ 0 16); [lia|lia|lia|apply Z.divide_1_l|]. intros j Hj _. apply upd_cols; [lia|by exists 4|]. intros i Hi Hi2. cbv zeta.
  rewrite !quot_half, (Z.mul_assoc 16 m 32).
  pose proof (tile_adds 1 8 j i (row_os 8) eq_refl ltac:(lia) ltac:(lia) (cols (i + j * 32) 8) _ _ _ (pos_row 8 j i _ eq_refl)
    (bh_up_acc i j (16 * m) (16 * (m + 1)) ltac:(lia) ltac:(lia) ltac:(lia) ltac:(lia) ltac:(lia) ltac:(exists 8; lia))) as Ht.
  apply (upd_ext (inside 1 8 j i)); [elements|]. intros C HC. generalize (Ht C HC). cbv beta. destruct (loads C _) as [r| |]; [|exact id|exact id].
  cbn [mbind outcome_bind]. destruct (for_int _ _ _ _ _) as [[[r' b0] b1]| |]; exact id.
Qed.

Definition down_os : list (Z * Z) := (fun s => (0, 7 - s)) <$> seqZ 0 8.

Lemma upd_terms_down (P : Z -> bool) (body : Z -> list Z -> outcome (list Z)) :
  (forall m, 1 <= m <= 2 -> upd P (16 * (m - 1)) (16 * m) (body m)) -> upd P 0 32 (for_downto 2 1 1 body).
Proof.
  intros Hb. apply (adds_steps_down (fun m x => if P x then seg (16 * m) 32 x else 0) (fun m x => if P x then seg (16 * (m - 1)) (16 * m) x else 0));
    [lia|lia|lia|lia|apply Z.divide_1_l| | |].
  - intros x Hx. unfold seg. change (16 * 2) with 32. destruct (P x); lia.
  - intros i x Hi Hx. unfold seg. destruct (P x); lia.
  - intros i Hi _. by apply Hb.
Qed.

Lemma bh_core1_upd : upd (fun x => within 16 16 (row x)) 0 32 (bh_core1 32 A B).
Proof.
  apply upd_terms_down. intros m Hm. change (Z.quot 32 2) with 16. change (32 - 1) with 31.
  apply (upd_ext (fun x => true && within 16 (31 + 1 - 16) (row x))); [elements|]. apply (upd_down row); [lia|lia|lia|apply Z.divide_1_l|]. intros j Hj _.
  apply (upd_ext (fun x => within j 1 (row x) && within 0 (31 + 1 - 0) (col x))); [elements|]. apply (upd_down col); [lia|lia|lia|by exists 4|]. intros i Hi [t Et].
  rewrite !quot_half. apply (upd_ext (inside 1 8 j (i - 7))); [elements|]. apply (tile_adds 1 8 j (i - 7) down_os); [done|lia|lia| |].
  - unfold down_os. rewrite <-list_fmap_compose. apply list_fmap_ext. intros k s _. unfold compose, pos. cbn [fst snd]. lia.
  - replace (16 * m) with (16 * m - 1 + 1) at 1 by lia. apply acc_down; [lia|lia|lia|exists 8; lia|]. intros k Hk [n En].
    replace ((fun s => [(j * 32 + k, k * 32 + i - s); (j * 32 + k - 1, (k - 1) * 32 + i - s)]) <$> seqZ 0 8)
      with ((fun o : Z * Z => [(j * 32 + k, k * 32 + (i - 7) + o.2); (j * 32 + k - 1, (k - 1) * 32 + (i - 7) + o.2)]) <$> down_os).
    2: { unfold down_os. rewrite <-list_fmap_compose. apply list_fmap_ext. intros e s _. unfold compose. cbn [fst snd]. same_list. }
    apply acc_terms. intros [a s] Ho. apply (proj2 (rect_spec 1 8 down_os eq_refl)) in Ho as [Ha Hs]. unfold oseg. cbn [fst snd].
    rewrite (products_two A B (j + a) (i - 7 + s) k (k - 1)) by trm. do 2 f_equal. replace (k - 1 + 1) with k by lia. replace (k - 2 + 1) with (k - 1) by lia. lia.
Qed.

Lemma bh_computes : computes (fun x => half_owner nc (half row x) =? c) (bh_matmul c nc 32 A B).
Proof.
  apply idle; [apply half_idle|]. intros _. apply two_cores_computes; [done|apply rows_top, bh_core0_upd|apply rows_bottom, bh_core1_upd].
Qed.

(** *** am and du: two rows in local arrays *)

(** Element [p] of the array has the first [f p] terms of row [r]. *)
Definition row_sums (r : Z) (f : Z -> Z) (t : list Z) : Prop := length t = 32%nat /\ forall p, 0 <= p < 32 -> at_ t p = s32 (cell (f p) r p).

Lemma row_sums_ext (r : Z) (f f' : Z -> Z) (t : list Z) : (forall p, 0 <= p < 32 -> f p = f' p) -> row_sums r f t -> row_sums r f' t.
Proof. intros Hf [Hl Ht]. split; [done|]. intros p Hp. rewrite <-Hf by done. by apply Ht. Qed.

Lemma at_set (t : list Z) (p v x : Z) : 0 <= p < Z.of_nat (length t) -> 0 <= x -> at_ (<[Z.to_nat p := v]> t) x = if x =? p then v else at_ t x.
Proof.
  intros Hp Hx. unfold at_. destruct (Z.eqb_spec x p) as [->|Hne]; [by rewrite list_lookup_insert_eq by lia|]. by rewrite list_lookup_insert_ne by lia.
Qed.

Lemma add_products_ok (r i p : Z) (f : Z -> Z) (t : list Z) : 0 <= r < 32 -> 0 <= i -> i + 4 <= 32 -> 0 <= p < 32 -> f p = i -> row_sums r f t ->
  owp (add_products A B p ((fun s => (r * 32 + i + s, (i + s) * 32 + p)) <$> seqZ 0 4) t) (row_sums r (fun x => if x =? p then i + 4 else f x)).
Proof.
  intros Hr Hi Hi2 Hp Ef [Hl Ht]. unfold add_products. rewrite (aget_at t p) by lia. cbn [mbind outcome_bind].
  change 0 with (s32 0) at 1. change (seqZ 0 4) with (seqZ 0 (Z.of_nat 4)). rewrite (products_up A B r p i) by (intros s Hs; trm). cbn [mbind outcome_bind].
  rewrite aset_in_range by lia. split; [by rewrite length_insert|]. intros x Hx. rewrite at_set by lia. destruct (Z.eqb_spec x p) as [->|Hne]; [|by apply Ht].
  rewrite Ht, Ef, swrap_add_r, swrap_add_l by lia. f_equal. change (0 + Z.of_nat 4) with 4. rewrite Z.add_0_r. lia.
Qed.

Definition am_terms (i j p : Z) : Z := if p <? j then i + 4 else i.

Lemma am_stmts_ok (r i j : Z) (t : list Z) : 0 <= r < 32 -> 0 <= i -> i + 4 <= 32 -> 0 <= j -> j + 4 <= 32 -> row_sums r (am_terms i j) t ->
  owp (am_stmts A B (r * 32) i j t) (row_sums r (am_terms i (j + 4))).
Proof.
  intros Hr Hi Hi2 Hj Hj2 Ht. unfold am_stmts. apply (for_exact (fun s => row_sums r (am_terms i (j + s)))); [lia|lia|by rewrite Z.add_0_r|].
  intros s t1 Hs H1. pose proof (add_products_ok r i (j + s) (am_terms i (j + s)) t1 Hr Hi Hi2 ltac:(lia) ltac:(unfold am_terms; rewrite Z.ltb_irrefl; reflexivity) H1) as Ha.
  assert ((fun t0 => (r * 32 + i + t0, (i + t0) * 32 + j + s)) <$> seqZ 0 4 = (fun s0 => (r * 32 + i + s0, (i + s0) * 32 + (j + s))) <$> seqZ 0 4) as ->.
  { apply list_fmap_ext. intros k e _. f_equal. lia. }
  eapply owp_mono; [exact Ha|]. intros t2. apply row_sums_ext. intros p Hp. unfold am_terms.
  destruct (Z.eqb_spec p (j + s)), (Z.ltb_spec p (j + s)), (Z.ltb_spec p (j + (s + 1))); lia.
Qed.

Lemma am_sums_ok (l : Z) (t1 t2 : list Z) : 0 <= l -> l + 2 <= 32 -> row_sums l (fun _ => 0) t1 -> row_sums (l + 1) (fun _ => 0) t2 ->
  owp (for_size 0 (u64 32) 4 (fun i '(temp_mat, temp_mat2) =>
      for_size 0 32 4 (fun j '(temp_mat, temp_mat2) =>
        temp_mat ← am_stmts A B (l * 32) i j temp_mat; temp_mat2 ← am_stmts A B ((l + 1) * 32) i j temp_mat2;
        Ok (temp_mat, temp_mat2)) (temp_mat, temp_mat2)) (t1, t2))
    (fun '(t1, t2) => row_sums l (fun _ => 32) t1 /\ row_sums (l + 1) (fun _ => 32) t2).
Proof.
  intros Hl Hl2 H1 H2. change (u64 32) with 32. eapply owp_mono; [apply (for_size_inv (fun i '(t1, t2) => row_sums l (fun _ => i) t1 /\ row_sums (l + 1) (fun _ => i) t2)); [lia|lia|lia|done|]|].
  - intros i [u1 u2] Hi [n En] [U1 U2].
    eapply owp_mono; [apply (for_size_inv (fun j '(t1, t2) => row_sums l (am_terms i j) t1 /\ row_sums (l + 1) (am_terms i j) t2)); [lia|lia|lia| |]|].
    + split; (eapply row_sums_ext; [|eassumption]); intros p Hp; unfold am_terms; destruct (Z.ltb_spec p 0); lia.
    + intros j [v1 v2] Hj [m Em] [V1 V2]. apply owp_bind. eapply owp_mono; [apply am_stmts_ok; [lia|lia|lia|lia|lia|exact V1]|]. intros w1 W1.
      apply owp_bind. eapply owp_mono; [apply am_stmts_ok; [lia|lia|lia|lia|lia|exact V2]|]. intros w2 W2. done.
    + intros [v1 v2] (j & Hj & Hj2 & [m Em] & V1 & V2). split; (eapply row_sums_ext; [|eassumption]); intros p Hp; unfold am_terms; destruct (Z.ltb_spec p j); lia.
  - intros [u1 u2] (i & Hi & Hi2 & [n En] & U1 & U2). assert (i = 32) as -> by lia. done.
Qed.

(** The arrays are stored and cleared. *)
Lemma am_clear_ok (l : Z) (t1 t2 C : list Z) : 0 <= l -> l + 2 <= 32 -> row_sums l (fun _ => 32) t1 -> row_sums (l + 1) (fun _ => 32) t2 -> ints C ->
  owp (for_size 0 32 1 (fun k '(temp_mat, temp_mat2, C) =>
      v ← aget temp_mat k; C ← aset C (l * 32 + k) v;
      v ← aget temp_mat2 k; C ← aset C ((l + 1) * 32 + k) v;
      temp_mat ← aset temp_mat k 0; temp_mat2 ← aset temp_mat2 k 0;
      Ok (temp_mat, temp_mat2, C)) (t1, t2, C))
    (fun '(t1, t2, C') => row_sums l (fun _ => 0) t1 /\ row_sums (l + 1) (fun _ => 0) t2 /\ ints C' /\
      forall x, 0 <= x < 1024 -> at_ C' x = if within l 2 (row x) then s32 (total x) else at_ C x).
Proof.
  intros Hl Hl2 H1 H2 HC.
  eapply owp_mono; [apply (for_size_inv (fun k '(t1, t2, C') => row_sums l (fun p => if p <? k then 0 else 32) t1 /\ row_sums (l + 1) (fun p => if p <? k then 0 else 32) t2 /\
    ints C' /\ forall x, 0 <= x < 1024 -> at_ C' x = if within l 2 (row x) && within 0 k (col x) then s32 (total x) else at_ C x)); [lia|lia|lia| |]|].
  - split_and!; [| |done|].
    + eapply row_sums_ext; [|exact H1]. intros p Hp. destruct (Z.ltb_spec p 0); lia.
    + eapply row_sums_ext; [|exact H2]. intros p Hp. destruct (Z.ltb_spec p 0); lia.
    + intros x Hx. by rewrite within_empty, andb_false_r.
  - intros k [[u1 u2] D] Hk _ (U1 & U2 & HD & ED). pose proof U1 as [L1 V1]. pose proof U2 as [L2 V2].
    rewrite (aget_at u1 k) by lia. cbn [mbind outcome_bind]. rewrite (V1 k Hk), Z.ltb_irrefl. cbv iota.
    apply owp_bind. eapply owp_mono; [apply (aset_at 32 A B size32); [done|lia|apply swrap_range; lia]|]. intros D1 [HD1 E1].
    rewrite (aget_at u2 k) by lia. cbn [mbind outcome_bind]. rewrite (V2 k Hk), Z.ltb_irrefl. cbv iota.
    apply owp_bind. eapply owp_mono; [apply (aset_at 32 A B size32); [done|lia|apply swrap_range; lia]|]. intros D2 [HD2 E2].
    rewrite !aset_in_range by lia. cbn [mbind outcome_bind]. red. split; [|split; [|split; [done|]]].
    + split; [by rewrite length_insert|]. intros p Hp. rewrite at_set, V1 by lia. destruct (Z.eqb_spec p k), (Z.ltb_spec p k), (Z.ltb_spec p (k + 1)); lia || reflexivity.
    + split; [by rewrite length_insert|]. intros p Hp. rewrite at_set, V2 by lia. destruct (Z.eqb_spec p k), (Z.ltb_spec p k), (Z.ltb_spec p (k + 1)); lia || reflexivity.
    + intros x Hx. rewrite E2, E1, ED by done. destruct (row_col 32 A B size32 x Hx) as (Ex & Hr & Hcx). rewrite <-(cell_total 32 A B x).
      destruct (Z.eqb_spec x ((l + 1) * 32 + k)) as [E3|E3]; [|destruct (Z.eqb_spec x (l * 32 + k)) as [E4|E4]].
      * assert (row x = l + 1 /\ col x = k) as [-> ->] by lia. rewrite (proj2 (within_true l 2 (l + 1))), (proj2 (within_true 0 (k + 1) k)) by lia. cbn [andb]. reflexivity.
      * assert (row x = l /\ col x = k) as [-> ->] by lia. rewrite (proj2 (within_true l 2 l)), (proj2 (within_true 0 (k + 1) k)) by lia. cbn [andb]. reflexivity.
      * destruct (within l 2 (row x)) eqn:F1; [|done]. cbn [andb]. apply within_true in F1.
        assert (within 0 (k + 1) (col x) = within 0 k (col x)) as ->; [|done].
        apply eq_bool_prop_intro. rewrite !Is_true_true, !within_true. lia.
  - intros [[u1 u2] D] (k & Hk & Hk2 & _ & U1 & U2 & HD & ED). assert (k = 32) as -> by lia. split_and!; [| |done|].
    + eapply row_sums_ext; [|exact U1]. intros p Hp. cbv beta. destruct (Z.ltb_spec p 32); lia.
    + eapply row_sums_ext; [|exact U2]. intros p Hp. cbv beta. destruct (Z.ltb_spec p 32); lia.
    + intros x Hx. rewrite ED by done. pose proof (rc x Hx). rewrite (proj2 (within_true 0 32 (col x))), andb_true_r by lia. done.
Qed.

Lemma row_sums_zero (r : Z) : row_sums r (fun _ => 0) (replicate 32 0).
Proof. split; [by rewrite length_replicate|]. intros p Hp. unfold at_. by rewrite lookup_replicate_2 by lia. Qed.

Lemma am_computes : (2 * nc | 32) -> computes (fun x => row x / (32 / nc) =? c) (am_matmul c nc 32 A B).
Proof.
  intros Hd. destruct (share 2 ltac:(lia) Hd) as (m & Hq & Hm & Hlo & Hhi). apply puts_computes.
  apply (puts_ext 32 A B (fun x => within (c * (m * 2)) (m * 2) (row x))); [intros x Hx; by apply share_owner|]. unfold am_matmul.
  eapply puts_pure; [rewrite Hq at 1; rewrite Z.mul_assoc; apply sdiv_ok; lia|].
  eapply puts_pure; [rewrite Hq at 1; replace (m * 2 * nc * (1 + c)) with ((c * (m * 2) + m * 2) * nc) by lia; apply sdiv_ok; lia|].
  rewrite (uwrap_small 64 (c * (m * 2))), (uwrap_small 64 (c * (m * 2) + m * 2)) by (unfold in_u; lia). cbv zeta. intros C HC. apply owp_bind.
  eapply owp_mono; [apply (for_size_inv (fun l '(t1, t2, C') => row_sums 0 (fun _ => 0) t1 /\ row_sums 0 (fun _ => 0) t2 /\ ints C' /\
    forall x, 0 <= x < 1024 -> at_ C' x = if within (c * (m * 2)) (l - c * (m * 2)) (row x) then s32 (total x) else at_ C x)); [lia|lia|lia| |]|].
  - split_and!; [apply row_sums_zero|apply row_sums_zero|done|]. intros x Hx. by rewrite Z.sub_diag, within_empty.
  - intros l [[t1 t2] D] Hl [n En] (T1 & T2 & HD & ED). assert (l + 2 <= 32) by lia. apply owp_bind.
    eapply owp_mono; [apply am_sums_ok; [lia|lia|exact T1|exact T2]|]. intros [s1 s2] [S1 S2].
    eapply owp_mono; [apply am_clear_ok; [lia|lia|exact S1|exact S2|exact HD]|]. intros [[u1 u2] D'] (U1 & U2 & HD' & ED'). split_and!; [exact U1|exact U2|done|].
    intros x Hx. rewrite ED', ED by done.
    destruct (within l 2 (row x)) eqn:F1, (within (c * (m * 2)) (l - c * (m * 2)) (row x)) eqn:F2,
      (within (c * (m * 2)) (l + 2 - c * (m * 2)) (row x)) eqn:F3; try reflexivity;
      rewrite ?within_true, <-?not_true_iff_false, ?within_true in *; lia.
  - intros [[t1 t2] D] (l & Hl & Hl2 & [n En] & _ & _ & HD & ED). assert (l - c * (m * 2) = m * 2) as El by lia. red. split; [done|].
    intros x Hx. rewrite ED, El by done. reflexivity.
Qed.
End Core.

(** ** All versions, all cores *)

(** The core that computes element [x]. *)
Definition block_owner (v : block_version) (nc x : Z) : Z :=
  match v with
  | Ag | Am | Bm | Du => row x / (32 / nc)
  | At _ | Br _ | Dr _ => col x / (32 / nc)
  | Ak | Ck => (row x / 16) mod nc
  | Al | Bf | Cl | Df => half_owner nc (half col x)
  | Av | Ay | Az | Bh | Bj | Bk | Bo _ | Cv | Cy _ _ => half_owner nc (half row x)
  | Dv => half_owner nc (1 - half row x)
  | Bc | Dc => pair_owner nc x
  end.
End Block.

(** The numbers of cores a version divides the matrix between, and the lengths
    of its arrays. *)
Definition block_suits (v : block_version) (nc : Z) : Prop :=
  match v with
  | Am | Du => (2 * nc | 32)
  | Ag | Bm => (4 * nc | 32)
  | At bTrans => (8 * nc | 32) /\ length bTrans = 1024%nat
  | Bo B_trans => length B_trans = 1024%nat
  | Br tB | Dr tB => (16 * nc | 32) /\ length tB = 4096%nat
  | Ak | Ck => nc <= 2 ^ 15
  | Cy A1 B1 => length A1 = 1024%nat /\ length B1 = 1024%nat
  | _ => True
  end.

Section All.
Context (A B : list Z).
Hypothesis HA : Z.of_nat (length A) = 1024.
Hypothesis HB : Z.of_nat (length B) = 1024.

Lemma block_core (v : block_version) (c nc : Z) : 0 <= c < nc -> block_suits v nc ->
  computes 32 A B (fun x => block_owner v nc x =? c) (block_matmul v c nc 32 A B).
Proof.
  intros Hc Hs. destruct v; cbn [block_suits block_owner block_matmul] in *.
  - by apply ag_computes.
  - by apply ak_computes.
  - by apply al_computes.
  - by apply am_computes.
  - destruct Hs as [Hd Hl]. by apply at_computes.
  - by apply av_computes.
  - by apply ay_computes.
  - by apply az_computes.
  - by apply bc_computes.
  - by apply bf_computes.
  - by apply bh_computes.
  - by apply bh_computes.
  - by apply bk_computes.
  - by apply bm_computes.
  - by apply bo_computes.
  - destruct Hs as [Hd Hl]. apply br_computes; try done. by exists 4.
  - by apply ck_computes.
  - by apply cl_computes.
  - by apply cv_computes.
  - destruct Hs as [Hl Hl']. by apply cy_computes.
  - by apply dc_computes.
  - by apply df_computes.
  - destruct Hs as [Hd Hl]. apply br_computes; try done. by exists 2.
  - by apply am_computes.
  - by apply dv_computes.
Qed.

Lemma block_owner_range (v : block_version) (nc x : Z) : 0 < nc -> block_suits v nc -> 0 <= x < 1024 -> 0 <= block_owner v nc x < nc.
Proof.
  intros Hnc Hs Hx. destruct (rc A B x Hx) as [Hr Hcx].
  assert (forall r u, 0 <= r < 32 -> 0 < u -> (u * nc | 32) -> 0 <= r / (32 / nc) < nc) as Hshare.
  { intros r u Hr' Hu Hd. destruct (share A B 0 nc ltac:(lia) u Hu Hd) as (m & Hq & Hm & _). rewrite Hq, Z.div_mul by lia.
    split; [apply Z.div_pos; lia|apply Z.div_lt_upper_bound; lia]. }
  assert (forall h, 0 <= h <= 1 -> 0 <= half_owner nc h < nc) as Hhalf.
  { intros h Hh. unfold half_owner. destruct (Z.eqb_spec nc 1); lia. }
  assert (forall sel, 0 <= half sel x <= 1) as Hh by (intros sel; unfold half; destruct (sel x <? 16); lia).
  destruct v; cbn [block_suits block_owner] in *; try (by apply Hhalf); try (by eapply Hshare; [| |exact Hs]);
    try (destruct Hs as [Hd _]; by eapply Hshare; [| |exact Hd]); try (by apply Z.mod_pos_bound).
  - unfold pair_owner. destruct (Z.eqb_spec nc 2); [specialize (Hh (row 32)); lia|lia].
  - unfold pair_owner. destruct (Z.eqb_spec nc 2); [specialize (Hh (row 32)); lia|lia].
  - apply Hhalf. specialize (Hh (row 32)). lia.
Qed.
End All.

(** [C2] The blocked matrix products, which keep groups of elements of the
    result in registers or in local arrays, run through the terms in blocks,
    upwards or downwards, transpose or copy their operands and divide rows,
    columns or halves between the cores, are equivalent to the reference
    product: run by any number of cores a version is written for, in any
    order, on a result that starts at zero, each leaves the product of the two
    32 by 32 matrices modulo 2^32. *)
Theorem block_correct (v : block_version) (nc : Z) (A B : list Z) (order : list Z) :
  Z.of_nat (length A) = 32 * 32 -> Z.of_nat (length B) = 32 * 32 -> 0 < nc -> block_suits v nc -> order ≡ₚ seqZ 0 nc ->
  run_all (fun c => block_matmul v c nc 32 A B) order (replicate (Z.to_nat (32 * 32)) 0)
    = Ok ((fun x => product 32 A B (x / 32) (x mod 32)) <$> seqZ 0 (32 * 32)).
Proof.
  intros HA HB Hnc Hs Ho. apply (cores_all 32 A B size32 HA HB nc (block_owner v nc)); [|by intros x; apply block_owner_range|done].
  intros c Hc. by apply block_core.
Qed.

(** Two cores. *)
Lemma block_correct_witness :
  run_all (fun c => block_matmul Ck c 2 32 (seqZ 0 1024) (seqZ 3 1024)) [1; 0] (replicate (Z.to_nat (32 * 32)) 0)
    = Ok ((fun x => product 32 (seqZ 0 1024) (seqZ 3 1024) (x / 32) (x mod 32)) <$> seqZ 0 (32 * 32)).
Proof.
  apply (block_correct Ck 2 (seqZ 0 1024) (seqZ 3 1024) [1; 0]).
  - rewrite length_seqZ. lia.
  - rewrite length_seqZ. lia.
  - lia.
  - cbn [block_suits]. lia.
  - change (seqZ 0 2) with [0; 1]. solve_Permutation.
Defined.
End MtBlockSpec.
