(* ===== verification/Debug.v ===== *)
(** * The program under the debugger (riscv-tests/debug/programs/checksum.c, debug.c)

    [crc32a] is the textbook loop of the CRC-32 on reversed bytes; the
    reference [crc32] is the usual right-shifting register with the reflected
    polynomial.  debug.c applies [rot13] twice to a text and adds up the two
    checksums.  A [char] is unsigned; the text is an array of bytes. *)

From S2P Require Import Prelude.

Module Debug.

(** ** checksum.c *)

(** [x = ((x & m) << s) | ((x >> s) & m)]. *)
Definition swap (m s x : Z) : Z := Z.lor (u32 (Z.shiftl (Z.land x m) s)) (Z.land (Z.shiftr x s) m).

Definition reverse (x : Z) : Z :=
  let x := swap 0x55555555 1 x in
  let x := swap 0x33333333 2 x in
  let x := swap 0x0F0F0F0F 4 x in
  Z.lor (Z.lor (Z.lor (u32 (Z.shiftl x 24)) (u32 (Z.shiftl (Z.land x 0xFF00) 8)))
    (Z.land (Z.shiftr x 8) 0xFF00)) (Z.shiftr x 24).

(** The body of the loop over [j], on [(crc, byte)]. *)
Definition crc_bit (cb : Z * Z) : Z * Z :=
  let '(crc, byte) := cb in
  let crc := if s32 (Z.lxor crc byte) <? 0 then Z.lxor (u32 (Z.shiftl crc 1)) 0x04C11DB7 else u32 (Z.shiftl crc 1) in
  (crc, u32 (Z.shiftl byte 1)).

(** [while (i < size)]; [i] is an [int]. *)
Fixpoint crc_loop (fuel : nat) (message : list Z) (size i crc : Z) : outcome Z :=
  if i <? size then
    match fuel with
    | O => Fuel
    | S fuel =>
        byte ← aget message i;
        let byte := reverse byte in
        let '(crc, _) := Nat.iter 8 crc_bit (crc, byte) in
        i ← sint (i + 1);
        crc_loop fuel message size i crc
    end
  else Ok crc.

Definition crc32a (message : list Z) (size : Z) : outcome Z :=
  crc ← crc_loop (Z.to_nat size) message size 0 0xFFFFFFFF;
  Ok (reverse (u32 (Z.lnot crc))).

(** ** debug.c *)

Definition fib (n : Z) : Z :=
  if n =? 0 then 0
  else (Nat.iter (Z.to_nat (n - 1)) (fun '(a, b) => let next := u32 (a + b) in (b, next)) (0, 1)).2.

(** What becomes of a character. *)
Definition rot (c : Z) : Z :=
  if (97 <=? c) && (c <=? 109) || (65 <=? c) && (c <=? 77) then u8 (c + 13)
  else if (110 <=? c) && (c <=? 122) || (78 <=? c) && (c <=? 90) then u8 (c - 13)
  else c.

(** While [*buf] is not 0; the array has [fuel] characters from [p] on. *)
Fixpoint rot13_loop (fuel : nat) (p : Z) (buf : list Z) : outcome (list Z) :=
  c ← aget buf p;
  if c =? 0 then Ok buf
  else match fuel with O => Fuel | S fuel => buf ← aset buf p (rot c); rot13_loop fuel (p + 1) buf end.
Definition rot13 (buf : list Z) : outcome (list Z) := rot13_loop (length buf) 0 buf.

Fixpoint strlen_loop (fuel : nat) (len : Z) (buf : list Z) : outcome Z :=
  c ← aget buf len;
  if c =? 0 then Ok len
  else match fuel with O => Fuel | S fuel => len ← sint (len + 1); strlen_loop fuel len buf end.
Definition strlen (buf : list Z) : outcome Z := strlen_loop (length buf) 0 buf.

(** [while (i) j++]: what the reads of the volatile [i] give; a debugger may
    change it. *)
Fixpoint spin (reads : list Z) (j : Z) : outcome Z :=
  match reads with
  | [] => Fuel
  | i :: reads => if i =? 0 then Ok j else j ← sint (j + 1); spin reads j
  end.

(** The variables outside [main]: the free list of the allocator and the text. *)
Record globals := Globals { malloc_freelist : Z; fox : list Z }.

(** [checksum ^= crc32a(fox, strlen(fox))] after [rot13(fox)]. *)
Definition pass (fox : list Z) (checksum : Z) : outcome (list Z * Z) :=
  fox ← rot13 fox;
  n ← strlen fox;
  c ← crc32a fox (u32 n);
  Ok (fox, Z.lxor checksum c).

Definition main (reads : list Z) (g : globals) : outcome (Z * globals) :=
  _ ← spin reads 0;
  '(f, checksum) ← pass (fox g) 0;
  '(f, checksum) ← pass f checksum;
  Ok (s32 checksum, Globals 0 f).

(** ** References *)

(** The register of the CRC-32, low bit first, and the checksum. *)
Definition serial (r : Z) : Z := Z.lxor (Z.shiftr r 1) (if Z.testbit r 0 then 0xEDB88320 else 0).
Definition crc32 (msg : list Z) : Z :=
  Z.lxor (foldl (fun r b => Nat.iter 8 serial (Z.lxor r b)) 0xFFFFFFFF msg) 0xFFFFFFFF.

(** The check value of the standard. *)
Example crc32_check : crc32 (bytes_of "123456789") = 0xCBF43926 /\ crc32a (bytes_of "123456789") 9 = Ok 0xCBF43926.
Proof. vm_compute. done. Qed.

Fixpoint fibonacci (n : nat) : Z :=
  match n with O => 0 | S m => match m with O => 1 | S k => fibonacci m + fibonacci k end end.

(** ** Bits *)

Lemma swap_bits (m s x i : Z) :
  0 <= i < 32 -> 0 <= s ->
  Z.testbit (swap m s x) i = (Z.testbit m (i - s) && Z.testbit x (i - s)) || (Z.testbit m i && Z.testbit x (i + s)).
Proof.
  intros Hi Hs. unfold swap, uwrap. rewrite Z.lor_spec, Z.mod_pow2_bits_low, Z.shiftl_spec, !Z.land_spec, Z.shiftr_spec by lia.
  by rewrite (andb_comm (Z.testbit x _)), (andb_comm (Z.testbit x _)).
Qed.

(** A mask that picks the lower half of every pair of groups of [s] bits. *)
Definition halves (m s : Z) : bool :=
  allb 32 (fun i => if Z.testbit m i then negb (Z.testbit m (i - s)) && (Z.lxor i s =? i + s)
                    else Z.testbit m (i - s) && (Z.lxor i s =? i - s)).

Lemma swap_halves (m s x i : Z) :
  halves m s = true -> 0 <= s -> 0 <= i < 32 -> Z.testbit (swap m s x) i = Z.testbit x (Z.lxor i s).
Proof.
  intros Hh Hs Hi. rewrite swap_bits by lia. unfold halves in Hh. pose proof (allb_spec _ _ i Hh Hi) as H. cbv beta in H.
  destruct (Z.testbit m i), (Z.testbit m (i - s)); cbn [negb andb] in H; try done; apply Z.eqb_eq in H as ->.
  - done.
  - cbn [andb]. by rewrite orb_false_r.
Qed.

Lemma byte_mask (j : Z) : -32 <= j < 32 -> Z.testbit 0xFF00 j = (8 <=? j) && (j <? 16).
Proof.
  intros Hj. destruct (decide (j < 0)); [rewrite Z.testbit_neg_r by lia; destruct (Z.leb_spec 8 j); [lia|done]|].
  apply eqb_prop. apply (allb_spec 32 (fun j => eqb (Z.testbit 0xFF00 j) ((8 <=? j) && (j <? 16)))); [reflexivity|lia].
Qed.

Lemma swap_range (m s x : Z) : in_u 32 m -> in_u 32 (swap m s x).
Proof. intros Hm. unfold swap. apply in_u_lor; [lia|by apply uwrap_range|by apply in_u_land]. Qed.

Lemma bytes_bits (x i : Z) : in_u 32 x -> 0 <= i < 32 ->
  Z.testbit (Z.lor (Z.lor (Z.lor (u32 (Z.shiftl x 24)) (u32 (Z.shiftl (Z.land x 0xFF00) 8)))
    (Z.land (Z.shiftr x 8) 0xFF00)) (Z.shiftr x 24)) i = Z.testbit x (Z.lxor i 24).
Proof.
  intros Hx Hi. rewrite !Z.lor_spec. unfold uwrap. rewrite !Z.mod_pow2_bits_low, !Z.shiftl_spec, !Z.land_spec, !Z.shiftr_spec by lia.
  rewrite (byte_mask (i - 8)), (byte_mask i) by lia.
  pose proof (allb_spec 32 (fun i => Z.lxor i 24 =? (if i <? 8 then i + 24 else if i <? 16 then i + 8 else if i <? 24 then i - 8 else i - 24)) i
    ltac:(reflexivity) Hi) as H. cbv beta in H. apply Z.eqb_eq in H. rewrite H. clear H.
  assert (forall j, j < 0 \/ 32 <= j -> Z.testbit x j = false) as Hout.
  { intros j [Hj|Hj]; [by apply Z.testbit_neg_r|by apply (in_u_bits 32)]. }
  zcase (i <? 8); [|zcase (i <? 16); [|zcase (i <? 24)]].
  - rewrite (Hout (i - 24)), (proj2 (Z.leb_gt 8 i)), (proj2 (Z.leb_gt 8 (i - 8))) by lia. cbn [andb]. by rewrite !andb_false_r.
  - rewrite (Hout (i - 24)), (Hout (i + 24)), (proj2 (Z.leb_gt 8 (i - 8))), (proj2 (Z.leb_le 8 i)) by lia.
    cbn [andb]. by rewrite andb_false_r, andb_true_r, orb_false_r.
  - rewrite (Hout (i - 24)), (Hout (i + 24)), (proj2 (Z.leb_le 8 (i - 8))), (proj2 (Z.ltb_lt (i - 8) 16)) by lia.
    cbn [andb]. by rewrite !andb_false_r, andb_true_r, !orb_false_r.
  - rewrite (Hout (i + 24)), (proj2 (Z.ltb_ge (i - 8) 16)) by lia.
    by rewrite !andb_false_r, !orb_false_r.
Qed.

Lemma reverse_bits (x i : Z) : 0 <= i < 32 -> Z.testbit (reverse x) i = Z.testbit x (31 - i).
Proof.
  intros Hi. unfold reverse. cbv zeta.
  assert (forall j k, 0 <= j < 32 -> 0 <= k < 32 -> 0 <= Z.lxor j k < 32) as Hl.
  { intros j k Hj Hk. apply (in_u_lxor 5); [lia|done|done]. }
  rewrite bytes_bits by (done || by apply swap_range). rewrite !swap_halves; try done; try (repeat apply Hl; lia).
  f_equal. apply Z.eqb_eq, (allb_spec 32 (fun i => Z.lxor (Z.lxor (Z.lxor (Z.lxor i 24) 4) 2) 1 =? 31 - i)); [reflexivity|lia].
Qed.

Lemma reverse_range (x : Z) : in_u 32 (reverse x).
Proof.
  unfold reverse. cbv zeta. repeat (apply in_u_lor; [lia| |]).
  - by apply uwrap_range.
  - by apply uwrap_range.
  - by apply in_u_land.
  - apply in_u_shiftr; [lia|lia|]. apply (in_u_weaken 32); [lia|]. by apply swap_range.
Qed.

(** Words are equal if their 32 bits are. *)
Lemma word_ext (x y : Z) : in_u 32 x -> in_u 32 y -> (forall i, 0 <= i < 32 -> Z.testbit x i = Z.testbit y i) -> x = y.
Proof.
  intros Hx Hy Hb. apply Z.bits_inj'. intros i Hi. destruct (decide (i < 32)); [by apply Hb|].
  rewrite !(in_u_bits 32) by (done || lia). done.
Qed.

Lemma reverse_reverse (x : Z) : in_u 32 x -> reverse (reverse x) = x.
Proof.
  intros Hx. apply word_ext; [apply reverse_range|done|]. intros i Hi. rewrite !reverse_bits by lia. f_equal. lia.
Qed.

Lemma reverse_lxor (x y : Z) : reverse (Z.lxor x y) = Z.lxor (reverse x) (reverse y).
Proof.
  apply word_ext; [apply reverse_range|apply in_u_lxor; [lia|apply reverse_range|apply reverse_range]|].
  intros i Hi. by rewrite Z.lxor_spec, !reverse_bits, Z.lxor_spec by lia.
Qed.

(** ** The two registers *)

(** The register of [crc32a] with the rest of the byte added to it. *)
Definition left_serial (y : Z) : Z := Z.lxor (u32 (Z.shiftl y 1)) (if Z.testbit y 31 then 0x04C11DB7 else 0).

Lemma top_bit (y : Z) : in_u 32 y -> (s32 y <? 0) = Z.testbit y 31.
Proof.
  intros Hy. rewrite Z.testbit_eqb by lia. unfold in_u in Hy. unfold swrap. change (2 ^ (32 - 1)) with (2 ^ 31) in *.
  destruct (decide (y < 2 ^ 31)).
  - rewrite Z.mod_small, Z.div_small by lia. apply Z.ltb_ge. lia.
  - replace (y / 2 ^ 31) with 1 by (apply Z.div_unique with (y - 2 ^ 31); lia).
    replace ((y + 2 ^ 31) mod 2 ^ 32) with (y - 2 ^ 31) by (apply Z.mod_unique with 1; lia). apply Z.ltb_lt. lia.
Qed.

Lemma shiftl_lxor (x y : Z) : u32 (Z.shiftl (Z.lxor x y) 1) = Z.lxor (u32 (Z.shiftl x 1)) (u32 (Z.shiftl y 1)).
Proof.
  apply word_ext; [by apply uwrap_range|by apply in_u_lxor; [lia|apply uwrap_range|apply uwrap_range]|].
  intros i Hi. unfold uwrap. by rewrite Z.lxor_spec, !Z.mod_pow2_bits_low, !Z.shiftl_spec, Z.lxor_spec by lia.
Qed.

Lemma crc_bit_sum (crc byte : Z) : in_u 32 crc -> in_u 32 byte ->
  let '(crc', byte') := crc_bit (crc, byte) in
  in_u 32 crc' /\ in_u 32 byte' /\ Z.lxor crc' byte' = left_serial (Z.lxor crc byte).
Proof.
  intros Hc Hb. unfold crc_bit, left_serial. rewrite top_bit by (by apply in_u_lxor). rewrite shiftl_lxor.
  destruct (Z.testbit (Z.lxor crc byte) 31); split_and!; try (by apply uwrap_range).
  - by apply in_u_lxor; [lia|apply uwrap_range|].
  - by rewrite !Z.lxor_assoc, (Z.lxor_comm _ 0x04C11DB7).
  - by rewrite Z.lxor_0_r.
Qed.

Lemma crc_bits_sum (n : nat) (crc byte : Z) : in_u 32 crc -> in_u 32 byte ->
  let '(crc', byte') := Nat.iter n crc_bit (crc, byte) in
  in_u 32 crc' /\ in_u 32 byte' /\ Z.lxor crc' byte' = Nat.iter n left_serial (Z.lxor crc byte) /\
  byte' = Nat.iter n (fun b => u32 (Z.shiftl b 1)) byte.
Proof.
  intros Hc Hb. induction n as [|n IH]; [done|]. rewrite !Nat.iter_succ. destruct (Nat.iter n crc_bit (crc, byte)) as [c b].
  destruct IH as (H1 & H2 & <- & E). pose proof (crc_bit_sum c b H1 H2) as Hs. cbn [crc_bit] in *.
  destruct Hs as (? & ? & ?). split_and!; try done. by rewrite E.
Qed.

(** Reflected, the left-shifting register is the right-shifting one. *)
Lemma reverse_serial (y : Z) : in_u 32 y -> reverse (left_serial y) = serial (reverse y).
Proof.
  intros Hy. unfold left_serial, serial. rewrite (reverse_bits y 0) by lia. change (31 - 0) with 31. rewrite reverse_lxor. f_equal.
  - apply word_ext; [apply reverse_range|apply in_u_shiftr; [lia|lia|apply (in_u_weaken 32); [lia|apply reverse_range]]|].
    intros i Hi. rewrite reverse_bits, Z.shiftr_spec by lia. unfold uwrap. rewrite Z.mod_pow2_bits_low, Z.shiftl_spec by lia.
    destruct (decide (i = 31)) as [->|]; [rewrite Z.testbit_neg_r by lia; symmetry; by apply (in_u_bits 32); [apply reverse_range|]|].
    rewrite reverse_bits by lia. f_equal. lia.
  - by destruct (Z.testbit y 31).
Qed.

Lemma left_serial_range (y : Z) : in_u 32 (left_serial y).
Proof. unfold left_serial. apply in_u_lxor; [lia|by apply uwrap_range|by destruct (Z.testbit y 31)]. Qed.

Lemma reverse_serial_n (n : nat) (y : Z) : in_u 32 y -> reverse (Nat.iter n left_serial y) = Nat.iter n serial (reverse y).
Proof.
  intros Hy. induction n as [|n IH]; [done|]. rewrite !Nat.iter_succ, <-IH. apply reverse_serial.
  destruct n; [done|]. apply left_serial_range.
Qed.

Lemma crc_byte (crc b : Z) : in_u 32 crc -> 0 <= b < 256 ->
  let '(crc', _) := Nat.iter 8 crc_bit (crc, reverse b) in
  in_u 32 crc' /\ reverse crc' = Nat.iter 8 serial (Z.lxor (reverse crc) b).
Proof.
  intros Hc Hb. pose proof (crc_bits_sum 8 crc (reverse b) Hc (reverse_range b)) as H.
  destruct (Nat.iter 8 crc_bit (crc, reverse b)) as [c' b']. destruct H as (H1 & _ & H3 & H4). split; [done|].
  assert (b' = 0) as ->.
  { rewrite H4. apply Z.eqb_eq, (allb_spec 256 (fun b => Nat.iter 8 (fun b => u32 (Z.shiftl b 1)) (reverse b) =? 0)); [vm_compute; done|lia]. }
  rewrite Z.lxor_0_r in H3. rewrite H3, reverse_serial_n by (apply in_u_lxor; [lia|done|apply reverse_range]).
  rewrite reverse_lxor, reverse_reverse; [done|]. unfold in_u. lia.
Qed.

(** ** The loops *)

Definition byte (b : Z) : Prop := 0 <= b < 256.

Lemma aget_middle {A} (l1 l2 : list A) (a : A) : aget (l1 ++ a :: l2) (Z.of_nat (length l1)) = Ok a.
Proof. apply aget_Some; [lia|]. rewrite Nat2Z.id. by apply list_lookup_middle. Qed.

Lemma crc_loop_ok (todo seen rest : list Z) (fuel : nat) (crc : Z) :
  (length todo <= fuel)%nat -> in_u 32 crc -> Forall byte todo -> Z.of_nat (length seen + length todo) < 2 ^ 31 ->
  owp (crc_loop fuel (seen ++ todo ++ rest) (Z.of_nat (length seen + length todo)) (Z.of_nat (length seen)) crc)
    (fun crc' => in_u 32 crc' /\ reverse crc' = foldl (fun r b => Nat.iter 8 serial (Z.lxor r b)) (reverse crc) todo).
Proof.
  revert seen fuel crc. induction todo as [|b todo IH]; intros seen fuel crc Hf Hc Hb Hl; simpl length in *.
  - assert (forall f, crc_loop f (seen ++ [] ++ rest) (Z.of_nat (length seen + 0)) (Z.of_nat (length seen)) crc = Ok crc) as ->.
    { intros f. destruct f; cbn [crc_loop]; by rewrite (proj2 (Z.ltb_ge _ _)) by lia. }
    done.
  - apply Forall_cons in Hb as [Hb1 Hb2]. destruct fuel as [|fuel]; [lia|]. cbn [crc_loop].
    rewrite (proj2 (Z.ltb_lt _ _)) by lia. change ((b :: todo) ++ rest) with (b :: todo ++ rest). rewrite aget_middle.
    cbn [mbind outcome_bind]. pose proof (crc_byte crc b Hc Hb1) as H. destruct (Nat.iter 8 crc_bit _) as [c' b'].
    destruct H as [Hc' E]. rewrite sint_ok by (unfold in_s; lia). cbn [mbind outcome_bind foldl]. rewrite <-E.
    replace (Z.of_nat (length seen) + 1) with (Z.of_nat (length (seen ++ [b]))) by (rewrite length_app; simpl; lia).
    replace (length seen + S (length todo))%nat with (length (seen ++ [b]) + length todo)%nat by (rewrite length_app; simpl; lia).
    replace (seen ++ b :: todo ++ rest) with ((seen ++ [b]) ++ todo ++ rest) by (by rewrite <-app_assoc).
    apply IH; try done; [lia|]. rewrite length_app. simpl. lia.
Qed.

(** [crc32a] is the CRC-32. *)
Lemma crc32a_ok (msg rest : list Z) : Forall byte msg -> Z.of_nat (length msg) < 2 ^ 31 ->
  crc32a (msg ++ rest) (Z.of_nat (length msg)) = Ok (crc32 msg).
Proof.
  intros Hb Hl. pose proof (crc_loop_ok msg [] rest (length msg) 0xFFFFFFFF ltac:(done) ltac:(done) Hb Hl) as H.
  apply owp_ok in H as (c & E & Hc & Hr). unfold crc32a. rewrite Nat2Z.id. change (Z.of_nat (length (@nil Z))) with 0 in E. simpl in E. rewrite E. cbn [mbind outcome_bind]. f_equal.
  unfold crc32. change 0xFFFFFFFF with (reverse 0xFFFFFFFF) at 1. rewrite <-Hr.
  apply word_ext; [apply reverse_range|apply in_u_lxor; [lia|apply reverse_range|done]|].
  intros i Hi. rewrite Z.lxor_spec, !reverse_bits by lia. unfold uwrap. rewrite Z.mod_pow2_bits_low, Z.lnot_spec by lia.
  rewrite <-xorb_true_r. f_equal. symmetry.
  apply (allb_spec 32 (fun i => Z.testbit 0xFFFFFFFF i)); [reflexivity|lia].
Qed.

Lemma rot_char (c : Z) : 0 < c < 256 -> 0 < rot c < 256 /\ rot (rot c) = c.
Proof.
  intros Hc. pose proof (allb_spec 256 (fun c => if 0 <? c then (0 <? rot c) && (rot c <? 256) && (rot (rot c) =? c) else true) c
    ltac:(vm_compute; done) ltac:(lia)) as H. cbv beta in H. rewrite (proj2 (Z.ltb_lt 0 c)) in H by lia.
  apply andb_prop in H as [[H1 H2]%andb_prop H3%Z.eqb_eq]. apply Z.ltb_lt in H1, H2. done.
Qed.

Lemma rot13_loop_ok (todo seen rest : list Z) (fuel : nat) :
  (length todo <= fuel)%nat -> Forall (fun c => 0 < c < 256) todo ->
  rot13_loop fuel (Z.of_nat (length seen)) (seen ++ todo ++ 0 :: rest) = Ok (seen ++ (rot <$> todo) ++ 0 :: rest).
Proof.
  revert seen fuel. induction todo as [|c todo IH]; intros seen fuel Hf Hc; simpl length in *.
  - destruct fuel; cbn [rot13_loop]; rewrite app_nil_l, aget_middle; done.
  - apply Forall_cons in Hc as [Hc1 Hc2]. destruct fuel as [|fuel]; [lia|]. cbn [rot13_loop].
    change ((c :: todo) ++ 0 :: rest) with (c :: todo ++ 0 :: rest). rewrite aget_middle. cbn [mbind outcome_bind].
    rewrite (proj2 (Z.eqb_neq c 0)) by lia. rewrite aset_in_range by (rewrite length_app; simpl; lia). cbn [mbind outcome_bind].
    rewrite Nat2Z.id, insert_app_r_alt, Nat.sub_diag by lia. cbn [insert list_insert].
    replace (Z.of_nat (length seen) + 1) with (Z.of_nat (length (seen ++ [rot c]))) by (rewrite length_app; simpl; lia).
    replace (seen ++ rot c :: todo ++ 0 :: rest) with ((seen ++ [rot c]) ++ todo ++ 0 :: rest) by (by rewrite <-app_assoc).
    rewrite IH by (done || lia). by rewrite <-app_assoc.
Qed.

Lemma rot13_ok (text : list Z) : Forall (fun c => 0 < c < 256) text -> rot13 (text ++ [0]) = Ok ((rot <$> text) ++ [0]).
Proof. intros Ht. unfold rot13. apply (rot13_loop_ok text [] []); [rewrite length_app; lia|done]. Qed.

Lemma strlen_loop_ok (todo seen rest : list Z) (fuel : nat) :
  (length todo <= fuel)%nat -> Forall (fun c => 0 < c < 256) todo -> Z.of_nat (length seen + length todo) < 2 ^ 31 ->
  strlen_loop fuel (Z.of_nat (length seen)) (seen ++ todo ++ 0 :: rest) = Ok (Z.of_nat (length seen + length todo)).
Proof.
  revert seen fuel. induction todo as [|c todo IH]; intros seen fuel Hf Hc Hl; simpl length in *.
  - destruct fuel; cbn [strlen_loop]; rewrite app_nil_l, aget_middle; cbn [mbind outcome_bind Z.eqb]; by rewrite Nat.add_0_r.
  - apply Forall_cons in Hc as [Hc1 Hc2]. destruct fuel as [|fuel]; [lia|]. cbn [strlen_loop].
    change ((c :: todo) ++ 0 :: rest) with (c :: todo ++ 0 :: rest). rewrite aget_middle. cbn [mbind outcome_bind].
    rewrite (proj2 (Z.eqb_neq c 0)) by lia. rewrite sint_ok by (unfold in_s; lia). cbn [mbind outcome_bind].
    replace (Z.of_nat (length seen) + 1) with (Z.of_nat (length (seen ++ [c]))) by (rewrite length_app; simpl; lia).
    replace (seen ++ c :: todo ++ 0 :: rest) with ((seen ++ [c]) ++ todo ++ 0 :: rest) by (by rewrite <-app_assoc).
    replace (length seen + S (length todo))%nat with (length (seen ++ [c]) + length todo)%nat by (rewrite length_app; simpl; lia).
    apply IH; [lia|done|]. rewrite length_app. simpl. lia.
Qed.

Lemma pass_ok (text : list Z) (checksum : Z) :
  Forall (fun c => 0 < c < 256) text -> Z.of_nat (length text) < 2 ^ 31 ->
  pass (text ++ [0]) checksum = Ok ((rot <$> text) ++ [0], Z.lxor checksum (crc32 (rot <$> text))).
Proof.
  intros Ht Hl. assert (Forall (fun c => 0 < c < 256) (rot <$> text)) as Hr.
  { apply Forall_fmap. eapply Forall_impl; [exact Ht|]. intros c Hc. by apply rot_char. }
  unfold pass. rewrite rot13_ok by done. cbn [mbind outcome_bind]. unfold strlen.
  pose proof (strlen_loop_ok (rot <$> text) [] [] (length ((rot <$> text) ++ [0])) ltac:(rewrite length_app; lia) Hr) as Hs.
  change (Z.of_nat (length (@nil Z))) with 0 in Hs. simpl in Hs. rewrite length_fmap in Hs. rewrite Hs by done. cbn [mbind outcome_bind].
  rewrite uwrap_small by (unfold in_u; lia). rewrite <-(length_fmap rot text). rewrite crc32a_ok; [done| |by rewrite length_fmap].
  eapply Forall_impl; [exact Hr|]. unfold byte. lia.
Qed.

Lemma spin_ok (spins rest : list Z) (j : Z) : Forall (fun i => i <> 0) spins -> 0 <= j -> j + Z.of_nat (length spins) < 2 ^ 31 ->
  spin (spins ++ 0 :: rest) j = Ok (j + Z.of_nat (length spins)).
Proof.
  revert j. induction spins as [|i spins IH]; intros j Hs Hj Hl; simpl length in *; cbn [spin app].
  - by rewrite Z.add_0_r.
  - apply Forall_cons in Hs as [Hi Hs]. rewrite (proj2 (Z.eqb_neq i 0)) by done. rewrite sint_ok by (unfold in_s; lia).
    cbn [mbind outcome_bind]. rewrite IH by (done || lia). f_equal. lia.
Qed.

(** [C21] The debugged program, whatever its text and however often the debugger
    keeps it in its first loop: it returns the CRC-32 of the text combined with that of the
    encrypted text, the second pass of [rot13] undoes the first and the text is
    as it was. *)
Theorem debug_main (text spins rest : list Z) (freelist : Z) :
  Forall (fun c => 0 < c < 256) text -> Z.of_nat (length text) < 2 ^ 31 ->
  Forall (fun i => i <> 0) spins -> Z.of_nat (length spins) < 2 ^ 31 ->
  main (spins ++ 0 :: rest) (Globals freelist (text ++ [0]))
    = Ok (s32 (Z.lxor (crc32 (rot <$> text)) (crc32 text)), Globals 0 (text ++ [0])).
Proof.
  intros Ht Hl Hs Hls. unfold main. rewrite spin_ok by (done || lia). cbn [mbind outcome_bind fox].
  rewrite pass_ok by done. cbn [mbind outcome_bind]. rewrite Z.lxor_0_l.
  rewrite pass_ok; [|apply Forall_fmap; eapply Forall_impl; [exact Ht|]; intros c Hc; by apply rot_char|by rewrite length_fmap].
  cbn [mbind outcome_bind]. assert (rot <$> (rot <$> text) = text) as ->; [|done].
  rewrite <-list_fmap_compose. rewrite <-(list_fmap_id text) at 2. apply list_fmap_ext. intros i c Hc.
  apply rot_char. exact (Forall_lookup_1 _ _ _ _ Ht Hc).
Qed.

(** The text of the program, and the exit code the debugger's tests expect. *)
Lemma debug_main_witness :
  main [7; 7; 0] (Globals 99 (cstr "The quick brown fox jumps of the lazy dog.")) = Ok (s32 0xc86455d4, Globals 0 (cstr "The quick brown fox jumps of the lazy dog.")).
Proof.
  refine (eq_trans (debug_main (bytes_of "The quick brown fox jumps of the lazy dog.") [7; 7] [] 99 _ _ _ _) _).
  - vm_compute. repeat constructor.
  - vm_compute. done.
  - repeat constructor; done.
  - vm_compute. done.
  - vm_compute. reflexivity.
Defined.

(** ** Fibonacci *)

Lemma fib_iter (n : nat) : Nat.iter n (fun '(a, b) => let next := u32 (a + b) in (b, next)) (0, 1) = (u32 (fibonacci n), u32 (fibonacci (S n))).
Proof.
  induction n as [|n IH]; [done|]. rewrite Nat.iter_succ, IH. cbv zeta. f_equal.
  change (fibonacci (S (S n))) with (fibonacci (S n) + fibonacci n). unfold uwrap. by rewrite <-Zplus_mod, Z.add_comm.
Qed.

(** [fib] is the Fibonacci function modulo 2^32. *)
Theorem fib_ok (n : Z) : 0 <= n -> fib n = u32 (fibonacci (Z.to_nat n)).
Proof.
  intros Hn. unfold fib. zcase (n =? 0); [by subst|]. rewrite fib_iter. cbn [snd]. by replace (S (Z.to_nat (n - 1))) with (Z.to_nat n) by lia.
Qed.
End Debug.
