(* ===== verification/Multicore.v ===== *)
(** * Harts that share a buffer under a spin lock (riscv-tests/debug/programs/multicore.c)

    Every hart takes the lock, checks that the buffer spells a stretch of the
    alphabet, writes its own stretch, releases the lock and counts.  A step of
    a hart is one access to the shared memory (the lock is swapped by an
    atomic instruction with acquire and release ordering, and fences
    separate it from the other accesses); between any two steps the timer may
    interrupt a hart.  The buffer has 32 characters, [hart_count] is an
    [unsigned]. *)

From S2P Require Import Prelude.

Module Multicore.

(** Where a hart is in [main]: before the loop; at the swap in [get_lock]; at
    [if (!buf_initialized)]; in the loop that fills the buffer; at [first =
    buf[0]]; at the inner [while]; at the assignment of [buf[i]]; in
    [put_lock]; at [hart_count[hartid]++]. *)
Inductive pc := Start | Get | TestInit | Fill (i : Z) | First | Check (i : Z) | Store (i : Z) | Put | Count.

(** What a hart has for itself; the arrays are indexed by the hart. *)
Record hart := Hart { at_ : pc; first : Z; hart_count : Z; interrupt_count : Z; mtimecmp : Z }.

(** What the harts share. *)
Record shared := Shared { lock : Z; buf : list Z; buf_initialized : Z }.

Record state := State { mem : shared; harts : list hart }.

Definition delta : Z := 0x100.
Definition goto (h : hart) (p : pc) : hart := Hart p (first h) (hart_count h) (interrupt_count h) (mtimecmp h).

(** [first - offset + ((offset + i) % 26)], in unsigned arithmetic. *)
Definition expected (first i : Z) : Z :=
  let offset := Z.land first (Z.lnot 0x20) - 65 in
  u32 (first - offset + u32 (offset + i) mod 26).

(** The character a hart writes. *)
Definition letter (hartid count i : Z) : Z :=
  if negb (Z.land hartid 1 =? 0) then u8 (65 + u32 (i + hartid + count) mod 26)
  else u8 (97 + u32 (i + hartid + count) mod 26).

(** The old value of the counter and the lock afterwards. *)
Definition atomic_xchg (m : shared) (n : Z) : Z * shared := (lock m, Shared n (buf m) (buf_initialized m)).

Definition hart_step (mtime hartid : Z) (m : shared) (h : hart) : outcome (shared * hart) :=
  match at_ h with
  | Start => Ok (m, Hart Get (first h) 0 0 (u64 (mtime + delta)))
  | Get => let '(old, m) := atomic_xchg m 1 in Ok (m, goto h (if old =? 1 then Get else TestInit))
  | TestInit => Ok (m, goto h (if buf_initialized m =? 0 then Fill 0 else First))
  | Fill i =>
      if i <? 32 then b ← aset (buf m) i (u8 (65 + i mod 26)); Ok (Shared (lock m) b (buf_initialized m), goto h (Fill (i + 1)))
      else Ok (Shared (lock m) (buf m) 1, goto h First)
  | First => c ← aget (buf m) 0; Ok (m, Hart (Check 0) c (hart_count h) (interrupt_count h) (mtimecmp h))
  | Check i =>
      if i <? 32 then c ← aget (buf m) i; Ok (m, goto h (if negb (c =? expected (first h) i) then Check i else Store i))
      else Ok (m, goto h Put)
  | Store i =>
      b ← aset (buf m) i (letter hartid (hart_count h) i);
      Ok (Shared (lock m) b (buf_initialized m), goto h (Check (i + 1)))
  | Put => let '(_, m) := atomic_xchg m 0 in Ok (m, goto h Count)
  | Count => Ok (m, Hart Get (first h) (u32 (hart_count h + 1)) (interrupt_count h) (mtimecmp h))
  end.

(** The trap handler. *)
Definition increment_count (mtime : Z) (h : hart) : hart :=
  Hart (at_ h) (first h) (hart_count h) (u32 (interrupt_count h + 1)) (u64 (mtime + delta)).

(** Any hart goes on, or takes an interrupt once they are enabled. *)
Inductive step : state -> state -> Prop :=
| step_hart (s : state) (i : nat) (h h' : hart) (m' : shared) (mtime : Z) :
    harts s !! i = Some h -> hart_step mtime (Z.of_nat i) (mem s) h = Ok (m', h') ->
    step s (State m' (<[i := h']> (harts s)))
| step_interrupt (s : state) (i : nat) (h : hart) (mtime : Z) :
    harts s !! i = Some h -> at_ h <> Start ->
    step s (State (mem s) (<[i := increment_count mtime h]> (harts s))).

(** Static variables are zero. *)
Definition initial (n : nat) : state := State (Shared 0 (replicate 32 0) 0) (replicate n (Hart Start 0 0 0 0)).

Definition reachable (n : nat) (s : state) : Prop := rtc step (initial n) s.

(** No counter is about to wrap. *)
Definition small (s : state) : Prop :=
  forall i h, harts s !! i = Some h -> 0 <= hart_count h /\ Z.of_nat i + hart_count h + 32 <= 2 ^ 32.

(** Reached before any counter comes near its limit. *)
Definition reachable_small (n : nat) (s : state) : Prop := rtc (fun s s' => step s s' /\ small s') (initial n) s.

(** ** The text in the buffer *)

(** From [lo] to [hi] the buffer has the alphabet from letter [k] on. *)
Definition spells (base k lo hi : Z) (b : list Z) : Prop :=
  forall j, lo <= j < hi -> b !! Z.to_nat j = Some (base + (k + j) mod 26).

Definition is_base (b : Z) : Prop := b = 65 \/ b = 97.
Definition base_of (hartid : Z) : Z := if negb (Z.land hartid 1 =? 0) then 65 else 97.

Lemma expected_letter (base k i : Z) : is_base base -> 0 <= i < 32 -> expected (base + k mod 26) i = base + (k + i) mod 26.
Proof.
  intros Hb Hi. pose proof (Z.mod_pos_bound k 26 ltac:(lia)) as Hk. unfold expected.
  assert (Z.land (base + k mod 26) (Z.lnot 0x20) - 65 = k mod 26) as ->.
  { revert Hk. generalize (k mod 26) as r. intros r Hr.
    destruct Hb as [->| ->]; apply Z.eqb_eq.
    - apply (allb_spec 26 (fun r => Z.land (65 + r) (Z.lnot 0x20) - 65 =? r)); [reflexivity|lia].
    - apply (allb_spec 26 (fun r => Z.land (97 + r) (Z.lnot 0x20) - 65 =? r)); [reflexivity|lia]. }
  cbv zeta. rewrite (uwrap_small 32 (k mod 26 + i)) by (unfold in_u; lia). rewrite Zplus_mod_idemp_l.
  pose proof (Z.mod_pos_bound (k + i) 26 ltac:(lia)). replace (base + k mod 26 - k mod 26) with base by lia.
  apply uwrap_small. unfold in_u, is_base in *. lia.
Qed.

Lemma letter_ok (hartid count i : Z) : 0 <= hartid -> 0 <= count -> 0 <= i -> i + hartid + count < 2 ^ 32 ->
  letter hartid count i = base_of hartid + (hartid + count + i) mod 26.
Proof.
  intros H1 H2 H3 H4. unfold letter, base_of. rewrite (uwrap_small 32) by (unfold in_u; lia).
  replace (i + hartid + count) with (hartid + count + i) by lia. pose proof (Z.mod_pos_bound (hartid + count + i) 26 ltac:(lia)).
  destruct (negb _); apply uwrap_small; unfold in_u; lia.
Qed.

Lemma spells_insert (base k lo hi i c : Z) (b : list Z) :
  0 <= i < 32 -> 0 <= lo -> length b = 32%nat -> i < lo \/ hi <= i -> spells base k lo hi b -> spells base k lo hi (<[Z.to_nat i := c]> b).
Proof. intros Hi Hlo Hl Ho Hs j Hj. rewrite list_lookup_insert_ne by lia. by apply Hs. Qed.

Lemma spells_snoc (base k i c : Z) (b : list Z) :
  0 <= i < 32 -> length b = 32%nat -> c = base + (k + i) mod 26 -> spells base k 0 i b -> spells base k 0 (i + 1) (<[Z.to_nat i := c]> b).
Proof.
  intros Hi Hl -> Hs j Hj. destruct (decide (j = i)) as [->|].
  - by rewrite list_lookup_insert_eq by lia.
  - rewrite list_lookup_insert_ne by lia. apply Hs. lia.
Qed.

(** ** The invariant *)

Definition critical (h : hart) : Prop := match at_ h with Start | Get | Count => False | _ => True end.
#[global] Instance critical_dec (h : hart) : Decision (critical h).
Proof. unfold critical. destruct (at_ h); apply _. Defined.

Definition spelled (m : shared) : Prop := exists base k, is_base base /\ spells base k 0 32 (buf m).

(** The memory when nobody uses it. *)
Definition free_ok (m : shared) : Prop :=
  length (buf m) = 32%nat /\ (buf_initialized m = 0 \/ buf_initialized m = 1 /\ spelled m).

(** The hart is rewriting the text from [i] on. *)
Definition rewriting (hartid i : Z) (m : shared) (h : hart) : Prop :=
  buf_initialized m = 1 /\ 0 <= i <= 32 /\ spells (base_of hartid) (hartid + hart_count h) 0 i (buf m) /\
  exists base k, is_base base /\ first h = base + k mod 26 /\ spells base k i 32 (buf m).

(** The memory when this hart uses it. *)
Definition holder_ok (hartid : Z) (m : shared) (h : hart) : Prop :=
  lock m = 1 /\ length (buf m) = 32%nat /\
  match at_ h with
  | TestInit => free_ok m
  | Fill i => buf_initialized m = 0 /\ 0 <= i <= 32 /\ spells 65 0 0 i (buf m)
  | First => buf_initialized m = 1 /\ spelled m
  | Check i => rewriting hartid i m h
  | Store i => i < 32 /\ rewriting hartid i m h
  | Put => buf_initialized m = 1 /\ spells (base_of hartid) (hartid + hart_count h) 0 32 (buf m)
  | _ => False
  end.

Definition others_out (i : nat) (l : list hart) : Prop := forall j h, l !! j = Some h -> j <> i -> ~ critical h.

Definition inv (s : state) : Prop :=
  lock (mem s) = 0 /\ free_ok (mem s) /\ Forall (fun h => ~ critical h) (harts s) \/
  exists i h, harts s !! i = Some h /\ holder_ok (Z.of_nat i) (mem s) h /\ others_out i (harts s).

(** The steps a hart has left in its critical section. *)
Definition rank (p : pc) : Z :=
  match p with
  | TestInit => 101 | Fill i => 68 + (32 - i) | First => 67 | Check i => 2 * (32 - i) + 2 | Store i => 2 * (32 - i) + 1 | Put => 1
  | _ => 0
  end.

Lemma base_of_is (hartid : Z) : is_base (base_of hartid).
Proof. unfold base_of, is_base. destruct (negb _); auto. Qed.

(** ** A hart inside its critical section *)

Lemma check_passes (hartid i : Z) (m : shared) (h : hart) : i < 32 -> rewriting hartid i m h -> aget (buf m) i = Ok (expected (first h) i).
Proof.
  intros Hi (_ & Hr & _ & base & k & Hb & -> & Hs). rewrite expected_letter by (done || lia). apply aget_Some; [lia|]. apply Hs. lia.
Qed.

(** Its next step is defined, and either comes nearer to the end or leaves. *)
Lemma holder_step (mtime hartid : Z) (m : shared) (h : hart) :
  0 <= hartid -> 0 <= hart_count h -> hartid + hart_count h + 32 <= 2 ^ 32 -> holder_ok hartid m h ->
  owp (hart_step mtime hartid m h) (fun r =>
    hart_count r.2 = hart_count h /\ 0 <= rank (at_ r.2) < rank (at_ h) /\
    (holder_ok hartid r.1 r.2 \/ at_ r.2 = Count /\ lock r.1 = 0 /\ free_ok r.1)).
Proof.
  intros Hid Hc Hsm (Hlk & Hl & H). unfold hart_step. destruct (at_ h) as [| | |i| |i|i| |] eqn:Epc; try done.
  - destruct H as (_ & H). zcase (buf_initialized m =? 0); red; cbn [mbind outcome_bind fst snd goto at_ hart_count rank]; (split_and!; [done|lia|lia|left]).
    + unfold holder_ok. simpl. split_and!; [done|done|done|lia|lia|]. intros j Hj. lia.
    + destruct H as [|[H1 H2]]; [done|]. unfold holder_ok. simpl. by split_and!.
  - destruct H as (Hi0 & Hi & Hs). zcase (i <? 32).
    + rewrite aset_in_range by lia. red. cbn [mbind outcome_bind fst snd goto at_ hart_count rank].
      split_and!; [done|lia|lia|left]. unfold holder_ok, rewriting. simpl. split_and!; [done|by rewrite length_insert|done|lia|lia|].
      apply spells_snoc; [lia|done| |done]. rewrite Z.add_0_l. apply uwrap_small.
      pose proof (Z.mod_pos_bound i 26 ltac:(lia)). unfold in_u. lia.
    + red. cbn [mbind outcome_bind fst snd goto at_ hart_count rank]. split_and!; [done|lia|lia|left]. unfold holder_ok, rewriting. simpl. split_and!; [done|done|done|].
      exists 65, 0. split; [by left|]. by replace 32 with i by lia.
  - destruct H as (Hi1 & base & k & Hb & Hs). rewrite (aget_Some _ 0 _ ltac:(lia) (Hs 0 ltac:(lia))). red.
    cbn [mbind outcome_bind fst snd at_ hart_count rank]. split_and!; [done|lia|lia|left]. unfold holder_ok, rewriting. simpl. split_and!; [done|done|done|lia|lia|intros j Hj; lia|].
    exists base, k. split_and!; [done| |done]. simpl. by rewrite Z.add_0_r.
  - pose proof H as (Hi1 & Hi & Hown & base & k & Hb & Hf & Hs). zcase (i <? 32).
    + rewrite (check_passes hartid i m h) by done. cbn [mbind outcome_bind]. rewrite Z.eqb_refl. red. cbn [mbind outcome_bind negb fst snd goto at_ hart_count rank].
      split_and!; [done|lia|lia|left]. unfold holder_ok. simpl. by split_and!.
    + red. cbn [mbind outcome_bind fst snd goto at_ hart_count rank]. split_and!; [done|lia|lia|left]. unfold holder_ok, rewriting. simpl. split_and!; [done|done|done|].
      by replace 32 with i by lia.
  - destruct H as (Hi32 & Hi1 & Hi & Hown & base & k & Hb & Hf & Hs). rewrite aset_in_range by lia. red.
    cbn [mbind outcome_bind fst snd goto at_ hart_count rank]. split_and!; [done|lia|lia|left]. unfold holder_ok, rewriting. simpl. split_and!; [done|by rewrite length_insert|done|lia|lia| |].
    + apply spells_snoc; [lia|done| |done]. apply letter_ok; lia.
    + exists base, k. split_and!; [done|done|]. apply spells_insert; [lia|lia|done|left; lia|]. intros j Hj. apply Hs. lia.
  - destruct H as (Hi1 & Hown). unfold atomic_xchg. red. cbn [fst snd goto at_ hart_count rank]. split_and!; [done|lia|lia|right].
    split; [done|]. split; [done|]. split; [done|]. right. split; [done|]. exists (base_of hartid), (hartid + hart_count h). split; [apply base_of_is|done].
Qed.

(** ** Every step keeps the invariant *)

Lemma holder_critical (hartid : Z) (m : shared) (h : hart) : holder_ok hartid m h -> critical h.
Proof. intros (_ & _ & H). unfold critical. by destruct (at_ h). Qed.

Lemma out_insert (i : nat) (h : hart) (l : list hart) : others_out i l -> others_out i (<[i := h]> l).
Proof. intros H j h' Hj Hne. rewrite list_lookup_insert_ne in Hj by done. by eapply H. Qed.

Lemma free_insert (i : nat) (h : hart) (l : list hart) : ~ critical h -> Forall (fun h => ~ critical h) l -> Forall (fun h => ~ critical h) (<[i := h]> l).
Proof. intros Hh Hl. by apply Forall_insert. Qed.

Lemma free_others (i : nat) (l : list hart) : Forall (fun h => ~ critical h) l -> others_out i l.
Proof. intros Hl j h Hj _. exact (Forall_lookup_1 _ _ _ _ Hl Hj). Qed.

Lemma others_free (i : nat) (h : hart) (l : list hart) : (i < length l)%nat -> ~ critical h -> others_out i l -> Forall (fun h => ~ critical h) (<[i := h]> l).
Proof.
  intros Hi Hh Ho. apply Forall_lookup_2. intros j h' Hj. destruct (decide (j = i)) as [->|].
  - rewrite list_lookup_insert_eq in Hj by done. by simplify_eq.
  - rewrite list_lookup_insert_ne in Hj by done. by eapply Ho.
Qed.

Lemma interrupt_inv (s : state) (i : nat) (h : hart) (mtime : Z) :
  harts s !! i = Some h -> inv s -> inv (State (mem s) (<[i := increment_count mtime h]> (harts s))).
Proof.
  intros Hh [(Hlk & Hf & Hn)|(k & g & Hk & Hok & Ho)].
  - left. split; [done|]. split; [exact Hf|]. apply free_insert; [exact (Forall_lookup_1 _ _ _ _ Hn Hh)|done].
  - right. destruct (decide (k = i)) as [->|Hne].
    + rewrite Hh in Hk. injection Hk as <-. exists i, (increment_count mtime h). cbn [mem harts].
      split; [by apply list_lookup_insert_eq, (lookup_lt_Some _ _ _ Hh)|]. split; [exact Hok|by apply out_insert].
    + exists k, g. cbn [mem harts]. rewrite list_lookup_insert_ne by done. split; [done|]. split; [exact Hok|].
      intros j h' Hj Hjk. destruct (decide (j = i)) as [->|].
      * rewrite list_lookup_insert_eq in Hj by (by eapply lookup_lt_Some). simplify_eq. exact (Ho i h Hh Hjk).
      * rewrite list_lookup_insert_ne in Hj by done. by eapply Ho.
Qed.

(** A hart outside its critical section. *)
Lemma outside_step (mtime hartid : Z) (m : shared) (h : hart) : ~ critical h ->
  owp (hart_step mtime hartid m h) (fun r =>
    (r.1 = m /\ ~ critical r.2) \/
    at_ h = Get /\ r.1 = Shared 1 (buf m) (buf_initialized m) /\ at_ r.2 = if lock m =? 1 then Get else TestInit).
Proof.
  intros Hn. unfold hart_step, critical in *. destruct (at_ h) eqn:E; try (exfalso; by apply Hn).
  - left. done.
  - right. done.
  - left. done.
Qed.

Lemma hart_step_inv (s : state) (i : nat) (h h' : hart) (m' : shared) (mtime : Z) :
  small s -> inv s -> harts s !! i = Some h -> hart_step mtime (Z.of_nat i) (mem s) h = Ok (m', h') ->
  inv (State m' (<[i := h']> (harts s))).
Proof.
  intros Hsm Hinv Hh Hst. pose proof (lookup_lt_Some _ _ _ Hh) as Hlt.
  destruct Hinv as [(Hlk & Hf & Hn)|(k & g & Hk & Hok & Ho)].
  - pose proof (outside_step mtime (Z.of_nat i) (mem s) h (Forall_lookup_1 _ _ _ _ Hn Hh)) as H. rewrite Hst in H.
    destruct H as [[H1 H2]|(_ & H1 & H2)]; cbn [fst snd] in *; subst m'.
    + left. split; [done|]. split; [exact Hf|]. by apply free_insert.
    + rewrite Hlk in H2. right. exists i, h'. cbn [mem harts]. split; [by apply list_lookup_insert_eq|].
      split; [|by apply out_insert, free_others]. unfold holder_ok. rewrite H2. split; [done|]. split; [apply Hf|exact Hf].
  - destruct (decide (k = i)) as [->|Hne].
    + rewrite Hh in Hk. injection Hk as <-. destruct (Hsm i h Hh) as [Hc Hb].
      pose proof (holder_step mtime (Z.of_nat i) (mem s) h ltac:(lia) Hc Hb Hok) as H. rewrite Hst in H.
      destruct H as (_ & _ & [H|(H1 & H2 & H3)]); cbn [fst snd] in *.
      * right. exists i, h'. cbn [mem harts]. split; [by apply list_lookup_insert_eq|]. split; [done|by apply out_insert].
      * left. cbn [mem harts]. split; [done|]. split; [exact H3|]. apply others_free; [done| |done]. unfold critical. rewrite H1. tauto.
    + pose proof (outside_step mtime (Z.of_nat i) (mem s) h (Ho i h Hh ltac:(done))) as H. rewrite Hst in H.
      assert (m' = mem s /\ ~ critical h') as [-> Hn].
      { destruct H as [H|(_ & H1 & H2)]; [done|]. cbn [fst snd] in *. destruct Hok as (Hlk & _ & _). rewrite Hlk in H2.
        unfold critical. rewrite H2. split; [|tauto]. subst m'. destruct (mem s). simpl in *. by subst. }
      right. exists k, g. cbn [mem harts]. rewrite list_lookup_insert_ne by done. split; [done|]. split; [exact Hok|].
      intros j h'' Hj Hjk. destruct (decide (j = i)) as [->|]; [rewrite list_lookup_insert_eq in Hj by done; by simplify_eq|].
      rewrite list_lookup_insert_ne in Hj by done. by eapply Ho.
Qed.

Lemma initial_inv (n : nat) : inv (initial n).
Proof.
  left. split; [done|]. split; [|apply Forall_replicate; unfold critical; tauto]. split; [done|]. by left.
Qed.

Lemma small_initial (n : nat) : Z.of_nat n + 32 <= 2 ^ 32 -> small (initial n).
Proof.
  intros Hn i h Hh. unfold initial in Hh. cbn [harts] in Hh. apply lookup_replicate in Hh as [-> Hi]. simpl. lia.
Qed.

Lemma reachable_inv (n : nat) (s : state) : Z.of_nat n + 32 <= 2 ^ 32 -> reachable_small n s -> inv s /\ small s.
Proof.
  intros Hn. unfold reachable_small. revert s. apply (rtc_ind_r (fun s => inv s /\ small s)).
  - split; [apply initial_inv|by apply small_initial].
  - intros s s' _ [Hst Hsm] [IH1 IH2]. split; [|done]. destruct Hst as [s i h h' m' mtime Hh Hs|s i h mtime Hh Hat]; [by eapply hart_step_inv|by apply interrupt_inv].
Qed.

(** ** The lock is released *)

(** Running on alone, the hart that has the lock gives it back. *)
Lemma holder_releases (r : nat) (s : state) (i : nat) (h : hart) :
  small s -> harts s !! i = Some h -> holder_ok (Z.of_nat i) (mem s) h -> rank (at_ h) <= Z.of_nat r ->
  exists s' h', rtc step s s' /\ lock (mem s') = 0 /\ at_ h' = Count /\ harts s' = <[i := h']> (harts s).
Proof.
  revert s h. induction r as [|r IH]; intros s h Hsm Hh Hok Hr.
  - destruct (Hsm i h Hh) as [Hc Hb]. pose proof (holder_step 0 (Z.of_nat i) (mem s) h ltac:(lia) Hc Hb Hok) as H.
    apply owp_ok in H as (x & _ & _ & H & _). lia.
  - pose proof (lookup_lt_Some _ _ _ Hh) as Hlt. destruct (Hsm i h Hh) as [Hc Hb].
    pose proof (holder_step 0 (Z.of_nat i) (mem s) h ltac:(lia) Hc Hb Hok) as H.
    apply owp_ok in H as ([m' h'] & E & Hcnt & Hrk & Hnext). cbn [fst snd] in *.
    pose proof (step_hart s i h h' m' 0 Hh E) as Hst. destruct Hnext as [Hok'|(H1 & H2 & H3)].
    + destruct (IH (State m' (<[i := h']> (harts s))) h') as (s' & g & Hrtc & Hlk & Hat & Hs').
      * intros j k Hj. cbn [harts] in Hj. destruct (decide (j = i)) as [->|].
        -- rewrite list_lookup_insert_eq in Hj by done. injection Hj as <-. rewrite Hcnt. done.
        -- rewrite list_lookup_insert_ne in Hj by done. by apply Hsm.
      * by apply list_lookup_insert_eq.
      * done.
      * lia.
      * exists s', g. split; [by eapply rtc_l|]. split_and!; [done|done|]. rewrite Hs'. cbn [harts]. apply list_insert_insert_eq.
    + eexists _, h'. split; [by apply rtc_once|]. by split_and!.
Qed.

(** ** Mutual exclusion does not depend on the counters *)

Definition index_ok (p : pc) : Prop :=
  match p with Fill i | Check i => 0 <= i <= 32 | Store i => 0 <= i < 32 | _ => True end.

Definition guarded (s : state) : Prop :=
  length (buf (mem s)) = 32%nat /\ Forall (fun h => index_ok (at_ h)) (harts s) /\
  (Forall (fun h => ~ critical h) (harts s) \/
   lock (mem s) = 1 /\ exists i h, harts s !! i = Some h /\ critical h /\ others_out i (harts s)).

Lemma any_step (mtime hartid : Z) (m : shared) (h : hart) :
  length (buf m) = 32%nat -> index_ok (at_ h) ->
  owp (hart_step mtime hartid m h) (fun r => length (buf r.1) = 32%nat /\ index_ok (at_ r.2) /\
    (critical h -> lock r.1 = lock m /\ critical r.2 \/ ~ critical r.2)).
Proof.
  intros Hl Hi. unfold hart_step, critical. destruct (at_ h) as [| | |i| |i|i| |] eqn:Epc; cbn [index_ok] in Hi.
  - red. cbn. tauto.
  - red. cbn. split; [done|]. destruct (lock m =? 1); cbn; tauto.
  - red. cbn. split; [done|]. destruct (buf_initialized m =? 0); cbn; (split; [lia || done|tauto]).
  - zcase (i <? 32); [rewrite aset_in_range by lia|]; red; cbn; (split; [by rewrite ?length_insert|]); (split; [lia || done|tauto]).
  - destruct (aget_in_range (buf m) 0 ltac:(lia)) as (c & _ & ->). red. cbn. split; [done|]. split; [lia|tauto].
  - zcase (i <? 32); [destruct (aget_in_range (buf m) i ltac:(lia)) as (c & _ & ->)|]; red; cbn; (split; [done|]); [|tauto].
    destruct (negb _); cbn; (split; [lia|tauto]).
  - rewrite aset_in_range by lia. red. cbn. split; [by rewrite length_insert|]. split; [lia|tauto].
  - red. cbn. tauto.
  - red. cbn. tauto.
Qed.

Lemma hart_step_guarded (s : state) (i : nat) (h h' : hart) (m' : shared) (mtime : Z) :
  guarded s -> harts s !! i = Some h -> hart_step mtime (Z.of_nat i) (mem s) h = Ok (m', h') -> guarded (State m' (<[i := h']> (harts s))).
Proof.
  intros (Hl & Hix & Hg) Hh Hst. pose proof (lookup_lt_Some _ _ _ Hh) as Hlt.
  pose proof (any_step mtime (Z.of_nat i) (mem s) h Hl (Forall_lookup_1 _ _ _ _ Hix Hh)) as H. rewrite Hst in H. destruct H as (Hl' & Hix' & Hc). cbn [fst snd] in *.
  split; [done|]. split; [by apply Forall_insert|]. cbn [mem harts]. destruct (decide (critical h)) as [Hcr|Hcr].
  - destruct Hg as [Hn|(Hlk & k & g & Hk & Hgc & Ho)]; [destruct (Forall_lookup_1 _ _ _ _ Hn Hh Hcr)|].
    destruct (decide (i = k)) as [->|Hne]; [|destruct (Ho i h Hh Hne Hcr)].
    destruct (Hc Hcr) as [[E Hcr']|Hcr']; [right; split; [congruence|]|left; by apply others_free].
    exists k, h'. split; [by apply list_lookup_insert_eq|]. split; [done|by apply out_insert].
  - pose proof (outside_step mtime (Z.of_nat i) (mem s) h Hcr) as H. rewrite Hst in H. cbn [fst snd owp] in H.
    destruct Hg as [Hn|(Hlk & k & g & Hk & Hgc & Ho)].
    + destruct H as [[-> Hn']|(_ & -> & _)]; [left; by apply free_insert|].
      destruct (decide (critical h')) as [Hcr'|Hcr']; [|left; by apply free_insert]. right. split; [done|].
      exists i, h'. split; [by apply list_lookup_insert_eq|]. split; [done|]. by apply out_insert, free_others.
    + right. destruct (decide (i = k)) as [->|Hne]; [by rewrite Hh in Hk; simplify_eq|].
      assert (lock m' = 1 /\ ~ critical h') as [El Hn'].
      { destruct H as [[-> Hn']|(_ & -> & E)]; [done|]. split; [done|]. rewrite Hlk in E. unfold critical. rewrite E. cbn. tauto. }
      split; [done|]. exists k, g. rewrite list_lookup_insert_ne by done. split; [done|]. split; [done|].
      intros j h'' Hj Hjk. destruct (decide (j = i)) as [->|]; [rewrite list_lookup_insert_eq in Hj by done; by simplify_eq|].
      rewrite list_lookup_insert_ne in Hj by done. by eapply Ho.
Qed.

Lemma interrupt_guarded (s : state) (i : nat) (h : hart) (mtime : Z) :
  harts s !! i = Some h -> guarded s -> guarded (State (mem s) (<[i := increment_count mtime h]> (harts s))).
Proof.
  intros Hh (Hl & Hix & Hg). split; [done|]. split; [apply Forall_insert; [done|exact (Forall_lookup_1 _ _ _ _ Hix Hh)]|]. cbn [mem harts].
  destruct Hg as [Hn|(Hlk & k & g & Hk & Hgc & Ho)]; [left; apply free_insert; [exact (Forall_lookup_1 _ _ _ _ Hn Hh)|done]|].
  right. split; [done|]. destruct (decide (k = i)) as [->|Hne].
  - rewrite Hh in Hk. injection Hk as <-. exists i, (increment_count mtime h).
    split; [by apply list_lookup_insert_eq, (lookup_lt_Some _ _ _ Hh)|]. split; [exact Hgc|by apply out_insert].
  - exists k, g. rewrite list_lookup_insert_ne by done. split; [done|]. split; [done|].
    intros j h' Hj Hjk. destruct (decide (j = i)) as [->|]; [|rewrite list_lookup_insert_ne in Hj by done; by eapply Ho].
    rewrite list_lookup_insert_eq in Hj by (by eapply lookup_lt_Some). simplify_eq. exact (Ho i h Hh Hjk).
Qed.

Lemma reachable_guarded (n : nat) (s : state) : reachable n s -> guarded s.
Proof.
  unfold reachable. revert s. apply (rtc_ind_r guarded).
  - split; [done|]. split; [by apply Forall_replicate|]. left. apply Forall_replicate. unfold critical. tauto.
  - intros s s' _ Hst IH. destruct Hst as [s i h h' m' mtime Hh Hs|s i h mtime Hh Hat]; [by eapply hart_step_guarded|by apply interrupt_guarded].
Qed.

(** [C14] Harts that share the buffer, any number of them, interleaved and
    interrupted in any way: every step is defined, and no two harts are between
    [get_lock] and [put_lock] at once.  As long as no counter has come within
    32 and the number of the hart of 2^32, moreover, the comparison in the inner loop always succeeds, so
    that no hart spins while it has the lock; the lock can always be released;
    and when nobody has it the buffer, once it is filled, spells the alphabet
    in one case from some letter on. *)
Theorem multicore_correct (n : nat) (s : state) :
  reachable n s ->
  (forall i h mtime, harts s !! i = Some h -> owp (hart_step mtime (Z.of_nat i) (mem s) h) (fun _ => True)) /\
  (forall i j g h, harts s !! i = Some g -> harts s !! j = Some h -> critical g -> critical h -> i = j) /\
  (Z.of_nat n + 32 <= 2 ^ 32 -> reachable_small n s ->
    (forall i h k mtime, harts s !! i = Some h -> at_ h = Check k -> k < 32 ->
      hart_step mtime (Z.of_nat i) (mem s) h = Ok (mem s, goto h (Store k))) /\
    (exists s', rtc step s s' /\ lock (mem s') = 0) /\
    (lock (mem s) = 0 -> buf_initialized (mem s) = 0 \/ spelled (mem s))).
Proof.
  intros Hr. destruct (reachable_guarded n s Hr) as (Hl & Hix & Hg). split; [|split].
  - intros i h mtime Hh. by eapply owp_mono; [apply any_step; [done|exact (Forall_lookup_1 _ _ _ _ Hix Hh)]|].
  - intros i j g h Hi Hj Hgc Hhc. destruct Hg as [Hno|(_ & k & f & Hk & _ & Ho)]; [destruct (Forall_lookup_1 _ _ _ _ Hno Hi Hgc)|].
    destruct (decide (i = k)) as [->|Hne]; [|destruct (Ho i g Hi Hne Hgc)].
    destruct (decide (j = k)) as [->|Hne]; [done|destruct (Ho j h Hj Hne Hhc)].
  - intros Hn Hrs. destruct (reachable_inv n s Hn Hrs) as [Hinv Hsm]. split_and!.
    + intros i h k mtime Hh Hat Hlt. assert (critical h) as Hc by (unfold critical; by rewrite Hat).
      destruct Hinv as [(_ & _ & Hno)|(l & f & Hk & Hok & Ho)]; [destruct (Forall_lookup_1 _ _ _ _ Hno Hh Hc)|].
      destruct (decide (i = l)) as [->|Hne]; [|destruct (Ho i h Hh Hne Hc)]. rewrite Hh in Hk. injection Hk as <-.
      destruct Hok as (_ & _ & Hrw). rewrite Hat in Hrw. unfold hart_step. rewrite Hat, (proj2 (Z.ltb_lt k 32) Hlt).
      rewrite (check_passes _ _ _ _ Hlt Hrw). cbn [mbind outcome_bind]. by rewrite Z.eqb_refl.
    + destruct Hinv as [(Hlk & _)|(i & h & Hi & Hok & Ho)]; [by exists s|].
      destruct (holder_releases (Z.to_nat (rank (at_ h))) s i h Hsm Hi Hok) as (s' & h' & H1 & H2 & _); [lia|]. by exists s'.
    + intros Hlk. destruct Hinv as [(_ & (_ & [Hf|[_ Hf]]) & _)|(i & h & _ & (H1 & _) & _)]; [by left|by right|lia].
Qed.

(** ** Runs *)

(** An executable scheduler that stops where [check] fails. *)
Fixpoint run (check : state -> bool) (schedule : list nat) (s : state) : outcome state :=
  match schedule with
  | [] => Ok s
  | i :: schedule =>
      h ← of_option (harts s !! i); '(m, h) ← hart_step 0 (Z.of_nat i) (mem s) h;
      let s := State m (<[i := h]> (harts s)) in
      if check s then run check schedule s else UB
  end.

Definition smallb (s : state) : bool :=
  forallb (fun '(i, h) => (0 <=? hart_count h) && (Z.of_nat i + hart_count h + 32 <=? 2 ^ 32)) (imap pair (harts s)).

Lemma smallb_small (s : state) : smallb s = true -> small s.
Proof.
  unfold smallb. rewrite forallb_forall. intros H i h Hh. specialize (H (i, h)). cbv beta iota in H.
  rewrite andb_true_iff, !Z.leb_le in H. apply H, list_elem_of_In, list_elem_of_lookup. exists i. by rewrite list_lookup_imap, Hh.
Qed.

Lemma run_reachable (n : nat) (schedule : list nat) (s s' : state) : reachable_small n s -> run smallb schedule s = Ok s' -> reachable_small n s'.
Proof.
  revert s. induction schedule as [|i schedule IH]; intros s Hr Hrun; cbn [run] in Hrun; [by simplify_eq|].
  destruct (harts s !! i) as [h|] eqn:Hh; [|done]. cbn [of_option mbind outcome_bind] in Hrun.
  destruct (hart_step 0 (Z.of_nat i) (mem s) h) as [[m h']| |] eqn:Hst; [|done|done]. cbn [mbind outcome_bind] in Hrun. cbv zeta in Hrun.
  destruct (smallb _) eqn:Hs; [|done]. apply (IH _) in Hrun; [done|]. eapply rtc_r; [exact Hr|]. split; [by eapply step_hart|by apply smallb_small].
Qed.

(** Two harts: hart 0 is in the middle of its text when hart 1 waits. *)
Definition demo : list nat := replicate 90 0%nat ++ replicate 9 1%nat.

Example demo_text :
  (fun s => (lock (mem s), at_ <$> harts s)) <$> (match run smallb demo (initial 2) with Ok s => Some s | _ => None end)
    = Some (1, [Store 26; Get]).
Proof. vm_compute. reflexivity. Qed.

Lemma small_reachable (n : nat) (s : state) : reachable_small n s -> reachable n s.
Proof. unfold reachable_small, reachable. apply rtc_subrel. by intros ? ? [? _]. Qed.

Lemma multicore_correct_witness : exists s, reachable 2 s /\ reachable_small 2 s /\ lock (mem s) = 1 /\ exists s', rtc step s s' /\ lock (mem s') = 0.
Proof.
  destruct (run smallb demo (initial 2)) as [s| |] eqn:E; [|vm_compute in E; discriminate|vm_compute in E; discriminate].
  assert (reachable_small 2 s) as Hr by (apply (run_reachable 2 demo (initial 2)); [apply rtc_refl|exact E]).
  exists s. split; [by apply small_reachable|]. split; [exact Hr|]. split; [vm_compute in E; injection E as <-; reflexivity|].
  destruct (multicore_correct 2 s (small_reachable 2 s Hr)) as (_ & _ & H). exact (proj1 (proj2 (H ltac:(lia) Hr))).
Defined.

(** When a counter wraps the text has a gap: the hart that writes it finds it
    and never leaves its loop again, and the lock is lost. *)
Definition worn : state :=
  State (Shared 0 (letter 0 (2 ^ 32 - 32) <$> seqZ 0 32) 1) [Hart Get 0 (2 ^ 32 - 31) 0 0].

Example counter_wraps :
  match run (fun _ => true) (replicate 140 0%nat) worn with
  | Ok s => lock (mem s) = 1 /\ run (fun _ => true) [0%nat] s = Ok s /\ at_ <$> harts s = [Check 31]
  | _ => False
  end.
Proof. vm_compute. done. Qed.
End Multicore.
