(* ===== verification/Translate.v ===== *)
(** * A program with its own page tables

    debug/programs/translate.c, which a debugger stops in to look at memory
    through a translation.  The program is modelled for the systems it
    describes, the page-table walker of the hart as the architecture defines
    it; memory is the static buffer, in words of 32 bits.  An endless loop of
    the code ([error], [get_page] without pages) is [Fuel], an access that
    faults is [UB].  The debugger sets [vms] before it lets [main] run. *)

From S2P Require Import Prelude.

Module Translate.

(** ** The program *)

Definition PTE_V : Z := 0x001.
Definition PTE_R : Z := 0x002.
Definition PTE_W : Z := 0x004.
Definition PTE_X : Z := 0x008.
Definition PTE_U : Z := 0x010.
Definition PTE_A : Z := 0x040.
Definition PTE_D : Z := 0x080.
Definition PTE_PPN_SHIFT : Z := 10.
Definition MSTATUS_MPP : Z := 0x00001800.
Definition MSTATUS_MPRV : Z := 0x00020000.

Definition SATP_MODE (xlen : Z) : Z := if xlen =? 64 then 0xF000000000000000 else 0x80000000.
Definition SATP_PPN (xlen : Z) : Z := if xlen =? 64 then 0x00000FFFFFFFFFFF else 0x003FFFFF.

Record virtual_memory_system_t := Vms {
  mode : Z; levels : Z; ppn_width_bits : list Z; ppn_offset_bits : list Z;
  entry_width_bytes : Z; vpn_width_bits : Z; vaddr_bits : Z }.

Definition sv32 : virtual_memory_system_t := Vms 1 2 [12; 10; 10] [0; 12; 22] 4 10 32.
Definition sv39 : virtual_memory_system_t := Vms 8 3 [12; 9; 9; 26] [0; 12; 21; 30] 8 9 39.
Definition sv48 : virtual_memory_system_t := Vms 9 4 [12; 9; 9; 9; 26] [0; 12; 21; 30; 39] 8 9 48.

(** Words of the buffer, by their address. *)
Abbreviation words := (gmap Z Z).
Definition ld32 (m : words) (p : Z) : outcome Z := of_option (m !! p).
Definition st32 (m : words) (p v : Z) : outcome words := _ ← of_option (m !! p); Ok (<[p := u32 v]> m).
Definition ld64 (m : words) (p : Z) : outcome Z := lo ← ld32 m p; hi ← ld32 m (p + 4); Ok (lo + 2 ^ 32 * hi).
Definition st64 (m : words) (p v : Z) : outcome words := m ← st32 m p v; st32 m (p + 4) (Z.shiftr v 32).

Definition flag (x m : Z) : bool := negb (Z.land x m =? 0).
Definition error {A : Type} : outcome A := Fuel.
Definition assert (condition : bool) : outcome unit := if condition then Ok tt else error.

Section Program.
Context (xlen : Z) (vms : virtual_memory_system_t) (page_buffer : Z).

(** [(reg_t) x] and [(unsigned long) x]. *)
Abbreviation reg := (uwrap xlen).

Definition page_buffer_size : Z := 4096 * 6.

(** The page and the new value of [page_buffer_next]. *)
Definition get_page (page_buffer_next : Z) : outcome (Z * Z) :=
  let page_buffer_next := Z.land (reg (page_buffer_next + 4095)) (Z.lnot 0xfff) in
  if page_buffer + page_buffer_size <=? page_buffer_next + 4096 then Fuel
  else Ok (page_buffer_next, page_buffer_next + 4096).

Definition entry (m : words) (table index : Z) : outcome Z :=
  if entry_width_bytes vms =? 4 then v ← ld32 m (table + 4 * index); Ok (reg v)
  else if entry_width_bytes vms =? 8 then v ← ld64 m (table + 8 * index); Ok (reg v)
  else error.

Definition entry_set (m : words) (table index value : Z) : outcome words :=
  if entry_width_bytes vms =? 4 then st32 m (table + 4 * index) value
  else if entry_width_bytes vms =? 8 then st64 m (table + 8 * index) value
  else error.

Definition all_flags : Z :=
  Z.lor (Z.lor (Z.lor (Z.lor (Z.lor (Z.lor PTE_V PTE_R) PTE_W) PTE_X) PTE_U) PTE_A) PTE_D.

(** Entry [i] of the table; [1LL << n] stays below 2^63. *)
Definition identity_pte (level physical i : Z) : Z :=
  let pte := all_flags in
  let pte := Z.lor pte (Z.land physical (Z.shiftl (Z.shiftl 1 (vpn_width_bits vms) - 1) (PTE_PPN_SHIFT + (level + 1) * vpn_width_bits vms))) in
  Z.lor pte (reg (Z.shiftl i (PTE_PPN_SHIFT + level * vpn_width_bits vms))).

Definition setup_page_table (m : words) (table level physical : Z) : outcome words :=
  oloop 0 (Z.shiftl 1 (vpn_width_bits vms)) (fun i m => entry_set m table i (identity_pte level physical i)) m.

Definition vpn (virtual level : Z) : Z :=
  Z.land (Z.shiftr virtual (12 + vpn_width_bits vms * level)) (Z.shiftl 1 (vpn_width_bits vms) - 1).

(** [1 << n] of type [int]. *)
Definition shift_one (n : Z) : outcome Z := if n <? 31 then Ok (Z.shiftl 1 n) else UB.

Fixpoint add_loop (fuel : nat) (m : words) (next table level virtual physical current_level : Z) : outcome (words * Z) :=
  match fuel with
  | O => Fuel
  | S fuel =>
      let index := vpn virtual current_level in
      if current_level <=? level then
        b ← shift_one (PTE_PPN_SHIFT + current_level * vpn_width_bits vms);
        m ← entry_set m table index (Z.lor all_flags (Z.land (Z.shiftr physical 2) (Z.lnot (b - 1))));
        Ok (m, next)
      else
        pte ← entry m table index;
        if negb (flag pte PTE_V) || (flag pte PTE_R && flag pte PTE_W) then
          '(new_page, next) ← get_page next;
          m ← setup_page_table m new_page (current_level - 1) virtual;
          m ← entry_set m table index (Z.lor PTE_V (Z.land (Z.shiftr new_page 2) (Z.lnot (Z.shiftl 1 10 - 1))));
          add_loop fuel m next new_page level virtual physical (current_level - 1)
        else add_loop fuel m next (Z.land pte (Z.lnot 0xfff)) level virtual physical (current_level - 1)
  end.

Definition add_entry (m : words) (next table level virtual physical : Z) : outcome (words * Z) :=
  add_loop (Z.to_nat (levels vms)) m next table level virtual physical (levels vms - 1).

Definition get_field (r mask : Z) : Z := Z.land r mask / Z.land mask (Z.lnot (Z.shiftl mask 1)).
Definition set_field (r mask val : Z) : Z :=
  Z.lor (Z.land r (Z.lnot mask)) (Z.land (reg (val * Z.land mask (Z.lnot (Z.shiftl mask 1)))) mask).

(** ** The hart *)

(** A virtual address is the sign extension of its low bits. *)
Definition canonical (va : Z) : bool := (vaddr_bits vms =? xlen) || (reg (swrap (vaddr_bits vms) va) =? va).

Definition pte_ppn (pte : Z) : Z := Z.shiftr pte PTE_PPN_SHIFT.

(** Bits 63 to 54 are reserved. *)
Definition malformed (pte : Z) : bool :=
  negb (flag pte PTE_V) || (negb (flag pte PTE_R) && flag pte PTE_W) || (2 ^ 54 <=? pte).

(** The address for a load ([write = false]) or a store of a user program. *)
Fixpoint walk (m : words) (write : bool) (level : nat) (table va : Z) : option Z :=
  match entry m table (vpn va (Z.of_nat level)) with
  | Ok pte =>
      let low := vpn_width_bits vms * Z.of_nat level in
      if malformed pte then None
      else if flag pte PTE_R || flag pte PTE_X then
        if negb (flag pte PTE_U && flag pte PTE_R && flag pte PTE_A) then None
        else if write && negb (flag pte PTE_W && flag pte PTE_D) then None
        else if negb (pte_ppn pte mod 2 ^ low =? 0) then None
        else Some (pte_ppn pte / 2 ^ low * 2 ^ (12 + low) + va mod 2 ^ (12 + low))
      else if flag pte PTE_U || flag pte PTE_A || flag pte PTE_D then None
      else match level with O => None | S level => walk m write level (pte_ppn pte * 4096) va end
  | _ => None
  end.

Definition translate (m : words) (satp : Z) (write : bool) (va : Z) : option Z :=
  if canonical va then walk m write (Z.to_nat (levels vms - 1)) (Z.land satp (SATP_PPN xlen) * 4096) va else None.

(** The access of machine-mode code: with MPRV set and user mode in MPP, which
    entry.S leaves there, it is that of a user program; the other modes of MPP
    are not described. *)
Definition data_address (m : words) (satp mstatus : Z) (write : bool) (va : Z) : option Z :=
  if flag mstatus MSTATUS_MPRV then (if flag mstatus MSTATUS_MPP then None else translate m satp write va) else Some va.

Definition vload (m : words) (satp mstatus va : Z) : outcome Z := pa ← of_option (data_address m satp mstatus false va); ld32 m pa.
Definition vstore (m : words) (satp mstatus va v : Z) : outcome words := pa ← of_option (data_address m satp mstatus true va); st32 m pa v.

(** ** main *)

(** [virtual], sign-extended. *)
Definition virtual_of (physical : Z) : Z :=
  let virtual := Z.lxor physical (reg (Z.shiftl 0xf (vaddr_bits vms - 4))) in
  if (vaddr_bits vms <? xlen) && flag virtual (Z.shiftl 1 (vaddr_bits vms - 1))
  then reg (Z.lor virtual (Z.lnot (Z.shiftl 1 (vaddr_bits vms) - 1))) else virtual.

(** [supported]: the modes that [satp] takes; with another one the write has
    no effect. *)
Definition main (supported : Z -> bool) (satp0 mstatus : Z) (m : words) : outcome (words * Z * Z) :=
  '(master_table, next) ← get_page page_buffer;
  m ← setup_page_table m master_table (levels vms - 1) 0;
  '(physical, next) ← get_page next;
  let virtual := virtual_of physical in
  '(m, next) ← add_entry m next master_table 0 virtual physical;
  let satp := set_field 0 (SATP_MODE xlen) (mode vms) in
  let satp := set_field satp (SATP_PPN xlen) (Z.shiftr master_table 12) in
  let satp := if supported (get_field satp (SATP_MODE xlen)) then satp else satp0 in
  _ ← (if get_field satp (SATP_MODE xlen) =? mode vms then Ok tt else error);
  let mstatus := Z.lor mstatus MSTATUS_MPRV in
  m ← vstore m satp mstatus physical 0xdeadbeef;
  m ← vstore m satp mstatus (virtual + 4) 0x55667788;
  v ← vload m satp mstatus virtual; _ ← assert (v =? 0xdeadbeef);
  v ← vload m satp mstatus physical; _ ← assert (v =? 0xdeadbeef);
  v ← vload m satp mstatus (virtual + 4); _ ← assert (v =? 0x55667788);
  v ← vload m satp mstatus (physical + 4); _ ← assert (v =? 0x55667788);
  Ok (m, satp, mstatus).

(** The buffer is static. *)
Definition initial : words :=
  list_to_map ((fun k => ((page_buffer + 3) / 4 * 4 + 4 * k, 0)) <$>
    seqZ 0 ((page_buffer + page_buffer_size) / 4 - (page_buffer + 3) / 4)).
End Program.
End Translate.
