(* ===== verification/TranslateSpec.v ===== *)
(** * The page tables of translate.c map what they should

    After [main] the page of [virtual] is mapped to [physical], every address
    under another entry of the top table to itself, and the values the program
    writes through one address it reads through the other. *)

From S2P Require Import Prelude Translate.

Module TranslateSpec.
Import Translate.

(** ** Bits *)

Lemma land_low (x mk : Z) : 0 <= mk < 1024 -> Z.land x mk = Z.land (x mod 1024) mk.
Proof.
  intros Hm. assert (Z.land mk (Z.ones 10) = mk) as E by (rewrite Z.land_ones by lia; apply Z.mod_small; lia).
  rewrite <-E at 1. rewrite (Z.land_comm mk), Z.land_assoc, Z.land_ones by lia. done.
Qed.

Lemma flag_low (x f mk : Z) : 0 <= mk < 1024 -> x mod 1024 = f -> flag x mk = flag f mk.
Proof. intros Hm Hf. unfold flag. by rewrite land_low, Hf. Qed.

Lemma lor_add (a b : Z) : 0 <= a < 1024 -> b mod 1024 = 0 -> Z.lor a b = a + b.
Proof.
  intros Ha Hb. assert (Z.land a b = 0) as E by (rewrite Z.land_comm, land_low, Hb by lia; done).
  rewrite Z.add_nocarry_lxor by done. by rewrite Z.lxor_lor.
Qed.

Lemma clear_low (n x : Z) : 0 <= n -> Z.land x (Z.lnot (Z.ones n)) = x / 2 ^ n * 2 ^ n.
Proof. intros Hn. rewrite <-Z.ldiff_land, Z.ldiff_ones_r, Z.shiftl_mul_pow2, Z.shiftr_div_pow2 by done. done. Qed.

Lemma mod_lor (a b n : Z) : 0 <= n -> Z.lor a b mod 2 ^ n = Z.lor (a mod 2 ^ n) (b mod 2 ^ n).
Proof. intros Hn. rewrite <-!Z.land_ones by done. apply Z.land_lor_distr_l. Qed.

Lemma mod_land_shift (x c k : Z) : 10 <= k -> Z.land x (Z.shiftl c k) mod 2 ^ 10 = 0.
Proof.
  intros Hk. rewrite <-Z.land_ones, <-Z.land_assoc, (Z.land_ones (Z.shiftl c k)), Z.shiftl_mul_pow2 by lia.
  replace (c * 2 ^ k) with (c * 2 ^ (k - 10) * 2 ^ 10) by (rewrite <-Z.mul_assoc, <-Z.pow_add_r by lia; do 2 f_equal; lia).
  by rewrite Z.mod_mul, Z.land_0_r.
Qed.

Lemma land_shiftl (x c k : Z) : 0 <= k -> Z.land x (Z.shiftl c k) = Z.shiftl (Z.land (Z.shiftr x k) c) k.
Proof.
  intros Hk. apply Z.bits_inj'. intros n Hn. rewrite Z.land_spec, !Z.shiftl_spec, Z.land_spec by done.
  destruct (decide (k <= n)) as [H|H]; [|by rewrite !(Z.testbit_neg_r _ (n - k)) by lia; rewrite andb_false_r].
  rewrite Z.shiftr_spec by lia. by replace (n - k + k) with n by lia.
Qed.

Lemma lor_parts (k a b : Z) : 0 <= k -> 0 <= a < 2 ^ k -> Z.lor a (b * 2 ^ k) = a + b * 2 ^ k.
Proof.
  intros Hk Ha. rewrite <-Z.shiftl_mul_pow2 by done. assert (Z.land a (Z.shiftl b k) = 0) as E.
  { rewrite land_shiftl, Z.shiftr_div_pow2, Z.div_small by done. by rewrite Z.land_0_l, Z.shiftl_0_l. }
  rewrite Z.add_nocarry_lxor by done. by rewrite Z.lxor_lor.
Qed.

(** A number with its bit [n - 1] set, extended. *)
Lemma sign_extend (n x : Z) : 1 <= n <= 63 -> 2 ^ (n - 1) <= x < 2 ^ n ->
  flag x (Z.shiftl 1 (n - 1)) = true /\ uwrap 64 (Z.lor x (Z.lnot (Z.shiftl 1 n - 1))) = x + 2 ^ 64 - 2 ^ n.
Proof.
  intros Hn Hx. pose proof (pow2_half n ltac:(lia)) as Hp. pose proof (pow2_pos (n - 1) ltac:(lia)). split.
  - unfold flag. rewrite land_shiftl, Z.shiftr_div_pow2 by lia. replace (x / 2 ^ (n - 1)) with 1 by (apply (Z.div_unique _ _ 1 (x - 2 ^ (n - 1))); lia).
    change (Z.land 1 1) with 1. rewrite Z.shiftl_mul_pow2, Z.mul_1_l, (proj2 (Z.eqb_neq _ _)) by lia. done.
  - change (Z.shiftl 1 n - 1) with (Z.ones n). replace (Z.lnot (Z.ones n)) with ((-1) * 2 ^ n) by (rewrite Z.ones_equiv; unfold Z.lnot; lia).
    rewrite lor_parts by lia. assert (2 ^ n <= 2 ^ 63) by (apply Z.pow_le_mono_r; lia).
    symmetry. apply (Z.mod_unique _ _ (-1)); lia.
Qed.

(** The upper four bits are inverted. *)
Lemma lxor_top (k q r : Z) : 0 <= k -> 0 <= r < 2 ^ k -> 0 <= q < 16 -> Z.lxor (q * 2 ^ k + r) (Z.shiftl 0xf k) = (15 - q) * 2 ^ k + r.
Proof.
  intros Hk Hr Hq. assert (forall a, a * 2 ^ k + r = Z.lxor (Z.shiftl a k) r) as E.
  { intros a. rewrite <-Z.shiftl_mul_pow2 by done. apply Z.add_nocarry_lxor. apply Z.bits_inj'. intros n Hn. rewrite Z.land_spec, Z.shiftl_spec, Z.bits_0 by done.
    destruct (decide (k <= n)) as [H|H]; [|by rewrite Z.testbit_neg_r by lia]. rewrite (in_u_bits k r n); [apply andb_false_r|done|done]. }
  rewrite !E. assert (15 - q = Z.lxor q 15) as ->.
  { assert (q = 0 \/ q = 1 \/ q = 2 \/ q = 3 \/ q = 4 \/ q = 5 \/ q = 6 \/ q = 7 \/ q = 8 \/ q = 9 \/ q = 10 \/ q = 11 \/ q = 12 \/ q = 13 \/ q = 14 \/ q = 15) as Hc by lia.
    repeat (destruct Hc as [->|Hc]; [done|]). by subst q. }
  rewrite (Z.shiftl_lxor q 15). rewrite !Z.lxor_assoc. f_equal. apply Z.lxor_comm.
Qed.

(** ** The systems *)

Definition system (xlen : Z) (vms : virtual_memory_system_t) : Prop :=
  (xlen = 32 /\ vms = sv32) \/ (xlen = 64 /\ (vms = sv39 \/ vms = sv48)).

Section System.
Context (xlen : Z) (vms : virtual_memory_system_t) (page_buffer : Z).
Hypothesis Hsys : system xlen vms.
Abbreviation w := (vpn_width_bits vms).
Abbreviation eb := (entry_width_bytes vms).
Abbreviation L := (levels vms).
Abbreviation vb := (vaddr_bits vms).
Abbreviation reg := (uwrap xlen).

Lemma sys_facts : ((eb = 4 /\ xlen = 32 /\ w = 10) \/ (eb = 8 /\ xlen = 64 /\ w = 9)) /\ 2 <= L <= 4 /\ vb = 12 + w * L /\ vb <= xlen /\ 10 + w * L <= 46.
Proof. destruct Hsys as [[-> ->]|[-> [-> | ->]]]; cbn; lia. Qed.

Lemma eb_pow : eb * 2 ^ w = 4096 /\ 0 < 2 ^ w <= 1024.
Proof. destruct Hsys as [[-> ->]|[-> [-> | ->]]]; cbn; lia. Qed.

Lemma vpn_div (va l : Z) : 0 <= l -> vpn vms va l = (va / 2 ^ (12 + w * l)) mod 2 ^ w.
Proof.
  intros Hl. destruct sys_facts as (Hc & _). unfold vpn. rewrite Z.shiftr_div_pow2 by nia. change (Z.shiftl 1 w - 1) with (Z.pred (Z.shiftl 1 w)). fold (Z.ones w).
  by rewrite Z.land_ones by lia.
Qed.

Lemma vpn_range (va l : Z) : 0 <= l -> 0 <= vpn vms va l < 2 ^ w.
Proof. intros Hl. rewrite vpn_div by done. apply Z.mod_pos_bound. apply eb_pow. Qed.

(** ** Memory *)

Hypothesis Hbuf : 0 <= page_buffer.
Abbreviation buffer_end := (page_buffer + page_buffer_size).

Definition in_buffer (p : Z) : Prop := (4 | p) /\ page_buffer <= p /\ p + 4 <= buffer_end.
Definition good (m : words) : Prop := (forall p, is_Some (m !! p) <-> in_buffer p) /\ forall p v, m !! p = Some v -> in_u 32 v.

Definition rd (m : words) (p : Z) : Z := default 0 (m !! p).

Lemma ld32_ok (m : words) (p : Z) : good m -> in_buffer p -> ld32 m p = Ok (rd m p) /\ in_u 32 (rd m p).
Proof. intros [Hd Hv] Hp. apply Hd in Hp as [v Ev]. unfold ld32, rd. rewrite Ev. split; [done|]. by apply (Hv p). Qed.

Lemma st32_ok (m : words) (p v : Z) : good m -> in_buffer p ->
  owp (st32 m p v) (fun m' => good m' /\ forall x, rd m' x = if x =? p then u32 v else rd m x).
Proof.
  intros [Hd Hv] Hp. unfold st32. pose proof (proj2 (Hd p) Hp) as [v0 Ev]. rewrite Ev. cbn. split; [split|].
  - intros x. destruct (decide (x = p)) as [->|Hne]; [by rewrite lookup_insert_eq|by rewrite lookup_insert_ne].
  - intros x v1. destruct (decide (x = p)) as [->|Hne]; [|rewrite lookup_insert_ne by done; apply Hv].
    rewrite lookup_insert_eq. intros [= <-]. by apply uwrap_range.
  - intros x. unfold rd. destruct (Z.eqb_spec x p) as [->|Hne]; [by rewrite lookup_insert_eq|by rewrite lookup_insert_ne].
Qed.

(** The entry at an address. *)
Definition ent (m : words) (a : Z) : Z := if eb =? 4 then rd m a else rd m a + 2 ^ 32 * rd m (a + 4).
Definition page (t : Z) : Prop := (4096 | t) /\ page_buffer <= t /\ t + 4096 <= buffer_end.

Lemma ent_frame (m m' : words) (a : Z) : (forall p, a <= p < a + eb -> rd m' p = rd m p) -> ent m' a = ent m a.
Proof.
  intros Hp. unfold ent. destruct sys_facts as (Hc & _). destruct (Z.eqb_spec eb 4) as [E|E]; [apply Hp; lia|]. by rewrite !Hp by lia.
Qed.

Lemma entry_words (t i : Z) : page t -> 0 <= i < 2 ^ w -> in_buffer (t + eb * i) /\ (eb = 8 -> in_buffer (t + eb * i + 4)) /\ t <= t + eb * i /\ t + eb * i + eb <= t + 4096.
Proof.
  intros ([n ->] & H1 & H2) Hi. destruct eb_pow as [He _]. destruct sys_facts as (Hc & _). unfold in_buffer.
  assert (eb * (i + 1) <= 4096) by (rewrite <-He; apply Z.mul_le_mono_nonneg_l; lia). assert (0 <= eb * i) by (apply Z.mul_nonneg_nonneg; lia).
  destruct Hc as [(E & _ & _)|(E & _ & _)]; rewrite E in *; split_and!; try lia; [exists (n * 1024 + i); lia|exists (n * 1024 + 2 * i); lia|].
  intros _. split_and!; [exists (n * 1024 + 2 * i + 1); lia|lia|lia].
Qed.

Lemma entry_ok (m : words) (t i : Z) : good m -> page t -> 0 <= i < 2 ^ w -> entry xlen vms m t i = Ok (ent m (t + eb * i)) /\ in_u xlen (ent m (t + eb * i)).
Proof.
  intros Hm Ht Hi. destruct (entry_words t i Ht Hi) as (H1 & H2 & _). destruct sys_facts as (Hc & _). unfold entry, ent.
  destruct (ld32_ok m _ Hm H1) as [E1 R1]. destruct Hc as [(E & Ex & _)|(E & Ex & _)]; rewrite E in *; cbn [Z.eqb Pos.eqb].
  - rewrite E1. cbn [mbind outcome_bind]. rewrite Ex in *. by rewrite uwrap_small.
  - destruct (ld32_ok m _ Hm (H2 eq_refl)) as [E2 R2]. unfold ld64. rewrite E1. cbn [mbind outcome_bind]. rewrite E2. cbn [mbind outcome_bind]. rewrite Ex.
    assert (in_u 64 (rd m (t + 8 * i) + 2 ^ 32 * rd m (t + 8 * i + 4))) as R by (unfold in_u in *; lia). by rewrite uwrap_small.
Qed.

Lemma entry_set_ok (m : words) (t i v : Z) : good m -> page t -> 0 <= i < 2 ^ w ->
  owp (entry_set vms m t i v) (fun m' => good m' /\ ent m' (t + eb * i) = reg v /\ forall p, p < t + eb * i \/ t + eb * i + eb <= p -> rd m' p = rd m p).
Proof.
  intros Hm Ht Hi. destruct (entry_words t i Ht Hi) as (H1 & H2 & _). destruct sys_facts as (Hc & _). unfold entry_set, ent.
  destruct Hc as [(E & Ex & _)|(E & Ex & _)]; rewrite E in *; cbn [Z.eqb Pos.eqb].
  - eapply owp_mono; [by apply st32_ok|]. intros m' [Hm' Hr]. split; [done|]. split.
    + by rewrite Hr, Z.eqb_refl, Ex.
    + intros p Hp. rewrite Hr. by rewrite (proj2 (Z.eqb_neq _ _)) by lia.
  - unfold st64. apply owp_bind. eapply owp_mono; [by apply st32_ok|]. intros m1 [Hm1 R1].
    eapply owp_mono; [apply st32_ok; [done|by apply H2]|]. intros m' [Hm' Hr]. split; [done|]. split.
    + rewrite !Hr, !R1, !Z.eqb_refl, (proj2 (Z.eqb_neq (t + 8 * i) _)) by lia. rewrite Ex, Z.shiftr_div_pow2 by lia. unfold uwrap.
      change (2 ^ 64) with (2 ^ 32 * 2 ^ 32). rewrite (Z.rem_mul_r v) by lia. lia.
    + intros p Hp. rewrite Hr, R1. by rewrite !(proj2 (Z.eqb_neq _ _)) by lia.
Qed.

(** Two entries of the same or of different pages. *)
Lemma entries_apart (t i t' i' : Z) : page t -> page t' -> 0 <= i < 2 ^ w -> 0 <= i' < 2 ^ w -> t <> t' \/ i <> i' ->
  forall p, t' + eb * i' <= p < t' + eb * i' + eb -> p < t + eb * i \/ t + eb * i + eb <= p.
Proof.
  intros Ht Ht' Hi Hi' Hne p Hp. destruct (entry_words t i Ht Hi) as (_ & _ & B1). destruct (entry_words t' i' Ht' Hi') as (_ & _ & B2).
  destruct sys_facts as (Hc & _). destruct (decide (t = t')) as [<-|Hd].
  - assert (i < i' \/ i' < i) as [H|H] by lia; [right|left]; destruct Hc as [(E & _)|(E & _)]; rewrite E in *; lia.
  - destruct Ht as ([n ->] & _), Ht' as ([n' ->] & _). assert (n < n' \/ n' < n) as [H|H] by lia; lia.
Qed.

(** ** Filling a table *)

Lemma setup_ok (m : words) (t level physical : Z) : good m -> page t ->
  owp (setup_page_table xlen vms m t level physical) (fun m' => good m' /\
    (forall i, 0 <= i < 2 ^ w -> ent m' (t + eb * i) = reg (identity_pte xlen vms level physical i)) /\
    forall p, p < t \/ t + 4096 <= p -> rd m' p = rd m p).
Proof.
  intros Hm Ht. unfold setup_page_table. destruct eb_pow as [_ Hw]. destruct sys_facts as (Hc & _). rewrite Z.shiftl_mul_pow2, Z.mul_1_l by lia.
  apply (oloop_inv 0 (2 ^ w) _ (fun n m' => good m' /\ (forall i, 0 <= i < n -> ent m' (t + eb * i) = reg (identity_pte xlen vms level physical i)) /\
    forall p, p < t \/ t + 4096 <= p -> rd m' p = rd m p)); [lia|split_and!; [done|lia|done]|].
  intros n m1 Hn (Hm1 & E1 & R1). eapply owp_mono; [by apply entry_set_ok|]. intros m2 (Hm2 & E2 & R2). split_and!; [done| |].
  - intros i Hi. destruct (decide (i = n)) as [->|Hne]; [done|]. rewrite <-E1 by lia. apply ent_frame. intros p Hp. apply R2.
    apply (entries_apart t n t i); [done|done|lia|lia|by right|done].
  - intros p Hp. destruct (entry_words t n Ht Hn) as (_ & _ & B). rewrite R2 by lia. by apply R1.
Qed.

(** ** Pages *)

Hypothesis Hhigh : buffer_end <= 2 ^ (if xlen =? 32 then 32 else vb - 1).

Lemma high : buffer_end <= 2 ^ xlen /\ buffer_end <= 2 ^ 48.
Proof. destruct Hsys as [[-> ->]|[-> [-> | ->]]]; cbn in Hhigh; lia. Qed.

Definition pg (k : Z) : Z := (page_buffer + 4095) / 4096 * 4096 + 4096 * k.

Lemma pg_range (k : Z) : page_buffer + 4096 * k <= pg k < page_buffer + 4096 * (k + 1).
Proof. unfold pg. pose proof (Z.div_mod (page_buffer + 4095) 4096 ltac:(lia)). pose proof (Z.mod_pos_bound (page_buffer + 4095) 4096 ltac:(lia)). lia. Qed.

Lemma pg_page (k : Z) : 0 <= k <= 4 -> page (pg k).
Proof. intros Hk. pose proof (pg_range k). unfold page, page_buffer_size. split; [|lia]. unfold pg. exists ((page_buffer + 4095) / 4096 + k). lia. Qed.

Lemma get_page_ok (k next : Z) : 0 <= k <= 4 -> next = (if k =? 0 then page_buffer else pg k) -> get_page xlen page_buffer next = Ok (pg k, pg (k + 1)).
Proof.
  intros Hk ->. pose proof (pg_range k) as Hr. destruct high as [Hx _]. unfold get_page.
  assert (Z.land (reg ((if k =? 0 then page_buffer else pg k) + 4095)) (Z.lnot 4095) = pg k) as ->.
  { change 4095 with (Z.ones 12) at 2. rewrite clear_low by lia. unfold page_buffer_size in *. destruct (Z.eqb_spec k 0) as [->|Hne].
    - rewrite uwrap_small by (unfold in_u; lia). unfold pg. change (2 ^ 12) with 4096. lia.
    - rewrite uwrap_small by (unfold in_u; lia). unfold pg. change (2 ^ 12) with 4096.
      replace ((page_buffer + 4095) / 4096 * 4096 + 4096 * k + 4095) with (4095 + ((page_buffer + 4095) / 4096 + k) * 4096) by lia.
      rewrite Z.div_add by lia. change (4095 / 4096) with 0. lia. }
  rewrite (proj2 (Z.leb_gt _ _)) by (unfold page_buffer_size; lia). f_equal. f_equal. unfold pg. lia.
Qed.

(** ** Entries *)

Lemma frame_pte (f p : Z) : 0 <= f < 1024 -> page p -> reg (Z.lor f (Z.land (Z.shiftr p 2) (Z.lnot (Z.ones 10)))) = p / 4096 * 1024 + f /\ p / 4096 * 4096 = p.
Proof.
  intros Hf ([n ->] & Hp & Hp2). destruct high as [Hx _]. destruct sys_facts as (Hc & _).
  rewrite clear_low, Z.shiftr_div_pow2 by lia. change (2 ^ 2) with 4. change (2 ^ 10) with 1024.
  replace (n * 4096 / 4 / 1024) with n by (rewrite Z.div_div by lia; symmetry; apply Z.div_mul; lia). rewrite Z.div_mul by lia. split; [|done].
  rewrite lor_add by (done || (apply Z.mod_mul; lia)). rewrite uwrap_small; [lia|]. assert (0 <= n) by lia.
  split; [lia|]. destruct Hc as [(_ & -> & _)|(_ & -> & _)]; lia.
Qed.

Lemma identity_low (level physical i : Z) : 0 <= level <= L - 1 -> reg (identity_pte xlen vms level physical i) mod 1024 = 0xDF.
Proof.
  intros Hl. destruct sys_facts as (Hc & Hl4 & Hvb & Hvx & H46). assert (0 <= level * w) by nia. assert (0 <= (level + 1) * w) by nia.
  change 1024 with (2 ^ 10). unfold uwrap at 1. rewrite Z.mod_mod_divide by (apply pow2_divide; lia). unfold identity_pte, PTE_PPN_SHIFT.
  rewrite !mod_lor, mod_land_shift by lia.
  assert (reg (Z.shiftl i (10 + level * w)) mod 2 ^ 10 = 0) as ->; [|done].
  unfold uwrap. rewrite Z.mod_mod_divide, Z.shiftl_mul_pow2, Z.pow_add_r by (try lia; apply pow2_divide; lia).
  replace (i * (2 ^ 10 * 2 ^ (level * w))) with (i * 2 ^ (level * w) * 2 ^ 10) by lia. apply Z.mod_mul. lia.
Qed.

Lemma master_pte (i : Z) : 0 <= i < 2 ^ w -> reg (identity_pte xlen vms (L - 1) 0 i) = i * 2 ^ (w * (L - 1)) * 1024 + 0xDF.
Proof.
  intros Hi. destruct sys_facts as (Hc & Hl4 & Hvb & Hvx & H46). assert (0 <= w * (L - 1)) by nia.
  unfold identity_pte, PTE_PPN_SHIFT. rewrite Z.land_0_l, Z.lor_0_r, Z.shiftl_mul_pow2 by nia.
  replace (10 + (L - 1) * w) with (w * (L - 1) + 10) by lia. rewrite Z.pow_add_r, Z.mul_assoc by lia. change (2 ^ 10) with 1024.
  assert (i * 2 ^ (w * (L - 1)) * 1024 + 1024 <= 2 ^ (w * L) * 1024) as Hb.
  { replace (w * L) with (w + w * (L - 1)) by lia. rewrite Z.pow_add_r by lia. pose proof (pow2_pos (w * (L - 1)) ltac:(lia)). nia. }
  assert (2 ^ (w * L) * 1024 <= 2 ^ xlen) as Hb2.
  { change 1024 with (2 ^ 10). rewrite <-Z.pow_add_r by lia. apply Z.pow_le_mono_r; lia. }
  assert (0 <= i * 2 ^ (w * (L - 1))) by (apply Z.mul_nonneg_nonneg; [lia|apply Z.lt_le_incl, pow2_pos; lia]).
  rewrite (uwrap_small xlen (_ * 1024)) by (unfold in_u; lia). rewrite lor_add by (done || (apply Z.mod_mul; lia)). change all_flags with 0xDF.
  rewrite uwrap_small by (unfold in_u; lia). lia.
Qed.

(** ** The walk *)

Lemma pte_parts (N f : Z) : 0 <= f < 1024 -> (N * 1024 + f) mod 1024 = f /\ pte_ppn (N * 1024 + f) = N.
Proof.
  intros Hf. split; [rewrite Z.add_comm, Z.mod_add, Z.mod_small; lia|]. unfold pte_ppn, PTE_PPN_SHIFT. rewrite Z.shiftr_div_pow2 by lia. change (2 ^ 10) with 1024.
  rewrite Z.add_comm, Z.div_add, Z.div_small; lia.
Qed.

Lemma walk_leaf (m : words) (wr : bool) (l : nat) (t va N : Z) :
  good m -> page t -> ent m (t + eb * vpn vms va (Z.of_nat l)) = N * 1024 + 0xDF -> N * 1024 < 2 ^ 54 - 1024 -> N mod 2 ^ (w * Z.of_nat l) = 0 ->
  walk xlen vms m wr l t va = Some (N / 2 ^ (w * Z.of_nat l) * 2 ^ (12 + w * Z.of_nat l) + va mod 2 ^ (12 + w * Z.of_nat l)).
Proof.
  intros Hm Ht He HN Hz. destruct (entry_ok m t (vpn vms va (Z.of_nat l)) Hm Ht ltac:(apply vpn_range; lia)) as [E _]. destruct (pte_parts N 0xDF ltac:(lia)) as [Hlow Hppn].
  destruct l; cbn [walk]; rewrite E, He; cbv zeta; unfold malformed; rewrite Hppn, Hz, !(flag_low (N * 1024 + 0xDF) 0xDF) by first [exact Hlow|split; done];
    rewrite (proj2 (Z.leb_gt _ _)) by lia; destruct wr; reflexivity.
Qed.

Lemma walk_pointer (m : words) (wr : bool) (l : nat) (t va N : Z) :
  good m -> page t -> ent m (t + eb * vpn vms va (Z.of_nat (S l))) = N * 1024 + 1 -> N * 1024 < 2 ^ 54 - 1024 -> walk xlen vms m wr (S l) t va = walk xlen vms m wr l (N * 4096) va.
Proof.
  intros Hm Ht He HN. destruct (entry_ok m t (vpn vms va (Z.of_nat (S l))) Hm Ht ltac:(apply vpn_range; lia)) as [E _]. destruct (pte_parts N 1 ltac:(lia)) as [Hlow Hppn].
  cbn [walk]. rewrite E, He. cbv zeta. unfold malformed. rewrite Hppn, !(flag_low (N * 1024 + 1) 1) by first [exact Hlow|split; done].
  rewrite (proj2 (Z.leb_gt _ _)) by lia. reflexivity.
Qed.

(** ** The path to the new entry *)

(** Memories that differ in the data page only. *)
Definition agree (m m' : words) : Prop := forall p, p < pg 1 \/ pg 1 + 4096 <= p -> rd m' p = rd m p.

Lemma pg_apart (a b p : Z) : a <> b -> pg a <= p < pg a + 4096 -> p < pg b \/ pg b + 4096 <= p.
Proof. unfold pg. lia. Qed.

(** An entry of page [a] when the memory is kept there. *)
Lemma ent_kept (m m' : words) (a i : Z) : 0 <= a <= 4 -> 0 <= i < 2 ^ w -> (forall p, pg a <= p < pg a + 4096 -> rd m' p = rd m p) ->
  ent m' (pg a + eb * i) = ent m (pg a + eb * i).
Proof. intros Ha Hi Hp. destruct (entry_words (pg a) i (pg_page a Ha) Hi) as (_ & _ & B). apply ent_frame. intros p Hp'. apply Hp. lia. Qed.

Section Path.
Context (virtual : Z).
Hypothesis Hvirt : (4096 | virtual).

Lemma vpn_page (o l : Z) : 0 <= o < 4096 -> 0 <= l -> vpn vms (virtual + o) l = vpn vms virtual l.
Proof.
  intros Ho Hl. destruct sys_facts as (Hc & _). assert (0 <= w * l) by nia. rewrite !vpn_div by done. f_equal. destruct Hvirt as [n ->].
  rewrite !Z.pow_add_r, <-!Z.div_div by (lia || (apply Z.pow_nonzero; lia) || (apply pow2_pos; lia)). change (2 ^ 12) with 4096.
  f_equal. rewrite Z.add_comm, Z.div_add, Z.div_mul, Z.div_small; lia.
Qed.

Lemma pg_ppn (k : Z) : 0 <= k <= 4 -> pg k / 4096 * 1024 < 2 ^ 54 - 1024.
Proof.
  intros Hk. destruct (pg_page k Hk) as ([n En] & H1 & H2). rewrite En, Z.div_mul by lia. destruct high as [_ H48]. rewrite En in *. lia.
Qed.

Definition reaches (m : words) (n : nat) (a : Z) : Prop :=
  forall m', good m' -> agree m m' -> forall wr o, 0 <= o < 4096 -> walk xlen vms m' wr n (pg a) (virtual + o) = Some (pg 1 + o).

Lemma reaches_leaf (m : words) (a : Z) : 0 <= a <= 4 -> a <> 1 -> ent m (pg a + eb * vpn vms virtual 0) = pg 1 / 4096 * 1024 + 0xDF -> reaches m 0 a.
Proof.
  intros Ha Ha1 He m' Hm' Hag wr o Ho. rewrite (walk_leaf m' wr 0 (pg a) (virtual + o) (pg 1 / 4096)).
  - f_equal. change (w * Z.of_nat 0) with (w * 0). rewrite Z.mul_0_r, Z.div_1_r. change (2 ^ (12 + 0)) with 4096.
    destruct (pg_page 1 ltac:(lia)) as ([n En] & _). rewrite En, Z.div_mul by lia. destruct Hvirt as [v ->]. rewrite Z.add_comm, (Z.add_comm (v * 4096)), Z.mod_add, Z.mod_small by lia. lia.
  - done.
  - by apply pg_page.
  - change (Z.of_nat 0) with 0. rewrite vpn_page by lia. rewrite <-He. apply ent_kept; [done|apply vpn_range; lia|]. intros p Hp. apply Hag. by apply (pg_apart a).
  - apply pg_ppn. lia.
  - change (w * Z.of_nat 0) with (w * 0). by rewrite Z.mul_0_r, Z.mod_1_r.
Qed.

Lemma reaches_step (m : words) (n : nat) (a k : Z) : 0 <= a <= 4 -> 0 <= k <= 4 -> a <> 1 ->
  ent m (pg a + eb * vpn vms virtual (Z.of_nat (S n))) = pg k / 4096 * 1024 + 1 -> reaches m n k -> reaches m (S n) a.
Proof.
  intros Ha Hk Ha1 He Hr m' Hm' Hag wr o Ho. rewrite (walk_pointer m' wr n (pg a) (virtual + o) (pg k / 4096)).
  - destruct (pg_page k Hk) as ([v Ev] & _). replace (pg k / 4096 * 4096) with (pg k) by (rewrite Ev, Z.div_mul; lia). by apply Hr.
  - done.
  - by apply pg_page.
  - rewrite vpn_page by lia. rewrite <-He. apply ent_kept; [done|apply vpn_range; lia|]. intros p Hp. apply Hag. by apply (pg_apart a).
  - by apply pg_ppn.
Qed.

Lemma reaches_agree (m m' : words) (n : nat) (a : Z) : agree m m' -> reaches m n a -> reaches m' n a.
Proof. intros Hag Hr m2 Hm2 Hag2. apply Hr; [done|]. intros p Hp. rewrite Hag2 by done. by apply Hag. Qed.

Lemma add_loop_ok (n : nat) (m : words) (a k : Z) : good m -> 0 <= a < k -> a <> 1 -> 2 <= k -> k + Z.of_nat n <= 5 -> Z.of_nat n <= L - 1 ->
  (forall i, 0 <= i < 2 ^ w -> ent m (pg a + eb * i) mod 1024 = 0xDF) ->
  owp (add_loop xlen vms page_buffer (S n) m (pg k) (pg a) 0 virtual (pg 1) (Z.of_nat n)) (fun '(m', _) => good m' /\ reaches m' n a /\
    (forall i, 0 <= i < 2 ^ w -> i <> vpn vms virtual (Z.of_nat n) -> ent m' (pg a + eb * i) = ent m (pg a + eb * i)) /\
    forall p, p < pg k -> p < pg a \/ pg a + 4096 <= p -> rd m' p = rd m p).
Proof.
  revert m a k. induction n as [|n IH]; intros m a k Hm Ha Ha1 Hk Hk5 HL Hfull.
  - cbn [add_loop]. change (Z.of_nat 0) with 0. cbn [Z.leb Z.compare]. rewrite Z.mul_0_l. change (shift_one (PTE_PPN_SHIFT + 0)) with (Ok (Z.shiftl 1 10)).
    cbn [mbind outcome_bind]. change (Z.shiftl 1 10 - 1) with (Z.ones 10). pose proof (vpn_range virtual 0 ltac:(lia)) as Hv.
    apply owp_bind. eapply owp_mono; [apply entry_set_ok; [done|apply pg_page; lia|done]|]. intros m1 (Hm1 & E1 & R1). red.
    destruct (entry_words (pg a) _ (pg_page a ltac:(lia)) Hv) as (_ & _ & B).
    split_and!; [done| | |].
    + apply reaches_leaf; [lia|done|]. rewrite E1. by destruct (frame_pte all_flags (pg 1) ltac:(done) (pg_page 1 ltac:(lia))) as [-> _].
    + intros i Hi Hne. apply ent_frame. intros p Hp. apply R1. apply (entries_apart (pg a) (vpn vms virtual 0) (pg a) i); [apply pg_page; lia|apply pg_page; lia|done|done|right; congruence|done].
    + intros p Hp Hpa. apply R1. lia.
  - pose proof (vpn_range virtual (Z.of_nat (S n)) ltac:(lia)) as Hv. pose proof (Hfull _ Hv) as Hf.
    destruct (entry_ok m (pg a) _ Hm (pg_page a ltac:(lia)) Hv) as [Ee _].
    change (add_loop xlen vms page_buffer (S (S n)) m (pg k) (pg a) 0 virtual (pg 1) (Z.of_nat (S n))) with
      (if Z.of_nat (S n) <=? 0 then
         b ← shift_one (PTE_PPN_SHIFT + Z.of_nat (S n) * w);
         m ← entry_set vms m (pg a) (vpn vms virtual (Z.of_nat (S n))) (Z.lor all_flags (Z.land (Z.shiftr (pg 1) 2) (Z.lnot (b - 1))));
         Ok (m, pg k)
       else
         pte ← entry xlen vms m (pg a) (vpn vms virtual (Z.of_nat (S n)));
         if negb (flag pte PTE_V) || (flag pte PTE_R && flag pte PTE_W) then
           '(new_page, next) ← get_page xlen page_buffer (pg k);
           m ← setup_page_table xlen vms m new_page (Z.of_nat (S n) - 1) virtual;
           m ← entry_set vms m (pg a) (vpn vms virtual (Z.of_nat (S n))) (Z.lor PTE_V (Z.land (Z.shiftr new_page 2) (Z.lnot (Z.ones 10))));
           add_loop xlen vms page_buffer (S n) m next new_page 0 virtual (pg 1) (Z.of_nat (S n) - 1)
         else add_loop xlen vms page_buffer (S n) m (pg k) (Z.land pte (Z.lnot 0xfff)) 0 virtual (pg 1) (Z.of_nat (S n) - 1)).
    rewrite (proj2 (Z.leb_gt _ 0)) by lia. rewrite Ee. cbn [mbind outcome_bind].
    rewrite !(flag_low (ent m (pg a + eb * vpn vms virtual (Z.of_nat (S n)))) 0xDF) by first [exact Hf|split; done].
    change (negb (flag 223 PTE_V) || (flag 223 PTE_R && flag 223 PTE_W)) with true. cbv iota.
    rewrite (get_page_ok k) by (lia || (by rewrite (proj2 (Z.eqb_neq k 0)) by lia)). cbn [mbind outcome_bind].
    replace (Z.of_nat (S n) - 1) with (Z.of_nat n) by lia. pose proof (pg_page k ltac:(lia)) as Hpk. pose proof (pg_page a ltac:(lia)) as Hpa.
    apply owp_bind. eapply owp_mono; [by apply setup_ok|]. intros m1 (Hm1 & E1 & R1).
    apply owp_bind. eapply owp_mono; [by apply entry_set_ok|]. intros m2 (Hm2 & E2 & R2).
    destruct (entry_words (pg a) _ Hpa Hv) as (_ & _ & B).
    eapply owp_mono; [apply (IH m2 k (k + 1)); [done|lia|lia|lia|lia|lia|]|].
    + intros i Hi. rewrite <-(identity_low (Z.of_nat n) virtual i) by lia. f_equal. rewrite <-E1 by done. apply ent_kept; [lia|done|].
      intros p Hp. apply R2. pose proof (pg_apart k a p ltac:(lia) Hp). lia.
    + intros [m' nx] (Hm' & Hr & _ & Hkeep).
      assert (forall p, p < pg k -> rd m' p = rd m2 p) as Hk2 by (intros p Hp; apply Hkeep; unfold pg in *; lia).
      split_and!; [done| | |].
      * apply (reaches_step m' n a k); [lia|lia|done| |done]. rewrite (ent_kept m2) by (done || lia || (intros p Hp; apply Hk2; unfold pg in *; lia)).
        rewrite E2. by destruct (frame_pte PTE_V (pg k) ltac:(done) Hpk) as [-> _].
      * intros i Hi Hne. rewrite (ent_kept m2) by (done || lia || (intros p Hp; apply Hk2; unfold pg in *; lia)).
        transitivity (ent m1 (pg a + eb * i)).
        -- apply ent_frame. intros p Hp. apply R2. apply (entries_apart (pg a) _ (pg a) i Hpa Hpa Hv Hi ltac:(right; congruence) p Hp).
        -- apply ent_kept; [lia|done|]. intros p Hp. apply R1. apply (pg_apart a); [lia|done].
      * intros p Hp Hpo. rewrite Hk2 by done. rewrite R2 by lia. apply R1. lia.
Qed.
End Path.

(** ** The two addresses *)

Lemma pg1_range : 0 <= pg 1 /\ pg 1 + 4096 <= buffer_end /\ exists n, pg 1 = n * 4096.
Proof. destruct (pg_page 1 ltac:(lia)) as ([n En] & H1 & H2). split; [lia|]. split; [done|]. by exists n. Qed.

(** [virtual] before its sign extension. *)
Lemma inverted : exists q r, pg 1 = q * 2 ^ (vb - 4) + r /\ 0 <= r < 2 ^ (vb - 4) /\ 0 <= q < 16 /\ (vb <> xlen -> q < 8) /\
  Z.lxor (pg 1) (reg (Z.shiftl 0xf (vb - 4))) = (15 - q) * 2 ^ (vb - 4) + r /\ (4096 | r).
Proof.
  destruct pg1_range as (H0 & H1 & [n En]). unfold page_buffer_size in H1. pose proof (Z.div_mod (pg 1) (2 ^ (vb - 4))) as Hdm. pose proof (Z.mod_pos_bound (pg 1) (2 ^ (vb - 4))) as Hmb.
  exists (pg 1 / 2 ^ (vb - 4)), (pg 1 mod 2 ^ (vb - 4)).
  assert (vb - 4 = 28 \/ vb - 4 = 35 \/ vb - 4 = 44) as Hv by (destruct Hsys as [[-> ->]|[-> [-> | ->]]]; cbn; lia).
  assert (0 < 2 ^ (vb - 4)) as Hpos by (apply pow2_pos; lia). specialize (Hdm ltac:(lia)). specialize (Hmb Hpos).
  assert (pg 1 < 2 ^ (vb - 4) * 16 /\ (vb <> xlen -> pg 1 < 2 ^ (vb - 4) * 8)) as [B1 B2].
  { unfold page_buffer_size in Hhigh. destruct Hsys as [[-> ->]|[-> [-> | ->]]]; cbn in Hhigh |- *; lia. }
  assert (0 <= pg 1 / 2 ^ (vb - 4) < 16) as Hq by (split; [apply Z.div_pos; lia|apply Z.div_lt_upper_bound; lia]).
  split; [lia|]. split; [done|]. split; [done|]. split; [intros Hne; apply Z.div_lt_upper_bound; [lia|by apply B2]|]. split.
  - assert (reg (Z.shiftl 15 (vb - 4)) = Z.shiftl 15 (vb - 4)) as -> by (destruct Hsys as [[-> ->]|[-> [-> | ->]]]; reflexivity).
    rewrite <-(lxor_top (vb - 4)) by lia. f_equal. lia.
  - exists (n - pg 1 / 2 ^ (vb - 4) * 2 ^ (vb - 16)). assert (2 ^ (vb - 4) = 2 ^ (vb - 16) * 4096) as E by (change 4096 with (2 ^ 12); rewrite <-Z.pow_add_r by lia; f_equal; lia).
    rewrite E in *. lia.
Qed.

(** The upper four bits of the upper index. *)
Lemma top_bits (va : Z) : vpn vms va (L - 1) / 2 ^ (w - 4) = (va / 2 ^ (vb - 4)) mod 16.
Proof.
  destruct sys_facts as (Hc & Hl & Hvb & _). assert (0 <= w * (L - 1)) by nia. rewrite vpn_div by lia.
  replace (2 ^ w) with (2 ^ (w - 4) * 16) by (change 16 with (2 ^ 4); rewrite <-Z.pow_add_r by lia; f_equal; lia).
  replace (2 ^ (vb - 4)) with (2 ^ (12 + w * (L - 1)) * 2 ^ (w - 4)) by (rewrite <-Z.pow_add_r by lia; f_equal; lia).
  pose proof (pow2_pos (12 + w * (L - 1)) ltac:(lia)). pose proof (pow2_pos (w - 4) ltac:(lia)). rewrite <-Z.div_div by lia.
  rewrite Z.rem_mul_r, Z.add_comm, (Z.mul_comm (2 ^ (w - 4))), Z.div_add_l, (Z.div_small (_ mod _)) by (lia || (apply Z.mod_pos_bound; lia)). lia.
Qed.

Lemma virtual_form : exists q r c, pg 1 = q * 2 ^ (vb - 4) + r /\ 0 <= r < 2 ^ (vb - 4) /\ (4096 | r) /\ 0 <= q < 16 /\ (vb <> xlen -> q < 8) /\
  virtual_of xlen vms (pg 1) = (15 - q) * 2 ^ (vb - 4) + r + c * 2 ^ vb /\ (vb = xlen \/ (xlen = 64 /\ c * 2 ^ vb = 2 ^ 64 - 2 ^ vb)).
Proof.
  destruct inverted as (q & r & Ep & Hr & Hq & Hq8 & Ex & Hrn). exists q, r. unfold virtual_of. rewrite Ex.
  destruct (Z.ltb_spec vb xlen) as [Hlt|Hge]; cbn [andb].
  - assert (xlen = 64 /\ vb <= 48) as [Hx64 Hvb48] by (destruct Hsys as [[-> ->]|[-> [-> | ->]]]; cbn in *; lia).
    assert (2 ^ vb = 16 * 2 ^ (vb - 4) /\ 2 ^ (vb - 1) = 8 * 2 ^ (vb - 4)) as [E1 E2].
    { destruct sys_facts as (Hc & Hl & Hvb & _). split; [change 16 with (2 ^ 4)|change 8 with (2 ^ 3)]; rewrite <-Z.pow_add_r by nia; f_equal; lia. }
    specialize (Hq8 ltac:(lia)). destruct (sign_extend vb ((15 - q) * 2 ^ (vb - 4) + r)) as [Ef Es].
    { destruct sys_facts as (Hc & Hl & Hvb & _). nia. }
    { rewrite E1, E2. nia. }
    exists (2 ^ (64 - vb) - 1). rewrite Ef, Hx64, Es.
    assert (2 ^ 64 = 2 ^ (64 - vb) * 2 ^ vb) as E64 by (destruct sys_facts as (Hc & Hl & Hvb & _); rewrite <-Z.pow_add_r by nia; f_equal; lia).
    split_and!; done || lia.
  - exists 0. destruct sys_facts as (_ & _ & _ & Hvx & _). split_and!; done || lia.
Qed.

Lemma virtual_ok : let virtual := virtual_of xlen vms (pg 1) in
  (4096 | virtual) /\ (forall o, 0 <= o < 4096 -> canonical xlen vms (virtual + o) = true) /\ vpn vms virtual (L - 1) <> vpn vms (pg 1) (L - 1).
Proof.
  destruct virtual_form as (q & r & c & Ep & Hr & [rn Er] & Hq & Hq8 & Ev & Hext). cbv zeta. rewrite Ev. destruct sys_facts as (Hc & Hl & Hvb & Hvx & H46).
  assert (18 <= w * L) by nia. assert (2 ^ vb = 16 * 2 ^ (vb - 4)) as E1 by (change 16 with (2 ^ 4); rewrite <-Z.pow_add_r by lia; f_equal; lia).
  assert (2 ^ (vb - 4) = 2 ^ (vb - 16) * 4096) as E2 by (change 4096 with (2 ^ 12); rewrite <-Z.pow_add_r by lia; f_equal; lia).
  assert (0 < 2 ^ (vb - 16)) as Hp by (apply pow2_pos; lia). split; [|split].
  - exists ((15 - q) * 2 ^ (vb - 16) + rn + c * 16 * 2 ^ (vb - 16)). rewrite E1, E2, Er. lia.
  - intros o Ho. unfold canonical. destruct Hext as [Hx|[Hx Hc64]]; [by rewrite Hx, Z.eqb_refl|]. specialize (Hq8 ltac:(lia)).
    apply orb_true_iff. right. apply Z.eqb_eq. rewrite Hx. assert (r + o < 2 ^ (vb - 4)) as Hro by (rewrite E2 in *; nia).
    assert (swrap vb ((15 - q) * 2 ^ (vb - 4) + r + c * 2 ^ vb + o) = (15 - q) * 2 ^ (vb - 4) + r + o - 2 ^ vb) as ->.
    { rewrite (swrap_eq vb _ ((15 - q) * 2 ^ (vb - 4) + r + o - 2 ^ vb)); [apply swrap_small; [lia|]|lia|].
      - unfold in_s. pose proof (pow2_half vb ltac:(lia)). nia.
      - replace ((15 - q) * 2 ^ (vb - 4) + r + c * 2 ^ vb + o) with ((15 - q) * 2 ^ (vb - 4) + r + o - 2 ^ vb + (c + 1) * 2 ^ vb) by lia. apply Z.mod_add. lia. }
    unfold uwrap. symmetry. apply (Z.mod_unique _ _ (-1)); [|lia]. assert (2 ^ vb <= 2 ^ 63) by (apply Z.pow_le_mono_r; lia). nia.
  - intros E. apply (f_equal (fun z => z / 2 ^ (w - 4))) in E. rewrite !top_bits, Ep, E1 in E.
    replace ((15 - q) * 2 ^ (vb - 4) + r + c * (16 * 2 ^ (vb - 4))) with (r + (15 - q + c * 16) * 2 ^ (vb - 4)) in E by lia.
    rewrite (Z.add_comm (q * _)), !Z.div_add, Z.div_small, !Z.add_0_l, Z.mod_add, !Z.mod_small in E by lia. lia.
Qed.

(** ** satp *)

Definition satp_value : Z := set_field xlen (set_field xlen 0 (SATP_MODE xlen) (mode vms)) (SATP_PPN xlen) (Z.shiftr (pg 0) 12).

Lemma satp_ok : get_field satp_value (SATP_MODE xlen) = mode vms /\ Z.land satp_value (SATP_PPN xlen) * 4096 = pg 0.
Proof.
  destruct (pg_page 0 ltac:(lia)) as ([n En] & H1 & H2). destruct high as [_ H48].
  assert (exists s k : Z, 0 <= k <= s /\ s < xlen /\ n < 2 ^ k /\ SATP_PPN xlen = Z.ones k /\ SATP_MODE xlen = Z.shiftl (Z.ones (xlen - s)) s /\
    0 <= mode vms < 2 ^ (xlen - s) /\ set_field xlen 0 (SATP_MODE xlen) (mode vms) = mode vms * 2 ^ s /\
    Z.land (mode vms * 2 ^ s) (Z.lnot (Z.ones k)) = mode vms * 2 ^ s /\
    Z.land (SATP_PPN xlen) (Z.lnot (Z.shiftl (SATP_PPN xlen) 1)) = 1 /\ Z.land (SATP_MODE xlen) (Z.lnot (Z.shiftl (SATP_MODE xlen) 1)) = 2 ^ s)
    as (s & k & Hk & Hs & Hn & EP & EM & Hmode & E0 & Ec & EL & EB).
  { unfold page_buffer_size in *. destruct Hsys as [[-> ->]|[-> [-> | ->]]]; [exists 31, 22|exists 60, 44|exists 60, 44]; cbn in Hhigh; split_and!; try reflexivity; cbn; lia. }
  unfold satp_value. rewrite E0. unfold set_field. rewrite EL, EP, Ec, En, Z.mul_1_r, Z.shiftr_div_pow2 by lia. change (2 ^ 12) with 4096. rewrite Z.div_mul by lia.
  assert (2 ^ k <= 2 ^ s /\ 2 ^ s <= 2 ^ xlen) as [Hks Hsx] by (split; apply Z.pow_le_mono_r; lia).
  rewrite uwrap_small by (unfold in_u; lia). rewrite Z.land_ones, (Z.mod_small n), Z.lor_comm, lor_parts by lia. split.
  - unfold get_field. rewrite EB, EM, land_shiftl, Z.shiftr_div_pow2 by lia. rewrite Z.div_add, (Z.div_small n), Z.add_0_l, Z.land_ones, Z.mod_small, Z.shiftl_mul_pow2, Z.div_mul by lia. done.
  - rewrite Z.land_ones by lia. replace s with (s - k + k) by lia. rewrite Z.pow_add_r, Z.mul_assoc, Z.mod_add, Z.mod_small by lia. done.
Qed.

(** ** main *)

Abbreviation virtual := (virtual_of xlen vms (pg 1)).

(** The address space the tables make. *)
Definition mapped (m : words) : Prop :=
  (forall wr o, 0 <= o < 4096 -> translate xlen vms m satp_value wr (virtual + o) = Some (pg 1 + o)) /\
  (forall wr va, canonical xlen vms va = true -> vpn vms va (L - 1) <> vpn vms virtual (L - 1) -> translate xlen vms m satp_value wr va = Some (va mod 2 ^ vb)).

Lemma tables_mapped (m m' : words) : good m' -> agree m m' -> reaches virtual m (Z.to_nat (L - 1)) 0 ->
  (forall i, 0 <= i < 2 ^ w -> i <> vpn vms virtual (L - 1) -> ent m (pg 0 + eb * i) = i * 2 ^ (w * (L - 1)) * 1024 + 0xDF) -> mapped m'.
Proof.
  intros Hm' Hag Hr Hent. destruct sys_facts as (Hc & Hl & Hvb & Hvx & H46). destruct virtual_ok as (Hal & Hcan & _). split.
  - intros wr o Ho. unfold translate. rewrite Hcan by done. rewrite (proj2 satp_ok). by apply Hr.
  - intros wr va Hva Hne. unfold translate. rewrite Hva, (proj2 satp_ok). pose proof (vpn_range va (L - 1) ltac:(lia)) as Hv.
    assert (Z.of_nat (Z.to_nat (L - 1)) = L - 1) as EL by lia. assert (0 <= w * (L - 1)) as H0 by nia. pose proof (pow2_pos _ H0) as Hp.
    rewrite (walk_leaf m' wr (Z.to_nat (L - 1)) (pg 0) va (vpn vms va (L - 1) * 2 ^ (w * (L - 1)))); rewrite ?EL.
    + f_equal. rewrite Z.div_mul by lia. rewrite vpn_div, Hvb by lia. replace (12 + w * L) with (12 + w * (L - 1) + w) by lia.
      rewrite (Z.pow_add_r 2 (12 + w * (L - 1)) w) by lia. pose proof (pow2_pos (12 + w * (L - 1)) ltac:(lia)). pose proof (pow2_pos w ltac:(lia)). rewrite Z.rem_mul_r by lia. lia.
    + done.
    + by apply pg_page.
    + rewrite <-Hent by done. apply ent_kept; [done|done|]. intros p Hp'. apply Hag. by apply (pg_apart 0).
    + assert (vpn vms va (L - 1) * 2 ^ (w * (L - 1)) < 2 ^ (w * L)) by (replace (w * L) with (w + w * (L - 1)) by lia; rewrite Z.pow_add_r by lia; nia).
      assert (2 ^ (w * L) <= 2 ^ 36) by (apply Z.pow_le_mono_r; lia). lia.
    + apply Z.mod_mul. lia.
Qed.

Lemma physical_ok (o : Z) : 0 <= o < 4096 -> canonical xlen vms (pg 1 + o) = true /\ vpn vms (pg 1 + o) (L - 1) <> vpn vms virtual (L - 1) /\ (pg 1 + o) mod 2 ^ vb = pg 1 + o.
Proof.
  intros Ho. destruct virtual_ok as (_ & _ & Hne). destruct pg1_range as (H0 & H1 & Hal). destruct sys_facts as (Hc & Hl & Hvb & Hvx & H46).
  assert (18 <= w * L) by nia. split; [|split].
  - unfold canonical. destruct (Z.eqb_spec vb xlen) as [Hx|Hx]; [done|]. apply Z.eqb_eq. destruct (Z.eqb_spec xlen 32) as [E|E].
    + exfalso. apply Hx. destruct Hsys as [[-> ->]|[-> _]]; [done|lia].
    + pose proof (pow2_pos (vb - 1) ltac:(lia)). rewrite swrap_small by (lia || (unfold in_s; lia)). rewrite uwrap_small; [done|]. split; [lia|].
      assert (2 ^ (vb - 1) <= 2 ^ xlen) by (apply Z.pow_le_mono_r; lia). lia.
  - rewrite (vpn_page (pg 1)); [|by destruct Hal as [n ->]; exists n|done|lia]. congruence.
  - apply Z.mod_small. split; [lia|]. assert (buffer_end <= 2 ^ vb); [|lia]. etransitivity; [exact Hhigh|]. apply Z.pow_le_mono_r; [lia|].
    destruct Hsys as [[-> ->]|[-> [-> | ->]]]; cbn; lia.
Qed.

Lemma initial_good : good (initial page_buffer).
Proof.
  assert (forall p v, initial page_buffer !! p = Some v -> in_buffer p /\ v = 0) as Hin.
  { intros p v Hp. unfold initial in Hp. apply elem_of_list_to_map_2, list_elem_of_fmap in Hp as (k & [= -> ->] & Hk). apply elem_of_seqZ in Hk. split; [|done].
    pose proof (Z.div_mod (page_buffer + 3) 4 ltac:(lia)). pose proof (Z.mod_pos_bound (page_buffer + 3) 4 ltac:(lia)).
    pose proof (Z.div_mod buffer_end 4 ltac:(lia)). pose proof (Z.mod_pos_bound buffer_end 4 ltac:(lia)).
    split; [exists ((page_buffer + 3) / 4 + k); lia|lia]. }
  split.
  - intros p. split; [intros [v Hv]; by apply (Hin p v)|]. intros ([n ->] & H1 & H2). destruct (initial page_buffer !! (n * 4)) eqn:E; [by eexists|].
    unfold initial in E. apply not_elem_of_list_to_map_2 in E. destruct E. rewrite <-list_fmap_compose. apply list_elem_of_fmap.
    exists (n - (page_buffer + 3) / 4). unfold compose. cbn [fst]. split; [lia|]. apply elem_of_seqZ.
    assert ((page_buffer + 3) / 4 < n + 1) by (apply Z.div_lt_upper_bound; lia). assert (n + 1 <= buffer_end / 4) by (apply Z.div_le_lower_bound; lia). lia.
  - intros p v Hv. apply Hin in Hv as [_ ->]. unfold in_u. lia.
Qed.

Lemma data_words (o : Z) : o = 0 \/ o = 4 -> in_buffer (pg 1 + o).
Proof. intros Ho. destruct (pg_page 1 ltac:(lia)) as ([n En] & H1 & H2). split; [|lia]. destruct Ho as [-> | ->]; [exists (n * 1024)|exists (n * 1024 + 1)]; lia. Qed.

Lemma store_data (m m0 : words) (o v : Z) : o = 0 \/ o = 4 -> good m -> agree m0 m ->
  owp (st32 m (pg 1 + o) v) (fun m' => good m' /\ agree m0 m' /\ forall x, rd m' x = if x =? pg 1 + o then u32 v else rd m x).
Proof.
  intros Ho Hm Hag. eapply owp_mono; [apply st32_ok; [done|by apply data_words]|]. intros m' [Hm' Hr]. split; [done|]. split; [|done].
  intros p Hp. rewrite Hr, (proj2 (Z.eqb_neq _ _)) by lia. by apply Hag.
Qed.

Lemma tables_ok (m : words) : good m ->
  owp ('(master_table, next) ← get_page xlen page_buffer page_buffer;
       m ← setup_page_table xlen vms m master_table (L - 1) 0;
       '(physical, next) ← get_page xlen page_buffer next;
       '(m, next) ← add_entry xlen vms page_buffer m next master_table 0 (virtual_of xlen vms physical) physical;
       Ok (m, master_table, physical))
    (fun '(m', mt, ph) => mt = pg 0 /\ ph = pg 1 /\ good m' /\ forall m'', good m'' -> agree m' m'' -> mapped m'').
Proof.
  intros Hm. destruct sys_facts as (Hc & Hl & Hvb & Hvx & H46). rewrite (get_page_ok 0) by done. cbn [mbind outcome_bind]. change (0 + 1) with 1.
  apply owp_bind. eapply owp_mono; [apply setup_ok; [done|by apply pg_page]|]. intros m1 (Hm1 & E1 & _).
  rewrite (get_page_ok 1) by done. cbn [mbind outcome_bind]. change (1 + 1) with 2. apply owp_bind. unfold add_entry.
  destruct virtual_ok as (Hal & _ & _). replace (Z.to_nat L) with (S (Z.to_nat (L - 1))) by lia. assert (L - 1 = Z.of_nat (Z.to_nat (L - 1))) as EL by lia.
  rewrite EL at 2. eapply owp_mono; [apply (add_loop_ok virtual Hal (Z.to_nat (L - 1)) m1 0 2); [done|lia|lia|lia|lia|lia|]|].
  - intros i Hi. rewrite E1 by done. apply identity_low. lia.
  - intros [m2 nx] (Hm2 & Hr & Hk & _). red. split; [done|]. split; [done|]. split; [done|]. intros m3 Hm3 Hag. apply (tables_mapped m2); [done|done|done|].
    intros i Hi Hne. rewrite Hk by (done || by rewrite <-EL). rewrite E1 by done. by apply master_pte.
Qed.

Lemma mprv_on (mstatus : Z) : Z.land mstatus MSTATUS_MPP = 0 ->
  flag (Z.lor mstatus MSTATUS_MPRV) MSTATUS_MPRV = true /\ flag (Z.lor mstatus MSTATUS_MPRV) MSTATUS_MPP = false.
Proof.
  intros Hm. unfold flag. rewrite !Z.land_lor_distr_l, Hm. split; [|done].
  assert (Z.testbit (Z.lor (Z.land mstatus MSTATUS_MPRV) (Z.land MSTATUS_MPRV MSTATUS_MPRV)) 17 = true) as Hb by (rewrite Z.lor_spec; apply orb_true_r).
  destruct (Z.eqb_spec (Z.lor (Z.land mstatus MSTATUS_MPRV) (Z.land MSTATUS_MPRV MSTATUS_MPRV)) 0) as [E|E]; [by rewrite E in Hb|done].
Qed.

Lemma main_ok (supported : Z -> bool) (satp0 mstatus : Z) : supported (mode vms) = true -> Z.land mstatus MSTATUS_MPP = 0 ->
  exists m, main xlen vms page_buffer supported satp0 mstatus (initial page_buffer) = Ok (m, satp_value, Z.lor mstatus MSTATUS_MPRV) /\
    mapped m /\ ld32 m (pg 1) = Ok 0xdeadbeef /\ ld32 m (pg 1 + 4) = Ok 0x55667788.
Proof.
  intros Hsup Hmpp. pose proof (tables_ok _ initial_good) as Ht. unfold main.
  destruct (get_page xlen page_buffer page_buffer) as [[mt nx]| |]; [|done|done]. cbn [mbind outcome_bind] in *.
  destruct (setup_page_table _ _ _ _ _ _) as [m1| |]; [|done|done]. cbn [mbind outcome_bind] in *.
  destruct (get_page xlen page_buffer nx) as [[ph nx']| |]; [|done|done]. cbn [mbind outcome_bind] in *. cbv zeta.
  destruct (add_entry _ _ _ _ _ _ _ _ _) as [[m2 nx'']| |]; [|done|done]. cbn [mbind outcome_bind] in *.
  destruct Ht as (-> & -> & Hm2 & Hmap). change (set_field xlen (set_field xlen 0 (SATP_MODE xlen) (mode vms)) (SATP_PPN xlen) (Z.shiftr (pg 0) 12)) with satp_value.
  rewrite (proj1 satp_ok), Hsup, (proj1 satp_ok), Z.eqb_refl. cbn [mbind outcome_bind].
  assert (forall o, o = 0 \/ o = 4 -> forall m', good m' -> agree m2 m' -> forall wr,
    translate xlen vms m' satp_value wr (pg 1 + o) = Some (pg 1 + o) /\ translate xlen vms m' satp_value wr (virtual + o) = Some (pg 1 + o)) as Htr.
  { intros o Ho m' Hm' Hag wr. destruct (Hmap m' Hm' Hag) as [Hv Hi]. destruct (physical_ok o ltac:(lia)) as (Hcan & Hne & Hmod). rewrite Hi, Hmod by done. split; [done|]. apply Hv. lia. }
  pose proof (fun m' => Htr 0 (or_introl eq_refl) m') as Htr0. pose proof (fun m' => Htr 4 (or_intror eq_refl) m') as Htr4. rewrite !Z.add_0_r in Htr0.
  unfold vstore, vload, data_address. destruct (mprv_on mstatus Hmpp) as [-> ->]. rewrite (proj1 (Htr0 m2 Hm2 ltac:(done) true)). cbn [mbind outcome_bind of_option].
  pose proof (store_data m2 m2 0 0xdeadbeef (or_introl eq_refl) Hm2 ltac:(done)) as Hst. rewrite Z.add_0_r in Hst. apply owp_ok in Hst as (m3 & Es & Hm3 & Hag3 & R3).
  rewrite Es. cbn [mbind outcome_bind]. rewrite (proj2 (Htr4 m3 Hm3 Hag3 true)). cbn [mbind outcome_bind of_option].
  pose proof (store_data m3 m2 4 0x55667788 (or_intror eq_refl) Hm3 Hag3) as Hst. apply owp_ok in Hst as (m4 & Es4 & Hm4 & Hag4 & R4).
  rewrite Es4. cbn [mbind outcome_bind].
  destruct (ld32_ok m4 (pg 1) Hm4 ltac:(rewrite <-(Z.add_0_r (pg 1)); apply data_words; by left)) as [L0 _].
  destruct (ld32_ok m4 (pg 1 + 4) Hm4 ltac:(apply data_words; by right)) as [L4 _].
  rewrite R4, R3, Z.eqb_refl, (proj2 (Z.eqb_neq _ _)) in L0 by lia. rewrite R4, Z.eqb_refl in L4. change (u32 0xdeadbeef) with 0xdeadbeef in L0. change (u32 0x55667788) with 0x55667788 in L4.
  rewrite (proj1 (Htr0 m4 Hm4 Hag4 false)), (proj2 (Htr0 m4 Hm4 Hag4 false)), (proj1 (Htr4 m4 Hm4 Hag4 false)), (proj2 (Htr4 m4 Hm4 Hag4 false)). cbn [mbind outcome_bind of_option].
  rewrite !L0, !L4. cbn [mbind outcome_bind]. exists m4. split; [reflexivity|]. split; [by apply Hmap|done].
Qed.
End System.

(** [C34] For every address of the buffer and each of the three systems
    (Sv32 on a 32-bit hart, Sv39 and Sv48 on a 64-bit one) that the hart
    supports, started with user mode in MPP, the program builds its tables within the buffer, turns the
    translation on and passes its assertions: both words it writes, one through
    [physical] and one through [virtual], are in the second page.  In the
    address space it leaves, the page of [virtual] is mapped to that page and
    every address under another entry of the top table to itself. *)
Theorem translate_program (xlen : Z) (vms : virtual_memory_system_t) (page_buffer : Z) (supported : Z -> bool) (satp0 mstatus : Z) :
  system xlen vms -> 0 <= page_buffer -> page_buffer + page_buffer_size <= 2 ^ (if xlen =? 32 then 32 else vaddr_bits vms - 1) -> supported (mode vms) = true -> Z.land mstatus MSTATUS_MPP = 0 ->
  exists m, main xlen vms page_buffer supported satp0 mstatus (initial page_buffer) = Ok (m, satp_value xlen vms page_buffer, Z.lor mstatus MSTATUS_MPRV) /\
    mapped xlen vms page_buffer m /\ ld32 m (pg page_buffer 1) = Ok 0xdeadbeef /\ ld32 m (pg page_buffer 1 + 4) = Ok 0x55667788.
Proof. intros H1 H2 H3 H4 H5. by apply main_ok. Qed.

(** Sv39, with a buffer that is not aligned. *)
Lemma translate_program_witness :
  exists m, main 64 sv39 0x80001234 (fun x => x =? 8) 0 0 (initial 0x80001234) = Ok (m, satp_value 64 sv39 0x80001234, Z.lor 0 MSTATUS_MPRV) /\
    mapped 64 sv39 0x80001234 m /\ ld32 m (pg 0x80001234 1) = Ok 0xdeadbeef /\ ld32 m (pg 0x80001234 1 + 4) = Ok 0x55667788.
Proof.
  apply (translate_program 64 sv39 0x80001234 (fun x => x =? 8) 0 0).
  - right. split; [reflexivity|]. left. reflexivity.
  - lia.
  - unfold page_buffer_size. cbn. lia.
  - reflexivity.
  - reflexivity.
Defined.

(** Only the page of [virtual] is right in the tables [add_entry] makes: the
    next one, which the comment on [setup_page_table] would map to itself, is
    mapped to 0x3000. *)
Example neighbour_elsewhere :
  virtual_of 64 sv39 0x80002000 = 0xfffffff880002000 /\
  match main 64 sv39 0x80001000 (fun x => x =? 8) 0 0 (initial 0x80001000) with
  | Ok (m, satp, _) => translate 64 sv39 m satp false 0xfffffff880003000 = Some 0x3000
  | _ => False
  end.
Proof. split; vm_compute; reflexivity. Qed.
End TranslateSpec.
